(* ===== verification/_CoqProject ===== *)
-Q . S2P
Prelude.v
Text.v
State.v
Json.v
LogModel.v
LogStore.v
LogStoreFacts.v
LogChain.v
Instances.v
LogProps.v
LogAuth.v
LogServer.v
LogServerProps.v
Config.v
Execution.v
ExecutionProps.v
Authority.v
AuthorityProps.v
Dag.v
DagProps.v
Decision.v
DecisionProps.v
Lifecycle.v
Snapshot.v
Findings.v
FinalGate.v
FinalGateFacts.v
FindingsFacts.v
Policy.v
PolicyProps.v
Safety.v
Leases.v
LeasesProps.v
Assignments.v
Workflow.v
Completion.v
LifecycleFacts.v
LifecycleGates.v
AssignmentsProps.v
WorkflowFacts.v
CompletionFacts.v
WorkflowRuns.v
FindingsProps.v
WorkflowProps.v
FinalGateProps.v
OpsBytes.v
OpsBytesProps.v
OpsRequest.v
OpsHost.v
Ops.v
OpsFacts.v
OpsProps.v
OpsReadProps.v
OpsPublishProps.v
OpsWitness.v
Launch.v
LaunchProps.v
SealProps.v
LaunchAuth.v
Shell.v
Agent.v
AgentProps.v
Reports.v
Session.v
Spawn.v
Iteration.v
SessionFacts.v
PlanProps.v
IterationProps.v
IterationGate.v
IterationWitness.v
Privilege.v
PrivilegeProps.v
RoleExec.v
RoleExecProps.v
SessionControl.v
OpsCycle.v
OpsCycleProps.v
Orchestrator.v
OrchestratorProps.v
