(* ===== verification/Prelude.v ===== *)
(** * Multiagent: verification of the control plane and of the audit logger

    The repository runs teams of coding agents on a task. An orchestrator starts
    workers, reviewers, verifiers, scouts and an operations role in terminal
    windows; a supervisor with its own user identifier answers the privileged
    requests of these roles; workflows, findings, TODOs, assignments, leases,
    decisions and task graphs are text files below a state directory; a separate
    logger keeps an append-only, hash-chained audit ledger. This development
    models the Rust sources of [logger/src] and [runtime/src] and proves what
    keeps a task honest: a workflow is completed only behind its gates, a
    privileged request only served to the role it belongs to, a production
    operation only sent when it was reviewed, a ledger only extended.

    ** How the code is modelled

    A Rust [String] is the [string] of its bytes ([Text]); integers are [Z] with
    the wrap-around, saturation or overflow of their width written out; a
    [Result] is [result]; a struct is a record, an enum an inductive type.
    The file system is a map from paths to contents in a [World] with a schedule
    of failing writes, a clock and the standard output ([State], monad [IO]);
    operations that depend on owners and modes or talk to services run on a
    [Host] ([OpsHost], monad [OIO]); operations that talk to the terminal
    multiplexer and to child processes run in a [Session] that records every
    call ([Session], monad [SIO]); identities and Landlock belong to a [Process]
    ([Privilege], monad [PIO]), and the setuid bridge works on all of them
    ([RoleExec], monad [BIO]). An operation returns its result and the state
    it left, on errors as well. Code outside the repository is a class: the
    platform (SHA-256, environment, clock, user identifiers), the JSON syntax,
    [fs::canonicalize], [git], the signatures, the key service and [curl], the
    processes of agents and validation commands, the multiplexer, the children
    and the clock of a session, the system calls for users, groups and Landlock. [Instances] and the witness modules instantiate
    all of them with executable functions, and every theorem with a hypothesis
    is applied to a concrete run.

    ** The files

    - [Prelude], [Text], [State], [Json]: results, tactics, strings of Rust,
      [runtime/src/state.rs], [serde_json] values and [logger/src/canonical.rs].
    - [LogModel], [LogStore], [LogAuth], [LogServer]: [logger/src/model.rs],
      [store.rs] and [signer.rs], [auth.rs], [server.rs]; [LogStoreFacts],
      [LogChain], [LogProps], [LogServerProps] their theorems.
    - [Config], [Execution], [Authority]: [runtime/src/config.rs],
      [execution.rs], [authority.rs] and the request loop of [supervisor.rs];
      [ExecutionProps], [AuthorityProps].
    - [Dag], [Decision], [Policy], [Snapshot]: [dag.rs], [decision.rs],
      [policy.rs], [snapshot.rs]; [DagProps], [DecisionProps], [PolicyProps].
    - [Lifecycle], [Workflow], [Completion]: [workflow.rs]; [LifecycleFacts],
      [LifecycleGates], [WorkflowFacts], [CompletionFacts], [WorkflowRuns],
      [WorkflowProps].
    - [Findings], [FinalGate], [Leases], [Assignments]: [subagent.rs];
      [FinalGateFacts], [FindingsFacts], [FindingsProps], [FinalGateProps],
      [Safety], [LeasesProps], [AssignmentsProps].
    - [OpsBytes], [OpsRequest], [OpsHost], [Ops]: [prod_ops.rs]; [OpsBytesProps],
      [OpsFacts], [OpsProps], [OpsReadProps], [OpsPublishProps], [OpsWitness].
    - [Launch]: the launch authorisations and the sealing of role outputs of
      [supervisor.rs]; [LaunchProps], [SealProps], [LaunchAuth].
    - [Shell], [Agent]: [shell_escape] and [agent.rs]; [AgentProps].
    - [Reports], [Session], [Spawn], [Iteration]: [runtime.rs]; [SessionFacts],
      [PlanProps], [IterationProps], [IterationGate], [IterationWitness].
    - [Privilege]: [linux_privilege.rs] and [role_sandbox.rs]; [PrivilegeProps].
    - [RoleExec]: [role-agent-exec] and [container-bootstrap] of [runtime.rs], the
      registry of [supervisor.rs]; [RoleExecProps].
    - [SessionControl]: [session_control.rs] with its theorems.
    - [OpsCycle], [Orchestrator]: the reviewed operations cycle and the command of the
      orchestrator of [runtime.rs]; [OpsCycleProps], [OrchestratorProps].

    A definition has the name of the function it models; where two modules of
    the program have functions of one name, the Rocq file tells them apart. A
    long function is split into definitions that follow its order.

    ** What the theorems show

    - The ledger ([LogProps], [LogServerProps]). Replay accepts exactly the
      files a store writes; a running store, its file and a restart agree; the
      records are hash chains that a head hash commits to; a torn append is
      detected; under every interleaving of requests only authorised entries
      appear.
    - The workflow ([WorkflowProps], [FinalGateProps], [FindingsProps]). For
      every sequence of commands and failing writes a completed workflow passed
      its reviews or ended by one of the other routes; the gates decide exactly
      their abstract specification; refused commands change nothing; what a
      worker resolves and a verifier closes passes the final audit; the command of
      the orchestrator ([OrchestratorProps]) only makes steps of this model.
    - Authority ([ExecutionProps], [AuthorityProps], [LaunchProps], [LaunchAuth],
      [SealProps]). Duties of the roles are disjoint, connections are mediated,
      grants are bound to session and repository; a launch is claimed at most
      once per registration, a writer only launched within the authority of the
      session, and sealed evidence is what an operation verifies.
    - Records of the team ([DagProps], [DecisionProps], [PolicyProps],
      [LeasesProps], [AssignmentsProps]). The graph stays acyclic, decisions run
      through their states, writable paths are exactly the approved ones, one
      active lease per target, disjoint active assignments.
    - Production operations ([OpsReadProps], [OpsPublishProps],
      [OpsBytesProps]). Everything that is sent was reviewed, or is a harmless
      read bound to its role; published requests are immutable and well-formed;
      a cycle ([OpsCycleProps]) executes one operation at most, behind the sealed
      evidence of its reviewer.
    - Agents ([AgentProps], [Shell]). A command line is read by the shell as the
      words it was built from; a run records how it ended and leaves its own
      message only; token counts saturate.
    - Iterations ([PlanProps], [IterationProps], [IterationGate]). A plan is
      accepted exactly when its workers can be scheduled and own disjoint paths;
      for every behaviour of the outside the workers start once and after their
      dependencies; the workflow is completed only behind all gates. In
      [IterationWitness] the children of an iteration are the operations of
      [Workflow], and the whole runs to a completed workflow.

    - Privileges ([PrivilegeProps], [RoleExecProps], [SessionControl]). The
      setuid binary stays root only for its callers; after [restrict_writes] the
      writing rights are exactly those of the roots; paths handed to a writer are
      taken back, all of them and no others; a role runs as its user, within the
      authority of its launch and below its write roots; the control account
      reaches the orchestrator's own session only.

    ** Bounds and fuel

    Loops over data are structural. Fuel bounds the search for cycles by the
    number of nodes not visited ([has_cycle_correct] shows it enough), the rounds
    of a plan by the number of workers ([workers_in_order] shows that more
    changes nothing), the walk to an existing directory by the components of the
    path, the walk of a writer's tree by the length of the longest path
    ([set_tree_owner_total] shows it enough), the attempts at a trace directory by the 9999 of the source, and the
    replay of a ledger by its bytes. The wait for an agent runs until a deadline
    of the real clock; the rounds that are looked at are a parameter
    ([patience]), and the theorems hold for each of them.

    ** Not modelled

    - [logger/src/config.rs] and the two binaries: reading of variables, sockets,
      start-up.
    - Of [runtime.rs]: the start of a session, the dashboards, the dispatch of
      subcommands; of [agent.rs] and [role_sandbox.rs] the signal handlers, and the
      threads that copy output, which are part of the process parameter.
    - Of [supervisor.rs] the socket; of [subagent.rs] worktrees and printing; of
      [prod_ops.rs] the clone of a repository, an interface of [Ops].
    - Symbolic links and the modes and owners of files outside [OpsHost];
      concurrent writers of the state directory, except where a theorem allows
      interference and except the oracle of [Session], which may change any file
      at every call. *)

From stdpp Require Export base tactics list strings gmap sorting.
From Stdlib Require Export Ascii ZArith Lia.

#[global] Open Scope string_scope.
#[global] Open Scope list_scope.
#[global] Open Scope Z_scope.

(** String append computes on constructors. *)
#[global] Arguments String.append : simpl nomatch.
#[global] Arguments String.eqb : simpl never.
#[global] Arguments Ascii.eqb : simpl never.

(** ** Results: Rust's [Result<T, E>] *)

Inductive result (E A : Type) : Type :=
| Ok (a : A)
| Err (e : E).
Arguments Ok {E A} a.
Arguments Err {E A} e.

Declare Scope result_scope.
Delimit Scope result_scope with result.
#[global] Open Scope result_scope.

Definition rbind {E A B} (c : result E A) (k : A -> result E B) : result E B :=
  match c with
  | Ok a => k a
  | Err e => Err e
  end.

(** Rust's [?] operator on a [Result]. *)
Notation "'let?' x ':=' c 'in' k" := (rbind c (fun x => k))
  (at level 10, x pattern, c at level 100, k at level 200)
  : result_scope.

Definition rmap {E A B} (f : A -> B) (c : result E A) : result E B :=
  let? a := c in Ok (f a).

Definition map_err {E F A} (f : E -> F) (c : result E A) : result F A :=
  match c with
  | Ok a => Ok a
  | Err e => Err (f e)
  end.

(** Rust's [Option::ok_or]. *)
Definition ok_or {E A} (o : option A) (e : E) : result E A :=
  match o with
  | Some a => Ok a
  | None => Err e
  end.

Definition unwrap_or {A} (o : option A) (d : A) : A :=
  match o with
  | Some a => a
  | None => d
  end.

Definition is_ok {E A} (c : result E A) : bool :=
  match c with
  | Ok _ => true
  | Err _ => false
  end.

(** [guard b e] is the early return [if !b { return Err(e) }]. *)
Definition guard {E} (b : bool) (e : E) : result E unit :=
  if b then Ok tt else Err e.

Lemma rbind_ok {E A B} (c : result E A) (k : A -> result E B) b :
  rbind c k = Ok b <-> exists a, c = Ok a /\ k a = Ok b.
Proof. destruct c; simpl; naive_solver. Qed.

Lemma rbind_err {E A B} (c : result E A) (k : A -> result E B) e :
  rbind c k = Err e <-> c = Err e \/ exists a, c = Ok a /\ k a = Err e.
Proof. destruct c; simpl; naive_solver. Qed.

Lemma guard_ok {E} b (e : E) : guard b e = Ok tt <-> b = true.
Proof. destruct b; naive_solver. Qed.

Lemma ok_or_ok {E A} (o : option A) (e : E) a : ok_or o e = Ok a <-> o = Some a.
Proof. destruct o; naive_solver. Qed.

Lemma map_err_ok {E F A} (f : E -> F) (c : result E A) a :
  map_err f c = Ok a <-> c = Ok a.
Proof. destruct c; naive_solver. Qed.

#[export] Instance result_eq_dec {E A} `{EqDecision E, EqDecision A} : EqDecision (result E A).
Proof. solve_decision. Defined.

(** ** Automation

    [inv_ok] takes apart a hypothesis that a chain of [let?] returned [Ok]:
    every guard becomes an equation between booleans, every intermediate
    result a variable with its equation. *)

Create HintDb multiagent.

Ltac inv_ok_step :=
  match goal with
  | H : Ok _ = Ok _ |- _ => injection H as H; try subst
  | H : Err _ = Err _ |- _ => injection H as H; try subst
  | H : Ok _ = Err _ |- _ => discriminate H
  | H : Err _ = Ok _ |- _ => discriminate H
  | H : rbind _ _ = Ok _ |- _ =>
      let a := fresh "a" in let Ha := fresh "Hok" in
      apply rbind_ok in H as (a & Ha & H)
  | H : guard _ _ = Ok ?u |- _ => destruct u; apply guard_ok in H
  | H : ok_or _ _ = Ok _ |- _ => apply ok_or_ok in H
  | H : map_err _ _ = Ok _ |- _ => apply map_err_ok in H
  end.

Ltac inv_ok := repeat inv_ok_step.

(** Destructs the scrutinee of the first [match] or [if] of the goal (or of a
    hypothesis), keeping the equation. *)
Ltac case_goal :=
  match goal with
  | |- context [match ?x with _ => _ end] =>
      lazymatch x with context [match _ with _ => _ end] => fail | _ => destruct x eqn:? end
  end.
Ltac case_hyp H :=
  match type of H with
  | context [match ?x with _ => _ end] =>
      lazymatch x with context [match _ with _ => _ end] => fail | _ => destruct x eqn:? end
  end.

(** Splits the boolean conjunctions of the context. *)
Ltac bool_hyps :=
  repeat match goal with
  | H : (_ && _)%bool = true |- _ => apply andb_true_iff in H as [? ?]
  | H : (_ || _)%bool = false |- _ => apply orb_false_iff in H as [? ?]
  | H : negb _ = true |- _ => apply negb_true_iff in H
  | H : negb _ = false |- _ => apply negb_false_iff in H
  | H : bool_decide _ = true |- _ => apply bool_decide_eq_true in H
  | H : bool_decide _ = false |- _ => apply bool_decide_eq_false in H
  | H : String.eqb _ _ = true |- _ => apply String.eqb_eq in H
  | H : String.eqb _ _ = false |- _ => apply String.eqb_neq in H
  end.

(** ** Machine integers *)

Definition u64_max : Z := 2 ^ 64 - 1.

(** [u64] addition of the release build: wraps modulo 2^64. *)
Definition u64_add (a b : Z) : Z := (a + b) mod 2 ^ 64.

Lemma u64_add_small a b : 0 <= a + b < 2 ^ 64 -> u64_add a b = a + b.
Proof. intros. unfold u64_add. by apply Z.mod_small. Qed.

(** Case analysis on a number of a small range. *)
Lemma range_in (k : nat) d : 0 <= d < Z.of_nat k -> In d (map Z.of_nat (seq 0 k)).
Proof. intros. apply in_map_iff. exists (Z.to_nat d). rewrite in_seq. lia. Qed.

Ltac cases_below k d :=
  let H := fresh in
  assert (In d (map Z.of_nat (seq 0 k))) as H by (apply range_in; lia);
  simpl in H; repeat destruct H as [<-|H]; [..|destruct H].

(** ** Lists *)

(** [iter().any] and [iter().all]. *)
Abbreviation any := existsb (only parsing).

Lemma existsb_exists_In {A} (f : A -> bool) l :
  existsb f l = true <-> exists x, In x l /\ f x = true.
Proof. apply existsb_exists. Qed.

Lemma existsb_false {A} (f : A -> bool) l :
  existsb f l = false <-> forall x, In x l -> f x = false.
Proof.
  induction l as [|a l IH]; simpl; [naive_solver|].
  rewrite orb_false_iff, IH. naive_solver.
Qed.

Lemma forallb_impl {A} (f g : A -> bool) l :
  (forall x, f x = true -> g x = true) -> forallb f l = true -> forallb g l = true.
Proof. intros Hfg. rewrite !forallb_forall. auto. Qed.

Lemma find_some_in {A} (f : A -> bool) l x :
  List.find f l = Some x -> In x l /\ f x = true.
Proof. apply List.find_some. Qed.

(** Replaces the first element that satisfies [f]: [iter_mut().find(f)]
    followed by an assignment through the reference. *)
Fixpoint update_first {A} (f : A -> bool) (g : A -> A) (l : list A) : list A :=
  match l with
  | [] => []
  | x :: l' => if f x then g x :: l' else x :: update_first f g l'
  end.

Lemma update_first_split {A} (f : A -> bool) (g : A -> A) l x :
  List.find f l = Some x ->
  exists l1 l2, l = l1 ++ x :: l2 /\ existsb f l1 = false /\
    update_first f g l = l1 ++ g x :: l2.
Proof.
  induction l as [|a l IH]; simpl; [done|].
  destruct (f a) eqn:E.
  - intros [= ->]. by exists [], l.
  - intros (l1 & l2 & -> & H & ->)%IH. exists (a :: l1), l2. simpl. rewrite E. auto.
Qed.

Lemma update_first_map {A B} (h : A -> B) (f : A -> bool) (g : A -> A) l :
  (forall x, h (g x) = h x) -> map h (update_first f g l) = map h l.
Proof.
  intros Hg. induction l as [|a l IH]; simpl; [done|].
  destruct (f a); simpl; rewrite ?Hg, ?IH; done.
Qed.

Lemma update_first_Forall {A} (P : A -> Prop) (f : A -> bool) (g : A -> A) l :
  (forall x, P x -> P (g x)) -> Forall P l -> Forall P (update_first f g l).
Proof.
  intros Hg. induction 1 as [|a l Ha Hl IH]; simpl; [constructor|].
  destruct (f a); constructor; auto.
Qed.

#[export] Hint Resolve update_first_Forall : multiagent.
