(* ===== verification/Text.v ===== *)
(** * Text: the operations of Rust's [str], [char] and [u64] the sources use

    A Rust [String] is a sequence of bytes that is valid UTF-8; it is modelled
    by the Rocq [string] of these bytes, so [len()] is [String.length] and
    comparison is byte comparison, as in Rust. Operations that look at
    characters are written on the bytes: the ASCII classes read one byte, and
    [trim] knows the encodings of every Unicode white-space character. *)

From S2P Require Import Prelude.

(** ** Characters *)

Definition nl : ascii := "010".
Definition cr : ascii := "013".
Definition tab : ascii := "009".
Definition dquote : ascii := "034".

Definition code (c : ascii) : Z := Z.of_N (N_of_ascii c).
Definition char_range (lo hi : ascii) (c : ascii) : bool :=
  (code lo <=? code c) && (code c <=? code hi).

Definition is_ascii_digit : ascii -> bool := char_range "0" "9".
Definition is_ascii_lowercase : ascii -> bool := char_range "a" "z".
Definition is_ascii_uppercase : ascii -> bool := char_range "A" "Z".
Definition is_ascii_alphanumeric (c : ascii) : bool :=
  is_ascii_digit c || is_ascii_lowercase c || is_ascii_uppercase c.
Definition is_ascii_hexdigit (c : ascii) : bool :=
  is_ascii_digit c || char_range "a" "f" c || char_range "A" "F" c.

Definition to_lower (c : ascii) : ascii :=
  if is_ascii_uppercase c then ascii_of_N (N_of_ascii c + 32) else c.

(** ** Strings *)

Definition is_empty (s : string) : bool := String.eqb s "".

Fixpoint all_chars (p : ascii -> bool) (s : string) : bool :=
  match s with
  | EmptyString => true
  | String c s' => p c && all_chars p s'
  end.

Fixpoint has_char (c : ascii) (s : string) : bool :=
  match s with
  | EmptyString => false
  | String a s' => Ascii.eqb a c || has_char c s'
  end.

(** [str.contains([..])] on a set of characters. *)
Definition has_any (cs : list ascii) (s : string) : bool :=
  existsb (fun c => has_char c s) cs.

(** [str.matches(c).count()]. *)
Fixpoint count_char (c : ascii) (s : string) : Z :=
  match s with
  | EmptyString => 0
  | String a s' => (if Ascii.eqb a c then 1 else 0) + count_char c s'
  end.

Definition len (s : string) : Z := Z.of_nat (String.length s).

Fixpoint to_ascii_lowercase (s : string) : string :=
  match s with
  | EmptyString => ""
  | String c s' => String (to_lower c) (to_ascii_lowercase s')
  end.

Definition eq_ignore_ascii_case (s t : string) : bool :=
  String.eqb (to_ascii_lowercase s) (to_ascii_lowercase t).

Fixpoint strip_prefix (p s : string) : option string :=
  match p, s with
  | EmptyString, _ => Some s
  | String a p', String b s' => if Ascii.eqb a b then strip_prefix p' s' else None
  | String _ _, EmptyString => None
  end.

Definition starts_with (p s : string) : bool :=
  match strip_prefix p s with Some _ => true | None => false end.

Fixpoint strip_suffix (p s : string) : option string :=
  if String.eqb s p then Some ""
  else match s with
       | EmptyString => None
       | String a s' => String a <$> strip_suffix p s'
       end.

Definition ends_with (p s : string) : bool :=
  match strip_suffix p s with Some _ => true | None => false end.

(** [str.contains(&str)]. *)
Fixpoint contains (p s : string) : bool :=
  starts_with p s ||
  match s with
  | EmptyString => false
  | String _ s' => contains p s'
  end.

(** [str.replace(c, d)] for single characters. *)
Fixpoint replace_char (c d : ascii) (s : string) : string :=
  match s with
  | EmptyString => ""
  | String a s' => String (if Ascii.eqb a c then d else a) (replace_char c d s')
  end.

(** [str.split(c)]: never empty. *)
Fixpoint split (c : ascii) (s : string) : list string :=
  match s with
  | EmptyString => [""]
  | String a s' =>
      if Ascii.eqb a c then "" :: split c s'
      else match split c s' with
           | [] => [String a ""]
           | w :: ws => String a w :: ws
           end
  end.

Fixpoint split_once (c : ascii) (s : string) : option (string * string) :=
  match s with
  | EmptyString => None
  | String a s' =>
      if Ascii.eqb a c then Some ("", s')
      else match split_once c s' with
           | Some (l, r) => Some (String a l, r)
           | None => None
           end
  end.

(** [[..].join(sep)]. *)
Fixpoint join (sep : string) (l : list string) : string :=
  match l with
  | [] => ""
  | [x] => x
  | x :: l' => x +:+ sep +:+ join sep l'
  end.

Fixpoint concat_all (l : list string) : string :=
  match l with
  | [] => ""
  | x :: l' => x +:+ concat_all l'
  end.

(** [str.split_inclusive('\n')]: the pieces without their terminator, and
    whether each one had it. *)
Fixpoint raw_lines (s : string) : list (string * bool) :=
  match s with
  | EmptyString => []
  | String a s' =>
      if Ascii.eqb a nl then ("", true) :: raw_lines s'
      else match raw_lines s' with
           | [] => [(String a "", false)]
           | (l, t) :: r => (String a l, t) :: r
           end
  end.

Definition strip_cr (s : string) : string :=
  match strip_suffix (String cr "") s with Some s' => s' | None => s end.

(** [str.lines()]: a terminated line also loses one carriage return. *)
Definition lines (s : string) : list string :=
  map (fun '(l, t) => if (t : bool) then strip_cr l else l) (raw_lines s).

(** The UTF-8 encodings of the characters [char::is_whitespace] accepts. *)
Definition whitespace : list string :=
  let b (l : list Z) := String.string_of_list_ascii (map (fun z => ascii_of_N (Z.to_N z)) l) in
  map b ([[9]; [10]; [11]; [12]; [13]; [32]; [194; 133]; [194; 160]; [225; 154; 128]]
         ++ map (fun z => [226; 128; z])
              [128; 129; 130; 131; 132; 133; 134; 135; 136; 137; 138; 168; 169; 175]
         ++ [[226; 129; 159]; [227; 128; 128]]).

Definition first_some {A B} (f : A -> option B) : list A -> option B :=
  fix go l := match l with
              | [] => None
              | x :: l' => match f x with Some y => Some y | None => go l' end
              end.

(** At most [String.length s] characters can be stripped, hence the fuel. *)
Fixpoint strip_all (f : string -> option string) (n : nat) (s : string) : string :=
  match n with
  | O => s
  | S n' => match f s with Some s' => strip_all f n' s' | None => s end
  end.

Definition trim_start (s : string) : string :=
  strip_all (fun s => first_some (fun w => strip_prefix w s) whitespace) (String.length s) s.
Definition trim_end (s : string) : string :=
  strip_all (fun s => first_some (fun w => strip_suffix w s) whitespace) (String.length s) s.
Definition trim (s : string) : string := trim_end (trim_start s).

(** ** Decimal [u64] *)

Definition digit_char (d : Z) : ascii := ascii_of_N (Z.to_N (48 + d)).

(** [u64::to_string]; twenty digits are enough for every [u64]. *)
Fixpoint digits (fuel : nat) (n : Z) (acc : string) : string :=
  match fuel with
  | O => acc
  | S f => let acc' := String (digit_char (n mod 10)) acc in
           if n <? 10 then acc' else digits f (n / 10) acc'
  end.
Definition u64_to_string (n : Z) : string := digits 20 n "".

Fixpoint parse_digits (acc : Z) (s : string) : option Z :=
  match s with
  | EmptyString => Some acc
  | String c s' =>
      if is_ascii_digit c then
        let acc' := acc * 10 + (code c - 48) in
        if acc' <=? u64_max then parse_digits acc' s' else None
      else None
  end.

(** [str::parse::<u64>]: an optional [+], at least one digit, no overflow. *)
Definition parse_u64 (s : string) : option Z :=
  match s with
  | EmptyString => None
  | String c s' =>
      if Ascii.eqb c "+" then (if is_empty s' then None else parse_digits 0 s')
      else parse_digits 0 s
  end.

(** ** Lemmas *)

Lemma str_app_assoc (a b c : string) : (a +:+ b) +:+ c = a +:+ (b +:+ c).
Proof. induction a; simpl; congruence. Qed.

Lemma str_app_nil_r (a : string) : a +:+ "" = a.
Proof. induction a; simpl; congruence. Qed.

Lemma str_app_cons (c : ascii) (a b : string) : (String c a) +:+ b = String c (a +:+ b).
Proof. done. Qed.

Lemma str_eqb_cons a s b t :
  String.eqb (String a s) (String b t) = (if Ascii.eqb a b then String.eqb s t else false).
Proof. done. Qed.

Lemma str_length_app (a b : string) :
  String.length (a +:+ b) = (String.length a + String.length b)%nat.
Proof. induction a; simpl; congruence. Qed.

Lemma str_app_inj_l (a b c : string) : a +:+ b = a +:+ c -> b = c.
Proof. induction a; simpl; [done|]. intros [= ?]. auto. Qed.

Lemma has_char_app c a b : has_char c (a +:+ b) = has_char c a || has_char c b.
Proof. induction a; simpl; [done|]. by rewrite IHa, orb_assoc. Qed.

Lemma all_chars_app p a b : all_chars p (a +:+ b) = all_chars p a && all_chars p b.
Proof. induction a; simpl; [done|]. by rewrite IHa, andb_assoc. Qed.

Lemma all_chars_no_char p c s :
  p c = false -> all_chars p s = true -> has_char c s = false.
Proof.
  intros Hp. induction s as [|a s IH]; simpl; [done|].
  intros [Ha Hs]%andb_true_iff. rewrite IH, orb_false_r by done.
  destruct (Ascii.eqb_spec a c); [congruence|done].
Qed.

Lemma all_chars_impl (p q : ascii -> bool) s :
  (forall c, p c = true -> q c = true) -> all_chars p s = true -> all_chars q s = true.
Proof.
  intros Hpq. induction s; simpl; [done|].
  intros [? ?]%andb_true_iff. apply andb_true_iff. auto.
Qed.

Lemma is_empty_true s : is_empty s = true <-> s = "".
Proof. apply String.eqb_eq. Qed.
Lemma is_empty_false s : is_empty s = false <-> s <> "".
Proof. apply String.eqb_neq. Qed.

Lemma strip_prefix_some p s r : strip_prefix p s = Some r <-> s = p +:+ r.
Proof.
  revert s. induction p as [|a p IH]; intros s; simpl; [naive_solver|].
  destruct s as [|b s]; simpl; [naive_solver|].
  destruct (Ascii.eqb_spec a b) as [->|Hne]; [rewrite IH|]; naive_solver.
Qed.

Lemma strip_prefix_app p r : strip_prefix p (p +:+ r) = Some r.
Proof. by apply strip_prefix_some. Qed.

Lemma starts_with_spec p s : starts_with p s = true <-> exists r, s = p +:+ r.
Proof.
  unfold starts_with. destruct (strip_prefix p s) as [r|] eqn:E.
  - apply strip_prefix_some in E. naive_solver.
  - split; [done|]. intros [r ->]. by rewrite strip_prefix_app in E.
Qed.

Lemma strip_suffix_some p s r : strip_suffix p s = Some r <-> s = r +:+ p.
Proof.
  revert r. induction s as [|a s IH]; intros r; simpl.
  - destruct (String.eqb_spec "" p) as [<-|Hne].
    + split; [by intros [= <-]|]. intros H. destruct r; simpl in H; congruence.
    + split; [congruence|]. intros H. destruct r; simpl in H; congruence.
  - destruct (String.eqb_spec (String a s) p) as [<-|Hne].
    + split; [by intros [= <-]|]. intros H.
      destruct r as [|b r]; [done|]. apply (f_equal String.length) in H.
      rewrite str_length_app in H. simpl in H. lia.
    + destruct r as [|b r]; simpl.
      * split; [|congruence]. by destruct (strip_suffix p s).
      * split.
        -- destruct (strip_suffix p s) as [r'|]; simpl; [|done].
           intros [= <- <-]. f_equal. by apply IH.
        -- intros [= <- H]. apply IH in H as ->. done.
Qed.

Lemma strip_cr_id s : has_char cr s = false -> strip_cr s = s.
Proof.
  intros H. unfold strip_cr. destruct (strip_suffix _ s) as [r|] eqn:E; [|done].
  apply strip_suffix_some in E as ->. rewrite has_char_app in H.
  by rewrite orb_true_r in H.
Qed.

(** [clean s]: [s] has no line terminator, what [reject_newline] accepts. *)
Definition clean (s : string) : bool := negb (has_char nl s) && negb (has_char cr s).
(** [clean_field s]: moreover no tab, so that [s] is one field of a TSV row. *)
Definition clean_field (s : string) : bool := clean s && negb (has_char tab s).

Lemma clean_app a b : clean (a +:+ b) = clean a && clean b.
Proof.
  unfold clean. rewrite !has_char_app, !negb_orb.
  by destruct (has_char nl a), (has_char cr a), (has_char nl b), (has_char cr b).
Qed.

Lemma clean_field_app a b : clean_field (a +:+ b) = clean_field a && clean_field b.
Proof.
  unfold clean_field. rewrite clean_app, has_char_app, negb_orb.
  by destruct (clean a), (clean b), (has_char tab a), (has_char tab b).
Qed.

Lemma clean_field_clean s : clean_field s = true -> clean s = true.
Proof. unfold clean_field. by intros [? ?]%andb_true_iff. Qed.

#[export] Hint Resolve clean_field_clean : multiagent.

Lemma raw_lines_line l r :
  has_char nl l = false -> raw_lines (l +:+ String nl r) = (l, true) :: raw_lines r.
Proof.
  induction l as [|a l IH]; simpl; [done|].
  intros [Ha Hl]%orb_false_iff. by rewrite Ha, IH.
Qed.

Lemma lines_line l r :
  clean l = true -> lines (l +:+ String nl r) = l :: lines r.
Proof.
  intros [Hn Hr]%andb_true_iff. apply negb_true_iff in Hn, Hr.
  unfold lines. rewrite raw_lines_line by done. simpl. by rewrite strip_cr_id.
Qed.

(** A text file written one clean line at a time reads back as these lines. *)
Definition unlines (ls : list string) : string :=
  concat_all (map (fun l => l +:+ String nl "") ls).

Lemma unlines_cons l ls : unlines (l :: ls) = l +:+ String nl (unlines ls).
Proof. unfold unlines. simpl. by rewrite str_app_assoc. Qed.

Lemma concat_all_app a b : concat_all (a ++ b) = concat_all a +:+ concat_all b.
Proof. induction a; simpl; [done|]. by rewrite IHa, str_app_assoc. Qed.

Lemma unlines_app a b : unlines (a ++ b) = unlines a +:+ unlines b.
Proof. unfold unlines. by rewrite map_app, concat_all_app. Qed.

Lemma lines_unlines_app ls r :
  forallb clean ls = true -> lines (unlines ls +:+ r) = ls ++ lines r.
Proof.
  induction ls as [|l ls IH]; simpl; [done|].
  intros [Hl Hls]%andb_true_iff. rewrite unlines_cons, str_app_assoc. simpl.
  by rewrite lines_line, IH.
Qed.

Lemma lines_unlines ls : forallb clean ls = true -> lines (unlines ls) = ls.
Proof.
  intros H. rewrite <- (str_app_nil_r (unlines ls)), lines_unlines_app by done.
  apply app_nil_r.
Qed.

Lemma raw_lines_no_nl s : Forall (fun lt => has_char nl lt.1 = false) (raw_lines s).
Proof.
  induction s as [|a s IH]; simpl; [constructor|].
  destruct (Ascii.eqb a nl) eqn:E; [by constructor|].
  destruct (raw_lines s) as [|[l t] r]; inversion IH; subst; constructor; simpl in *; try done;
    by rewrite E.
Qed.

Lemma strip_cr_no_nl s : has_char nl s = false -> has_char nl (strip_cr s) = false.
Proof.
  unfold strip_cr. destruct (strip_suffix _ s) as [r|] eqn:E; [|done].
  apply strip_suffix_some in E as ->. rewrite has_char_app. by intros [? _]%orb_false_iff.
Qed.

Lemma lines_no_nl s : Forall (fun l => has_char nl l = false) (lines s).
Proof.
  unfold lines. pose proof (raw_lines_no_nl s) as H. induction H as [|[l t] r Hl _ IH]; simpl; constructor;
    [|done]. simpl in Hl. destruct t; [by apply strip_cr_no_nl|done].
Qed.

(** Rewriting lines of a file keeps them up to a carriage return at their end. *)
Lemma lines_unlines_weak ls r :
  Forall (fun l => has_char nl l = false) ls -> lines (unlines ls +:+ r) = map strip_cr ls ++ lines r.
Proof.
  induction 1 as [|l ls Hl _ IH]; [done|].
  rewrite unlines_cons, str_app_assoc. simpl. unfold lines in *. rewrite raw_lines_line by done.
  simpl. by rewrite IH.
Qed.

Lemma split_no_char c s : has_char c s = false -> split c s = [s].
Proof.
  induction s as [|a s IH]; simpl; [done|].
  intros [-> H]%orb_false_iff. by rewrite IH.
Qed.

Lemma split_app c s r :
  has_char c s = false -> split c (s +:+ String c r) = s :: split c r.
Proof.
  induction s as [|a s IH]; simpl; [by rewrite Ascii.eqb_refl|].
  intros [-> H]%orb_false_iff. by rewrite IH.
Qed.

(** Joining fields that do not hold the separator and splitting again is the
    identity. *)
Lemma split_join c l :
  l <> [] -> forallb (fun s => negb (has_char c s)) l = true ->
  split c (join (String c "") l) = l.
Proof.
  induction l as [|x l IH]; [done|]. intros _ [Hx Hl]%andb_true_iff.
  apply negb_true_iff in Hx. destruct l as [|y l]; [by apply split_no_char|].
  change (join (String c "") (x :: y :: l)) with (x +:+ String c (join (String c "") (y :: l))).
  rewrite split_app by done. by rewrite IH.
Qed.

Lemma split_once_app c s r :
  has_char c s = false -> split_once c (s +:+ String c r) = Some (s, r).
Proof.
  induction s as [|a s IH]; simpl; [by rewrite Ascii.eqb_refl|].
  intros [-> H]%orb_false_iff. by rewrite IH.
Qed.

Lemma clean_join c l :
  clean (String c "") = true -> forallb clean l = true -> clean (join (String c "") l) = true.
Proof.
  intros Hc. induction l as [|x l IH]; [done|]. intros [Hx Hl]%andb_true_iff.
  destruct l as [|y l]; [done|].
  change (join (String c "") (x :: y :: l)) with (x +:+ (String c "" +:+ join (String c "") (y :: l))).
  by rewrite !clean_app, Hx, Hc, IH.
Qed.

(** *** Decimal round trip *)

Lemma digit_char_ok d : 0 <= d < 10 -> is_ascii_digit (digit_char d) = true /\ code (digit_char d) - 48 = d.
Proof.
  intros H. by cases_below 10%nat d.
Qed.

Lemma parse_digits_step d a s :
  0 <= d < 10 -> a * 10 + d <= u64_max ->
  parse_digits a (String (digit_char d) s) = parse_digits (a * 10 + d) s.
Proof.
  intros [Hd Hc]%digit_char_ok Hmax. cbn [parse_digits]. rewrite Hd, Hc.
  by destruct (Z.leb_spec (a * 10 + d) u64_max); [|lia].
Qed.

Lemma parse_digits_digits f n acc :
  0 <= n <= u64_max -> n < 10 ^ Z.of_nat (S f) ->
  parse_digits 0 (digits (S f) n acc) = parse_digits n acc.
Proof.
  revert n acc. induction f as [|f IH]; intros n acc Hn Hf.
  - assert (n < 10) by (simpl in Hf; lia).
    cbn [digits]. rewrite Z.mod_small by lia.
    destruct (Z.ltb_spec n 10); rewrite parse_digits_step by lia; done.
  - change (digits (S (S f)) n acc) with
      (if n <? 10 then String (digit_char (n mod 10)) acc
       else digits (S f) (n / 10) (String (digit_char (n mod 10)) acc)).
    pose proof (Z.div_mod n 10) as Hdm. pose proof (Z.mod_pos_bound n 10) as Hmb.
    rewrite Nat2Z.inj_succ, Z.pow_succ_r in Hf by lia.
    destruct (Z.ltb_spec n 10).
    + rewrite Z.mod_small, parse_digits_step by lia. done.
    + rewrite IH; [| split; [apply Z.div_pos; lia|] |apply Z.div_lt_upper_bound; lia].
      * rewrite parse_digits_step by lia. f_equal. lia.
      * unfold u64_max in *. apply Z.div_le_upper_bound; lia.
Qed.

Lemma digits_digits f n acc :
  0 <= n -> all_chars is_ascii_digit acc = true -> all_chars is_ascii_digit (digits f n acc) = true.
Proof.
  revert n acc. induction f as [|f IH]; intros n acc Hn Ha; simpl; [done|].
  destruct (digit_char_ok (n mod 10)) as [Hd _]; [apply Z.mod_pos_bound; lia|].
  destruct (n <? 10); [by simpl; rewrite Hd|].
  apply IH; [apply Z.div_pos; lia|]. by simpl; rewrite Hd.
Qed.

Lemma digits_cons f n c acc : exists d s, digits f n (String c acc) = String d s.
Proof.
  revert n c acc. induction f as [|f IH]; intros n c acc; simpl; [eauto|].
  destruct (n <? 10); eauto.
Qed.

Lemma u64_to_string_digits n : 0 <= n -> all_chars is_ascii_digit (u64_to_string n) = true.
Proof. intros. by apply digits_digits. Qed.

Lemma u64_to_string_cons n : exists d s, u64_to_string n = String d s.
Proof.
  change (u64_to_string n) with
    (if n <? 10 then String (digit_char (n mod 10)) ""
     else digits 19 (n / 10) (String (digit_char (n mod 10)) "")).
  destruct (n <? 10); [eauto|]. apply digits_cons.
Qed.

Lemma u64_to_string_nonempty n : is_empty (u64_to_string n) = false.
Proof. destruct (u64_to_string_cons n) as (d & s & ->). done. Qed.

Lemma u64_to_string_clean n : 0 <= n -> clean_field (u64_to_string n) = true.
Proof.
  intros H%u64_to_string_digits. unfold clean_field, clean.
  by rewrite !(all_chars_no_char is_ascii_digit) by done.
Qed.

Lemma parse_u64_to_string n : 0 <= n <= u64_max -> parse_u64 (u64_to_string n) = Some n.
Proof.
  intros Hn. destruct (u64_to_string_cons n) as (d & s & E).
  pose proof (u64_to_string_digits n ltac:(lia)) as Hd.
  unfold parse_u64. rewrite E in *. simpl in Hd. apply andb_true_iff in Hd as [Hd _].
  destruct (Ascii.eqb_spec d "+") as [->|_]; [done|].
  rewrite <- E. unfold u64_to_string. rewrite parse_digits_digits; [done|done|].
  unfold u64_max in Hn. simpl. lia.
Qed.

Lemma parse_digits_bounds a s n : 0 <= a <= u64_max -> parse_digits a s = Some n -> 0 <= n <= u64_max.
Proof.
  revert a. induction s as [|c s IH]; intros a Ha; simpl; [naive_solver|].
  destruct (is_ascii_digit c) eqn:E; [|done].
  destruct (Z.leb_spec (a * 10 + (code c - 48)) u64_max); [|done].
  apply IH. split; [|done].
  unfold is_ascii_digit, char_range in E. apply andb_true_iff in E as [E%Z.leb_le _].
  change (code "0") with 48 in E. lia.
Qed.

Lemma parse_u64_bounds s n : parse_u64 s = Some n -> 0 <= n <= u64_max.
Proof.
  unfold parse_u64. destruct s as [|c s]; [done|].
  destruct (Ascii.eqb c "+"); [destruct (is_empty s); [done|]|];
    apply parse_digits_bounds; unfold u64_max; lia.
Qed.
