(* ===== verification/State.v ===== *)
(** * State: [runtime/src/state.rs] and the file store below it

    The runtime keeps every durable fact in small text files. The model is a
    store from path to contents with three effects around it: writes may fail
    (a fault schedule decides which ones), time advances with every call of
    [timestamp], and [println!] appends to the standard output. An operation is
    a function of this world that returns a [Result] and the world it left,
    also when it returns an error. *)

From S2P Require Import Prelude Text.

(** ** The platform: code outside the repository

    The SHA-256 of [sha2], the RFC 3339 clock of [chrono], the process
    environment, the user identifiers, the working directory and the text of an
    error of the operating system or of another crate. Nothing is assumed of them here; a theorem that needs a documented
    fact asks for one of the classes below. *)
Class Platform := {
  sha256_hex : string -> string;
  rfc3339_secs : nat -> string;
  env_var : string -> option string;
  getuid : Z;
  geteuid : Z;
  current_dir : result string string;
  os_error : string
}.

(** RFC 3339 timestamps are one line and hold no tab. *)
Class ClockClean `{Platform} : Prop :=
  rfc3339_clean : forall n, clean_field (rfc3339_secs n) = true.

(** A hexadecimal SHA-256 is 64 lower-case hexadecimal digits. *)
Definition lower_hex (c : ascii) : bool := is_ascii_hexdigit c && negb (is_ascii_uppercase c).
Class HashShape `{Platform} : Prop := {
  sha256_hex_len : forall s, String.length (sha256_hex s) = 64%nat;
  sha256_hex_digits : forall s, all_chars lower_hex (sha256_hex s) = true
}.

(** ** The world *)

Record World := mkWorld {
  files : gmap string string;
  faults : list bool;       (* [true]: the next write fails *)
  ticks : nat;              (* calls of [timestamp] so far *)
  stdout : list string
}.

Definition IO (A : Type) : Type := World -> result string A * World.

Definition ret {A} (a : A) : IO A := fun w => (Ok a, w).
Definition fail {A} (e : string) : IO A := fun w => (Err e, w).
Definition bind {A B} (m : IO A) (k : A -> IO B) : IO B :=
  fun w => match m w with
           | (Ok a, w') => k a w'
           | (Err e, w') => (Err e, w')
           end.

Declare Scope io_scope.
Delimit Scope io_scope with io.
Notation "'let!' x ':=' m 'in' k" := (bind m (fun x => k))
  (at level 10, x pattern, m at level 100, k at level 200) : io_scope.
#[global] Open Scope io_scope.

Definition lift {A} (r : result string A) : IO A := fun w => (r, w).
Definition check (b : bool) (e : string) : IO unit := if b then ret tt else fail e.

Definition get_files : IO (gmap string string) := fun w => (Ok (files w), w).

Definition println (s : string) : IO unit :=
  fun w => (Ok tt, mkWorld (files w) (faults w) (ticks w) (stdout w ++ [s])).

(** [Path::is_file] and [fs::read_to_string]. *)
Definition is_file (p : string) : IO bool :=
  let! fs := get_files in ret (bool_decide (is_Some (fs !! p))).

Definition path_join (p q : string) : string := p +:+ "/" +:+ q.

(** ** The primitives of [state.rs] *)
Section State.
Context `{Platform}.

Definition read_to_string (p : string) : IO string :=
  let! fs := get_files in
  match fs !! p with
  | Some t => ret t
  | None => fail os_error
  end.

(** [timestamp()]. *)
Definition timestamp : IO string :=
  fun w => (Ok (rfc3339_secs (ticks w)), mkWorld (files w) (faults w) (S (ticks w)) (stdout w)).

(** One write: it either replaces the contents of [p] or changes nothing. *)
Definition put_file (p t : string) (e : string) : IO unit :=
  fun w =>
    match faults w with
    | true :: fl => (Err e, mkWorld (files w) fl (ticks w) (stdout w))
    | _ => (Ok tt, mkWorld (<[p := t]> (files w)) (tail (faults w)) (ticks w) (stdout w))
    end.

(** [atomic_write]: a temporary file, synchronised, then renamed. The
    temporary name is never read by the program and is not modelled: the
    rename either happened or not. *)
Definition atomic_write (p t : string) : IO unit :=
  put_file p t ("publish state " +:+ p +:+ ": " +:+ os_error).

(** Appending to a file opened with [create(true).append(true)]. *)
Definition append_file (p t : string) (e : string) : IO unit :=
  fun w => put_file p (unwrap_or (files w !! p) "" +:+ t) e w.

(** [parse_env]: [collect] into a [BTreeMap], so the last binding of a key
    wins. *)
Definition parse_env (text : string) : gmap string string :=
  foldl (fun m kv => <[kv.1 := kv.2]> m) ∅ (omap (split_once "=") (lines text)).

Definition read_env (p : string) : IO (gmap string string) :=
  let! fs := get_files in
  match fs !! p with
  | Some t => ret (parse_env t)
  | None => fail ("read state " +:+ p +:+ ": " +:+ os_error)
  end.

Definition read_env_optional (p : string) : IO (gmap string string) :=
  let! fs := get_files in
  match fs !! p with
  | Some t => ret (parse_env t)
  | None => ret ∅
  end.

End State.

(** [state.get(key).map(String::as_str).unwrap_or("")]. *)
Definition state_value (m : gmap string string) (key : string) : string :=
  unwrap_or (m !! key) "".

(** ** Lemmas *)

Lemma bind_ok {A B} (m : IO A) (k : A -> IO B) w b w' :
  bind m k w = (Ok b, w') <-> exists a w1, m w = (Ok a, w1) /\ k a w1 = (Ok b, w').
Proof. unfold bind. destruct (m w) as [[a|e] w1]; naive_solver. Qed.

Lemma bind_err {A B} (m : IO A) (k : A -> IO B) w e w' :
  bind m k w = (Err e, w') <->
  m w = (Err e, w') \/ exists a w1, m w = (Ok a, w1) /\ k a w1 = (Err e, w').
Proof. unfold bind. destruct (m w) as [[a|e'] w1]; naive_solver. Qed.

(** Running a step whose outcome is known. *)
Lemma bind_run {A B} (m : IO A) (k : A -> IO B) w a w1 :
  m w = (Ok a, w1) -> bind m k w = k a w1.
Proof. unfold bind. by intros ->. Qed.
Lemma bind_stop {A B} (m : IO A) (k : A -> IO B) w e w1 :
  m w = (Err e, w1) -> bind m k w = (Err e, w1).
Proof. unfold bind. by intros ->. Qed.
Lemma lift_run {A} (r : result string A) w a : r = Ok a -> lift r w = (Ok a, w).
Proof. by intros ->. Qed.
Lemma check_run b e w : b = true -> check b e w = (Ok tt, w).
Proof. by intros ->. Qed.

Ltac run_step tac := erewrite bind_run by tac; cbv beta iota.
Ltac run_lift H := run_step ltac:(apply lift_run, H).
Ltac run_check H := run_step ltac:(apply check_run, H).

Lemma check_ok b e w w' : check b e w = (Ok tt, w') <-> b = true /\ w' = w.
Proof. unfold check. destruct b; unfold ret, fail; naive_solver. Qed.

Lemma check_err b e e' w w' : check b e w = (Err e', w') <-> b = false /\ e' = e /\ w' = w.
Proof. unfold check. destruct b; unfold ret, fail; naive_solver. Qed.

Lemma lift_ok {A} (r : result string A) w a w' : lift r w = (Ok a, w') <-> r = Ok a /\ w' = w.
Proof. unfold lift. naive_solver. Qed.

Lemma put_file_ok p t e w w' :
  put_file p t e w = (Ok tt, w') ->
  files w' = <[p := t]> (files w) /\ ticks w' = ticks w.
Proof. unfold put_file. destruct (faults w) as [|[] ?]; naive_solver. Qed.

Lemma put_file_err p t e e' w w' :
  put_file p t e w = (Err e', w') -> files w' = files w /\ ticks w' = ticks w.
Proof. unfold put_file. destruct (faults w) as [|[] ?]; naive_solver. Qed.

(** [keeps_files m]: whatever [m] returns, it leaves the files and the fault
    schedule alone. *)
Definition keeps_files {A} (m : IO A) : Prop :=
  forall w r w', m w = (r, w') -> files w' = files w /\ faults w' = faults w.

Lemma keeps_ret {A} (a : A) : keeps_files (ret a).
Proof. intros w r w' [= <- <-]. done. Qed.
Lemma keeps_fail {A} e : keeps_files (@fail A e).
Proof. intros w r w' [= <- <-]. done. Qed.
Lemma keeps_lift {A} (r : result string A) : keeps_files (lift r).
Proof. intros w r' w' [= <- <-]. done. Qed.
Lemma keeps_check b e : keeps_files (check b e).
Proof. unfold check. destruct b; [apply keeps_ret|apply keeps_fail]. Qed.
Lemma keeps_get_files : keeps_files get_files.
Proof. intros w r w' [= <- <-]. done. Qed.
Lemma keeps_println s : keeps_files (println s).
Proof. intros w r w' [= <- <-]. done. Qed.
Lemma keeps_timestamp `{Platform} : keeps_files timestamp.
Proof. intros w r w' [= <- <-]. done. Qed.
Lemma keeps_bind {A B} (m : IO A) (k : A -> IO B) :
  keeps_files m -> (forall a, keeps_files (k a)) -> keeps_files (bind m k).
Proof.
  intros Hm Hk w r w'. unfold bind. destruct (m w) as [[a|e] w1] eqn:E.
  - intros Hr. destruct (Hk _ _ _ _ Hr) as [-> ->]. eauto.
  - intros [= <- <-]. eauto.
Qed.

Create HintDb keeps.
#[export] Hint Resolve keeps_ret keeps_fail keeps_lift keeps_check keeps_get_files
  keeps_println keeps_timestamp keeps_bind : keeps.

Ltac keeps :=
  repeat first
    [ match goal with |- keeps_files (bind _ _) => apply keeps_bind; [|intros ?] end
    | progress (auto with keeps)
    | case_goal
    | match goal with
      | |- keeps_files (let '_ := ?x in _) => destruct x
      end ].

Lemma keeps_is_file p : keeps_files (is_file p).
Proof. unfold is_file. keeps. Qed.
Lemma keeps_read_to_string `{Platform} p : keeps_files (read_to_string p).
Proof. unfold read_to_string. keeps. Qed.
Lemma keeps_read_env `{Platform} p : keeps_files (read_env p).
Proof. unfold read_env. keeps. Qed.
Lemma keeps_read_env_optional `{Platform} p : keeps_files (read_env_optional p).
Proof. unfold read_env_optional. keeps. Qed.
#[export] Hint Resolve keeps_is_file keeps_read_to_string keeps_read_env keeps_read_env_optional : keeps.

(** *** Commands on a sound disk

    [no_fail m]: without faults [m] succeeds. [rejects m]: when [m] returns an
    error on a disk without faults, no file has changed; the checks come before
    the first write. *)
Definition no_fail {A} (m : IO A) : Prop :=
  forall w r w', faults w = [] -> m w = (r, w') -> (exists a, r = Ok a) /\ faults w' = [].
Definition rejects {A} (m : IO A) : Prop :=
  forall w e w', faults w = [] -> m w = (Err e, w') -> files w' = files w.

Lemma no_fail_ret {A} (a : A) : no_fail (ret a).
Proof. intros w r w' Hf [= <- <-]. eauto. Qed.
Lemma no_fail_println s : no_fail (println s).
Proof. intros w r w' Hf [= <- <-]. eauto. Qed.
Lemma no_fail_timestamp `{Platform} : no_fail timestamp.
Proof. intros w r w' Hf [= <- <-]. eauto. Qed.
Lemma no_fail_put_file p t e : no_fail (put_file p t e).
Proof. intros w r w' Hf. unfold put_file. rewrite Hf. intros [= <- <-]. eauto. Qed.
Lemma no_fail_atomic_write `{Platform} p t : no_fail (atomic_write p t).
Proof. apply no_fail_put_file. Qed.
Lemma no_fail_append_file p t e : no_fail (append_file p t e).
Proof. intros w r w'. apply no_fail_put_file. Qed.
Lemma no_fail_bind {A B} (m : IO A) (k : A -> IO B) :
  no_fail m -> (forall a, no_fail (k a)) -> no_fail (bind m k).
Proof.
  intros Hm Hk w r w' Hf. unfold bind. destruct (m w) as [r1 w1] eqn:E.
  destruct (Hm _ _ _ Hf E) as [[a ->] Hf1]. by apply Hk.
Qed.

Lemma rejects_keeps {A} (m : IO A) : keeps_files m -> rejects m.
Proof. intros Hm w e w' _ Hw. by destruct (Hm _ _ _ Hw). Qed.
Lemma rejects_no_fail {A} (m : IO A) : no_fail m -> rejects m.
Proof. intros Hm w e w' Hf Hw. destruct (Hm _ _ _ Hf Hw) as [[a ?] _]. done. Qed.
Lemma rejects_bind {A B} (m : IO A) (k : A -> IO B) :
  keeps_files m -> (forall a, rejects (k a)) -> rejects (bind m k).
Proof.
  intros Hm Hk w e w' Hf. unfold bind. destruct (m w) as [[a|e1] w1] eqn:E.
  - intros Hw. destruct (Hm _ _ _ E) as [Hfs Hfa]. rewrite <- Hfs. eapply Hk; [|done]. congruence.
  - intros [= <- <-]. by destruct (Hm _ _ _ E).
Qed.

(** A command whose first part may write, when nothing after it can fail. *)
Definition sound {A} (m : IO A) : Prop := forall w r w', faults w = [] -> m w = (r, w') -> faults w' = [].
Lemma sound_keeps {A} (m : IO A) : keeps_files m -> sound m.
Proof. intros Hm w r w' Hf Hw. destruct (Hm _ _ _ Hw) as [_ ->]. done. Qed.
Lemma sound_no_fail {A} (m : IO A) : no_fail m -> sound m.
Proof. intros Hm w r w' Hf Hw. by destruct (Hm _ _ _ Hf Hw). Qed.
Lemma sound_bind {A B} (m : IO A) (k : A -> IO B) : sound m -> (forall a, sound (k a)) -> sound (bind m k).
Proof.
  intros Hm Hk w r w' Hf. unfold bind. destruct (m w) as [[a|e] w1] eqn:E; intros Hr.
  - eapply Hk; [|exact Hr]. by eapply Hm.
  - injection Hr as <- <-. by eapply Hm.
Qed.
Lemma rejects_then {A B} (m : IO A) (k : A -> IO B) :
  rejects m -> sound m -> (forall a, no_fail (k a)) -> rejects (bind m k).
Proof.
  intros Hm Hs Hk w e w' Hf. unfold bind. destruct (m w) as [[a|e1] w1] eqn:E; intros Hr.
  - destruct (Hk a w1 _ _ (Hs _ _ _ Hf E) Hr) as [[b Hb] _]. done.
  - injection Hr as <- <-. by eapply Hm.
Qed.

Create HintDb rejects.
#[export] Hint Resolve no_fail_ret no_fail_println no_fail_timestamp no_fail_put_file
  no_fail_atomic_write no_fail_append_file : rejects.

Ltac no_fail :=
  repeat first
    [ progress (auto with rejects)
    | match goal with |- no_fail (bind _ _) => apply no_fail_bind; [|intros ?] end
    | case_goal ].

(** Walks through the checks of a command up to its first write. *)
Ltac rejects :=
  repeat first
    [ apply rejects_no_fail; solve [no_fail]
    | match goal with |- rejects (bind _ _) => apply rejects_bind; [solve [keeps]|intros ?] end
    | apply rejects_keeps; solve [keeps]
    | case_goal
    | match goal with |- rejects (let '_ := ?x in _) => destruct x end ].

(** [inv_io] takes apart a hypothesis that a sequence of steps returned [Ok]. *)
Ltac inv_io_step :=
  match goal with
  | H : bind _ _ _ = (Ok _, _) |- _ =>
      let a := fresh "a" in let w1 := fresh "w" in let Ha := fresh "Hio" in
      apply bind_ok in H as (a & w1 & Ha & H)
  | H : check _ _ _ = (Ok ?u, _) |- _ => destruct u; apply check_ok in H as [H ->]
  | H : lift _ _ = (Ok _, _) |- _ => apply lift_ok in H as [H ->]
  | H : ret _ _ = (Ok _, _) |- _ => unfold ret in H; injection H as H; try subst
  | H : fail _ _ = (Ok _, _) |- _ => discriminate H
  | H : get_files _ = (Ok _, _) |- _ => unfold get_files in H; injection H as <- <-
  | H : println _ _ = (Ok ?u, _) |- _ => destruct u; unfold println in H; injection H as <-
  | H : (Ok _, _) = (Ok _, _) |- _ => injection H as H; try subst
  | H : (Err _, _) = (Ok _, _) |- _ => discriminate H
  | H : (Ok _, _) = (Err _, _) |- _ => discriminate H
  end.
Ltac inv_io := repeat inv_io_step.

(** *** Weakest preconditions over the files

    [wp m Q fs]: whatever the faults, the clock and the output, when [m] starts
    on the files [fs] its result and the files it leaves satisfy [Q]. *)
Definition wp {A} (m : IO A) (Q : result string A -> gmap string string -> Prop)
  (fs : gmap string string) : Prop :=
  forall w r w', files w = fs -> m w = (r, w') -> Q r (files w').

Section Wp.
Context {A : Type}.
Implicit Types (Q : result string A -> gmap string string -> Prop).

Lemma wp_bind {B} (m : IO B) (k : B -> IO A) Q fs :
  wp m (fun r fs' => match r with Ok a => wp (k a) Q fs' | Err e => Q (Err e) fs' end) fs ->
  wp (bind m k) Q fs.
Proof.
  intros Hm w r w' Hw. unfold bind. destruct (m w) as [[b|e] w1] eqn:E.
  - intros Hr. by apply (Hm _ _ _ Hw E _ _ _ eq_refl).
  - intros [= <- <-]. apply (Hm _ _ _ Hw E).
Qed.
Lemma wp_ret (a : A) Q fs : Q (Ok a) fs -> wp (ret a) Q fs.
Proof. by intros HQ w r w' <- [= <- <-]. Qed.
Lemma wp_fail e Q fs : Q (Err e) fs -> wp (fail e) Q fs.
Proof. by intros HQ w r w' <- [= <- <-]. Qed.
Lemma wp_lift (c : result string A) Q fs :
  (forall a, c = Ok a -> Q (Ok a) fs) -> (forall e, c = Err e -> Q (Err e) fs) -> wp (lift c) Q fs.
Proof. intros H1 H2 w r w' <- [= <- <-]. destruct c; auto. Qed.
Lemma wp_keeps (m : IO A) Q fs : keeps_files m -> (forall r, Q r fs) -> wp m Q fs.
Proof. intros Hm HQ w r w' <- Hw. destruct (Hm _ _ _ Hw) as [-> _]. apply HQ. Qed.
Lemma wp_mono (m : IO A) Q Q' fs : wp m Q fs -> (forall r fs', Q r fs' -> Q' r fs') -> wp m Q' fs.
Proof. intros Hm HQ w r w' Hw Hr. eapply HQ, Hm; eauto. Qed.
End Wp.

Lemma wp_check b e Q fs :
  (b = true -> Q (Ok tt) fs) -> (b = false -> Q (Err e) fs) -> wp (check b e) Q fs.
Proof. intros H1 H2. unfold check. destruct b; [apply wp_ret|apply wp_fail]; auto. Qed.
Lemma wp_get_files Q fs : Q (Ok fs) fs -> wp get_files Q fs.
Proof. by intros HQ w r w' <- [= <- <-]. Qed.
Lemma wp_is_file p Q fs : Q (Ok (bool_decide (is_Some (fs !! p)))) fs -> wp (is_file p) Q fs.
Proof. by intros HQ w r w' <- [= <- <-]. Qed.
Lemma wp_println s Q fs : Q (Ok tt) fs -> wp (println s) Q fs.
Proof. by intros HQ w r w' <- [= <- <-]. Qed.
Lemma wp_timestamp `{Platform} `{HC : !ClockClean} Q fs :
  (forall now, clean_field now = true -> Q (Ok now) fs) -> wp timestamp Q fs.
Proof. intros HQ w r w' <- [= <- <-]. apply HQ, rfc3339_clean. Qed.
Lemma wp_put_file p t e Q fs :
  Q (Ok tt) (<[p := t]> fs) -> Q (Err e) fs -> wp (put_file p t e) Q fs.
Proof.
  intros H1 H2 w r w' <-. unfold put_file. by destruct (faults w) as [|[] fl]; intros [= <- <-].
Qed.
Lemma wp_append_file p t e Q fs :
  (forall t', Q (Ok tt) (<[p := t']> fs)) -> Q (Err e) fs -> wp (append_file p t e) Q fs.
Proof.
  intros H1 H2 w r w' Hw Hr. unfold append_file in Hr. eapply wp_put_file; [..|exact Hw|exact Hr]; auto.
Qed.
Lemma wp_read_env_optional `{Platform} p Q fs :
  Q (Ok (unwrap_or (parse_env <$> fs !! p) ∅)) fs -> wp (read_env_optional p) Q fs.
Proof.
  intros HQ w r w' <-. unfold read_env_optional, bind, get_files.
  destruct (files w !! p); intros [= <- <-]; exact HQ.
Qed.

(** *** Readers

    A reader looks at the files only and changes nothing: it is a function of
    the files, [eval]. *)
Definition eval {A} (m : IO A) (fs : gmap string string) : result string A := (m (mkWorld fs [] 0 [])).1.
Definition reader {A} (m : IO A) : Prop := forall w, m w = (eval m (files w), w).

Lemma reader_ret {A} (a : A) : reader (ret a).
Proof. done. Qed.
Lemma reader_fail {A} e : reader (@fail A e).
Proof. done. Qed.
Lemma reader_lift {A} (r : result string A) : reader (lift r).
Proof. done. Qed.
Lemma reader_check b e : reader (check b e).
Proof. by destruct b. Qed.
Lemma reader_get_files : reader get_files.
Proof. done. Qed.
Lemma reader_is_file p : reader (is_file p).
Proof. done. Qed.
Lemma reader_bind {A B} (m : IO A) (k : A -> IO B) :
  reader m -> (forall a, reader (k a)) -> reader (bind m k).
Proof.
  intros Hm Hk w. unfold eval, bind. rewrite (Hm w), (Hm (mkWorld _ _ _ _)). simpl.
  destruct (eval m (files w)) as [a|e]; [|done]. rewrite (Hk a w). by rewrite (Hk a (mkWorld _ _ _ _)).
Qed.
Lemma reader_read_env_optional `{Platform} p : reader (read_env_optional p).
Proof. apply reader_bind; [apply reader_get_files|]. intros fs. by destruct (fs !! p). Qed.

Lemma eval_bind {A B} (m : IO A) (k : A -> IO B) fs :
  reader m -> eval (bind m k) fs = (let? a := eval m fs in eval (k a) fs).
Proof. intros Hm. unfold eval at 1, bind. rewrite (Hm (mkWorld _ _ _ _)). simpl. by destruct (eval m fs). Qed.
Lemma eval_check b e fs : eval (check b e) fs = guard b e.
Proof. by destruct b. Qed.

Lemma wp_reader {A} (m : IO A) Q fs : reader m -> Q (eval m fs) fs -> wp m Q fs.
Proof. intros Hm HQ w r w' <-. rewrite Hm. by intros [= <- <-]. Qed.
Lemma reader_keeps {A} (m : IO A) : reader m -> keeps_files m.
Proof. intros Hm w r w'. rewrite Hm. by intros [= <- <-]. Qed.

Create HintDb readers.
#[export] Hint Resolve reader_ret reader_fail reader_lift reader_check reader_get_files
  reader_is_file reader_read_env_optional : readers.

Ltac readers :=
  repeat first
    [ progress (auto with readers)
    | match goal with |- reader (bind _ _) => apply reader_bind; [|intros ?] end
    | case_goal ].

(** *** Evaluating readers *)

Ltac inv_eval_step :=
  match goal with
  | H : eval (bind _ _) _ = Ok _ |- _ =>
      rewrite eval_bind in H by (readers; fail);
      let a := fresh "a" in let Ha := fresh "Hev" in
      apply rbind_ok in H as (a & Ha & H)
  | H : eval (check _ _) _ = Ok ?u |- _ => rewrite eval_check in H; destruct u; apply guard_ok in H
  | H : eval (lift _) _ = Ok _ |- _ => change (eval (lift ?r) _) with r in H
  | H : eval (ret _) _ = Ok _ |- _ => unfold eval, ret in H; simpl in H; injection H as H; try subst
  | H : eval (fail _) _ = Ok _ |- _ => discriminate H
  | H : eval get_files _ = Ok _ |- _ => injection H as <-
  end.
Ltac inv_eval := repeat inv_eval_step.

Lemma eval_then {A} (m : IO unit) (k : IO A) fs a :
  reader m -> eval (bind m (fun _ => k)) fs = Ok a <-> eval m fs = Ok tt /\ eval k fs = Ok a.
Proof.
  intros Hm. rewrite eval_bind by done. destruct (eval m fs) as [[]|e]; simpl; naive_solver.
Qed.
Lemma eval_check_then {A} b e (m : IO A) fs a :
  eval (bind (check b e) (fun _ => m)) fs = Ok a <-> b = true /\ eval m fs = Ok a.
Proof. rewrite eval_bind by readers. rewrite eval_check. destruct b; simpl; naive_solver. Qed.

(** *** The key=value files *)

Lemma state_value_insert m k v : state_value (<[k := v]> m) k = v.
Proof. unfold state_value. by rewrite lookup_insert_eq. Qed.
Lemma state_value_insert_ne m k k' v : k <> k' -> state_value (<[k := v]> m) k' = state_value m k'.
Proof. intros. unfold state_value. by rewrite lookup_insert_ne. Qed.

(** The text of an env file: one [key=value] line per binding. *)
Definition env_line (kv : string * string) : string := kv.1 +:+ "=" +:+ kv.2.
Definition print_env (kvs : list (string * string)) : string := unlines (map env_line kvs).

Definition env_clean (kv : string * string) : bool :=
  clean kv.1 && clean kv.2 && negb (has_char "=" kv.1).

Lemma env_line_clean kv : env_clean kv = true -> clean (env_line kv) = true.
Proof.
  unfold env_clean, env_line. intros H. bool_hyps. rewrite !clean_app. by rewrite H, H1.
Qed.

Lemma parse_env_print kvs :
  forallb env_clean kvs = true ->
  parse_env (print_env kvs) = foldl (fun m kv => <[kv.1 := kv.2]> m) ∅ kvs.
Proof.
  intros Hc. unfold parse_env, print_env. rewrite lines_unlines.
  - f_equal. induction kvs as [|[k v] kvs IH]; simpl in *; [done|].
    apply andb_true_iff in Hc as [Hkv Hc]. unfold env_clean in Hkv. bool_hyps. simpl in *.
    unfold env_line at 1. simpl. rewrite split_once_app by done. f_equal. auto.
  - induction kvs as [|kv kvs IH]; simpl in *; [done|].
    apply andb_true_iff in Hc as [Hkv Hc]. by rewrite env_line_clean, IH.
Qed.

Lemma foldl_insert_lookup_notin (kvs : list (string * string)) (m : gmap string string) k :
  k ∉ kvs.*1 -> foldl (fun m kv => <[kv.1 := kv.2]> m) m kvs !! k = m !! k.
Proof.
  revert m. induction kvs as [|[k' v] kvs IH]; intros m; simpl; [done|].
  rewrite not_elem_of_cons. intros [Hne Hk]. rewrite IH by done. by rewrite lookup_insert_ne.
Qed.

(** An env file written from a list of bindings with distinct keys reads back
    as these bindings. *)
Lemma parse_env_print_lookup kvs k v :
  forallb env_clean kvs = true -> NoDup kvs.*1 -> (k, v) ∈ kvs ->
  parse_env (print_env kvs) !! k = Some v.
Proof.
  intros Hc Hnd Hin. rewrite parse_env_print by done. clear Hc. revert Hnd Hin.
  generalize (∅ : gmap string string). induction kvs as [|[k' v'] kvs IH]; intros m; simpl; [set_solver|].
  rewrite NoDup_cons, elem_of_cons. intros [Hk Hnd] [[= -> ->]|Hin]; [|by apply IH].
  rewrite foldl_insert_lookup_notin by done. apply lookup_insert_eq.
Qed.

(** A file that lists fixed keys in order. *)
Lemma parse_env_keys (keys : list string) (st : gmap string string) k :
  NoDup keys -> k ∈ keys ->
  forallb (fun k => clean k && negb (has_char "=" k)) keys = true ->
  (forall k, k ∈ keys -> clean (state_value st k) = true) ->
  state_value (parse_env (unlines (map (fun k => k +:+ "=" +:+ state_value st k) keys))) k = state_value st k.
Proof.
  intros Hnd Hk Hkeys Hval. set (kvs := map (fun k => (k, state_value st k)) keys).
  replace (unlines (map (fun k => k +:+ "=" +:+ state_value st k) keys)) with (print_env kvs)
    by (unfold print_env, kvs; rewrite map_map; reflexivity).
  unfold state_value at 1. rewrite (parse_env_print_lookup kvs k (state_value st k)); [done|..].
  - unfold kvs. apply forallb_forall. intros kv (x & <- & Hx)%in_map_iff.
    rewrite forallb_forall in Hkeys. specialize (Hkeys x Hx). apply list_elem_of_In in Hx.
    unfold env_clean. simpl. rewrite Hval by done. bool_hyps. by rewrite H, H0.
  - unfold kvs. replace (_.*1) with keys; [done|]. induction keys; simpl; f_equal; [done..|]. clear. induction keys; simpl; congruence.
  - unfold kvs. apply list_elem_of_In, in_map_iff. exists k. by rewrite <- list_elem_of_In.
Qed.
