(* ===== verification/Json.v ===== *)
(** * Json: [serde_json] values and [logger/src/canonical.rs]

    A [serde_json::Value] with its objects as association lists in iteration
    order. The byte syntax of JSON is code outside the repository and is a
    parameter ([JsonCodec]); the canonicalisation is the repository's own and
    is defined here. *)

From S2P Require Import Prelude Text.

Inductive Value : Type :=
| VNull
| VBool (b : bool)
| VNum (n : Z)
| VStr (s : string)
| VArr (l : list Value)
| VObj (kvs : list (string * Value)).

(** The induction principle with hypotheses for the nested values. *)
Section ValueInd.
Variable P : Value -> Prop.
Hypothesis HNull : P VNull.
Hypothesis HBool : forall b, P (VBool b).
Hypothesis HNum : forall n, P (VNum n).
Hypothesis HStr : forall s, P (VStr s).
Hypothesis HArr : forall l, Forall P l -> P (VArr l).
Hypothesis HObj : forall kvs, Forall (fun kv => P kv.2) kvs -> P (VObj kvs).

Fixpoint Value_nested_ind (v : Value) : P v :=
  match v with
  | VNull => HNull
  | VBool b => HBool b
  | VNum n => HNum n
  | VStr s => HStr s
  | VArr l =>
      HArr l ((fix go l : Forall P l := match l with
                           | [] => Forall_nil_2 P
                           | x :: l' => Forall_cons_2 P x l' (Value_nested_ind x) (go l')
                           end) l)
  | VObj kvs =>
      HObj kvs ((fix go kvs : Forall (fun kv => P kv.2) kvs := match kvs with
                               | [] => Forall_nil_2 _
                               | x :: l' => Forall_cons_2 (fun kv => P kv.2) x l' (Value_nested_ind x.2) (go l')
                               end) kvs)
  end.
End ValueInd.

(** ** Canonical form *)

(** [pairs.sort_by(|left, right| left.0.cmp(&right.0))]: byte order of the
    keys, stable. *)
Fixpoint insert_pair {A} (x : string * A) (l : list (string * A)) : list (string * A) :=
  match l with
  | [] => [x]
  | y :: l' => if String.leb x.1 y.1 then x :: l else y :: insert_pair x l'
  end.
Definition sort_pairs {A} (l : list (string * A)) : list (string * A) :=
  foldr insert_pair [] l.

Definition on_snd {A B} (f : A -> B) (kv : string * A) : string * B := (kv.1, f kv.2).

Fixpoint canonical_value (v : Value) : Value :=
  match v with
  | VArr l => VArr (map canonical_value l)
  | VObj kvs => VObj (sort_pairs (map (on_snd canonical_value) kvs))
  | other => other
  end.

(** ** The interface of [serde_json]'s byte syntax *)

Class JsonCodec := {
  to_vec : Value -> string;            (* [serde_json::to_vec] *)
  from_slice : string -> option Value  (* [serde_json::from_slice::<Value>] *)
}.

(** What the ledger relies on: a value with distinct keys survives printing
    and parsing, and compact JSON is one non-empty line. *)
Fixpoint distinct_keys (v : Value) : bool :=
  match v with
  | VArr l => forallb distinct_keys l
  | VObj kvs => bool_decide (NoDup kvs.*1) && forallb (fun kv => distinct_keys kv.2) kvs
  | _ => true
  end.

Class JsonCodecLaws `{JsonCodec} : Prop := {
  from_slice_to_vec : forall v, distinct_keys v = true -> from_slice (to_vec v) = Some v;
  to_vec_one_line : forall v, has_char nl (to_vec v) = false;
  to_vec_nonempty : forall v, is_empty (to_vec v) = false
}.

(** [serde_json::to_string_pretty], whose output the runtime ends with a
    newline before it writes it to a file. *)
Class JsonPretty := to_string_pretty : Value -> string.
Class JsonPrettyLaw `{JsonCodec, JsonPretty} : Prop :=
  from_slice_pretty : forall v, distinct_keys v = true ->
    from_slice (to_string_pretty v +:+ String nl "") = Some v.

(** JSON text in a file: the newline at its end is ignored, and a parsed object
    is a map, so that its keys are distinct. *)
Class JsonFileLaws `{JsonCodec} : Prop := {
  from_slice_line : forall v, distinct_keys v = true -> from_slice (to_vec v +:+ String nl "") = Some v;
  from_slice_distinct : forall s v, from_slice s = Some v -> distinct_keys v = true
}.

(** [serde::Serialize] for the types of the logger. *)
Class Serialize (A : Type) := to_value : A -> Value.

(** [canonical::bytes]. [serde_json::to_value] and [to_vec] cannot fail on
    values whose keys are strings and whose numbers are integers, which are all
    the logger has, so the function is total here. *)
Definition canonical_bytes `{JsonCodec} {A} `{Serialize A} (x : A) : string :=
  to_vec (canonical_value (to_value x)).

(** ** Sorting *)

Lemma str_leb_total a b : String.leb a b = true \/ String.leb b a = true.
Proof.
  unfold String.leb. rewrite (String.compare_antisym a b).
  destruct (String.compare b a); simpl; auto.
Qed.

Lemma str_leb_antisym a b : String.leb a b = true -> String.leb b a = true -> a = b.
Proof.
  unfold String.leb. rewrite (String.compare_antisym a b).
  destruct (String.compare b a) eqn:E; simpl; try done.
  intros _ _. symmetry. by apply String.compare_eq_iff.
Qed.

Lemma ascii_compare_N a b : Ascii.compare a b = N.compare (N_of_ascii a) (N_of_ascii b).
Proof. done. Qed.

Lemma str_leb_cons a s b t :
  String.leb (String a s) (String b t) = true <->
  (N_of_ascii a < N_of_ascii b)%N \/ a = b /\ String.leb s t = true.
Proof.
  unfold String.leb. simpl. rewrite ascii_compare_N.
  destruct (N.compare_spec (N_of_ascii a) (N_of_ascii b)) as [E|E|E].
  - apply (f_equal ascii_of_N) in E as E'. rewrite !ascii_N_embedding in E'. subst.
    destruct (String.compare s t); split; intros; destruct_and?; destruct_or?; try done; try lia; naive_solver.
  - split; [auto|done].
  - split; [done|]. intros [?|[-> ?]]; lia.
Qed.

Lemma str_leb_trans a b c : String.leb a b = true -> String.leb b c = true -> String.leb a c = true.
Proof.
  revert b c. induction a as [|x a IH]; intros [|y b] [|z c]; try done.
  rewrite !str_leb_cons. intros [?|[-> ?]] [?|[-> ?]]; [left; lia|auto|auto|right; eauto].
Qed.

Definition pair_le {A} (x y : string * A) : Prop := String.leb x.1 y.1 = true.

Lemma insert_pair_perm {A} (x : string * A) l : insert_pair x l ≡ₚ x :: l.
Proof.
  induction l as [|y l IH]; simpl; [done|].
  destruct (String.leb x.1 y.1); [done|]. rewrite IH. constructor.
Qed.

Lemma sort_pairs_perm {A} (l : list (string * A)) : sort_pairs l ≡ₚ l.
Proof.
  induction l as [|x l IH]; simpl; [done|]. by rewrite insert_pair_perm, IH.
Qed.

Lemma insert_pair_sorted {A} (x : string * A) l :
  StronglySorted pair_le l -> StronglySorted pair_le (insert_pair x l).
Proof.
  induction 1 as [|y l Hs IH Hy]; simpl; [repeat constructor|].
  destruct (String.leb x.1 y.1) eqn:E.
  - constructor; [by constructor|]. constructor; [done|].
    eapply Forall_impl; [exact Hy|]. intros z Hz. by eapply str_leb_trans.
  - constructor; [done|]. rewrite insert_pair_perm. constructor; [|done].
    unfold pair_le. destruct (str_leb_total x.1 y.1); congruence.
Qed.

Lemma sort_pairs_sorted {A} (l : list (string * A)) : StronglySorted pair_le (sort_pairs l).
Proof. induction l; simpl; [constructor|]. by apply insert_pair_sorted. Qed.

Lemma insert_pair_le {A} (x : string * A) l :
  Forall (pair_le x) l -> insert_pair x l = x :: l.
Proof. destruct l as [|y l]; simpl; [done|]. intros [-> _]%Forall_cons. done. Qed.

Lemma sort_pairs_id {A} (l : list (string * A)) : StronglySorted pair_le l -> sort_pairs l = l.
Proof.
  induction 1 as [|x l Hs IH Hx]; simpl; [done|]. rewrite IH. by apply insert_pair_le.
Qed.

(** Two sorted lists with distinct keys that are permutations are equal. *)
Lemma sorted_perm_eq {A} (l1 l2 : list (string * A)) :
  StronglySorted pair_le l1 -> StronglySorted pair_le l2 -> NoDup l1.*1 -> l1 ≡ₚ l2 -> l1 = l2.
Proof.
  intros H1. revert l2. induction H1 as [|x l1 Hs IH Hx]; intros l2 H2 Hnd Hp.
  - by apply Permutation_nil_l in Hp as ->.
  - destruct l2 as [|y l2]; [by apply Permutation_nil_r in Hp|].
    inversion_clear H2 as [|? ? Hs2 Hy].
    assert (x = y) as ->.
    { assert (Hiny : y ∈ x :: l1) by (rewrite Hp; left).
      assert (Hinx : x ∈ y :: l2) by (rewrite <- Hp; left).
      apply elem_of_cons in Hiny as [->|Hiny]; [done|].
      apply elem_of_cons in Hinx as [->|Hinx]; [done|].
      rewrite Forall_forall in Hx, Hy.
      assert (x.1 = y.1) by (apply str_leb_antisym; [apply Hx|apply Hy]; done).
      simpl in Hnd. apply NoDup_cons in Hnd as [Hnx _].
      exfalso. apply Hnx. rewrite H. by apply list_elem_of_fmap_2. }
    f_equal. simpl in Hnd. apply NoDup_cons in Hnd as [_ Hnd].
    apply IH; [done|done|]. by apply Permutation_cons_inv in Hp.
Qed.

Lemma sort_pairs_canonical {A} (l1 l2 : list (string * A)) :
  NoDup l1.*1 -> l1 ≡ₚ l2 -> sort_pairs l1 = sort_pairs l2.
Proof.
  intros Hnd Hp. apply sorted_perm_eq; [apply sort_pairs_sorted..| |].
  - by rewrite sort_pairs_perm.
  - by rewrite !sort_pairs_perm.
Qed.

Lemma insert_pair_on_snd {A B} (f : A -> B) x l :
  map (on_snd f) (insert_pair x l) = insert_pair (on_snd f x) (map (on_snd f) l).
Proof.
  induction l as [|y l IH]; simpl; [done|].
  destruct (String.leb x.1 y.1); simpl; [done|]. by rewrite IH.
Qed.

(** Sorting looks at the keys only: sorting before converting the values (the
    order of the source) and after is the same. *)
Lemma sort_pairs_on_snd {A B} (f : A -> B) l :
  map (on_snd f) (sort_pairs l) = sort_pairs (map (on_snd f) l).
Proof. induction l as [|x l IH]; simpl; [done|]. by rewrite insert_pair_on_snd, IH. Qed.

(** ** Equality of values up to the order of object members *)

Inductive veq : Value -> Value -> Prop :=
| veq_null : veq VNull VNull
| veq_bool b : veq (VBool b) (VBool b)
| veq_num n : veq (VNum n) (VNum n)
| veq_str s : veq (VStr s) (VStr s)
| veq_arr l1 l2 : Forall2 veq l1 l2 -> veq (VArr l1) (VArr l2)
| veq_obj m1 m1' m2 :
    Forall2 (fun a b => a.1 = b.1 /\ veq a.2 b.2) m1 m1' -> m1' ≡ₚ m2 -> veq (VObj m1) (VObj m2).

Lemma on_snd_keys {A B} (f : A -> B) l : (map (on_snd f) l).*1 = l.*1.
Proof. induction l as [|[k v] l IH]; [done|]. csimpl. by rewrite IH. Qed.

Lemma canonical_value_veq v w :
  veq v w -> distinct_keys v = true -> canonical_value v = canonical_value w.
Proof.
  revert w. induction v as [| | | |l IH|kvs IH] using Value_nested_ind;
    intros w Hw Hd; inversion Hw as [| | | |? l2 Hl|? m1' m2 Hm Hp]; subst; try done.
  - simpl in *. f_equal. clear Hw. revert IH Hd.
    induction Hl as [|a b l l2 Hab Hl IHl]; intros IH Hd; simpl in *; [done|].
    apply Forall_cons in IH as [Ha IH]. apply andb_true_iff in Hd as [Hda Hd]. f_equal; auto.
  - simpl in *. apply andb_true_iff in Hd as [Hnd Hd]. apply bool_decide_eq_true in Hnd. f_equal.
    assert (map (on_snd canonical_value) kvs = map (on_snd canonical_value) m1') as E.
    { clear Hw Hnd Hp. revert IH Hd. induction Hm as [|[k1 a] [k2 b] l l2 [Hk Hab] Hl IHl];
        intros IH Hd; simpl in *; [done|]. subst.
      apply Forall_cons in IH as [Ha IH]. apply andb_true_iff in Hd as [Hda Hd].
      f_equal; [|auto]. unfold on_snd. simpl. f_equal. auto. }
    rewrite E. apply sort_pairs_canonical; [|by rewrite Hp].
    by rewrite <- E, on_snd_keys.
Qed.

Lemma canonical_value_refines v : veq v (canonical_value v).
Proof.
  induction v as [| | | |l IH|kvs IH] using Value_nested_ind; simpl; try constructor.
  - induction IH; simpl; constructor; auto.
  - eapply veq_obj with (m1' := map (on_snd canonical_value) kvs); [|by rewrite sort_pairs_perm].
    induction IH as [|[k v] l Hx _ IHl]; simpl; constructor; auto.
Qed.

Lemma canonical_value_distinct v : distinct_keys v = true -> distinct_keys (canonical_value v) = true.
Proof.
  induction v as [| | | |l IH|kvs IH] using Value_nested_ind; simpl; try done.
  - rewrite !forallb_forall. rewrite Forall_forall in IH. intros H x Hx.
    apply in_map_iff in Hx as (y & <- & Hy). apply IH; [by apply list_elem_of_In|auto].
  - rewrite !andb_true_iff, !bool_decide_eq_true, !forallb_forall. intros [Hnd Hd]. split.
    + by rewrite sort_pairs_perm, on_snd_keys.
    + intros x Hx. apply list_elem_of_In in Hx. rewrite sort_pairs_perm in Hx.
      apply list_elem_of_In, in_map_iff in Hx as (y & <- & Hy). simpl.
      rewrite Forall_forall in IH. apply (IH y); [by apply list_elem_of_In|auto].
Qed.

Lemma canonical_value_idem v : canonical_value (canonical_value v) = canonical_value v.
Proof.
  induction v as [| | | |l IH|kvs IH] using Value_nested_ind; simpl; try done.
  - f_equal. induction IH; simpl; congruence.
  - f_equal. rewrite sort_pairs_on_snd, map_map.
    rewrite (map_ext_Forall _ (on_snd canonical_value)); [apply sort_pairs_id, sort_pairs_sorted|].
    eapply Forall_impl; [exact IH|]. intros [k v] E. unfold on_snd. simpl in *. by rewrite E.
Qed.

(** ** Ordered sets *)

(** A [BTreeSet<String>] and its iteration order. *)
Definition btree_list (s : gset string) : list string :=
  (sort_pairs (map (fun x => (x, tt)) (elements s))).*1.

Lemma btree_list_perm s : btree_list s ≡ₚ elements s.
Proof.
  unfold btree_list. rewrite sort_pairs_perm, <- list_fmap_compose.
  rewrite (list_fmap_ext _ id); [by rewrite list_fmap_id|done].
Qed.

Lemma btree_list_set s : list_to_set (btree_list s) =@{gset string} s.
Proof. rewrite btree_list_perm. apply list_to_set_elements_L. Qed.

Lemma btree_list_length s : length (btree_list s) = size s.
Proof. rewrite btree_list_perm. done. Qed.

Lemma btree_list_elem s x : x ∈ btree_list s <-> x ∈ s.
Proof. rewrite btree_list_perm. apply elem_of_elements. Qed.
