(* ===== verification/LogModel.v ===== *)
(** * LogModel: [logger/src/model.rs]

    The records of the audit log, their JSON form (the serde attributes of the
    source: camelCase names, flattened structs, skipped [None]s, denied unknown
    fields) and their validation. *)

From S2P Require Import Prelude Text State Json.

Record ArtifactReference := mkArtifact {
  ar_uri : string;
  ar_digest : option string;
  ar_size : option Z;
  ar_media_type : option string
}.

Record Event := mkEvent {
  ev_event_id : string;
  ev_session_id : string;
  ev_event_type : string;
  ev_payload_digest : string;
  ev_artifact_references : list ArtifactReference
}.

Record AcceptedEvent := mkAccepted {
  ae_event : Event;
  ae_producer_id : string
}.

Record EntryBody := mkBody {
  eb_log_id : string;
  eb_sequence : Z;
  eb_previous_hash : string;
  eb_committed_at : string;
  eb_producer_id : string;
  eb_event_id : string;
  eb_event_type : string;
  eb_payload_digest : string;
  eb_artifact_references : list ArtifactReference
}.

Record Entry := mkEntry { en_body : EntryBody; en_entry_hash : string }.

Record Signature := mkSignature {
  sg_algorithm : string;
  sg_key_id : string;
  sg_signature : string
}.

Record CheckpointBody := mkCheckpointBody {
  cb_api_version : string;
  cb_kind : string;
  cb_checkpoint_id : string;
  cb_log_id : string;
  cb_sequence : Z;
  cb_entry_hash : string;
  cb_created_at : string;
  cb_logger_identity : string
}.

Record Checkpoint := mkCheckpoint { cp_body : CheckpointBody; cp_logger_signature : Signature }.

Record LogHead := mkHead {
  lh_log_id : string;
  lh_sequence : Z;
  lh_entry_hash : string;
  lh_updated_at : string
}.

Record Verification := mkVerification {
  vf_ok : bool;
  vf_checked_logs : nat;
  vf_checked_entries : nat;
  vf_checked_checkpoints : nat;
  vf_errors : list string
}.

#[export] Instance ArtifactReference_eq_dec : EqDecision ArtifactReference.
Proof. solve_decision. Defined.
#[export] Instance Event_eq_dec : EqDecision Event.
Proof. solve_decision. Defined.
#[export] Instance AcceptedEvent_eq_dec : EqDecision AcceptedEvent.
Proof. solve_decision. Defined.
#[export] Instance EntryBody_eq_dec : EqDecision EntryBody.
Proof. solve_decision. Defined.
#[export] Instance Entry_eq_dec : EqDecision Entry.
Proof. solve_decision. Defined.
#[export] Instance Signature_eq_dec : EqDecision Signature.
Proof. solve_decision. Defined.
#[export] Instance CheckpointBody_eq_dec : EqDecision CheckpointBody.
Proof. solve_decision. Defined.
#[export] Instance Checkpoint_eq_dec : EqDecision Checkpoint.
Proof. solve_decision. Defined.
#[export] Instance LogHead_eq_dec : EqDecision LogHead.
Proof. solve_decision. Defined.

(** ** Validation *)

Definition identifier_char (first : bool) (ch : ascii) : bool :=
  is_ascii_alphanumeric ch
  || negb first && existsb (Ascii.eqb ch) ["."; "_"; ":"; "-"]%char.

(** The loop body of [chars().enumerate().all(..)]: only the first position is
    special. *)
Definition identifier_chars (value : string) : bool :=
  match value with
  | EmptyString => true
  | String c rest => identifier_char true c && all_chars (identifier_char false) rest
  end.

Definition validate_identifier (value label : string) : result string unit :=
  if is_empty value || (128 <? len value) || negb (identifier_chars value)
  then Err (label +:+ " has an invalid format") else Ok tt.

Definition validate_digest (value label : string) : result string unit :=
  match strip_prefix "sha256:" value with
  | None => Err (label +:+ " must be a lowercase sha256 digest")
  | Some hex =>
      if negb (len hex =? 64)
         || negb (all_chars (fun ch => is_ascii_hexdigit ch && negb (is_ascii_uppercase ch)) hex)
      then Err (label +:+ " must be a lowercase sha256 digest") else Ok tt
  end.

(** The loop of [valid_event_type] with its two locals. *)
Fixpoint event_type_loop (s : string) (segments : Z) (previous_separator : bool) : bool :=
  match s with
  | EmptyString => negb previous_separator && (segments <=? 16)
  | String ch s' =>
      if existsb (Ascii.eqb ch) ["."; "_"; "-"]%char then
        if previous_separator then false else event_type_loop s' (segments + 1) true
      else if is_ascii_lowercase ch || is_ascii_digit ch then event_type_loop s' segments false
      else false
  end.

Definition valid_event_type (value : string) : bool :=
  if is_empty value || (128 <? len value)
     || negb (match value with String ch _ => is_ascii_lowercase ch | EmptyString => false end)
  then false
  else event_type_loop value 1 false.

Definition validate_reference (index : Z) (reference : ArtifactReference) : result string unit :=
  let at_index := "artifactReferences[" +:+ u64_to_string index +:+ "]" in
  if is_empty (ar_uri reference) || (2048 <? len (ar_uri reference))
     || has_any [cr; nl; "?"; "#"]%char (ar_uri reference)
  then Err (at_index +:+ ".uri is invalid")
  else
    let? _ := match ar_digest reference with
              | Some digest => validate_digest digest (at_index +:+ ".digest")
              | None => Ok tt
              end in
    if match ar_media_type reference with
       | Some value => is_empty value || (255 <? len value)
       | None => false
       end
    then Err (at_index +:+ ".mediaType is invalid")
    else Ok tt.

Fixpoint validate_references (index : Z) (l : list ArtifactReference) : result string unit :=
  match l with
  | [] => Ok tt
  | reference :: l' =>
      let? _ := validate_reference index reference in validate_references (index + 1) l'
  end.

Definition validate_event (event : Event) : result string unit :=
  let? _ := validate_identifier (ev_event_id event) "eventId" in
  let? _ := validate_identifier (ev_session_id event) "sessionId" in
  if negb (valid_event_type (ev_event_type event)) then Err "eventType has an invalid format"
  else
    let? _ := validate_digest (ev_payload_digest event) "payloadDigest" in
    if 64 <? Z.of_nat (length (ev_artifact_references event))
    then Err "artifactReferences must contain at most 64 entries"
    else validate_references 0 (ev_artifact_references event).

(** ** JSON form *)

Definition opt_field {A} (k : string) (f : A -> Value) (o : option A) : list (string * Value) :=
  match o with
  | Some x => [(k, f x)]
  | None => []
  end.

#[export] Instance ser_artifact : Serialize ArtifactReference := fun r =>
  VObj ([("uri", VStr (ar_uri r))]
        ++ opt_field "digest" VStr (ar_digest r)
        ++ opt_field "size" VNum (ar_size r)
        ++ opt_field "mediaType" VStr (ar_media_type r)).

Definition artifacts_value (l : list ArtifactReference) : Value := VArr (map to_value l).

Definition event_fields (e : Event) : list (string * Value) :=
  [("eventId", VStr (ev_event_id e));
   ("sessionId", VStr (ev_session_id e));
   ("eventType", VStr (ev_event_type e));
   ("payloadDigest", VStr (ev_payload_digest e));
   ("artifactReferences", artifacts_value (ev_artifact_references e))].

#[export] Instance ser_event : Serialize Event := fun e => VObj (event_fields e).

#[export] Instance ser_accepted : Serialize AcceptedEvent := fun a =>
  VObj (event_fields (ae_event a) ++ [("producerId", VStr (ae_producer_id a))]).

Definition body_fields (b : EntryBody) : list (string * Value) :=
  [("logId", VStr (eb_log_id b));
   ("sequence", VNum (eb_sequence b));
   ("previousHash", VStr (eb_previous_hash b));
   ("committedAt", VStr (eb_committed_at b));
   ("producerId", VStr (eb_producer_id b));
   ("eventId", VStr (eb_event_id b));
   ("eventType", VStr (eb_event_type b));
   ("payloadDigest", VStr (eb_payload_digest b));
   ("artifactReferences", artifacts_value (eb_artifact_references b))].

#[export] Instance ser_body : Serialize EntryBody := fun b => VObj (body_fields b).

#[export] Instance ser_entry : Serialize Entry := fun e =>
  VObj (body_fields (en_body e) ++ [("entryHash", VStr (en_entry_hash e))]).

#[export] Instance ser_signature : Serialize Signature := fun s =>
  VObj [("algorithm", VStr (sg_algorithm s));
        ("keyId", VStr (sg_key_id s));
        ("signature", VStr (sg_signature s))].

Definition checkpoint_body_fields (b : CheckpointBody) : list (string * Value) :=
  [("apiVersion", VStr (cb_api_version b));
   ("kind", VStr (cb_kind b));
   ("checkpointId", VStr (cb_checkpoint_id b));
   ("logId", VStr (cb_log_id b));
   ("sequence", VNum (cb_sequence b));
   ("entryHash", VStr (cb_entry_hash b));
   ("createdAt", VStr (cb_created_at b));
   ("loggerIdentity", VStr (cb_logger_identity b))].

#[export] Instance ser_checkpoint_body : Serialize CheckpointBody := fun b =>
  VObj (checkpoint_body_fields b).

#[export] Instance ser_checkpoint : Serialize Checkpoint := fun c =>
  VObj (checkpoint_body_fields (cp_body c)
        ++ [("loggerSignature", to_value (cp_logger_signature c))]).

(** ** [serde::Deserialize] *)

(** A field that occurs twice is an error of the derived deserialisers. *)
Definition occurrences (k : string) (kvs : list (string * Value)) : list (string * Value) :=
  List.filter (fun kv => String.eqb kv.1 k) kvs.
Definition field (k : string) (kvs : list (string * Value)) : option Value :=
  match occurrences k kvs with
  | [kv] => Some kv.2
  | _ => None
  end.

Definition as_str (v : Value) : option string := match v with VStr s => Some s | _ => None end.
Definition u64_ok (n : Z) : bool := (0 <=? n) && (n <=? u64_max).
Definition as_u64 (v : Value) : option Z :=
  match v with VNum n => if u64_ok n then Some n else None | _ => None end.
Definition as_fields (v : Value) : option (list (string * Value)) :=
  match v with VObj kvs => Some kvs | _ => None end.
Definition as_list (v : Value) : option (list Value) :=
  match v with VArr l => Some l | _ => None end.

Definition str_field (k : string) (kvs : list (string * Value)) : option string :=
  field k kvs ≫= as_str.
Definition u64_field (k : string) (kvs : list (string * Value)) : option Z :=
  field k kvs ≫= as_u64.
(** An [Option] field: absent and [null] are both [None]. *)
Definition optional {A} (f : Value -> option A) (k : string) (kvs : list (string * Value))
  : option (option A) :=
  if (1 <? length (occurrences k kvs))%nat then None
  else match field k kvs with
       | None | Some VNull => Some None
       | Some v => Some <$> f v
       end.
(** [deny_unknown_fields]. *)
Definition known_fields (known : list string) (kvs : list (string * Value)) : bool :=
  forallb (fun kv => existsb (String.eqb kv.1) known) kvs.

Fixpoint all_some {A B} (f : A -> option B) (l : list A) : option (list B) :=
  match l with
  | [] => Some []
  | x :: l' => y ← f x; ys ← all_some f l'; Some (y :: ys)
  end.

Definition de_artifact (v : Value) : option ArtifactReference :=
  kvs ← as_fields v;
  if known_fields ["uri"; "digest"; "size"; "mediaType"] kvs then
    uri ← str_field "uri" kvs;
    digest ← optional as_str "digest" kvs;
    size ← optional as_u64 "size" kvs;
    media_type ← optional as_str "mediaType" kvs;
    Some (mkArtifact uri digest size media_type)
  else None.

Definition de_artifacts (kvs : list (string * Value)) : option (list ArtifactReference) :=
  l ← field "artifactReferences" kvs ≫= as_list; all_some de_artifact l.

(** The flattened [Event] of an [AcceptedEvent]; also the request body of an
    append, where unknown fields are denied. *)
Definition de_event_fields (kvs : list (string * Value)) : option Event :=
  event_id ← str_field "eventId" kvs;
  session_id ← str_field "sessionId" kvs;
  event_type ← str_field "eventType" kvs;
  payload_digest ← str_field "payloadDigest" kvs;
  artifact_references ← de_artifacts kvs;
  Some (mkEvent event_id session_id event_type payload_digest artifact_references).

Definition de_event (v : Value) : option Event :=
  kvs ← as_fields v;
  if known_fields ["eventId"; "sessionId"; "eventType"; "payloadDigest"; "artifactReferences"] kvs
  then de_event_fields kvs else None.

Definition de_accepted (v : Value) : option AcceptedEvent :=
  kvs ← as_fields v;
  event ← de_event_fields kvs;
  producer_id ← str_field "producerId" kvs;
  Some (mkAccepted event producer_id).

Definition de_body_fields (kvs : list (string * Value)) : option EntryBody :=
  log_id ← str_field "logId" kvs;
  sequence ← u64_field "sequence" kvs;
  previous_hash ← str_field "previousHash" kvs;
  committed_at ← str_field "committedAt" kvs;
  producer_id ← str_field "producerId" kvs;
  event_id ← str_field "eventId" kvs;
  event_type ← str_field "eventType" kvs;
  payload_digest ← str_field "payloadDigest" kvs;
  artifact_references ← de_artifacts kvs;
  Some (mkBody log_id sequence previous_hash committed_at producer_id event_id event_type
          payload_digest artifact_references).

Definition de_entry (v : Value) : option Entry :=
  kvs ← as_fields v;
  body ← de_body_fields kvs;
  entry_hash ← str_field "entryHash" kvs;
  Some (mkEntry body entry_hash).

Definition de_signature (v : Value) : option Signature :=
  kvs ← as_fields v;
  algorithm ← str_field "algorithm" kvs;
  key_id ← str_field "keyId" kvs;
  signature ← str_field "signature" kvs;
  Some (mkSignature algorithm key_id signature).

Definition de_checkpoint (v : Value) : option Checkpoint :=
  kvs ← as_fields v;
  api_version ← str_field "apiVersion" kvs;
  kind ← str_field "kind" kvs;
  checkpoint_id ← str_field "checkpointId" kvs;
  log_id ← str_field "logId" kvs;
  sequence ← u64_field "sequence" kvs;
  entry_hash ← str_field "entryHash" kvs;
  created_at ← str_field "createdAt" kvs;
  logger_identity ← str_field "loggerIdentity" kvs;
  signature ← field "loggerSignature" kvs ≫= de_signature;
  Some (mkCheckpoint
          (mkCheckpointBody api_version kind checkpoint_id log_id sequence entry_hash created_at
             logger_identity) signature).

(** ** Deserialising what was serialised *)

(** The machine-width numbers of a record are [u64]s: what Rust's types say. *)
Definition artifact_ok (r : ArtifactReference) : bool :=
  match ar_size r with Some n => u64_ok n | None => true end.
Definition event_ok (e : Event) : bool := forallb artifact_ok (ev_artifact_references e).
Definition body_ok (b : EntryBody) : bool :=
  u64_ok (eb_sequence b) && forallb artifact_ok (eb_artifact_references b).
Definition checkpoint_ok (c : Checkpoint) : bool := u64_ok (cb_sequence (cp_body c)).

Definition canon_fields (kvs : list (string * Value)) : list (string * Value) :=
  sort_pairs (map (on_snd canonical_value) kvs).

#[local] Arguments canon_fields : simpl never.
#[local] Arguments known_fields : simpl never.
#[local] Arguments str_field : simpl never.
#[local] Arguments u64_field : simpl never.
#[local] Arguments optional : simpl never.
#[local] Arguments de_artifacts : simpl never.

Lemma occurrences_notin k kvs : k ∉ kvs.*1 -> occurrences k kvs = [].
Proof.
  induction kvs as [|[k' v'] kvs IH]; csimpl; [done|].
  rewrite not_elem_of_cons. intros [Hne Hk]. unfold occurrences. simpl.
  destruct (String.eqb_spec k' k); [congruence|]. by apply IH.
Qed.

Lemma occurrences_once k kvs : NoDup kvs.*1 -> (length (occurrences k kvs) <= 1)%nat.
Proof.
  induction kvs as [|[k' v'] kvs IH]; csimpl; [lia|].
  rewrite NoDup_cons. intros [Hk Hnd]. unfold occurrences. simpl.
  destruct (String.eqb_spec k' k) as [->|Hne]; [|by apply IH].
  fold (occurrences k kvs). by rewrite occurrences_notin.
Qed.

Lemma field_some k v kvs : NoDup kvs.*1 -> field k kvs = Some v <-> (k, v) ∈ kvs.
Proof.
  induction kvs as [|[k' v'] kvs IH]; csimpl; [set_solver|].
  rewrite NoDup_cons, elem_of_cons. intros [Hk Hnd]. unfold field, occurrences. simpl.
  destruct (String.eqb_spec k' k) as [->|Hne].
  - fold (occurrences k kvs). rewrite occurrences_notin by done. simpl.
    split; [naive_solver|]. intros [[= ->]|Hin]; [done|].
    exfalso. apply Hk. by apply (list_elem_of_fmap_2 fst _ (k, v)).
  - fold (occurrences k kvs) (field k kvs). rewrite IH by done. naive_solver.
Qed.

Lemma optional_nodup {A} (f : Value -> option A) k kvs :
  NoDup kvs.*1 ->
  optional f k kvs = match field k kvs with
                     | None | Some VNull => Some None
                     | Some v => Some <$> f v
                     end.
Proof.
  intros H%(occurrences_once k). unfold optional.
  by destruct (Nat.ltb_spec 1 (length (occurrences k kvs))); [lia|].
Qed.

Lemma field_perm k l l' : NoDup l.*1 -> l ≡ₚ l' -> field k l = field k l'.
Proof.
  intros Hnd Hp. assert (NoDup l'.*1) by (by rewrite <- Hp).
  apply option_eq. intros v. by rewrite !field_some, Hp.
Qed.

Lemma field_on_snd f k kvs : field k (map (on_snd f) kvs) = f <$> field k kvs.
Proof.
  assert (occurrences k (map (on_snd f) kvs) = map (on_snd f) (occurrences k kvs)) as E.
  { unfold occurrences. induction kvs as [|[k' v] kvs IH]; simpl; [done|].
    destruct (String.eqb k' k); simpl; by rewrite IH. }
  unfold field. rewrite E. by destruct (occurrences k kvs) as [|? [|]].
Qed.

Lemma canon_fields_nodup kvs : NoDup kvs.*1 -> NoDup (canon_fields kvs).*1.
Proof. intros. unfold canon_fields. by rewrite sort_pairs_perm, on_snd_keys. Qed.

Lemma field_canon k kvs :
  NoDup kvs.*1 -> field k (canon_fields kvs) = canonical_value <$> field k kvs.
Proof.
  intros Hnd. unfold canon_fields. rewrite <- field_on_snd. symmetry. apply field_perm.
  - by rewrite on_snd_keys.
  - by rewrite sort_pairs_perm.
Qed.

Lemma str_field_canon k kvs : NoDup kvs.*1 -> str_field k (canon_fields kvs) = str_field k kvs.
Proof. intros. unfold str_field. rewrite field_canon by done. by destruct (field k kvs) as [[]|]. Qed.

Lemma u64_field_canon k kvs : NoDup kvs.*1 -> u64_field k (canon_fields kvs) = u64_field k kvs.
Proof. intros. unfold u64_field. rewrite field_canon by done. by destruct (field k kvs) as [[]|]. Qed.

Lemma optional_canon {A} (f : Value -> option A) k kvs :
  (forall v, f (canonical_value v) = f v) -> NoDup kvs.*1 ->
  optional f k (canon_fields kvs) = optional f k kvs.
Proof.
  intros Hf ?. rewrite !optional_nodup, field_canon by auto using canon_fields_nodup.
  destruct (field k kvs) as [v|]; simpl; [|done]. specialize (Hf v).
  by destruct v; simpl in *; rewrite ?Hf.
Qed.

Lemma known_fields_canon known kvs : known_fields known (canon_fields kvs) = known_fields known kvs.
Proof.
  unfold known_fields, canon_fields. apply eq_true_iff_eq. rewrite !forallb_forall.
  setoid_rewrite <- list_elem_of_In. setoid_rewrite sort_pairs_perm.
  setoid_rewrite list_elem_of_In. setoid_rewrite in_map_iff. unfold on_snd. split.
  - intros H x Hx. apply (H (x.1, canonical_value x.2)). eauto.
  - intros H x (y & <- & Hy). exact (H y Hy).
Qed.

Lemma all_some_map {A B C} (f : B -> option C) (g : A -> B) (h : A -> C) l :
  Forall (fun x => f (g x) = Some (h x)) l -> all_some f (map g l) = Some (map h l).
Proof. induction 1 as [|x l Hx _ IH]; simpl; [done|]. by rewrite Hx, IH. Qed.

(** Decides the [NoDup] of literal key lists and evaluates the field lookups of
    literal objects. *)
Ltac nodup_keys := apply (proj1 (bool_decide_eq_true _)); vm_compute; reflexivity.
Ltac eval_binds := cbn [as_fields mbind option_bind fmap option_fmap option_map].
Ltac eval_fields :=
  repeat match goal with
  | |- context [str_field ?k ?l] =>
      let v := eval cbv in (str_field k l) in change (str_field k l) with v
  | |- context [known_fields ?k ?l] =>
      let v := eval cbv in (known_fields k l) in change (known_fields k l) with v
  | |- context [optional as_str ?k ?l] =>
      let v := eval cbv in (optional as_str k l) in change (optional as_str k l) with v
  | |- context [optional as_u64 ?k ?l] =>
      let v := eval cbv -[u64_ok] in (optional as_u64 k l) in change (optional as_u64 k l) with v
  | |- context [u64_field ?k ?l] =>
      let v := eval cbv -[u64_ok] in (u64_field k l) in change (u64_field k l) with v
  end; eval_binds.

Lemma artifact_roundtrip r :
  artifact_ok r = true -> de_artifact (canonical_value (to_value r)) = Some r.
Proof.
  destruct r as [u d s m]. unfold artifact_ok. intros Hs. cbn [ar_size] in Hs.
  unfold de_artifact. change (canonical_value (to_value (mkArtifact u d s m))) with
    (VObj (canon_fields (match to_value (mkArtifact u d s m) with VObj l => l | _ => [] end))).
  eval_binds. rewrite known_fields_canon.
  assert (forall v, as_str (canonical_value v) = as_str v) by (by intros []).
  assert (forall v, as_u64 (canonical_value v) = as_u64 v) by (by intros []).
  destruct d as [d|], s as [s|], m as [m|];
    rewrite str_field_canon, !optional_canon by (done || nodup_keys);
    eval_fields; rewrite ?Hs; done.
Qed.

Lemma artifacts_roundtrip l :
  forallb artifact_ok l = true -> all_some de_artifact (map canonical_value (map to_value l)) = Some l.
Proof.
  intros H. rewrite map_map, (all_some_map _ _ id); [by rewrite map_id|].
  apply Forall_forall. intros x Hx. apply artifact_roundtrip.
  rewrite forallb_forall in H. by apply H, list_elem_of_In.
Qed.

Lemma de_artifacts_canon kvs l :
  NoDup kvs.*1 -> field "artifactReferences" kvs = Some (artifacts_value l) ->
  forallb artifact_ok l = true -> de_artifacts (canon_fields kvs) = Some l.
Proof.
  intros ? Hf Hl. unfold de_artifacts. rewrite field_canon, Hf by done. simpl.
  by apply artifacts_roundtrip.
Qed.

Ltac de_canon l :=
  rewrite ?known_fields_canon, ?str_field_canon, ?u64_field_canon by nodup_keys;
  try (rewrite (de_artifacts_canon _ l); [| nodup_keys | reflexivity | assumption]);
  eval_fields.

Lemma event_roundtrip e :
  event_ok e = true -> de_event (canonical_value (to_value e)) = Some e.
Proof.
  destruct e as [i s t p l]. intros H. unfold de_event, de_event_fields.
  change (canonical_value (to_value (mkEvent i s t p l))) with
    (VObj (canon_fields (event_fields (mkEvent i s t p l)))).
  eval_binds. de_canon l. done.
Qed.

Lemma accepted_roundtrip a :
  event_ok (ae_event a) = true -> de_accepted (canonical_value (to_value a)) = Some a.
Proof.
  destruct a as [[i s t p l] q]. intros H. unfold de_accepted, de_event_fields.
  change (canonical_value (to_value (mkAccepted (mkEvent i s t p l) q))) with
    (VObj (canon_fields (event_fields (mkEvent i s t p l) ++ [("producerId", VStr q)]))).
  eval_binds. de_canon l. done.
Qed.

Lemma entry_roundtrip e :
  body_ok (en_body e) = true -> de_entry (canonical_value (to_value e)) = Some e.
Proof.
  destruct e as [[i n p c q v t d l] h]. intros [Hn H]%andb_true_iff. simpl in Hn, H.
  unfold de_entry, de_body_fields.
  change (canonical_value (to_value (mkEntry (mkBody i n p c q v t d l) h))) with
    (VObj (canon_fields (body_fields (mkBody i n p c q v t d l) ++ [("entryHash", VStr h)]))).
  eval_binds. de_canon l. rewrite Hn. done.
Qed.

Lemma signature_roundtrip s : de_signature (canonical_value (to_value s)) = Some s.
Proof.
  destruct s as [a k g]. unfold de_signature.
  change (canonical_value (to_value (mkSignature a k g))) with
    (VObj (canon_fields [("algorithm", VStr a); ("keyId", VStr k); ("signature", VStr g)])).
  eval_binds. de_canon (@nil ArtifactReference). done.
Qed.

Lemma checkpoint_roundtrip c :
  checkpoint_ok c = true -> de_checkpoint (canonical_value (to_value c)) = Some c.
Proof.
  destruct c as [[a k i l n h t g] s]. unfold checkpoint_ok. intros Hn. cbn [cp_body cb_sequence] in Hn.
  unfold de_checkpoint.
  set (kvs := checkpoint_body_fields (mkCheckpointBody a k i l n h t g) ++ [("loggerSignature", to_value s)]).
  change (canonical_value (to_value (mkCheckpoint (mkCheckpointBody a k i l n h t g) s))) with
    (VObj (canon_fields kvs)).
  assert (NoDup kvs.*1) by nodup_keys.
  eval_binds. rewrite field_canon by done.
  change (field "loggerSignature" kvs) with (Some (to_value s)). eval_binds.
  rewrite signature_roundtrip. de_canon (@nil ArtifactReference).
  subst kvs. eval_fields. rewrite Hn. done.
Qed.

(** *** Distinct keys *)

Lemma artifact_distinct (r : ArtifactReference) : distinct_keys (to_value r) = true.
Proof. destruct r as [u d s m]. by destruct d, s, m. Qed.

Lemma artifacts_distinct l : distinct_keys (artifacts_value l) = true.
Proof.
  simpl. apply forallb_forall. intros x (y & <- & _)%in_map_iff. apply artifact_distinct.
Qed.

Lemma accepted_distinct (a : AcceptedEvent) : distinct_keys (to_value a) = true.
Proof.
  change (distinct_keys (artifacts_value (ev_artifact_references (ae_event a))) && true = true).
  by rewrite artifacts_distinct.
Qed.

Lemma body_distinct (b : EntryBody) : distinct_keys (to_value b) = true.
Proof.
  change (distinct_keys (artifacts_value (eb_artifact_references b)) && true = true).
  by rewrite artifacts_distinct.
Qed.

Lemma entry_distinct (e : Entry) : distinct_keys (to_value e) = true.
Proof.
  change (distinct_keys (artifacts_value (eb_artifact_references (en_body e))) && true = true).
  by rewrite artifacts_distinct.
Qed.

Lemma checkpoint_distinct (c : Checkpoint) : distinct_keys (to_value c) = true.
Proof. done. Qed.
