(* ===== verification/LogStore.v ===== *)
(** * LogStore: [logger/src/store.rs] and [logger/src/signer.rs]

    The append-only ledger: an in-memory index, the bytes of the ledger file,
    the hash chain of every log, the signed checkpoints, and the replay that
    rebuilds the index from the file. *)

From S2P Require Import Prelude Text State Json LogModel.

Definition GENESIS_HASH : string :=
  "sha256:0000000000000000000000000000000000000000000000000000000000000000".
Definition MAX_LEDGER_RECORD_BYTES : Z := 2 * 1024 * 1024.
Definition API_VERSION : string := "logger.multiagent.dev/v1".

(** ** The primitives of other crates

    [ed25519_dalek] behind base64, and [chrono]'s RFC 3339 parser. *)
Class LoggerCrypto := {
  ed_sign : string -> string;             (* base64 of the signature of a message *)
  ed_verify : string -> string -> bool;   (* message, base64 of a signature *)
  rfc3339_valid : string -> bool          (* [DateTime::parse_from_rfc3339(..).is_ok()] *)
}.

(** A signature verifies under the key that made it. *)
Class LoggerCryptoLaws `{LoggerCrypto} : Prop :=
  ed_verify_sign : forall m, ed_verify m (ed_sign m) = true.

Record Ed25519Signer := mkSigner { sk_key_id : string; sk_logger_id : string }.

Record StoredEvent := mkStored {
  se_request_digest : string;
  se_accepted_event : AcceptedEvent;
  se_entry : Entry
}.

Record LedgerRecord := mkRecord {
  lr_api_version : string;
  lr_kind : string;
  lr_request_digest : string;
  lr_accepted_event : AcceptedEvent;
  lr_entry : Entry;
  lr_checkpoint : option Checkpoint
}.

Record LedgerState := mkLedgerState {
  logs : gmap string LogHead;
  events : gmap string StoredEvent;
  entries_of : gmap string (list Entry);
  checkpoints_of : gmap string Checkpoint;
  checkpoints_by_log : gmap string (list Checkpoint)
}.

Definition LedgerState_default : LedgerState := mkLedgerState ∅ ∅ ∅ ∅ ∅.

#[export] Instance StoredEvent_eq_dec : EqDecision StoredEvent.
Proof. solve_decision. Defined.
#[export] Instance LedgerRecord_eq_dec : EqDecision LedgerRecord.
Proof. solve_decision. Defined.
#[export] Instance LedgerState_eq_dec : EqDecision LedgerState.
Proof. solve_decision. Defined.

(** [Store]: [ledger] is the contents of the file the handle points at. *)
Record Store := mkStore {
  ledger : string;
  signer : Ed25519Signer;
  checkpoint_interval : Z;
  projection_enabled : bool;
  projection_dirty : gset string;
  state : LedgerState;
  writable : bool
}.

Inductive AppendResult := Appended | Duplicate.

Inductive StoreError :=
| Conflict (message : string)
| Internal (message : string).

#[export] Instance ser_record : Serialize LedgerRecord := fun r =>
  VObj ([("apiVersion", VStr (lr_api_version r));
         ("kind", VStr (lr_kind r));
         ("requestDigest", VStr (lr_request_digest r));
         ("acceptedEvent", to_value (lr_accepted_event r));
         ("entry", to_value (lr_entry r))]
        ++ opt_field "checkpoint" to_value (lr_checkpoint r)).

Definition de_record (v : Value) : option LedgerRecord :=
  kvs ← as_fields v;
  if known_fields ["apiVersion"; "kind"; "requestDigest"; "acceptedEvent"; "entry"; "checkpoint"] kvs
  then
    api_version ← str_field "apiVersion" kvs;
    kind ← str_field "kind" kvs;
    request_digest ← str_field "requestDigest" kvs;
    accepted_event ← field "acceptedEvent" kvs ≫= de_accepted;
    entry ← field "entry" kvs ≫= de_entry;
    checkpoint ← optional de_checkpoint "checkpoint" kvs;
    Some (mkRecord api_version kind request_digest accepted_event entry checkpoint)
  else None.

(** The bytes of a write: [Wrote] all of them and synchronised, or [Failed n]
    after the first [n] bytes reached the file. *)
Inductive WriteOutcome := Wrote | Failed (n : nat).

Section Store.
Context `{Platform, JsonCodec, LoggerCrypto}.

(** [canonical::sha256]. *)
Definition canonical_sha256 {A} `{Serialize A} (x : A) : string :=
  "sha256:" +:+ sha256_hex (canonical_bytes x).

(** ** [Ed25519Signer::sign] and [verify] *)

Definition sign (sg : Ed25519Signer) (body : CheckpointBody) : Signature :=
  mkSignature "Ed25519" (sk_key_id sg) (ed_sign (canonical_bytes body)).

Definition verify_signature (sg : Ed25519Signer) (body : CheckpointBody) (s : Signature) : bool :=
  if negb (String.eqb (sg_algorithm s) "Ed25519") || negb (String.eqb (sg_key_id s) (sk_key_id sg))
  then false
  else ed_verify (canonical_bytes body) (sg_signature s).

(** ** Validation of the next record *)

Definition validate_checkpoint (st : LedgerState) (sg : Ed25519Signer)
    (checkpoint : Checkpoint) (entry : Entry) : result string unit :=
  let body := cp_body checkpoint in
  if negb (String.eqb (cb_api_version body) API_VERSION)
     || negb (String.eqb (cb_kind body) "LoggerCheckpoint")
     || negb (String.eqb (cb_logger_identity body) (sk_logger_id sg))
     || negb (String.eqb (cb_log_id body) (eb_log_id (en_body entry)))
     || negb (cb_sequence body =? eb_sequence (en_body entry))
     || negb (String.eqb (cb_entry_hash body) (en_entry_hash entry))
     || negb (String.eqb (cb_created_at body) (eb_committed_at (en_body entry)))
  then Err "checkpoint does not match its ledger entry"
  else if bool_decide (is_Some (checkpoints_of st !! cb_checkpoint_id body))
     || match checkpoints_by_log st !! cb_log_id body with
        | Some values => existsb (fun value => cb_sequence (cp_body value) =? cb_sequence body) values
        | None => false
        end
  then Err "ledger contains a duplicate checkpoint"
  else if negb (verify_signature sg body (cp_logger_signature checkpoint))
  then Err "checkpoint signature is invalid"
  else Ok tt.

Definition next_sequence (head : option LogHead) : Z :=
  match head with
  | Some value => u64_add (lh_sequence value) 1
  | None => 1
  end.

Definition next_previous (head : option LogHead) : string :=
  match head with
  | Some value => lh_entry_hash value
  | None => GENESIS_HASH
  end.

Definition validate_next (st : LedgerState) (sg : Ed25519Signer) (record : LedgerRecord)
  : result string unit :=
  if negb (String.eqb (lr_api_version record) API_VERSION)
     || negb (String.eqb (lr_kind record) "LoggerLedgerRecord")
  then Err "ledger record has an unsupported contract"
  else
  let event := ae_event (lr_accepted_event record) in
  let? _ := validate_event event in
  let? _ := validate_identifier (ae_producer_id (lr_accepted_event record)) "producer ID" in
  if negb (String.eqb (canonical_sha256 (lr_accepted_event record)) (lr_request_digest record))
  then Err "accepted event digest mismatch"
  else if bool_decide (is_Some (events st !! ev_event_id event))
  then Err "ledger contains a duplicate event ID"
  else
  let entry := lr_entry record in
  let body := en_body entry in
  if negb (String.eqb (eb_log_id body) (ev_session_id event))
     || negb (String.eqb (eb_event_id body) (ev_event_id event))
     || negb (String.eqb (eb_producer_id body) (ae_producer_id (lr_accepted_event record)))
     || negb (String.eqb (eb_event_type body) (ev_event_type event))
     || negb (String.eqb (eb_payload_digest body) (ev_payload_digest event))
     || negb (bool_decide (eb_artifact_references body = ev_artifact_references event))
  then Err "accepted event does not match the chain entry"
  else if negb (rfc3339_valid (eb_committed_at body))
  then Err "entry committedAt is not RFC3339"
  else
  let head := logs st !! ev_session_id event in
  if negb (eb_sequence body =? next_sequence head)
     || negb (String.eqb (eb_previous_hash body) (next_previous head))
  then Err "entry does not extend the current log head"
  else if negb (String.eqb (canonical_sha256 body) (en_entry_hash entry))
  then Err "entry hash mismatch"
  else match lr_checkpoint record with
       | Some checkpoint => validate_checkpoint st sg checkpoint entry
       | None => Ok tt
       end.

(** [entry(key).or_default().push(x)]. *)
Definition push_default {A} (k : string) (x : A) (m : gmap string (list A)) : gmap string (list A) :=
  <[k := unwrap_or (m !! k) [] ++ [x]]> m.

Definition insert_record (st : LedgerState) (record : LedgerRecord) : LedgerState :=
  let entry := lr_entry record in
  let log_id := eb_log_id (en_body entry) in
  let event_id := ev_event_id (ae_event (lr_accepted_event record)) in
  mkLedgerState
    (<[log_id := mkHead log_id (eb_sequence (en_body entry)) (en_entry_hash entry)
                   (eb_committed_at (en_body entry))]> (logs st))
    (<[event_id := mkStored (lr_request_digest record) (lr_accepted_event record) entry]> (events st))
    (push_default log_id entry (entries_of st))
    (match lr_checkpoint record with
     | Some c => <[cb_checkpoint_id (cp_body c) := c]> (checkpoints_of st)
     | None => checkpoints_of st
     end)
    (match lr_checkpoint record with
     | Some c => push_default log_id c (checkpoints_by_log st)
     | None => checkpoints_by_log st
     end).

Definition create_checkpoint (sg : Ed25519Signer) (entry : Entry) : Checkpoint :=
  let digest := sha256_hex (eb_log_id (en_body entry) +:+ ":"
                  +:+ u64_to_string (eb_sequence (en_body entry)) +:+ ":" +:+ en_entry_hash entry) in
  let body := mkCheckpointBody API_VERSION "LoggerCheckpoint"
                ("checkpoint-" +:+ String.substring 0 48 digest)
                (eb_log_id (en_body entry)) (eb_sequence (en_body entry)) (en_entry_hash entry)
                (eb_committed_at (en_body entry)) (sk_logger_id sg) in
  mkCheckpoint body (sign sg body).

(** ** [Store::append] *)

(** The record [append] builds for an event at time [now]. *)
Definition make_record (s : Store) (event : Event) (producer_id now : string) : LedgerRecord :=
  let accepted_event := mkAccepted event producer_id in
  let head := logs (state s) !! ev_session_id event in
  let sequence := next_sequence head in
  let body := mkBody (ev_session_id event) sequence (next_previous head) now producer_id
                (ev_event_id event) (ev_event_type event) (ev_payload_digest event)
                (ev_artifact_references event) in
  let entry := mkEntry body (canonical_sha256 body) in
  let checkpoint := if sequence mod checkpoint_interval s =? 0
                    then Some (create_checkpoint (signer s) entry) else None in
  mkRecord API_VERSION "LoggerLedgerRecord" (canonical_sha256 accepted_event) accepted_event
    entry checkpoint.

Definition set_writable (s : Store) (ledger' : string) : Store :=
  mkStore ledger' (signer s) (checkpoint_interval s) (projection_enabled s)
    (projection_dirty s) (state s) false.

Definition append (io : WriteOutcome) (now : string) (s : Store) (event : Event)
    (producer_id : string) : result StoreError AppendResult * Store :=
  if negb (writable s) then
    (Err (Internal "logger ledger is unavailable after a durability failure"), s)
  else
  let request_digest := canonical_sha256 (mkAccepted event producer_id) in
  match events (state s) !! ev_event_id event with
  | Some existing =>
      if String.eqb (se_request_digest existing) request_digest then (Ok Duplicate, s)
      else (Err (Conflict "eventId already commits different content"), s)
  | None =>
      let record := make_record s event producer_id now in
      match validate_next (state s) (signer s) record with
      | Err e => (Err (Internal e), s)
      | Ok _ =>
          let encoded := canonical_bytes record in
          if MAX_LEDGER_RECORD_BYTES <? len encoded then
            (Err (Internal "encoded logger record exceeds the ledger limit"), s)
          else
          let encoded := encoded +:+ String nl "" in
          match io with
          | Failed n =>
              (Err (Internal ("durably append logger ledger: " +:+ os_error)),
               set_writable s (ledger s +:+ String.substring 0 n encoded))
          | Wrote =>
              let log_id := eb_log_id (en_body (lr_entry record)) in
              (Ok Appended,
               mkStore (ledger s +:+ encoded) (signer s) (checkpoint_interval s)
                 (projection_enabled s)
                 (if projection_enabled s then {[log_id]} ∪ projection_dirty s
                  else projection_dirty s)
                 (insert_record (state s) record) (writable s))
          end
      end
  end.

(** ** Replay *)

(** [take(budget).read_until(b'\n')]. *)
Fixpoint read_until (budget : Z) (s : string) : string * string :=
  match s with
  | EmptyString => ("", "")
  | String c s' =>
      if budget <=? 0 then ("", s)
      else if Ascii.eqb c nl then (String c "", s')
      else let '(l, r) := read_until (budget - 1) s' in (String c l, r)
  end.

Definition decode_record (line : string) : option LedgerRecord := from_slice line ≫= de_record.

(** The body of the loop of [replay] for one non-empty line. *)
Definition replay_line (sg : Ed25519Signer) (st : LedgerState) (record_number : Z) (line : string)
  : result string LedgerState :=
  let at_record := "logger ledger record " +:+ u64_to_string record_number in
  if MAX_LEDGER_RECORD_BYTES + 1 <? len line then Err (at_record +:+ " exceeds the size limit")
  else match strip_suffix (String nl "") line with
  | None => Err (at_record +:+ " is truncated; manual recovery is required")
  | Some line =>
      if is_empty line then Err (at_record +:+ " is empty")
      else match decode_record line with
      | None => Err ("decode " +:+ at_record +:+ ": " +:+ os_error)
      | Some record =>
          if negb (String.eqb (canonical_bytes record) line)
          then Err (at_record +:+ " is not canonical JSON")
          else
            let? _ := map_err (fun error => "verify " +:+ at_record +:+ ": " +:+ error)
                        (validate_next st sg record) in
            Ok (insert_record st record)
      end
  end.

(** Every iteration consumes at least one byte, so one more than the number of
    bytes is enough fuel; see [replay_iff] of [LogStoreFacts]. *)
Fixpoint replay_loop (fuel : nat) (sg : Ed25519Signer) (rest : string) (st : LedgerState)
    (record_number : Z) : result string LedgerState :=
  match fuel with
  | O => Err "out of fuel"
  | S fuel' =>
      let '(line, rest') := read_until (MAX_LEDGER_RECORD_BYTES + 2) rest in
      if is_empty line then Ok st
      else
        let? st' := replay_line sg st (record_number + 1) line in
        replay_loop fuel' sg rest' st' (record_number + 1)
  end.

Definition replay (sg : Ed25519Signer) (contents : string) : result string LedgerState :=
  replay_loop (S (String.length contents)) sg contents LedgerState_default 0.

(** ** [Store::open], queries and verification *)

(** [Store::open] on a file with the given contents, once the single-writer
    lock is held. *)
Definition open (contents : string) (sg : Ed25519Signer) (interval : Z) (projections : bool)
  : result string Store :=
  let? st := replay sg contents in
  Ok (mkStore contents sg interval projections
        (if projections then dom (logs st) else ∅) st true).

Definition head (s : Store) (log_id : string) : option LogHead := logs (state s) !! log_id.

Definition entries (s : Store) (log_id : string) (after : Z) (limit : nat) : list Entry :=
  take limit (List.filter (fun entry => after <? eb_sequence (en_body entry))
                (unwrap_or (entries_of (state s) !! log_id) [])).

Definition checkpoints (s : Store) (log_id : string) (after : Z) (limit : nat) : list Checkpoint :=
  take limit (List.filter (fun c => after <? cb_sequence (cp_body c))
                (unwrap_or (checkpoints_by_log (state s) !! log_id) [])).

Definition checkpoint (s : Store) (id : string) : option Checkpoint := checkpoints_of (state s) !! id.

Definition checkpoint_session (s : Store) (id : string) : option string :=
  (fun c => cb_log_id (cp_body c)) <$> checkpoints_of (state s) !! id.

Definition sum_lengths {A} (m : gmap string (list A)) (ids : list string) : nat :=
  foldr (fun id n => (length (unwrap_or (m !! id) []) + n)%nat) O ids.

Definition verify (s : Store) (log_id : option string) : Verification :=
  match replay (signer s) (ledger s) with
  | Err error => mkVerification false 0 0 0 [error]
  | Ok replayed =>
      let errors :=
        (if negb (writable s) then ["ledger writes are disabled after a durability failure"] else [])
        ++ (if negb (bool_decide (replayed = state s))
            then ["on-disk ledger differs from the active in-memory index"] else []) in
      let ids := List.filter (fun candidate => match log_id with
                                               | None => true
                                               | Some selected => String.eqb candidate selected
                                               end) (elements (dom (logs replayed))) in
      mkVerification (bool_decide (errors = [])) (length ids)
        (sum_lengths (entries_of replayed) ids) (sum_lengths (checkpoints_by_log replayed) ids)
        errors
  end.

(** [flush_projections]: [dir_ok] says whether the directory exists or could be
    created, [wrote id] whether the projection of [id] was written; a failed one
    stays dirty. *)
Definition flush_projections (dir_ok : bool) (wrote : string -> bool) (s : Store)
  : result string (Z * Z) * Store :=
  if negb dir_ok then (Err os_error, s) else
  let pending := elements (projection_dirty s) in
  let done := List.filter wrote pending in
  let failed := List.filter (fun id => negb (wrote id)) pending in
  (Ok (Z.of_nat (length done), Z.of_nat (length failed)),
   mkStore (ledger s) (signer s) (checkpoint_interval s) (projection_enabled s)
     (projection_dirty s ∖ list_to_set done) (state s) (writable s)).

Definition projection_counts (s : Store) : Z := Z.of_nat (size (projection_dirty s)).

End Store.
