(* ===== verification/LogStoreFacts.v ===== *)
(** * LogStoreFacts: the ledger is its file

    The bytes of a ledger that replays are exactly the canonical lines of the
    records it replays to, so the in-memory index of a running store, the file
    it wrote and the index a restart rebuilds are the same thing. *)

From S2P Require Import Prelude Text State Json LogModel LogStore.

(** ** Reading lines *)

Lemma read_until_line budget l r :
  has_char nl l = false -> len l < budget ->
  read_until budget (l +:+ String nl r) = (l +:+ String nl "", r).
Proof.
  revert budget. induction l as [|c l IH]; intros budget; unfold len in *; simpl.
  - intros _ ?. destruct (Z.leb_spec budget 0); [lia|]. done.
  - intros [Hc Hl]%orb_false_iff ?. destruct (Z.leb_spec budget 0); [lia|].
    rewrite Hc, IH by (done || lia). done.
Qed.

Lemma read_until_app budget a l r b :
  read_until budget a = (l, r) -> (exists l', l = l' +:+ String nl "") ->
  read_until budget (a +:+ b) = (l, r +:+ b).
Proof.
  revert budget l r. induction a as [|c a IH]; intros budget l r; simpl.
  - intros [= <- <-] [[] ?]; done.
  - destruct (budget <=? 0); [intros [= <- <-] [[] ?]; done|].
    destruct (Ascii.eqb_spec c nl) as [->|Hc]; [by intros [= <- <-]|].
    destruct (read_until (budget - 1) a) as [l1 r1] eqn:E.
    intros [= <- <-] [[|d l'] Hl']; simpl in Hl'; injection Hl'; intros; subst; [done|].
    by rewrite (IH _ _ _ E) by eauto.
Qed.

Lemma read_until_split budget s l r : read_until budget s = (l, r) -> s = l +:+ r.
Proof.
  revert budget l r. induction s as [|c s IH]; intros budget l r; simpl; [naive_solver|].
  destruct (budget <=? 0); [naive_solver|]. destruct (Ascii.eqb c nl); [naive_solver|].
  destruct (read_until (budget - 1) s) as [l1 r1] eqn:E.
  intros [= <- <-]. simpl. f_equal. eauto.
Qed.

Lemma read_until_empty budget s r : 0 < budget -> read_until budget s = ("", r) -> s = "".
Proof.
  destruct s as [|c s]; simpl; [done|]. intros.
  destruct (Z.leb_spec budget 0); [lia|]. destruct (Ascii.eqb c nl); [done|].
  by destruct (read_until (budget - 1) s).
Qed.

(** ** Records and their lines *)

Lemma record_distinct (r : LedgerRecord) : distinct_keys (to_value r) = true.
Proof.
  destruct r as [a k d ac en c]. unfold to_value, ser_record. simpl.
  pose proof (accepted_distinct ac) as Ha. pose proof (entry_distinct en) as He.
  destruct c as [c|]; simpl in *; by rewrite ?Ha, ?He.
Qed.

(** The numbers of a record are in range; what Rust's [u64] says. *)
Definition record_ok (r : LedgerRecord) : bool :=
  event_ok (ae_event (lr_accepted_event r)) && body_ok (en_body (lr_entry r))
  && match lr_checkpoint r with Some c => checkpoint_ok c | None => true end.

Lemma record_roundtrip r : record_ok r = true -> de_record (canonical_value (to_value r)) = Some r.
Proof.
  destruct r as [a k d ac en c]. unfold record_ok. cbn [lr_accepted_event lr_entry lr_checkpoint].
  intros H. bool_hyps. unfold de_record.
  set (kvs := match to_value (mkRecord a k d ac en c) with VObj l => l | _ => [] end).
  change (canonical_value (to_value (mkRecord a k d ac en c))) with (VObj (canon_fields kvs)).
  eval_binds. assert (NoDup kvs.*1) as Hnd by (subst kvs; destruct c; nodup_keys).
  rewrite known_fields_canon, !str_field_canon, !field_canon by done.
  replace (field "acceptedEvent" kvs) with (Some (to_value ac)) by (by destruct c).
  replace (field "entry" kvs) with (Some (to_value en)) by (by destruct c).
  eval_binds. rewrite accepted_roundtrip, entry_roundtrip by done.
  assert (optional de_checkpoint "checkpoint" (canon_fields kvs) = Some c) as ->.
  { rewrite optional_nodup, field_canon by auto using canon_fields_nodup. subst kvs. destruct c as [c|]; [|done].
    change (field "checkpoint" _) with (Some (to_value c)). eval_binds.
    pose proof (checkpoint_roundtrip c ltac:(done)) as Hc.
    change (canonical_value (to_value c)) with
      (VObj (canon_fields (match to_value c with VObj l => l | _ => [] end))) in *.
    by rewrite Hc. }
  subst kvs. destruct c; by eval_fields.
Qed.

Section Facts.
Context `{HP : Platform, HJ : JsonCodec, HC : LoggerCrypto}.

Definition enc_line (r : LedgerRecord) : string := canonical_bytes r +:+ String nl "".
Definition encode_all (rs : list LedgerRecord) : string := concat_all (map enc_line rs).

(** A record whose line the replay accepts as such: within the size limit, and
    decoded back to itself. *)
Definition record_fits (r : LedgerRecord) : Prop :=
  len (canonical_bytes r) <= MAX_LEDGER_RECORD_BYTES /\ decode_record (canonical_bytes r) = Some r.

Fixpoint valid_from (sg : Ed25519Signer) (st : LedgerState) (rs : list LedgerRecord) : Prop :=
  match rs with
  | [] => True
  | r :: rs' => validate_next st sg r = Ok tt /\ valid_from sg (insert_record st r) rs'
  end.

Definition replayed (rs : list LedgerRecord) : LedgerState :=
  foldl insert_record LedgerState_default rs.

Lemma valid_from_snoc sg st rs r :
  valid_from sg st (rs ++ [r]) <->
  valid_from sg st rs /\ validate_next (foldl insert_record st rs) sg r = Ok tt.
Proof. revert st. induction rs as [|x rs IH]; intros st; simpl; [naive_solver|]. rewrite IH. naive_solver. Qed.

Lemma encode_all_snoc rs r : encode_all (rs ++ [r]) = encode_all rs +:+ enc_line r.
Proof. unfold encode_all. rewrite map_app, concat_all_app. simpl. by rewrite str_app_nil_r. Qed.

Lemma len_app a b : len (a +:+ b) = len a + len b.
Proof. unfold len. rewrite str_length_app. lia. Qed.

Lemma replay_line_inv sg st n line st' :
  replay_line sg st n line = Ok st' ->
  exists r, line = enc_line r /\ record_fits r /\ validate_next st sg r = Ok tt /\ st' = insert_record st r.
Proof.
  unfold replay_line. destruct (Z.ltb_spec (MAX_LEDGER_RECORD_BYTES + 1) (len line)) as [|Hlen]; [done|].
  destruct (strip_suffix (String nl "") line) as [l|] eqn:El; [|done].
  apply strip_suffix_some in El as ->.
  destruct (is_empty l); [done|]. destruct (decode_record l) as [r|] eqn:Er; [|done].
  destruct (String.eqb_spec (canonical_bytes r) l) as [<-|]; [|done]. simpl.
  intros Hr. inv_ok. destruct a. exists r. rewrite len_app in Hlen.
  split; [done|]. split; [|done]. split; [|done]. change (len (String nl "")) with 1 in Hlen. lia.
Qed.

Context `{HL : !JsonCodecLaws}.

Lemma replay_line_enc sg st n r :
  record_fits r -> validate_next st sg r = Ok tt ->
  replay_line sg st n (enc_line r) = Ok (insert_record st r).
Proof.
  intros [Hlen Hdec] Hv. unfold replay_line, enc_line. rewrite len_app.
  change (len (String nl "")) with 1.
  destruct (Z.ltb_spec (MAX_LEDGER_RECORD_BYTES + 1) (len (canonical_bytes r) + 1)); [lia|].
  rewrite (proj2 (strip_suffix_some _ _ (canonical_bytes r))) by done.
  unfold canonical_bytes at 1. rewrite to_vec_nonempty. rewrite Hdec, String.eqb_refl. simpl.
  by rewrite Hv.
Qed.

Lemma canonical_bytes_one_line (r : LedgerRecord) : has_char nl (canonical_bytes r) = false.
Proof. apply to_vec_one_line. Qed.

Lemma read_until_enc r rest :
  record_fits r ->
  read_until (MAX_LEDGER_RECORD_BYTES + 2) (enc_line r +:+ rest) = (enc_line r, rest).
Proof.
  intros [Hlen _]. unfold enc_line. rewrite str_app_assoc.
  apply read_until_line; [apply canonical_bytes_one_line|lia].
Qed.

Lemma enc_line_nonempty r : is_empty (enc_line r) = false.
Proof. unfold enc_line. by destruct (canonical_bytes r). Qed.

(** The loop reads the lines of valid records one by one, then goes on. *)
Lemma replay_loop_records sg rs rest st n fuel :
  Forall record_fits rs -> valid_from sg st rs -> (length rs < fuel)%nat ->
  replay_loop fuel sg (encode_all rs +:+ rest) st n =
  replay_loop (fuel - length rs) sg rest (foldl insert_record st rs) (n + Z.of_nat (length rs)).
Proof.
  revert st n fuel. induction rs as [|r rs IH]; intros st n fuel Hf Hv Hfuel; simpl in *.
  - rewrite Z.add_0_r. f_equal. lia.
  - apply Forall_cons in Hf as [Hr Hf]. destruct Hv as [Hv Hvs].
    destruct fuel as [|fuel]; [lia|]. simpl. unfold encode_all. simpl.
    rewrite str_app_assoc, read_until_enc by done. rewrite enc_line_nonempty.
    rewrite replay_line_enc by done. simpl. fold (encode_all rs).
    rewrite IH by (done || lia). f_equal. lia.
Qed.

Lemma replay_loop_inv sg fuel contents st n st' :
  replay_loop fuel sg contents st n = Ok st' ->
  exists rs, contents = encode_all rs /\ Forall record_fits rs /\ valid_from sg st rs
             /\ st' = foldl insert_record st rs.
Proof.
  revert contents st n. induction fuel as [|fuel IH]; intros contents st n; simpl; [done|].
  destruct (read_until _ contents) as [line rest] eqn:E.
  destruct (is_empty line) eqn:El.
  - apply is_empty_true in El as ->. intros [= <-].
    apply read_until_empty in E as ->; [|done]. exists []. done.
  - intros H. inv_ok. apply replay_line_inv in Hok as (r & -> & Hr & Hv & ->).
    apply read_until_split in E as ->. apply IH in H as (rs & -> & Hrs & Hvs & ->).
    exists (r :: rs). split; [done|]. split; [by constructor|]. done.
Qed.

Lemma encode_all_length rs : (length rs <= String.length (encode_all rs))%nat.
Proof.
  induction rs as [|r rs IH]; [simpl; lia|]. unfold encode_all. simpl. fold (encode_all rs).
  unfold enc_line. rewrite !str_length_app. simpl. lia.
Qed.

(** The file of a ledger and the records it stands for. *)
Lemma replay_iff sg contents st :
  replay sg contents = Ok st <->
  exists rs, contents = encode_all rs /\ Forall record_fits rs
             /\ valid_from sg LedgerState_default rs /\ st = replayed rs.
Proof.
  split.
  - apply replay_loop_inv.
  - intros (rs & -> & Hf & Hv & ->). unfold replay.
    pose proof (encode_all_length rs) as Hlen.
    rewrite <- (str_app_nil_r (encode_all rs)) at 2.
    rewrite replay_loop_records by (done || lia).
    destruct (S (String.length (encode_all rs)) - length rs)%nat as [|k] eqn:Ek; [lia|]. done.
Qed.

(** *** Appending *)

Definition store_ok (s : Store) : Prop := replay (signer s) (ledger s) = Ok (state s).

Lemma u64_ok_next h : u64_ok (next_sequence h) = true.
Proof.
  unfold next_sequence, u64_ok, u64_add, u64_max. destruct h as [h|]; [|done].
  pose proof (Z.mod_pos_bound (lh_sequence h + 1) (2 ^ 64) ltac:(lia)).
  apply andb_true_iff. rewrite !Z.leb_le. lia.
Qed.

Lemma make_record_ok s event p now : event_ok event = true -> record_ok (make_record s event p now) = true.
Proof.
  intros He. unfold record_ok, make_record, body_ok. simpl. unfold event_ok in He.
  unfold event_ok. rewrite He, u64_ok_next. simpl.
  case_goal; [|done]. unfold checkpoint_ok. simpl. apply u64_ok_next.
Qed.

Lemma decode_canonical r : record_ok r = true -> decode_record (canonical_bytes r) = Some r.
Proof.
  intros Hr. unfold decode_record, canonical_bytes.
  rewrite from_slice_to_vec by (apply canonical_value_distinct, record_distinct).
  by apply record_roundtrip.
Qed.
End Facts.
