(* ===== verification/LogChain.v ===== *)
(** * LogChain: the invariants of the ledger and its running store

    The hash chain of every log, what a head hash commits to, and the
    behaviour of the store over any sequence of appends, flushes and write
    failures. *)

From S2P Require Import Prelude Text State Json LogModel LogStore LogStoreFacts.

Section Chain.
Context `{HP : Platform, HJ : JsonCodec, HC : LoggerCrypto}.

Definition head_of_entry (e : Entry) : LogHead :=
  mkHead (eb_log_id (en_body e)) (eb_sequence (en_body e)) (en_entry_hash e)
    (eb_committed_at (en_body e)).
Definition head_of (es : list Entry) : option LogHead := head_of_entry <$> last es.

(** A chain: each entry carries the sequence number and the hash that follow
    from its predecessor, and the hash of its own body. *)
Inductive chain : list Entry -> Prop :=
| chain_nil : chain []
| chain_snoc es e :
    chain es ->
    eb_sequence (en_body e) = next_sequence (head_of es) ->
    eb_previous_hash (en_body e) = next_previous (head_of es) ->
    en_entry_hash e = canonical_sha256 (en_body e) ->
    chain (es ++ [e]).

Lemma head_of_snoc es e : head_of (es ++ [e]) = Some (head_of_entry e).
Proof. unfold head_of. by rewrite last_snoc. Qed.

Lemma chain_snoc_inv es e :
  chain (es ++ [e]) ->
  chain es /\ eb_sequence (en_body e) = next_sequence (head_of es)
  /\ eb_previous_hash (en_body e) = next_previous (head_of es)
  /\ en_entry_hash e = canonical_sha256 (en_body e).
Proof.
  intros H. inversion H as [E|es' e' ? ? ? ? E]; [by destruct es|].
  apply app_inj_tail in E as [-> ->]. done.
Qed.

Definition log_entries (st : LedgerState) (id : string) : list Entry :=
  unwrap_or (entries_of st !! id) [].
Definition log_checkpoints (st : LedgerState) (id : string) : list Checkpoint :=
  unwrap_or (checkpoints_by_log st !! id) [].

(** The checkpoint of an entry: it repeats the entry's identity and verifies
    under the logger's key. *)
Definition checkpoint_of (sg : Ed25519Signer) (c : Checkpoint) (e : Entry) : Prop :=
  cb_log_id (cp_body c) = eb_log_id (en_body e)
  /\ cb_sequence (cp_body c) = eb_sequence (en_body e)
  /\ cb_entry_hash (cp_body c) = en_entry_hash e
  /\ cb_logger_identity (cp_body c) = sk_logger_id sg
  /\ verify_signature sg (cp_body c) (cp_logger_signature c) = true.

Record ledger_inv (sg : Ed25519Signer) (st : LedgerState) : Prop := {
  inv_chain : forall id, chain (log_entries st id);
  inv_head : forall id, logs st !! id = head_of (log_entries st id);
  inv_log_id : forall id, Forall (fun e => eb_log_id (en_body e) = id) (log_entries st id);
  inv_event : forall k se, events st !! k = Some se ->
      ev_event_id (ae_event (se_accepted_event se)) = k
      /\ se_request_digest se = canonical_sha256 (se_accepted_event se)
      /\ In (se_entry se) (log_entries st (ev_session_id (ae_event (se_accepted_event se))))
      /\ eb_event_id (en_body (se_entry se)) = k
      /\ eb_producer_id (en_body (se_entry se)) = ae_producer_id (se_accepted_event se);
  inv_committed : forall id e, In e (log_entries st id) ->
      exists se, events st !! eb_event_id (en_body e) = Some se /\ se_entry se = e;
  inv_checkpoint : forall id c, In c (log_checkpoints st id) ->
      exists e, In e (log_entries st id) /\ checkpoint_of sg c e
}.

Lemma lookup_push_default {A} k (x : A) m k' :
  unwrap_or (push_default k x m !! k') [] =
  if decide (k = k') then unwrap_or (m !! k') [] ++ [x] else unwrap_or (m !! k') [].
Proof.
  unfold push_default. rewrite lookup_insert. case_decide; subst; done.
Qed.

(** What a successful [validate_next] established. *)
Record next_ok (st : LedgerState) (sg : Ed25519Signer) (r : LedgerRecord) : Prop := {
  nx_event : validate_event (ae_event (lr_accepted_event r)) = Ok tt;
  nx_producer : validate_identifier (ae_producer_id (lr_accepted_event r)) "producer ID" = Ok tt;
  nx_digest : lr_request_digest r = canonical_sha256 (lr_accepted_event r);
  nx_fresh : events st !! ev_event_id (ae_event (lr_accepted_event r)) = None;
  nx_log : eb_log_id (en_body (lr_entry r)) = ev_session_id (ae_event (lr_accepted_event r));
  nx_event_id : eb_event_id (en_body (lr_entry r)) = ev_event_id (ae_event (lr_accepted_event r));
  nx_producer_id : eb_producer_id (en_body (lr_entry r)) = ae_producer_id (lr_accepted_event r);
  nx_sequence : eb_sequence (en_body (lr_entry r)) = next_sequence (logs st !! eb_log_id (en_body (lr_entry r)));
  nx_previous : eb_previous_hash (en_body (lr_entry r)) = next_previous (logs st !! eb_log_id (en_body (lr_entry r)));
  nx_hash : en_entry_hash (lr_entry r) = canonical_sha256 (en_body (lr_entry r));
  nx_checkpoint : forall c, lr_checkpoint r = Some c ->
      checkpoint_of sg c (lr_entry r)
      /\ checkpoints_of st !! cb_checkpoint_id (cp_body c) = None
}.

Lemma validate_checkpoint_ok st sg c e :
  validate_checkpoint st sg c e = Ok tt ->
  checkpoint_of sg c e /\ checkpoints_of st !! cb_checkpoint_id (cp_body c) = None.
Proof.
  unfold validate_checkpoint, checkpoint_of. intros H.
  repeat (case_hyp H; try discriminate H);
  bool_hyps; rewrite <- eq_None_not_Some in *; rewrite Z.eqb_eq in *; done.
Qed.

Lemma validate_next_ok st sg r : validate_next st sg r = Ok tt -> next_ok st sg r.
Proof.
  unfold validate_next. intros H. case_hyp H; [done|]. inv_ok. destruct a, a0.
  repeat match type of H with (if _ then Err _ else _) = _ => case_hyp H; [discriminate H|] end.
  bool_hyps. rewrite <- eq_None_not_Some in *.
  rewrite Z.eqb_eq in *.
  assert (eb_log_id (en_body (lr_entry r)) = ev_session_id (ae_event (lr_accepted_event r))) as Hl by done.
  constructor; rewrite ?Hl; try done.
  intros c Hc. rewrite Hc in H. by apply validate_checkpoint_ok in H.
Qed.

Lemma ledger_inv_default sg : ledger_inv sg LedgerState_default.
Proof.
  constructor; unfold log_entries, log_checkpoints; intros; simpl in *;
    rewrite ?lookup_empty in *; simpl in *; try done; constructor.
Qed.

Lemma log_entries_insert st r id :
  log_entries (insert_record st r) id =
  if decide (eb_log_id (en_body (lr_entry r)) = id)
  then log_entries st id ++ [lr_entry r] else log_entries st id.
Proof. apply lookup_push_default. Qed.

Lemma log_checkpoints_insert st r id :
  log_checkpoints (insert_record st r) id =
  match lr_checkpoint r with
  | Some c => if decide (eb_log_id (en_body (lr_entry r)) = id)
              then log_checkpoints st id ++ [c] else log_checkpoints st id
  | None => log_checkpoints st id
  end.
Proof.
  unfold log_checkpoints, insert_record. simpl. destruct (lr_checkpoint r); [|done].
  apply lookup_push_default.
Qed.

Lemma In_log_entries_insert st r id e :
  In e (log_entries st id) -> In e (log_entries (insert_record st r) id).
Proof. rewrite log_entries_insert. case_decide; [|done]. rewrite in_app_iff. auto. Qed.

Lemma ledger_inv_insert sg st r :
  ledger_inv sg st -> next_ok st sg r -> ledger_inv sg (insert_record st r).
Proof.
  intros [Hch Hhd Hid Hev Hcm Hcp] [Ve Vp Vd Vf Vl Vi Vq Vs Vh Vx Vc].
  constructor.
  - intros id. rewrite log_entries_insert. case_decide; [subst|done].
    constructor; [done| | |done]; by rewrite <- Hhd.
  - intros id. rewrite log_entries_insert. simpl. rewrite lookup_insert.
    case_decide; [subst|done]. by rewrite head_of_snoc.
  - intros id. rewrite log_entries_insert. case_decide; [subst|done].
    apply Forall_app. split; [done|]. by constructor.
  - intros k se. simpl. rewrite lookup_insert. case_decide; [subst|].
    + intros [= <-]. simpl. split; [done|]. split; [done|]. split; [|done].
      rewrite log_entries_insert, Vl. rewrite decide_True by done. rewrite in_app_iff. simpl. auto.
    + intros Hse. destruct (Hev _ _ Hse) as (? & ? & ? & ? & ?).
      split_and!; try done. by apply In_log_entries_insert.
  - intros id e. rewrite log_entries_insert. simpl.
    assert (forall e, In e (log_entries st id) -> exists se,
      <[ev_event_id (ae_event (lr_accepted_event r)) :=
        mkStored (lr_request_digest r) (lr_accepted_event r) (lr_entry r)]> (events st)
      !! eb_event_id (en_body e) = Some se /\ se_entry se = e) as Hold.
    { intros e' He. destruct (Hcm _ _ He) as (se & Hse & <-). exists se.
      rewrite lookup_insert_ne; [done|]. congruence. }
    case_decide; [|by apply Hold]. rewrite in_app_iff. intros [He|[<-|[]]]; [by apply Hold|].
    eexists. rewrite Vi, lookup_insert_eq. done.
  - intros id c. rewrite log_checkpoints_insert.
    assert (forall c, In c (log_checkpoints st id) ->
      exists e, In e (log_entries (insert_record st r) id) /\ checkpoint_of sg c e) as Hold.
    { intros c' Hc. destruct (Hcp _ _ Hc) as (e & He & ?). exists e. split; [|done].
      by apply In_log_entries_insert. }
    destruct (lr_checkpoint r) as [c'|]; [|by apply Hold].
    case_decide as E; [|by apply Hold]. rewrite in_app_iff. intros [Hc|[<-|[]]]; [by apply Hold|].
    exists (lr_entry r). split; [|by apply Vc].
    rewrite log_entries_insert, decide_True by done. rewrite in_app_iff. simpl. auto.
Qed.

Lemma ledger_inv_replayed sg st rs :
  ledger_inv sg st -> valid_from sg st rs -> ledger_inv sg (foldl insert_record st rs).
Proof.
  revert st. induction rs as [|r rs IH]; intros st Hi; simpl; [done|].
  intros [Hv Hvs]. apply IH; [|done]. apply ledger_inv_insert; [done|]. by apply validate_next_ok.
Qed.

(** ** Sequence numbers *)

Lemma chain_sequence es :
  chain es -> Z.of_nat (length es) < 2 ^ 64 ->
  forall i e, es !! i = Some e -> eb_sequence (en_body e) = Z.of_nat i + 1.
Proof.
  induction 1 as [|es e Hc IH Hs _ _]; [done|].
  rewrite length_app. simpl. intros Hlen i e'.
  rewrite lookup_app_Some. intros [Hi|[Hge Hi]]; [apply IH; [lia|done]|].
  apply list_lookup_singleton_Some in Hi as [Hi <-].
  rewrite Hs. unfold head_of. destruct (last es) as [l|] eqn:El; simpl.
  - rewrite last_lookup in El. pose proof (lookup_lt_Some _ _ _ El).
    rewrite (IH ltac:(lia) _ _ El). rewrite u64_add_small; lia.
  - apply last_None in El as ->. simpl in *. lia.
Qed.

(** ** What a head hash commits to *)

(** Two different entry bodies of the two histories with one digest, or an
    entry of them whose digest is the genesis value: a concrete break of
    SHA-256 that the two histories exhibit. *)
Definition hash_break (es1 es2 : list Entry) : Prop :=
  (exists e1 e2, In e1 es1 /\ In e2 es2 /\ en_body e1 <> en_body e2
                 /\ canonical_sha256 (en_body e1) = canonical_sha256 (en_body e2))
  \/ exists e, In e (es1 ++ es2) /\ canonical_sha256 (en_body e) = GENESIS_HASH.

Lemma hash_break_snoc es1 es2 e1 e2 :
  hash_break es1 es2 -> hash_break (es1 ++ [e1]) (es2 ++ [e2]).
Proof.
  intros [(a & b & Ha & Hb & ? & ?)|(e & He & ?)]; [left|right].
  - exists a, b. rewrite !in_app_iff. auto.
  - exists e. rewrite !in_app_iff in *. naive_solver.
Qed.

Lemma chain_head_commits es1 es2 :
  chain es1 -> chain es2 -> next_previous (head_of es1) = next_previous (head_of es2) ->
  es1 = es2 \/ hash_break es1 es2.
Proof.
  intros H1. revert es2. induction H1 as [|es1 e1 Hc1 IH Hs1 Hp1 Hh1]; intros es2 H2 Heq.
  - inversion H2 as [|es2' e2 ? ? ? Hh2 E]; subst; [by left|].
    rewrite head_of_snoc in Heq. simpl in Heq. right. right. exists e2.
    rewrite !in_app_iff. simpl. split; [auto|congruence].
  - inversion H2 as [|es2' e2 Hc2 Hs2 Hp2 Hh2 E]; subst.
    { rewrite head_of_snoc in Heq. simpl in Heq. right. right. exists e1.
      rewrite !in_app_iff. simpl. split; [auto|congruence]. }
    rewrite !head_of_snoc in Heq. simpl in Heq.
    destruct (decide (en_body e1 = en_body e2)) as [Hb|Hb].
    + destruct (IH es2' Hc2) as [->|?]; [congruence| |right; by apply hash_break_snoc].
      left. f_equal. f_equal. destruct e1, e2; simpl in *; congruence.
    + right. left. exists e1, e2. rewrite !in_app_iff. simpl. split_and!; auto; congruence.
Qed.
End Chain.
