(* ===== verification/Instances.v ===== *)
(** * Instances: executable stand-ins for the code outside the repository

    Concrete functions for the platform, the JSON syntax and the signatures,
    with the laws the development asks of them. They are not the functions the
    program links against; they show that the laws can hold together, and every
    witness evaluates on them. *)

From stdpp Require Import countable.
From S2P Require Import Prelude Text State Json LogModel LogStore.

(** ** A JSON syntax: tagged, with strings in two letters per byte *)

Definition letter (n : N) : ascii := ascii_of_N (97 + n).
Definition letter_code (c : ascii) : N := N_of_ascii c - 97.

Fixpoint put_str (s : string) : string :=
  match s with
  | EmptyString => ";"
  | String c s' =>
      String (letter (N_of_ascii c / 16)) (String (letter (N_of_ascii c mod 16)) (put_str s'))
  end.

Fixpoint get_str (s : string) : string * string :=
  match s with
  | String a (String b s') =>
      if Ascii.eqb a ";" then ("", String b s')
      else let '(t, r) := get_str s' in
           (String (ascii_of_N (letter_code a * 16 + letter_code b)) t, r)
  | String _ EmptyString | EmptyString => ("", "")
  end.

Lemma letter_ok n : (n < 16)%N ->
  letter_code (letter n) = n /\ Ascii.eqb (letter n) ";" = false /\ Ascii.eqb (letter n) nl = false.
Proof.
  intros H. rewrite <- (N2Z.id n). assert (0 <= Z.of_N n < 16) as Hn by lia.
  revert Hn. generalize (Z.of_N n) as d. clear. intros d Hd. by cases_below 16%nat d.
Qed.

Lemma byte_letters c :
  (N_of_ascii c / 16 < 16)%N /\ (N_of_ascii c mod 16 < 16)%N.
Proof.
  pose proof (N_ascii_bounded c). split; [apply N.Div0.div_lt_upper_bound; lia|].
  apply N.mod_lt. lia.
Qed.

Lemma get_put_str s r : r <> "" -> get_str (put_str s +:+ r) = (s, r).
Proof.
  intros Hr. induction s as [|c s IH]; simpl; [by destruct r|].
  destruct (byte_letters c) as [[H1 [H2 _]]%letter_ok [H3 _]%letter_ok].
  rewrite H2, IH, H1, H3, N.mul_comm, <- N.div_mod' by done. by rewrite ascii_N_embedding.
Qed.

Lemma put_str_one_line s : has_char nl (put_str s) = false.
Proof.
  induction s as [|c s IH]; simpl; [done|]. rewrite IH.
  destruct (byte_letters c) as [(_ & _ & ->)%letter_ok (_ & _ & ->)%letter_ok]. done.
Qed.

Fixpoint bits (p : positive) : string :=
  match p with
  | xH => ";"
  | xO p => String "0" (bits p)
  | xI p => String "1" (bits p)
  end.

Fixpoint unbits (s : string) : positive * string :=
  match s with
  | EmptyString => (xH, "")
  | String c s' =>
      if Ascii.eqb c ";" then (xH, s')
      else let '(p, r) := unbits s' in (if Ascii.eqb c "0" then xO p else xI p, r)
  end.

Lemma unbits_bits p r : unbits (bits p +:+ r) = (p, r).
Proof. induction p; simpl; rewrite ?IHp; done. Qed.

Lemma bits_one_line p : has_char nl (bits p) = false.
Proof. by induction p. Qed.

Fixpoint put (v : Value) : string :=
  match v with
  | VNull => "n"
  | VBool b => if b then "t" else "f"
  | VNum n => "i" +:+ bits (encode n)
  | VStr s => "s" +:+ put_str s
  | VArr l => "[" +:+ concat_all (map (fun v => String "," (put v)) l) +:+ "]"
  | VObj kvs =>
      "{" +:+ concat_all (map (fun kv => String "," (put_str kv.1 +:+ put kv.2)) kvs) +:+ "}"
  end.

(** The elements of an array or an object, up to the closing bracket. *)
Fixpoint get_many {A} (item : string -> option (A * string)) (fuel : nat) (s : string)
  : option (list A * string) :=
  match fuel, s with
  | S fuel', String c s' =>
      if Ascii.eqb c "," then
        x ← item s'; y ← get_many item fuel' x.2; Some (x.1 :: y.1, y.2)
      else Some ([], s')
  | _, _ => None
  end.

Fixpoint get (fuel : nat) (s : string) : option (Value * string) :=
  match fuel, s with
  | S fuel', String c s' =>
      if Ascii.eqb c "n" then Some (VNull, s')
      else if Ascii.eqb c "t" then Some (VBool true, s')
      else if Ascii.eqb c "f" then Some (VBool false, s')
      else if Ascii.eqb c "i" then
        let '(p, r) := unbits s' in n ← decode p; Some (VNum n, r)
      else if Ascii.eqb c "s" then let '(t, r) := get_str s' in Some (VStr t, r)
      else if Ascii.eqb c "[" then
        x ← get_many (get fuel') (S (String.length s')) s'; Some (VArr x.1, x.2)
      else if Ascii.eqb c "{" then
        x ← get_many (fun s => let '(k, r) := get_str s in x ← get fuel' r; Some ((k, x.1), x.2))
              (S (String.length s')) s';
        Some (VObj x.1, x.2)
      else None
  | _, _ => None
  end.

Fixpoint depth (v : Value) : nat :=
  match v with
  | VArr l => S (list_max (map depth l))
  | VObj kvs => S (list_max (map (fun kv => depth kv.2) kvs))
  | _ => 1
  end.

Lemma put_nonempty v : exists c s, put v = String c s.
Proof. destruct v as [|[]| | | |]; simpl; eauto. Qed.

Lemma get_many_put {A} (item : string -> option (A * string)) (f : A -> string) l fuel c r :
  Ascii.eqb c "," = false -> (length l < fuel)%nat ->
  Forall (fun x => forall r, r <> "" -> item (f x +:+ r) = Some (x, r)) l ->
  get_many item fuel (concat_all (map (fun x => String "," (f x)) l) +:+ String c r) = Some (l, r).
Proof.
  intros Hc. revert l. induction fuel as [|fuel IH]; intros l Hf Hl; [simpl in Hf; lia|].
  destruct Hl as [|x l Hx Hl]; simpl; [by rewrite Hc|].
  rewrite str_app_assoc, Hx.
  - simpl. rewrite IH; [done|simpl in Hf; lia|exact Hl].
  - by destruct l.
Qed.

Lemma concat_put_length {A} (f : A -> string) l :
  (length l <= String.length (concat_all (map (fun x => String "," (f x)) l)))%nat.
Proof. induction l; simpl; rewrite ?str_length_app; lia. Qed.


#[local] Arguments get_many : simpl never.

Lemma get_put v fuel r : (depth v <= fuel)%nat -> r <> "" -> get fuel (put v +:+ r) = Some (v, r).
Proof.
  revert fuel r. induction v as [|[]| | |l IH|kvs IH] using Value_nested_ind;
    intros [|fuel] r Hd Hr; simpl in Hd; try lia; try done; simpl.
  - rewrite unbits_bits. simpl. by destruct n.
  - by rewrite get_put_str.
  - rewrite str_app_assoc. simpl. rewrite get_many_put; [done|done| |].
    + rewrite str_length_app. pose proof (concat_put_length put l). lia.
    + rewrite Forall_forall in IH |- *. intros x Hx r' Hr'. apply IH; [done| |done].
      pose proof (proj1 (list_max_le (map depth l) fuel) ltac:(lia)) as Hm.
      rewrite List.Forall_forall in Hm. apply Hm, in_map. by apply list_elem_of_In.
  - rewrite str_app_assoc. simpl.
    rewrite (get_many_put _ (fun kv => put_str kv.1 +:+ put kv.2)); [done|done| |].
    + rewrite str_length_app. pose proof (concat_put_length (fun kv => put_str kv.1 +:+ put kv.2) kvs). lia.
    + rewrite Forall_forall in IH |- *. intros [k x] Hx r' Hr'. simpl.
      destruct (put_nonempty x) as (c & t & E).
      rewrite str_app_assoc, get_put_str by (rewrite E; done). rewrite (IH (k, x) Hx); [done| |done].
      pose proof (proj1 (list_max_le (map (fun kv => depth kv.2) kvs) fuel) ltac:(lia)) as Hm.
      rewrite List.Forall_forall in Hm. apply Hm, (in_map (fun kv => depth kv.2) kvs (k, x)).
      by apply list_elem_of_In.
Qed.

Lemma concat_one_line {A} (f : A -> string) l :
  Forall (fun x => has_char nl (f x) = false) l -> has_char nl (concat_all (map f l)) = false.
Proof. induction 1; simpl; [done|]. by rewrite has_char_app, H, IHForall. Qed.

Lemma put_one_line v : has_char nl (put v) = false.
Proof.
  induction v as [|[]| | |l IH|kvs IH] using Value_nested_ind; simpl; try done.
  - apply bits_one_line.
  - apply put_str_one_line.
  - rewrite has_char_app, concat_one_line; [done|]. eapply Forall_impl; [exact IH|]. done.
  - rewrite has_char_app, concat_one_line; [done|]. eapply Forall_impl; [exact IH|].
    intros x Hx. simpl. by rewrite has_char_app, put_str_one_line.
Qed.

Lemma put_depth v : (depth v <= String.length (put v))%nat.
Proof.
  induction v as [|[]| | |l IH|kvs IH] using Value_nested_ind; simpl; rewrite ?str_length_app; simpl; try lia.
  - assert (list_max (map depth l) <= String.length (concat_all (map (fun v => String "," (put v)) l)))%nat; [|lia].
    induction IH; simpl; rewrite ?str_length_app; lia.
  - assert (list_max (map (fun kv => depth kv.2) kvs) <=
      String.length (concat_all (map (fun kv => String "," (put_str kv.1 +:+ put kv.2)) kvs)))%nat; [|lia].
    induction IH; simpl; rewrite ?str_length_app; lia.
Qed.

#[global] Instance toy_json : JsonCodec := {
  to_vec v := put v;
  from_slice s := x ← get (String.length s) (s +:+ "."); if distinct_keys x.1 then Some x.1 else None
}.

#[global] Instance toy_json_laws : JsonCodecLaws.
Proof.
  constructor; cbn [to_vec from_slice toy_json].
  - intros v Hv. rewrite get_put; [|apply put_depth|done]. simpl. by rewrite Hv.
  - apply put_one_line.
  - intros v. by destruct (put_nonempty v) as (c & s & ->).
Qed.

#[global] Instance toy_pretty : JsonPretty := fun v => put v.

#[global] Instance toy_pretty_law : JsonPrettyLaw.
Proof.
  intros v Hv. cbn [from_slice toy_json]. unfold to_string_pretty, toy_pretty.
  rewrite str_app_assoc, get_put; [simpl; by rewrite Hv| |done].
  rewrite str_length_app. pose proof (put_depth v). lia.
Qed.

#[global] Instance toy_file_laws : JsonFileLaws.
Proof.
  constructor; [exact toy_pretty_law|]. intros s v. cbn [from_slice toy_json]. intros Hs.
  apply bind_Some in Hs as (x & _ & Hs). by destruct (distinct_keys x.1) eqn:E; simplify_eq.
Qed.

(** ** A hash, a clock and a signature *)

Fixpoint hex_digits (n : nat) (z : Z) : string :=
  match n with
  | O => ""
  | S n' => let d := z mod 16 in
            String (if d <? 10 then ascii_of_N (Z.to_N (48 + d)) else ascii_of_N (Z.to_N (87 + d)))
              (hex_digits n' (z / 16))
  end.

Fixpoint mix (acc : Z) (s : string) : Z :=
  match s with
  | EmptyString => acc
  | String c s' => mix (Z.land (acc * 33 + code c + 1) 281474976710655) s'
  end.

Definition toy_hash (s : string) : string := hex_digits 64 (mix 7 s * 1152921504606847009).

Definition toy_platform (vars : string -> option string) (uid : Z) : Platform := {|
  sha256_hex := toy_hash;
  rfc3339_secs n := "2026-01-01T00:00:" +:+ u64_to_string (Z.of_nat n) +:+ "Z";
  env_var := vars;
  getuid := uid;
  geteuid := uid;
  current_dir := Ok "/work";
  os_error := "I/O error"
|}.

Lemma toy_clock_clean vars uid : @ClockClean (toy_platform vars uid).
Proof.
  intros n. cbn [rfc3339_secs toy_platform]. rewrite !clean_field_app. by rewrite u64_to_string_clean by lia.
Qed.

Lemma hex_digits_length n z : String.length (hex_digits n z) = n.
Proof. revert z. induction n; intros; simpl; congruence. Qed.

Lemma hex_digits_lower n z : all_chars lower_hex (hex_digits n z) = true.
Proof.
  revert z. induction n as [|n IH]; intros z; simpl; [done|]. rewrite IH, andb_true_r.
  pose proof (Z.mod_pos_bound z 16 ltac:(lia)) as Hb. set (d := z mod 16) in *.
  clearbody d. by cases_below 16%nat d.
Qed.

Lemma toy_hash_shape vars uid : @HashShape (toy_platform vars uid).
Proof. constructor; intros; [apply hex_digits_length|apply hex_digits_lower]. Qed.

#[global] Instance toy_crypto : LoggerCrypto := {
  ed_sign := toy_hash;
  ed_verify m s := String.eqb s (toy_hash m);
  rfc3339_valid s := negb (is_empty s)
}.

#[global] Instance toy_crypto_laws : LoggerCryptoLaws.
Proof. intros m. apply String.eqb_refl. Qed.
