(* ===== verification/LogProps.v ===== *)
(** * LogProps: what the audit logger guarantees *)

From S2P Require Import Prelude Text State Json LogModel LogStore LogStoreFacts LogChain Instances.

(** ** One append *)

Section Append.
Context `{HP : Platform, HJ : JsonCodec, HC : LoggerCrypto, HL : !JsonCodecLaws}.

(** Either nothing changed, or the record passed every check and went to the
    file, completely or up to a failure. *)
Lemma append_inv io now s ev p r s' :
  append io now s ev p = (r, s') ->
  (s' = s /\ r <> Ok Appended)
  \/ (writable s = true /\ events (state s) !! ev_event_id ev = None
      /\ validate_next (state s) (signer s) (make_record s ev p now) = Ok tt
      /\ len (canonical_bytes (make_record s ev p now)) <= MAX_LEDGER_RECORD_BYTES
      /\ signer s' = signer s
      /\ match io with
         | Wrote => r = Ok Appended /\ writable s' = true
                    /\ ledger s' = ledger s +:+ enc_line (make_record s ev p now)
                    /\ state s' = insert_record (state s) (make_record s ev p now)
         | Failed n => (exists e, r = Err (Internal e)) /\ writable s' = false
                    /\ ledger s' = ledger s +:+ String.substring 0 n (enc_line (make_record s ev p now))
                    /\ state s' = state s
         end).
Proof.
  unfold append. destruct (writable s) eqn:Ew; simpl; [|by intros [= <- <-]; left].
  destruct (events (state s) !! ev_event_id ev) as [se|] eqn:Ee.
  { destruct (String.eqb _ _); intros [= <- <-]; by left. }
  destruct (validate_next _ _ _) as [[]|e] eqn:Ev; [|by intros [= <- <-]; left].
  destruct (Z.ltb_spec MAX_LEDGER_RECORD_BYTES (len (canonical_bytes (make_record s ev p now))));
    [by intros [= <- <-]; left|].
  destruct io; intros [= <- <-]; right; split_and!; eauto.
Qed.

Lemma append_store_ok io now s ev p r s' :
  store_ok s -> event_ok ev = true -> append io now s ev p = (r, s') -> writable s' = true ->
  store_ok s'.
Proof.
  intros Hs He [[-> _]|(_ & _ & Hv & Hlen & Hsg & Hio)]%append_inv Hw; [done|].
  destruct io; [|destruct Hio as (_ & ? & _); congruence].
  destruct Hio as (_ & _ & Hl & Hst). unfold store_ok in *. rewrite Hl, Hst, Hsg.
  apply replay_iff in Hs as (rs & -> & Hf & Hvs & Hr). apply replay_iff.
  exists (rs ++ [make_record s ev p now]). rewrite encode_all_snoc, valid_from_snoc.
  unfold replayed in *. rewrite foldl_app, <- Hr. split; [done|]. split; [|done].
  apply Forall_app. split; [done|]. repeat constructor; [done|].
  by apply decode_canonical, make_record_ok.
Qed.

Lemma verify_ok s : writable s = true -> store_ok s -> forall id, vf_ok (verify s id) = true.
Proof.
  intros Hw Hs id. unfold verify. rewrite Hs, Hw.
  rewrite (bool_decide_true (state s = state s)) by done. done.
Qed.

(** The stores of a running logger: opened from a file, then any appends (with
    any write outcome) and projection flushes. *)
Inductive reachable (sg : Ed25519Signer) (interval : Z) (proj : bool) : Store -> Prop :=
| reach_open contents s : open contents sg interval proj = Ok s -> reachable sg interval proj s
| reach_append io now s ev p r s' :
    reachable sg interval proj s -> event_ok ev = true ->
    append io now s ev p = (r, s') -> reachable sg interval proj s'
| reach_flush dir_ok wrote s c s' :
    reachable sg interval proj s -> flush_projections dir_ok wrote s = (c, s') -> reachable sg interval proj s'.

Lemma append_writable io now s ev p r s' :
  append io now s ev p = (r, s') -> writable s' = true -> writable s = true.
Proof.
  intros [[-> _]|(Hw & _)]%append_inv ?; done.
Qed.

Lemma reachable_store_ok sg interval proj s :
  reachable sg interval proj s -> (writable s = true -> store_ok s) /\ signer s = sg.
Proof.
  induction 1 as [contents s Ho|io now s ev p r s' Hr [IH Hsg] He Ha|dir_ok wrote s c s' Hr [IH Hsg] Hf].
  - unfold open in Ho. inv_ok. split; [|done]. intros _. unfold store_ok. simpl. done.
  - split.
    + intros Hw. eapply append_store_ok; [|done|done|done]. apply IH. by eapply append_writable.
    + apply append_inv in Ha as [[-> _]|(_ & _ & _ & _ & -> & _)]; done.
  - unfold flush_projections in Hf. destruct dir_ok; injection Hf as <- <-; split; done.
Qed.
End Append.

(** ** Properties *)

Section Properties.
Context `{HP : Platform, HJ : JsonCodec, HC : LoggerCrypto, HL : !JsonCodecLaws}.

(** C1: replaying a ledger file succeeds exactly when the file is the
    concatenation of the canonical one-line encodings of records that each pass
    [validate_next] after their predecessors, and then the index is the one
    these records build. No other byte sequence is accepted. *)
Theorem ledger_replay_exact sg contents st :
  replay sg contents = Ok st <->
  exists rs, contents = encode_all rs /\ Forall record_fits rs
             /\ valid_from sg LedgerState_default rs /\ st = replayed rs.
Proof. apply replay_iff. Qed.

(** C2: at every moment of a running logger that has not seen a durability
    failure, replaying its file gives its in-memory index, and [verify] reports
    success for every selection of logs. *)
Theorem running_store_matches_file sg interval proj s id :
  reachable sg interval proj s -> writable s = true ->
  replay sg (ledger s) = Ok (state s) /\ vf_ok (verify s id) = true.
Proof.
  intros [Hs Hsg]%reachable_store_ok Hw. specialize (Hs Hw). split; [|by apply verify_ok].
  unfold store_ok in Hs. by rewrite <- Hsg.
Qed.

Lemma substring_prefix n s : exists r, s = String.substring 0 n s +:+ r.
Proof.
  revert s. induction n as [|n IH]; intros [|c s]; simpl; eauto.
  destruct (IH s) as [r Hr]. exists r. by f_equal.
Qed.

Lemma substring_full n s : (String.length s <= n)%nat -> String.substring 0 n s = s.
Proof.
  revert s. induction n as [|n IH]; intros [|c s]; simpl; try done; try lia.
  intros. f_equal. apply IH. lia.
Qed.

Lemma substring_line_proper n l :
  has_char nl l = false -> (0 < n <= String.length l)%nat ->
  exists c q, String.substring 0 n (l +:+ String nl "") = String c q
              /\ has_char nl (String c q) = false.
Proof.
  revert l. induction n as [|n IH]; intros [|c l]; simpl; try lia.
  intros [Hc Hl]%orb_false_iff Hn. exists c. eexists. split; [done|]. rewrite Hc. simpl.
  destruct n as [|n]; [by destruct l|].
  destruct (IH l Hl ltac:(lia)) as (d & q & -> & ->). done.
Qed.

Lemma ends_with_nl b a c q :
  b +:+ String nl "" = a +:+ String c q -> has_char nl (String c q) = true.
Proof.
  revert b. induction a as [|x a IH]; intros b E.
  - change ("" +:+ String c q) with (String c q) in E. rewrite <- E, has_char_app.
    apply orb_true_r.
  - destruct b as [|y b]; simpl in E; injection E; intros; [by destruct a|]. by eapply IH.
Qed.

Lemma encode_all_end rs a c q :
  encode_all rs = a +:+ String c q -> has_char nl (String c q) = true.
Proof.
  destruct rs as [|r rs _] using rev_ind; [by destruct a|].
  rewrite encode_all_snoc. unfold enc_line. rewrite <- str_app_assoc. apply ends_with_nl.
Qed.

(** C3: crash recovery. When the write of an append fails after [n] bytes, the
    append returns an error, the index is unchanged and the store refuses all
    further appends. A restart then finds: the old index when nothing had been
    written, the index with the whole record when all bytes had reached the
    file, and in every other case the replay refuses the file. *)
Theorem append_crash_recovery n now s ev p r s' :
  store_ok s -> event_ok ev = true -> append (Failed n) now s ev p = (r, s') -> s' <> s ->
  let record := make_record s ev p now in
  (exists e, r = Err (Internal e)) /\ state s' = state s
  /\ (forall io now' ev' p', exists e, append io now' s' ev' p' = (Err (Internal e), s'))
  /\ (n = 0%nat -> replay (signer s) (ledger s') = Ok (state s))
  /\ ((String.length (enc_line record) <= n)%nat ->
      replay (signer s) (ledger s') = Ok (insert_record (state s) record))
  /\ ((0 < n < String.length (enc_line record))%nat ->
      exists e, replay (signer s) (ledger s') = Err e).
Proof.
  intros Hs He [[? _]|(_ & _ & Hv & Hlen & Hsg & Hr & Hw & Hl & Hst)]%append_inv Hne record; [done|].
  apply replay_iff in Hs as (rs & Hc & Hf & Hvs & Hrs). split_and!; try done.
  - intros. unfold append. rewrite Hw. simpl. eauto.
  - intros ->. rewrite Hl. destruct (enc_line _); rewrite str_app_nil_r, Hc; apply replay_iff; eauto.
  - intros Hn. rewrite Hl, substring_full, Hc by done. apply replay_iff.
    exists (rs ++ [record]). rewrite encode_all_snoc, valid_from_snoc.
    unfold replayed in *. rewrite foldl_app, <- Hrs. split; [done|]. split; [|done].
    apply Forall_app. split; [done|]. repeat constructor; [done|].
    by apply decode_canonical, make_record_ok.
  - intros Hn. destruct (replay (signer s) (ledger s')) as [st|e] eqn:E; [|eauto].
    apply replay_iff in E as (rs' & E & _). exfalso.
    destruct (substring_line_proper n (canonical_bytes record)) as (c & q & Hq & Hno).
    { apply canonical_bytes_one_line. }
    { unfold enc_line in Hn. rewrite str_length_app in Hn. simpl in Hn. lia. }
    rewrite Hl in E. change (enc_line (make_record s ev p now)) with
      (canonical_bytes record +:+ String nl "") in E. rewrite Hq in E.
    symmetry in E. apply encode_all_end in E. congruence.
Qed.

Lemma replay_inv sg contents st : replay sg contents = Ok st -> ledger_inv sg st.
Proof.
  intros (rs & _ & _ & Hv & ->)%replay_iff.
  apply ledger_inv_replayed; [apply ledger_inv_default|done].
Qed.

(** C4: the hash chain. In every ledger that replays, each log is a chain: the
    n-th entry has sequence number n (for fewer than 2^64 entries), carries the
    hash of its predecessor (the genesis value for the first) and the hash of
    its own body; the head is the last entry; every entry belongs to exactly
    one accepted event and every checkpoint to an entry, with a signature that
    verifies. *)
Theorem ledger_is_hash_chain sg contents st :
  replay sg contents = Ok st ->
  ledger_inv sg st
  /\ forall id i e, Z.of_nat (length (log_entries st id)) < 2 ^ 64 ->
       log_entries st id !! i = Some e -> eb_sequence (en_body e) = Z.of_nat i + 1.
Proof.
  intros Hi%replay_inv. split; [done|]. intros id i e Hlen. apply chain_sequence; [|done]. by apply Hi.
Qed.

(** C5: tamper evidence. If two ledgers that both replay (say, the one a
    checkpoint was taken from and the one presented later) have the same head
    hash for a log, then the whole history of that log is the same in both, or
    the two histories themselves exhibit two entries with different bodies and
    one SHA-256 (or an entry that hashes to the genesis value). *)
Theorem head_hash_commits_history sg1 sg2 c1 c2 st1 st2 id h1 h2 :
  replay sg1 c1 = Ok st1 -> replay sg2 c2 = Ok st2 ->
  logs st1 !! id = Some h1 -> logs st2 !! id = Some h2 -> lh_entry_hash h1 = lh_entry_hash h2 ->
  log_entries st1 id = log_entries st2 id
  \/ hash_break (log_entries st1 id) (log_entries st2 id).
Proof.
  intros Hi1%replay_inv Hi2%replay_inv H1 H2 Hh.
  apply chain_head_commits; [by eapply inv_chain|by eapply inv_chain|].
  rewrite <- (inv_head _ _ Hi1), <- (inv_head _ _ Hi2), H1, H2. done.
Qed.

(** C6: idempotence. After an event was appended, sending it again (any time,
    whatever the disk does) answers [Duplicate] and changes nothing; the same
    event identifier with content of another digest answers [Conflict] and
    changes nothing. *)
Theorem append_idempotent io now s ev p s' :
  append io now s ev p = (Ok Appended, s') ->
  forall io' now' ev' p', ev_event_id ev' = ev_event_id ev ->
    append io' now' s' ev' p' =
      (if String.eqb (canonical_sha256 (mkAccepted ev p)) (canonical_sha256 (mkAccepted ev' p'))
       then Ok Duplicate else Err (Conflict "eventId already commits different content"), s').
Proof.
  intros [[_ ?]|(_ & _ & _ & _ & _ & Hio)]%append_inv io' now' ev' p' Hid; [done|].
  destruct io; [|by destruct Hio as [[? ?] _]].
  destruct Hio as (_ & Hw & _ & Hst). unfold append. rewrite Hw, Hst, Hid. simpl.
  rewrite lookup_insert_eq. simpl. by destruct (String.eqb _ _).
Qed.

Lemma entries_sequence_lt es e :
  chain es -> Z.of_nat (length es) < 2 ^ 64 - 1 -> In e es ->
  eb_sequence (en_body e) < next_sequence (head_of es).
Proof.
  intros Hc Hlen He.
  apply list_elem_of_In, list_elem_of_lookup in He as [i Hi].
  pose proof (lookup_lt_Some _ _ _ Hi). rewrite (chain_sequence _ Hc ltac:(lia) _ _ Hi).
  unfold head_of. destruct (last es) as [l|] eqn:El.
  - rewrite last_lookup in El. simpl. rewrite (chain_sequence _ Hc ltac:(lia) _ _ El).
    rewrite u64_add_small; lia.
  - apply last_None in El as ->. simpl in *. lia.
Qed.

Lemma create_checkpoint_valid st sg e :
  LoggerCryptoLaws ->
  checkpoints_of st !! cb_checkpoint_id (cp_body (create_checkpoint sg e)) = None ->
  (forall c, In c (log_checkpoints st (eb_log_id (en_body e))) ->
     cb_sequence (cp_body c) <> eb_sequence (en_body e)) ->
  validate_checkpoint st sg (create_checkpoint sg e) e = Ok tt.
Proof.
  intros Hlaw Hid Hseq. unfold validate_checkpoint. rewrite Hid. simpl.
  rewrite !String.eqb_refl, Z.eqb_refl. simpl.
  assert (verify_signature sg (cp_body (create_checkpoint sg e))
            (cp_logger_signature (create_checkpoint sg e)) = true) as Hsig.
  { unfold verify_signature. simpl. by rewrite !String.eqb_refl, ed_verify_sign. }
  simpl in Hsig. rewrite Hsig. simpl.
  unfold log_checkpoints in Hseq. destruct (checkpoints_by_log st !! _) as [cs|]; [|done].
  destruct (existsb _ cs) eqn:Ex; [|done].
  apply existsb_exists in Ex as (c & Hc & Hce%Z.eqb_eq). by destruct (Hseq c Hc).
Qed.

(** C7: an append is not refused without reason. On a store in step with its
    file, a valid event with a fresh identifier, from a producer with a valid
    name, whose record fits in a line and whose scheduled checkpoint (if any)
    has a fresh identifier is appended, whatever the state of the log below
    2^64 - 1 entries. *)
Theorem append_accepts now s ev p :
  LoggerCryptoLaws ->
  store_ok s -> writable s = true ->
  validate_event ev = Ok tt -> validate_identifier p "producer ID" = Ok tt ->
  events (state s) !! ev_event_id ev = None -> rfc3339_valid now = true ->
  Z.of_nat (length (log_entries (state s) (ev_session_id ev))) < 2 ^ 64 - 1 ->
  len (canonical_bytes (make_record s ev p now)) <= MAX_LEDGER_RECORD_BYTES ->
  (forall c, lr_checkpoint (make_record s ev p now) = Some c ->
     checkpoints_of (state s) !! cb_checkpoint_id (cp_body c) = None) ->
  exists s', append Wrote now s ev p = (Ok Appended, s')
             /\ log_entries (state s') (ev_session_id ev) =
                log_entries (state s) (ev_session_id ev) ++ [lr_entry (make_record s ev p now)].
Proof.
  intros Hlaw Hs%replay_inv Hw Hev Hp Hfresh Hnow Hlen Hsize Hcp.
  set (record := make_record s ev p now) in *.
  assert (validate_next (state s) (signer s) record = Ok tt) as Hv.
  { unfold validate_next. simpl. rewrite Hev, Hp. simpl.
    rewrite Hfresh, !String.eqb_refl, Hnow, Z.eqb_refl. simpl.
    rewrite bool_decide_true by done. simpl.
    destruct (_ =? 0) eqn:Hsched; [|done]. apply create_checkpoint_valid; [done| |].
    - apply Hcp. subst record. unfold make_record. simpl. by rewrite Hsched.
    - intros c Hc. simpl in Hc. destruct (inv_checkpoint _ _ Hs _ _ Hc) as (e & He & _ & Hce & _).
      pose proof (entries_sequence_lt _ e (inv_chain _ _ Hs _) Hlen He) as Hlt.
      rewrite <- (inv_head _ _ Hs) in Hlt. simpl. lia. }
  unfold append. rewrite Hw, Hfresh. fold record. rewrite Hv. simpl.
  destruct (Z.ltb_spec MAX_LEDGER_RECORD_BYTES (len (canonical_bytes record))); [lia|].
  eexists. split; [done|]. cbn [state]. rewrite log_entries_insert. by rewrite decide_True.
Qed.

(** Paging. In a store in step with its file, the entries of a log after
    sequence number [k] are the chain without its first [k] entries, cut at
    [limit]: reading pages from 0 and continuing after the last number read
    enumerates the log without gaps or repetitions. *)
Theorem entries_paging s id k limit :
  store_ok s -> Z.of_nat (length (log_entries (state s) id)) < 2 ^ 64 ->
  entries s id (Z.of_nat k) limit = take limit (drop k (log_entries (state s) id)).
Proof.
  intros Hs%replay_inv Hlen. unfold entries. f_equal. fold (log_entries (state s) id).
  pose proof (chain_sequence _ (inv_chain _ _ Hs id) Hlen) as Hseq. clear Hlen.
  revert Hseq. generalize (log_entries (state s) id) as es. intros es.
  assert (forall m, (forall i e, es !! i = Some e -> eb_sequence (en_body e) = Z.of_nat (m + i) + 1) ->
    List.filter (fun e => Z.of_nat k <? eb_sequence (en_body e)) es = drop (k - m) es) as Hgen.
  { induction es as [|e es IH]; intros m Hm; simpl; [by rewrite drop_nil|].
    pose proof (Hm 0%nat e eq_refl) as H0.
    rewrite (IH (S m)) by (intros i e' Hi; rewrite (Hm (S i) e' Hi); lia).
    destruct (Z.ltb_spec (Z.of_nat k) (eb_sequence (en_body e))).
    - replace (k - m)%nat with 0%nat by lia. by replace (k - S m)%nat with 0%nat by lia.
    - replace (k - m)%nat with (S (k - S m)) by lia. done. }
  intros Hseq. rewrite (Hgen 0%nat) by (intros i e Hi; by rewrite (Hseq i e Hi)).
  by rewrite Nat.sub_0_r.
Qed.
End Properties.

(** Canonical JSON. Canonicalisation only reorders the members of objects;
    values that differ only in that order have the same canonical form; and the
    canonical form of a canonical form is itself. *)
Theorem canonical_value_canonical v w :
  distinct_keys v = true ->
  veq v (canonical_value v)
  /\ (veq v w -> canonical_value v = canonical_value w)
  /\ canonical_value (canonical_value v) = canonical_value v.
Proof.
  intros Hd. split; [apply canonical_value_refines|]. split.
  - intros Hv. by apply canonical_value_veq.
  - apply canonical_value_idem.
Qed.

(** ** Witnesses: a logger with a checkpoint every second entry *)

Module LogWitness.

#[local] Instance platform : Platform := toy_platform (fun _ => None) 0.

Definition sg : Ed25519Signer := mkSigner "key-1" "logger-1".
Definition ev (id : string) : Event :=
  mkEvent id "session-1" "reviewer.verdict" ("sha256:" +:+ toy_hash id)
    [mkArtifact "s3://audit/session-1.jsonl" None (Some 42) (Some "application/jsonl")].
Definition empty_store : Store := mkStore "" sg 2 true ∅ LedgerState_default true.
Definition s1 : Store := Eval vm_compute in (append Wrote "t1" empty_store (ev "event-1") "producer-1").2.
Definition s2 : Store := Eval vm_compute in (append Wrote "t2" s1 (ev "event-2") "producer-1").2.

Lemma empty_reachable : reachable sg 2 true empty_store.
Proof. by apply (reach_open sg 2 true ""). Qed.

Lemma s2_reachable : reachable sg 2 true s2.
Proof.
  apply (reach_append sg 2 true Wrote "t2" s1 (ev "event-2") "producer-1" (Ok Appended)); [|done|by vm_compute].
  apply (reach_append sg 2 true Wrote "t1" empty_store (ev "event-1") "producer-1" (Ok Appended));
    [apply empty_reachable|done|by vm_compute].
Qed.

Lemma ledger_replay_exact_witness :
  exists rs, ledger s2 = encode_all rs /\ Forall record_fits rs
             /\ valid_from sg LedgerState_default rs /\ state s2 = replayed rs.
Proof. apply (proj1 (ledger_replay_exact sg (ledger s2) (state s2))). vm_compute. reflexivity. Defined.

Lemma running_store_matches_file_witness :
  replay sg (ledger s2) = Ok (state s2) /\ vf_ok (verify s2 (Some "session-1")) = true.
Proof. apply (running_store_matches_file sg 2 true s2); [apply s2_reachable|reflexivity]. Defined.

(** The write of the second event stops after 100 bytes. *)
Definition crashed : Store := Eval vm_compute in (append (Failed 100) "t2" s1 (ev "event-2") "producer-1").2.

Lemma append_crash_recovery_witness :
  exists e, replay (signer s1) (ledger crashed) = Err e.
Proof.
  apply (append_crash_recovery 100 "t2" s1 (ev "event-2") "producer-1"
    (append (Failed 100) "t2" s1 (ev "event-2") "producer-1").1 crashed).
  - vm_compute. reflexivity.
  - reflexivity.
  - vm_compute. reflexivity.
  - intros H. apply (f_equal writable) in H. discriminate H.
  - split; [lia|]. apply Nat.ltb_lt. vm_compute. reflexivity.
Defined.

Lemma ledger_is_hash_chain_witness : ledger_inv sg (state s2).
Proof. apply (ledger_is_hash_chain sg (ledger s2)). vm_compute. reflexivity. Defined.

Lemma head_hash_commits_history_witness :
  log_entries (state s2) "session-1" = log_entries (state s2) "session-1"
  \/ hash_break (log_entries (state s2) "session-1") (log_entries (state s2) "session-1").
Proof.
  apply (head_hash_commits_history sg sg (ledger s2) (ledger s2) (state s2) (state s2) "session-1"
    (unwrap_or (logs (state s2) !! "session-1") (mkHead "" 0 "" ""))
    (unwrap_or (logs (state s2) !! "session-1") (mkHead "" 0 "" "")));
    vm_compute; reflexivity.
Defined.

Lemma append_idempotent_witness :
  append (Failed 3) "t9" s2 (ev "event-2") "producer-1" = (Ok Duplicate, s2).
Proof.
  pose proof (append_idempotent Wrote "t2" s1 (ev "event-2") "producer-1" s2) as Hdup.
  rewrite Hdup; [by rewrite String.eqb_refl|vm_compute; reflexivity|reflexivity].
Defined.

Lemma append_accepts_witness :
  exists s', append Wrote "t3" s2 (ev "event-3") "producer-1" = (Ok Appended, s')
             /\ log_entries (state s') "session-1" =
                log_entries (state s2) "session-1"
                ++ [lr_entry (make_record s2 (ev "event-3") "producer-1" "t3")].
Proof.
  apply (append_accepts "t3" s2 (ev "event-3") "producer-1");
    [exact toy_crypto_laws|vm_compute; reflexivity..|vm_compute; discriminate|].
  intros c Hc. exfalso. revert Hc. vm_compute. discriminate.
Defined.

Lemma entries_paging_witness :
  entries s2 "session-1" 1 10 = take 10 (drop 1 (log_entries (state s2) "session-1")).
Proof. apply (entries_paging s2 "session-1" 1 10); vm_compute; reflexivity. Defined.

Lemma canonical_value_canonical_witness :
  canonical_value (VObj [("b", VNull); ("a", VBool true)]) = canonical_value (VObj [("a", VBool true); ("b", VNull)]).
Proof.
  apply (canonical_value_canonical _ (VObj [("a", VBool true); ("b", VNull)])); [reflexivity|].
  apply (veq_obj _ [("b", VNull); ("a", VBool true)]); [repeat constructor|apply Permutation_swap].
Defined.
End LogWitness.
