(* ===== verification/LogAuth.v ===== *)
(** * LogAuth: [logger/src/auth.rs]

    The clients of the logger: the file that lists them, bearer tokens
    authenticated by their SHA-256, permissions and the session and event-type
    patterns. *)

From S2P Require Import Prelude Text State Json LogModel.

Record AuthError := mkAuthError { ae_status : Z; ae_code : string; ae_message : string }.

Definition unauthorized (message : string) : AuthError := mkAuthError 401 "unauthorized" message.
Definition forbidden (code message : string) : AuthError := mkAuthError 403 code message.

(** A client; the digest is its 32 bytes. *)
Record Client := mkClient {
  cl_id : string;
  cl_token_digest : list Z;
  cl_permissions : gset string;
  cl_event_types : list string;
  cl_sessions : list string
}.

Record ClientSpec := mkSpec {
  cs_id : string;
  cs_token_sha256 : string;
  cs_permissions : list string;
  cs_event_types : list string;
  cs_sessions : list string
}.

(** ** The clients file *)

Definition str_list_field (k : string) (kvs : list (string * Value)) : option (list string) :=
  l ← field k kvs ≫= as_list; all_some as_str l.

Definition de_client_spec (v : Value) : option ClientSpec :=
  kvs ← as_fields v;
  if known_fields ["id"; "tokenSha256"; "permissions"; "eventTypes"; "sessions"] kvs then
    id ← str_field "id" kvs;
    token_sha256 ← str_field "tokenSha256" kvs;
    permissions ← str_list_field "permissions" kvs;
    event_types ← str_list_field "eventTypes" kvs;
    sessions ← str_list_field "sessions" kvs;
    Some (mkSpec id token_sha256 permissions event_types sessions)
  else None.

Definition de_clients_file (v : Value) : option (list ClientSpec) :=
  kvs ← as_fields v;
  if known_fields ["clients"] kvs then
    l ← field "clients" kvs ≫= as_list; all_some de_client_spec l
  else None.

Definition nibble (c : ascii) : result string Z :=
  if char_range "0" "9" c then Ok (code c - code "0")
  else if char_range "a" "f" c then Ok (code c - code "a" + 10)
  else Err "invalid digest".

(** [chunks_exact(2)] and the two nibbles of each byte. *)
Fixpoint hex_bytes (s : string) : result string (list Z) :=
  match s with
  | String a (String b s') =>
      let? hi := nibble a in
      let? lo := nibble b in
      let? rest := hex_bytes s' in
      Ok (Z.lor (Z.shiftl hi 4) lo :: rest)
  | _ => Ok []
  end.

Definition decode_digest (value : string) : result string (list Z) :=
  match strip_prefix "sha256:" value with
  | None => Err "tokenSha256 must be a lowercase sha256 digest"
  | Some hex =>
      if negb (len hex =? 64)
         || negb (all_chars (fun b => is_ascii_hexdigit b && negb (is_ascii_uppercase b)) hex)
      then Err "tokenSha256 must be a lowercase sha256 digest"
      else hex_bytes hex
  end.

Definition validate_permissions (values : list string) (id : string)
  : result string (gset string) :=
  if bool_decide (values = []) then Err ("logger client " +:+ id +:+ " must have permissions")
  else if existsb (fun v => negb (existsb (String.eqb v) ["append"; "read"; "verify"])) values
  then Err ("logger client " +:+ id +:+ " has unsupported permission")
  else Ok (list_to_set values).

Definition valid_pattern (pattern : string) : bool :=
  let stars := count_char "*" pattern in
  negb (is_empty pattern || (128 <? len pattern) || (1 <? stars)
        || ((stars =? 1) && negb (ends_with "*" pattern))).

Definition validate_patterns (values : list string) (name : string) : result string (list string) :=
  if bool_decide (values = []) || (128 <? Z.of_nat (length values))
  then Err (name +:+ " must be a non-empty array of at most 128 patterns")
  else if negb (forallb valid_pattern values)
  then Err (name +:+ " contains an invalid pattern")
  else Ok values.

(** One turn of the loop of [Authorizer::load]. *)
Definition load_client (ids : gset string) (digests : list (list Z)) (spec : ClientSpec)
  : result string Client :=
  let? _ := validate_identifier (cs_id spec) "logger client ID" in
  let? _ := guard (negb (bool_decide (cs_id spec ∈ ids))) "logger client IDs must be unique" in
  let? digest := decode_digest (cs_token_sha256 spec) in
  let? _ := guard (negb (bool_decide (digest ∈ digests))) "logger client token digests must be unique" in
  let? permissions := validate_permissions (cs_permissions spec) (cs_id spec) in
  let? event_types := validate_patterns (cs_event_types spec)
                        ("logger client " +:+ cs_id spec +:+ " eventTypes") in
  let? sessions := validate_patterns (cs_sessions spec)
                     ("logger client " +:+ cs_id spec +:+ " sessions") in
  Ok (mkClient (cs_id spec) digest permissions event_types sessions).

Fixpoint load_loop (ids : gset string) (digests : list (list Z)) (specs : list ClientSpec)
  : result string (list Client) :=
  match specs with
  | [] => Ok []
  | spec :: specs' =>
      let? client := load_client ids digests spec in
      let? clients := load_loop ({[cs_id spec]} ∪ ids) (cl_token_digest client :: digests) specs' in
      Ok (client :: clients)
  end.

(** [Authorizer::load] of a file with the given contents. *)
Definition load `{Platform, JsonCodec} (raw : string) : result string (list Client) :=
  match from_slice raw ≫= de_clients_file with
  | None => Err ("decode logger clients file: " +:+ os_error)
  | Some [] => Err "logger clients file must contain clients"
  | Some specs => load_loop ∅ [] specs
  end.

(** ** Requests *)

Definition token_char (b : ascii) : bool :=
  is_ascii_alphanumeric b || has_char b "._~+/=-".
Definition token_ok (value : string) : bool :=
  (20 <=? len value) && (len value <=? 512) && all_chars token_char value.

Definition bearer_token (header : option string) : option string :=
  value ← header ≫= strip_prefix "Bearer ";
  if token_ok value then Some value else None.

(** [Sha256::digest]: the bytes behind the hexadecimal digest. *)
Definition sha256_digest `{Platform} (s : string) : list Z :=
  match hex_bytes (sha256_hex s) with Ok l => l | Err _ => [] end.

(** Every client is compared (the comparison runs in constant time); the last
    one that matches is selected. *)
Definition authenticate `{Platform} (clients : list Client) (header : option string)
  : result AuthError Client :=
  match bearer_token header with
  | None => Err (unauthorized "bearer authentication is required")
  | Some token =>
      let digest := sha256_digest token in
      ok_or (foldl (fun selected client =>
               if bool_decide (digest = cl_token_digest client) then Some client else selected)
               None clients)
        (unauthorized "invalid bearer token")
  end.

Definition matches_pattern (pattern value : string) : bool :=
  String.eqb pattern "*" || String.eqb pattern value
  || match strip_suffix "*" pattern with
     | Some prefix => starts_with prefix value
     | None => false
     end.
Definition matches_any (patterns : list string) (value : string) : bool :=
  existsb (fun pattern => matches_pattern pattern value) patterns.

Definition require (c : Client) (permission : string) : result AuthError unit :=
  guard (bool_decide (permission ∈ cl_permissions c))
    (forbidden "forbidden" ("client " +:+ cl_id c +:+ " lacks " +:+ permission +:+ " permission")).
Definition authorize_session (c : Client) (value : string) : result AuthError unit :=
  guard (matches_any (cl_sessions c) value)
    (forbidden "session_forbidden" ("client " +:+ cl_id c +:+ " is not authorized for this session")).
Definition authorize_event (c : Client) (value : string) : result AuthError unit :=
  guard (matches_any (cl_event_types c) value)
    (forbidden "event_type_forbidden"
       ("client " +:+ cl_id c +:+ " is not authorized for this event type")).

(** ** Lemmas *)

(** [hex_bytes] loses nothing on lower-case digests. *)
Lemma nibble_inj a b n : nibble a = Ok n -> nibble b = Ok n -> a = b.
Proof.
  assert (forall c m, nibble c = Ok m ->
    c = ascii_of_N (Z.to_N (if m <? 10 then m + 48 else m + 87))) as Hinv.
  { intros c m. destruct c as [[] [] [] [] [] [] [] []]; vm_compute; try discriminate;
      intros [= <-]; done. }
  intros Ha%Hinv Hb%Hinv. congruence.
Qed.

Lemma nibble_bounds a n : nibble a = Ok n -> 0 <= n < 16.
Proof.
  destruct a as [[] [] [] [] [] [] [] []]; vm_compute; try discriminate; intros [= <-]; split; done.
Qed.

Lemma nibble_hex a : lower_hex a = true -> exists n, nibble a = Ok n.
Proof. destruct a as [[] [] [] [] [] [] [] []]; vm_compute; try discriminate; eauto. Qed.

Lemma byte_inj h l h' l' :
  0 <= h < 16 -> 0 <= l < 16 -> 0 <= h' < 16 -> 0 <= l' < 16 ->
  Z.lor (Z.shiftl h 4) l = Z.lor (Z.shiftl h' 4) l' -> h = h' /\ l = l'.
Proof.
  assert (forall h l, 0 <= h < 16 -> 0 <= l < 16 -> Z.lor (Z.shiftl h 4) l = h * 16 + l) as E.
  { intros x y Hx Hy. cases_below 16%nat x; cases_below 16%nat y; done. }
  intros. rewrite !E in * by done. lia.
Qed.

Lemma hex_bytes_inj s t l :
  String.length s = String.length t -> hex_bytes s = Ok l -> hex_bytes t = Ok l ->
  Nat.Even (String.length s) -> s = t.
Proof.
  revert s t l. fix IH 1. intros s t l Hlen Hs Ht He.
  destruct s as [|a [|b s]]; simpl in Hlen.
  - by destruct t.
  - destruct He as [k Hk]. simpl in Hk. lia.
  - destruct t as [|c [|d t]]; try (simpl in Hlen; lia).
    cbn [hex_bytes] in Hs, Ht. inv_ok.
    match goal with E : Z.lor _ _ = Z.lor _ _ |- _ => rename E into Eb end.
    apply byte_inj in Eb as [? ?]; eauto using nibble_bounds. subst.
    f_equal; [eauto using nibble_inj|]. f_equal; [eauto using nibble_inj|].
    eapply IH; [simpl in Hlen; lia|done|done|]. destruct He as [k Hk]. simpl in Hk.
    exists (k - 1)%nat. lia.
Qed.

Lemma hex_bytes_total s : all_chars lower_hex s = true -> exists l, hex_bytes s = Ok l.
Proof.
  revert s. fix IH 1. intros [|a [|b s]]; [by eexists..|]. cbn [all_chars]. intros H. bool_hyps.
  destruct (nibble_hex a) as [h Hh], (nibble_hex b) as [l Hl], (IH s) as [r Hr]; try done.
  cbn [hex_bytes]. rewrite Hh, Hl, Hr. simpl. eauto.
Qed.

Lemma decode_digest_ok v l :
  decode_digest v = Ok l <->
  exists hex, v = "sha256:" +:+ hex /\ String.length hex = 64%nat
              /\ all_chars lower_hex hex = true /\ hex_bytes hex = Ok l.
Proof.
  unfold decode_digest. destruct (strip_prefix "sha256:" v) as [hex|] eqn:E.
  - apply strip_prefix_some in E as ->. unfold len. split.
    + case_goal; [done|]. bool_hyps. intros Hl. exists hex. rewrite Z.eqb_eq in *. split_and!; try done. lia.
    + intros (hex' & Heq & Hlen & Hh & Hl). apply str_app_inj_l in Heq as <-.
      unfold lower_hex in Hh. rewrite Hh. rewrite (proj2 (Z.eqb_eq _ 64)) by lia. done.
  - split; [done|]. intros (hex & -> & _). by rewrite strip_prefix_app in E.
Qed.

(** The digest of the file is the digest of the token exactly when its text is
    the hexadecimal SHA-256 of the token. *)
Lemma decode_digest_sha256 `{Platform, HS : !HashShape} v l token :
  decode_digest v = Ok l -> l = sha256_digest token <-> v = "sha256:" +:+ sha256_hex token.
Proof.
  intros (hex & -> & Hlen & Hh & Hl)%decode_digest_ok. unfold sha256_digest.
  destruct (hex_bytes_total (sha256_hex token)) as [l' Hl']; [apply sha256_hex_digits|].
  rewrite Hl'. split.
  - intros ->. f_equal. eapply hex_bytes_inj; try done; [by rewrite sha256_hex_len|].
    rewrite Hlen. by exists 32%nat.
  - intros ->%str_app_inj_l. congruence.
Qed.

(** What [load] established for the clients it returned. *)
Inductive loaded : list ClientSpec -> list Client -> Prop :=
| loaded_nil : loaded [] []
| loaded_cons spec specs ids digests c cs :
    load_client ids digests spec = Ok c -> loaded specs cs -> loaded (spec :: specs) (c :: cs).

Lemma load_client_ok ids digests spec c :
  load_client ids digests spec = Ok c ->
  cl_id c = cs_id spec /\ decode_digest (cs_token_sha256 spec) = Ok (cl_token_digest c)
  /\ cl_permissions c = list_to_set (cs_permissions spec)
  /\ cl_event_types c = cs_event_types spec /\ cl_sessions c = cs_sessions spec
  /\ validate_identifier (cl_id c) "logger client ID" = Ok tt
  /\ cl_id c ∉ ids /\ cl_token_digest c ∉ digests.
Proof.
  unfold load_client, validate_permissions, validate_patterns. intros Hl. inv_ok.
  repeat match goal with H : (if _ then Err _ else _) = Ok _ |- _ => case_hyp H; [discriminate H|] end.
  inv_ok. bool_hyps. destruct a. simpl. split_and!; done.
Qed.

Lemma load_loop_ok ids digests specs cs :
  load_loop ids digests specs = Ok cs ->
  loaded specs cs /\ NoDup (map cl_id cs) /\ NoDup (map cl_token_digest cs)
  /\ Forall (fun c => cl_id c ∉ ids /\ cl_token_digest c ∉ digests) cs.
Proof.
  revert ids digests cs. induction specs as [|spec specs IH]; intros ids digests cs Hl; simpl in Hl.
  - inv_ok. split_and!; constructor.
  - inv_ok. pose proof Hok as (Hid & _ & _ & _ & _ & _ & Hni & Hnd)%load_client_ok.
    apply IH in Hok0 as (Hlo & Hn1 & Hn2 & Hf). rewrite Forall_forall in Hf.
    split_and!; simpl; try constructor; try done; try (by econstructor).
    + intros (c & Hc & Hin)%list_elem_of_fmap_1. destruct (Hf c Hin) as [Hx _].
      apply Hx. rewrite <- Hc, Hid. set_solver.
    + intros (c & Hc & Hin)%list_elem_of_fmap_1. destruct (Hf c Hin) as [_ Hx].
      apply Hx. rewrite <- Hc. set_solver.
    + apply Forall_forall. intros c Hin. destruct (Hf c Hin). set_solver.
Qed.

(** The last match of the fold is the only one when digests are distinct. *)
Lemma select_last (d : list Z) cs sel c :
  foldl (fun selected client =>
    if bool_decide (d = cl_token_digest client) then Some client else selected) sel cs = Some c ->
  sel = Some c \/ (In c cs /\ cl_token_digest c = d).
Proof.
  revert sel. induction cs as [|x cs IH]; intros sel; simpl; [auto|].
  intros [Hc|[Hc Hd]]%IH; [|auto]. case_bool_decide; [|auto]. injection Hc as ->. auto.
Qed.

Lemma select_notin (d : list Z) cs sel :
  (forall c, In c cs -> cl_token_digest c <> d) ->
  foldl (fun selected client =>
    if bool_decide (d = cl_token_digest client) then Some client else selected) sel cs = sel.
Proof.
  revert sel. induction cs as [|x cs IH]; intros sel Hno; simpl; [done|].
  rewrite bool_decide_false by (intros ->; by eapply (Hno x); [left|]).
  apply IH. intros c Hc. apply Hno. by right.
Qed.

Lemma select_unique (d : list Z) cs sel c :
  NoDup (map cl_token_digest cs) -> In c cs -> cl_token_digest c = d ->
  foldl (fun selected client =>
    if bool_decide (d = cl_token_digest client) then Some client else selected) sel cs = Some c.
Proof.
  revert sel. induction cs as [|x cs IH]; intros sel; [done|]. simpl.
  rewrite NoDup_cons. intros [Hx Hnd] [->|Hin] Hd.
  - rewrite bool_decide_true by done. apply select_notin. intros c' Hc' Heq.
    apply Hx. apply list_elem_of_In, in_map_iff. exists c'. by rewrite Heq.
  - by apply IH.
Qed.

Lemma matches_pattern_spec p v :
  matches_pattern p v = true <-> p = v \/ exists prefix rest, p = prefix +:+ "*" /\ v = prefix +:+ rest.
Proof.
  unfold matches_pattern. rewrite !orb_true_iff, !String.eqb_eq. split.
  - intros [[->| ->]|Hs]; [right; by exists "", v|auto|].
    destruct (strip_suffix "*" p) as [q|] eqn:E; [|done]. apply strip_suffix_some in E as ->.
    apply starts_with_spec in Hs as [r ->]. eauto.
  - intros [->|(q & r & -> & ->)]; [auto|]. right.
    rewrite (proj2 (strip_suffix_some "*" (q +:+ "*") q) eq_refl). apply starts_with_spec. eauto.
Qed.
