(* ===== verification/LogServer.v ===== *)
(** * LogServer: [logger/src/server.rs]

    The HTTP handlers over the shared state: the store behind its mutex, the
    authorizer, the [ready] flag and the counters. Handlers run concurrently;
    each is a thread of atomic actions (a load of the flag, one critical section
    of the store, a store to the flag, an increment), and a handler that runs
    alone is the sequence of its actions. *)

From S2P Require Import Prelude Text State Json LogModel LogStore LogAuth.

Record ApiError := mkApiError { api_status : Z; api_code : string; api_message : string }.

Definition bad (message : string) : ApiError := mkApiError 400 "invalid_request" message.
Definition internal : ApiError := mkApiError 500 "internal_error" "internal server error".
Definition not_found : ApiError := mkApiError 404 "not_found" "resource not found".
Definition from_auth (e : AuthError) : ApiError :=
  mkApiError (ae_status e) (ae_code e) (ae_message e).
Definition from_store (e : StoreError) : ApiError :=
  match e with
  | Conflict message => mkApiError 409 "event_id_conflict" message
  | Internal _ => internal
  end.

(** [Inner]: what the handlers share. *)
Record AppState := mkApp {
  app_store : Store;
  app_authorizer : list Client;
  app_ready : bool;
  app_max_event_bytes : Z;
  app_projection_dir : bool;     (* [projection_dir.is_some()] *)
  app_appends : Z;
  app_duplicates : Z;
  app_rejected : Z;
  app_projection_success : Z;
  app_projection_failures : Z
}.

Definition with_store (s : AppState) (st : Store) : AppState :=
  mkApp st (app_authorizer s) (app_ready s) (app_max_event_bytes s) (app_projection_dir s)
    (app_appends s) (app_duplicates s) (app_rejected s) (app_projection_success s)
    (app_projection_failures s).
Definition with_ready (s : AppState) (b : bool) : AppState :=
  mkApp (app_store s) (app_authorizer s) b (app_max_event_bytes s) (app_projection_dir s)
    (app_appends s) (app_duplicates s) (app_rejected s) (app_projection_success s)
    (app_projection_failures s).
Definition count_append (s : AppState) (r : AppendResult) : AppState :=
  mkApp (app_store s) (app_authorizer s) (app_ready s) (app_max_event_bytes s)
    (app_projection_dir s)
    (match r with Appended => u64_add (app_appends s) 1 | Duplicate => app_appends s end)
    (match r with Duplicate => u64_add (app_duplicates s) 1 | Appended => app_duplicates s end)
    (app_rejected s) (app_projection_success s) (app_projection_failures s).
Definition count_rejected (s : AppState) : AppState :=
  mkApp (app_store s) (app_authorizer s) (app_ready s) (app_max_event_bytes s)
    (app_projection_dir s) (app_appends s) (app_duplicates s) (u64_add (app_rejected s) 1)
    (app_projection_success s) (app_projection_failures s).
Definition count_projections (s : AppState) (ok failed : Z) : AppState :=
  mkApp (app_store s) (app_authorizer s) (app_ready s) (app_max_event_bytes s)
    (app_projection_dir s) (app_appends s) (app_duplicates s) (app_rejected s)
    (u64_add (app_projection_success s) ok) (u64_add (app_projection_failures s) failed).

Section Server.
Context `{Platform, JsonCodec, LoggerCrypto}.

(** [AppState::from_config] after the signer was loaded. *)
Definition from_config (ledger_file clients_file : string) (sg : Ed25519Signer) (interval : Z)
    (max_event_bytes : Z) (projections : bool) : result string AppState :=
  let? store := open ledger_file sg interval projections in
  let? authorizer := load clients_file in
  Ok (mkApp store authorizer true max_event_bytes projections 0 0 0 0 0).

(** [AppState::flush_projections]: one critical section, then the counters. *)
Definition app_flush_projections (dir_ok : bool) (wrote : string -> bool) (s : AppState)
  : AppState :=
  if app_projection_dir s then
    match flush_projections dir_ok wrote (app_store s) with
    | (Ok (ok, failed), st) => count_projections (with_store s st) ok failed
    | (Err _, st) => count_projections (with_store s st) 0 1
    end
  else s.

(** ** Requests *)

Definition authorize (s : AppState) (header : option string) (permission : string)
  : result ApiError Client :=
  let? client := map_err from_auth (authenticate (app_authorizer s) header) in
  let? _ := map_err from_auth (require client permission) in
  Ok client.

Definition read_client (s : AppState) (header : option string) (log_id : string)
  : result ApiError Client :=
  let? _ := map_err bad (validate_identifier log_id "logId") in
  let? client := authorize s header "read" in
  let? _ := map_err from_auth (authorize_session client log_id) in
  Ok client.

Definition list_query (after limit : option Z) : result ApiError (Z * Z) :=
  let limit := unwrap_or limit 100 in
  if negb ((1 <=? limit) && (limit <=? 1000)) then Err (bad "limit is outside the allowed range")
  else Ok (unwrap_or after 0, limit).

(** *** The read handlers: they change nothing. *)

Definition ready (s : AppState) : result ApiError bool :=
  if app_ready s then Ok true
  else Err (mkApiError 503 "integrity_unavailable" "logger integrity is unavailable").

Definition get_head (s : AppState) (header : option string) (log_id : string)
  : result ApiError LogHead :=
  let? _ := read_client s header log_id in
  ok_or (head (app_store s) log_id) not_found.

Definition get_entries (s : AppState) (header : option string) (log_id : string)
    (after limit : option Z) : result ApiError (list Entry) :=
  let? _ := read_client s header log_id in
  let? al := list_query after limit in
  Ok (entries (app_store s) log_id al.1 (Z.to_nat al.2)).

Definition get_checkpoints (s : AppState) (header : option string) (log_id : string)
    (after limit : option Z) : result ApiError (list Checkpoint) :=
  let? _ := read_client s header log_id in
  let? al := list_query after limit in
  Ok (checkpoints (app_store s) log_id al.1 (Z.to_nat al.2)).

Definition get_checkpoint (s : AppState) (header : option string) (id : string)
  : result ApiError Checkpoint :=
  let? _ := map_err bad (validate_identifier id "checkpointId") in
  let? client := authorize s header "read" in
  let? log_id := ok_or (checkpoint_session (app_store s) id) not_found in
  let? _ := map_err from_auth (authorize_session client log_id) in
  ok_or (checkpoint (app_store s) id) not_found.

Definition metrics (s : AppState) (header : option string) : result ApiError (list (string * Z)) :=
  let? _ := authorize s header "read" in
  Ok [("logger_appends_total", app_appends s);
      ("logger_duplicate_appends_total", app_duplicates s);
      ("logger_rejected_requests_total", app_rejected s);
      ("logger_integrity_ok", if app_ready s then 1 else 0);
      ("logger_projection_success_total", app_projection_success s);
      ("logger_projection_failures_total", app_projection_failures s);
      ("logger_projection_pending", projection_counts (app_store s))].

(** *** [events]: the checks before the critical section *)

Definition events_checks (s : AppState) (header : option string) (body : string)
  : result ApiError (Event * string) :=
  let? client := authorize s header "append" in
  if is_empty body then Err (bad "request body is required")
  else if app_max_event_bytes s <? len body
  then Err (mkApiError 413 "request_too_large" "request body exceeds size limit")
  else
  let? event := ok_or (from_slice body ≫= de_event)
                  (bad ("request body must be valid event JSON: " +:+ os_error)) in
  let? _ := map_err bad (validate_event event) in
  let? _ := map_err from_auth (authorize_session client (ev_session_id event)) in
  let? _ := map_err from_auth (authorize_event client (ev_event_type event)) in
  Ok (event, cl_id client).

(** *** [verify]: the checks before the critical section *)

Definition de_verify_request (v : Value) : option (option string) :=
  kvs ← as_fields v;
  if known_fields ["logId"] kvs then optional as_str "logId" kvs else None.

Definition verify_checks (s : AppState) (header : option string) (body : string)
  : result ApiError (option string) :=
  let? client := authorize s header "verify" in
  let? log_id := ok_or (from_slice body ≫= de_verify_request)
                   (bad ("invalid verify request: " +:+ os_error)) in
  match log_id with
  | None => Ok None
  | Some id =>
      let? _ := map_err bad (validate_identifier id "logId") in
      let? _ := map_err from_auth (authorize_session client id) in
      Ok (Some id)
  end.

(** ** Threads

    The states of a request that changes the shared state, between its atomic
    actions. *)
Inductive Thread :=
| TEvents (header : option string) (body : string)   (* arrived *)
| TEventsChecked (header : option string) (body : string) (* the flag was read as true *)
| TAppend (event : Event) (producer_id : string)     (* waits for the store *)
| TAppended (r : result StoreError AppendResult)     (* released the store *)
| TCount (r : AppendResult)                          (* before the counter *)
| TVerify (header : option string) (body : string)
| TVerifyStore (log_id : option string)              (* waits for the store *)
| TVerified (v : Verification)                       (* released the store *)
| TResponse (status : Z)                             (* before [response_policy] counts it *)
| TDone (status : Z).

(** One atomic action; [io] and [now] are the outcome of a write and the clock
    in the critical section of an append. *)
Definition step (io : WriteOutcome) (now : string) (t : Thread) (s : AppState) : Thread * AppState :=
  match t with
  | TEvents header body =>
      if app_ready s then (TEventsChecked header body, s) else (TResponse 503, s)
  | TEventsChecked header body =>
      match events_checks s header body with
      | Ok (event, producer) => (TAppend event producer, s)
      | Err e => (TResponse (api_status e), s)
      end
  | TAppend event producer =>
      let '(r, st) := append io now (app_store s) event producer in
      (TAppended r, with_store s st)
  | TAppended (Err (Internal e)) => (TResponse (api_status (from_store (Internal e))), with_ready s false)
  | TAppended (Err (Conflict e)) => (TResponse (api_status (from_store (Conflict e))), s)
  | TAppended (Ok r) => (TCount r, s)
  | TCount r => (TResponse 204, count_append s r)
  | TVerify header body =>
      match verify_checks s header body with
      | Ok id => (TVerifyStore id, s)
      | Err e => (TResponse (api_status e), s)
      end
  | TVerifyStore id => (TVerified (verify (app_store s) id), s)
  | TVerified v => (TResponse (if vf_ok v then 200 else 503), with_ready s (vf_ok v))
  | TResponse status => (TDone status, if 400 <=? status then count_rejected s else s)
  | TDone status => (TDone status, s)
  end.

(** A request that runs alone: at most six actions. *)
Fixpoint run (n : nat) (io : WriteOutcome) (now : string) (t : Thread) (s : AppState)
  : Thread * AppState :=
  match n with
  | O => (t, s)
  | S n' => let '(t', s') := step io now t s in run n' io now t' s'
  end.
Definition serve (io : WriteOutcome) (now : string) (t : Thread) (s : AppState) := run 6 io now t s.

(** The whole server: the threads of the open requests take turns, new requests
    arrive, projections are flushed. *)
Inductive server_step : list Thread * AppState -> list Thread * AppState -> Prop :=
| ss_events header body ts s :
    server_step (ts, s) (ts ++ [TEvents header body], s)
| ss_verify header body ts s :
    server_step (ts, s) (ts ++ [TVerify header body], s)
| ss_act io now ts i t t' s s' :
    ts !! i = Some t -> step io now t s = (t', s') ->
    server_step (ts, s) (<[i := t']> ts, s')
| ss_flush dir_ok wrote ts s :
    server_step (ts, s) (ts, app_flush_projections dir_ok wrote s).

End Server.
