(* ===== verification/LogServerProps.v ===== *)
(** * LogServerProps: what the logger's service guarantees

    Authentication against the clients file, and the safety of the shared store
    under every interleaving of the concurrent requests. *)

From S2P Require Import Prelude Text State Json LogModel LogStore.
From S2P Require Import LogStoreFacts LogChain LogProps LogAuth LogServer Instances.

(** ** Authentication *)

(** The client that the loader made of a specification. *)
Definition client_of (spec : ClientSpec) (c : Client) : Prop :=
  cl_id c = cs_id spec /\ cl_permissions c = list_to_set (cs_permissions spec)
  /\ cl_event_types c = cs_event_types spec /\ cl_sessions c = cs_sessions spec.

Lemma loaded_in specs cs :
  loaded specs cs ->
  (forall c, In c cs -> exists spec, In spec specs /\ client_of spec c
     /\ decode_digest (cs_token_sha256 spec) = Ok (cl_token_digest c))
  /\ (forall spec, In spec specs -> exists c, In c cs /\ client_of spec c
     /\ decode_digest (cs_token_sha256 spec) = Ok (cl_token_digest c)).
Proof.
  induction 1 as [|spec specs ids digests c cs (? & ? & ? & ? & ? & _)%load_client_ok _ [IH1 IH2]];
    [by split|].
  split.
  - intros c' [<-|Hc]; [exists spec; split; [by left|done]|].
    destruct (IH1 _ Hc) as (spec' & ? & ?). exists spec'. split; [by right|done].
  - intros spec' [<-|Hs]; [exists c; split; [by left|done]|].
    destruct (IH2 _ Hs) as (c' & ? & ?). exists c'. split; [by right|done].
Qed.

Lemma load_ok `{Platform, JsonCodec} raw cs :
  load raw = Ok cs ->
  exists specs, from_slice raw ≫= de_clients_file = Some specs /\ loaded specs cs
    /\ NoDup (map cl_id cs) /\ NoDup (map cl_token_digest cs).
Proof.
  unfold load. destruct (from_slice raw ≫= de_clients_file) as [[|spec specs]|]; try done.
  intros (? & ? & ? & _)%load_loop_ok. eauto.
Qed.

Lemma bearer_token_some header token :
  bearer_token header = Some token <-> header = Some ("Bearer " +:+ token) /\ token_ok token = true.
Proof.
  unfold bearer_token. destruct header as [h|]; [|naive_solver].
  change (Some h ≫= strip_prefix "Bearer ") with (strip_prefix "Bearer " h).
  destruct (strip_prefix "Bearer " h) as [t|] eqn:E; simpl.
  - apply strip_prefix_some in E as ->. destruct (token_ok t) eqn:Ht.
    + split; [by intros [= <-]|]. intros [[= E] _]. congruence.
    + split; [done|]. intros [[= E] ?]. congruence.
  - split; [done|]. intros [Hh _]. injection Hh as ->.
    pose proof (strip_prefix_app "Bearer " token). simpl in *. congruence.
Qed.

(** Authentication is exact. With the clients of a file that loads, a
    request is authenticated as client [c] if and only if its header is
    [Bearer] and a well-formed token whose SHA-256 the file lists, and [c] is
    the client of that line; two lines never share an identifier or a digest. *)
Theorem authenticate_exact `{Platform, JsonCodec, HS : !HashShape} raw clients :
  load raw = Ok clients ->
  exists specs, from_slice raw ≫= de_clients_file = Some specs
  /\ NoDup (map cl_id clients) /\ NoDup (map cl_token_digest clients)
  /\ forall header c, authenticate clients header = Ok c <->
       exists token spec, header = Some ("Bearer " +:+ token) /\ token_ok token = true
         /\ In spec specs /\ cs_token_sha256 spec = "sha256:" +:+ sha256_hex token
         /\ In c clients /\ client_of spec c /\ cl_token_digest c = sha256_digest token.
Proof.
  intros (specs & Hs & Hl & Hn1 & Hn2)%load_ok. exists specs. split_and!; try done.
  apply loaded_in in Hl as [Hin1 Hin2]. intros header c. unfold authenticate. split.
  - destruct (bearer_token header) as [token|] eqn:Et; [|done].
    apply bearer_token_some in Et as [-> Ht]. intros Hsel%ok_or_ok.
    apply select_last in Hsel as [?|[Hc Hd]]; [done|].
    destruct (Hin1 _ Hc) as (spec & Hsp & Hco & Hdec). exists token, spec.
    split_and!; try done. by eapply decode_digest_sha256.
  - intros (token & spec & -> & Ht & _ & _ & Hc & _ & Hd).
    rewrite (proj2 (bearer_token_some _ token)) by done. apply ok_or_ok.
    by apply select_unique.
Qed.

(** ** The shared store under concurrency *)

Section Concurrency.
Context `{HP : Platform, HJ : JsonCodec, HC : LoggerCrypto, HL : !JsonCodecLaws}.

(** What the checks of [events] establish for the event that will be appended. *)
Definition authorised (clients : list Client) (ev : Event) (producer : string) : Prop :=
  exists c header, authenticate clients header = Ok c /\ producer = cl_id c
    /\ "append" ∈ cl_permissions c
    /\ matches_any (cl_sessions c) (ev_session_id ev) = true
    /\ matches_any (cl_event_types c) (ev_event_type ev) = true.

Lemma all_some_Forall {A B} (f : A -> option B) (P : B -> Prop) l ys :
  (forall x y, f x = Some y -> P y) -> all_some f l = Some ys -> Forall P ys.
Proof.
  intros Hf. revert ys. induction l as [|x l IH]; intros ys Hl; simpl in Hl.
  - injection Hl as <-. constructor.
  - destruct (f x) as [y|] eqn:Hy; [|done]. simpl in Hl.
    destruct (all_some f l) as [zs|]; [|done]. injection Hl as <-. constructor; eauto.
Qed.

Lemma optional_u64_ok k kvs n : optional as_u64 k kvs = Some (Some n) -> u64_ok n = true.
Proof.
  unfold optional. case_match; [done|]. destruct (field k kvs) as [[]|]; simpl; try done.
  case_match; simpl; naive_solver.
Qed.

Lemma de_artifact_ok v a : de_artifact v = Some a -> artifact_ok a = true.
Proof.
  unfold de_artifact. destruct (as_fields v) as [kvs|]; simpl; [|done].
  destruct (known_fields _ _); [|done]. destruct (str_field "uri" kvs); simpl; [|done].
  destruct (optional as_str "digest" kvs); simpl; [|done].
  destruct (optional as_u64 "size" kvs) as [sz|] eqn:E; simpl; [|done].
  destruct (optional as_str "mediaType" kvs); simpl; [|done]. intros [= <-].
  unfold artifact_ok. simpl. destruct sz; [|done]. by eapply optional_u64_ok.
Qed.

Lemma de_event_ok v e : de_event v = Some e -> event_ok e = true.
Proof.
  unfold de_event, de_event_fields. destruct (as_fields v) as [kvs|]; simpl; [|done].
  destruct (known_fields _ _); [|done].
  destruct (str_field "eventId" kvs), (str_field "sessionId" kvs), (str_field "eventType" kvs),
    (str_field "payloadDigest" kvs); simpl; try done.
  destruct (de_artifacts kvs) as [l|] eqn:El; simpl; [|done]. intros [= <-].
  unfold event_ok. simpl. unfold de_artifacts in El.
  destruct (field "artifactReferences" kvs ≫= as_list); simpl in El; [|done].
  apply (all_some_Forall _ (fun a => artifact_ok a = true)) in El; [|apply de_artifact_ok].
  apply forallb_forall. intros x Hx. rewrite Forall_forall in El. apply El. by apply list_elem_of_In.
Qed.

Lemma authorize_ok s header perm c :
  authorize s header perm = Ok c ->
  authenticate (app_authorizer s) header = Ok c /\ perm ∈ cl_permissions c.
Proof.
  unfold authorize, require. intros H. inv_ok. bool_hyps. done.
Qed.

Lemma events_checks_ok s header body ev p :
  events_checks s header body = Ok (ev, p) ->
  authorised (app_authorizer s) ev p /\ event_ok ev = true /\ validate_event ev = Ok tt.
Proof.
  unfold events_checks, authorize_session, authorize_event. intros H. inv_ok.
  repeat (case_hyp H; [discriminate H|]). inv_ok.
  match goal with H : authorize _ _ _ = Ok _ |- _ => apply authorize_ok in H as [Ha Hp] end.
  match goal with H : _ ≫= _ = Some _ |- _ => destruct (from_slice body) as [v|]; [|discriminate H] end.
  simpl in *. repeat match goal with u : unit |- _ => destruct u end.
  split_and!; [|by eapply de_event_ok|done].
  unfold authorised. eauto 10.
Qed.

(** The invariant of every reachable server state: the store is the store of a
    running logger, waiting appends were authorised, and every entry beyond the
    initial ones has an authorised producer. *)
Definition entry_authorised (clients : list Client) (id : string) (e : Entry) : Prop :=
  exists ev, authorised clients ev (eb_producer_id (en_body e))
    /\ ev_session_id ev = id /\ ev_event_type ev = eb_event_type (en_body e).

Definition thread_ok (clients : list Client) (t : Thread) : Prop :=
  match t with
  | TAppend ev p => authorised clients ev p /\ event_ok ev = true
  | _ => True
  end.

Record server_inv (sg : Ed25519Signer) (interval : Z) (proj : bool) (clients : list Client)
    (old : LedgerState) (c : list Thread * AppState) : Prop := {
  si_reachable : reachable sg interval proj (app_store c.2);
  si_clients : app_authorizer c.2 = clients;
  si_threads : Forall (thread_ok clients) c.1;
  si_entries : forall id e, In e (log_entries (state (app_store c.2)) id) ->
      In e (log_entries old id) \/ entry_authorised clients id e
}.

Lemma append_entries io now s ev p r s' id e :
  append io now s ev p = (r, s') -> In e (log_entries (state s') id) ->
  In e (log_entries (state s) id) \/
  (id = ev_session_id ev /\ eb_producer_id (en_body e) = p /\ eb_event_type (en_body e) = ev_event_type ev).
Proof.
  intros [[-> _]|(_ & _ & _ & _ & _ & Hio)]%append_inv; [auto|].
  destruct io; [destruct Hio as (_ & _ & _ & ->)|destruct Hio as (_ & _ & _ & ->); auto].
  rewrite log_entries_insert. case_decide as Hid; [|auto]. rewrite in_app_iff.
  intros [?|[<-|[]]]; [auto|]. right. simpl in *. done.
Qed.

(** Only the append action touches the store. *)
Lemma step_store io now t s t' s' :
  step io now t s = (t', s') ->
  app_authorizer s' = app_authorizer s /\
  match t with
  | TAppend ev p => exists r, append io now (app_store s) ev p = (r, app_store s') /\ t' = TAppended r
  | TEventsChecked h b =>
      app_store s' = app_store s /\ (forall ev p, t' = TAppend ev p -> events_checks s h b = Ok (ev, p))
  | _ => app_store s' = app_store s /\ forall ev p, t' <> TAppend ev p
  end.
Proof.
  intros Hst. destruct t; simpl in Hst;
    try (destruct (append _ _ _ _ _) as [r0 st0] eqn:Ea);
    repeat (case_hyp Hst; try (injection Hst as <- <-)); try (injection Hst as <- <-);
    simplify_eq; simpl; eauto; (split; [done|]); try naive_solver; split; try naive_solver.
Qed.

Lemma step_inv sg interval proj clients old io now ts i t s t' s' :
  server_inv sg interval proj clients old (ts, s) -> ts !! i = Some t ->
  step io now t s = (t', s') -> server_inv sg interval proj clients old (<[i := t']> ts, s').
Proof.
  intros [Hr Hc Ht He] Hi [Hc' Hst]%step_store. simpl in *.
  pose proof (Forall_lookup_1 _ _ _ _ Ht Hi) as Hti.
  destruct t; simpl in Hti; destruct Hst as [Hs Hn];
    try (constructor; simpl; rewrite ?Hs, ?Hc'; try done; apply Forall_insert; [done|];
         destruct t'; simpl; try done; exfalso; by eapply Hn).
  - constructor; simpl; rewrite ?Hs, ?Hc'; try done. apply Forall_insert; [done|].
    destruct t'; simpl; try done. specialize (Hn _ _ eq_refl).
    apply events_checks_ok in Hn as (? & ? & _). by rewrite <- Hc.
  - destruct Hti as [Ha Hev]. destruct Hn as [Hn ->]. constructor; simpl.
    + by eapply reach_append.
    + congruence.
    + by apply Forall_insert.
    + intros id e Hin. eapply append_entries in Hin as [Hin|(-> & Hp & Hty)]; [by apply He| |done].
      right. exists event. by rewrite Hp, Hty.
Qed.

Lemma flush_entries dir_ok wrote s c s' :
  flush_projections dir_ok wrote s = (c, s') ->
  state s' = state s /\ ledger s' = ledger s /\ writable s' = writable s.
Proof. unfold flush_projections. destruct dir_ok; intros [= <- <-]; done. Qed.

Lemma app_flush_store dir_ok wrote s :
  app_authorizer (app_flush_projections dir_ok wrote s) = app_authorizer s /\
  (app_store (app_flush_projections dir_ok wrote s) = app_store s \/
   exists c, flush_projections dir_ok wrote (app_store s)
             = (c, app_store (app_flush_projections dir_ok wrote s))).
Proof.
  unfold app_flush_projections. destruct (app_projection_dir s); [|auto].
  destruct (flush_projections _ _ _) as [[[ok failed]|e] st]; simpl; eauto.
Qed.

Lemma server_step_inv sg interval proj clients old c c' :
  server_inv sg interval proj clients old c -> server_step c c' ->
  server_inv sg interval proj clients old c'.
Proof.
  intros Hinv Hs. destruct Hs as [header body ts s|header body ts s|io now ts i t t' s s' Hi Hst
                                 |dir_ok wrote ts s].
  1, 2: destruct Hinv as [Hr Hc Ht He]; constructor; simpl in *; try done;
    apply Forall_app; split; [done|]; by constructor.
  - by eapply step_inv.
  - destruct Hinv as [Hr Hc Ht He]. simpl in *.
    destruct (app_flush_store dir_ok wrote s) as [Ha [Hst|[r Hst]]]; constructor; simpl; rewrite ?Ha, ?Hst; try done.
    + by eapply reach_flush.
    + by destruct (flush_entries _ _ _ _ _ Hst) as [-> _].
Qed.

Lemma from_config_inv lf cf sg interval maxb proj s :
  from_config lf cf sg interval maxb proj = Ok s ->
  server_inv sg interval proj (app_authorizer s) (state (app_store s)) ([], s).
Proof.
  unfold from_config. intros H. inv_ok. simpl. constructor; simpl; try done; [|by auto].
  by eapply reach_open.
Qed.

Lemma server_steps_inv lf cf sg interval maxb proj s0 c :
  from_config lf cf sg interval maxb proj = Ok s0 -> rtc server_step ([], s0) c ->
  server_inv sg interval proj (app_authorizer s0) (state (app_store s0)) c.
Proof.
  intros Hf%from_config_inv Hr. revert Hf. generalize (app_authorizer s0) (state (app_store s0)).
  induction Hr as [|x y z Hs Hr IH]; intros cl old Hi; [done|].
  apply IH. by eapply server_step_inv.
Qed.

(** A step of a server whose store had a durability failure keeps the store. *)
Definition frozen (s s' : Store) : Prop :=
  ledger s' = ledger s /\ state s' = state s /\ writable s' = false.

Lemma frozen_step c c' :
  writable (app_store c.2) = false -> server_step c c' -> frozen (app_store c.2) (app_store c'.2).
Proof.
  intros Hw Hs. destruct Hs as [| |io now ts i t t' s s' Hi Hst|dir_ok wrote ts s]; simpl in *; try done.
  - apply step_store in Hst as [_ Hst]. destruct t; destruct Hst as [E Hst]; try (by rewrite E).
    destruct Hst as [Ha _]. unfold append in Ha. rewrite Hw in Ha. simpl in Ha.
    injection Ha as _ <-. done.
  - destruct (app_flush_store dir_ok wrote s) as [_ [->|[r Hst]]]; [done|].
    apply flush_entries in Hst as (? & ? & ?). split_and!; congruence.
Qed.

Lemma frozen_steps c c' :
  rtc server_step c c' -> writable (app_store c.2) = false -> frozen (app_store c.2) (app_store c'.2).
Proof.
  induction 1 as [x|x y z Hs _ IH]; intros Hw; [by split_and!|].
  apply frozen_step in Hs as (Hl & Hst & Hw'); [|done].
  destruct (IH Hw') as (? & ? & ?). split_and!; congruence.
Qed.

(** C8: only authorised appends, under every interleaving. Whatever requests
    arrive and however their handlers interleave with each other and with the
    flushes, every entry that was not in the ledger at the start was produced
    by a client that authenticated with a bearer token, has the append
    permission, and is allowed this session and this event type. *)
Theorem concurrent_appends_authorised lf cf sg interval maxb proj s0 ts s id e :
  from_config lf cf sg interval maxb proj = Ok s0 ->
  rtc server_step ([], s0) (ts, s) ->
  In e (log_entries (state (app_store s)) id) ->
  In e (log_entries (state (app_store s0)) id) \/
  exists c header, authenticate (app_authorizer s0) header = Ok c
    /\ eb_producer_id (en_body e) = cl_id c /\ "append" ∈ cl_permissions c
    /\ matches_any (cl_sessions c) id = true
    /\ matches_any (cl_event_types c) (eb_event_type (en_body e)) = true.
Proof.
  intros Hf Hr He. pose proof (server_steps_inv _ _ _ _ _ _ _ _ Hf Hr) as [_ _ _ Hi].
  destruct (Hi id e He) as [?|(ev & (c & h & ? & ? & ? & ? & ?) & <- & <-)]; [by left|].
  right. exists c, h. done.
Qed.

(** The store is never wrong. Under every interleaving, as long as no
    durability failure happened the file replays to the in-memory index; after
    one, no request and no flush ever changes the file or the index again, even
    when the [ready] flag says that appends are accepted. *)
Theorem concurrent_store_safety lf cf sg interval maxb proj s0 ts s :
  from_config lf cf sg interval maxb proj = Ok s0 ->
  rtc server_step ([], s0) (ts, s) ->
  (writable (app_store s) = true ->
     replay sg (ledger (app_store s)) = Ok (state (app_store s)))
  /\ (writable (app_store s) = false ->
      forall ts' s', rtc server_step (ts, s) (ts', s') -> frozen (app_store s) (app_store s')).
Proof.
  intros Hf Hr. pose proof (server_steps_inv _ _ _ _ _ _ _ _ Hf Hr) as [Hre _ _ _].
  apply reachable_store_ok in Hre as [Hok Hsg]. simpl in *. split.
  - intros Hw. rewrite <- Hsg. by apply Hok.
  - intros Hw ts' s' Hrtc. exact (frozen_steps _ _ Hrtc Hw).
Qed.

(** One request alone. A request always answers (six actions suffice), it
    is answered 204 exactly when the server was ready, the checks passed and the
    store appended the event or had it already; an internal failure of the
    store switches the server to not ready. *)
Theorem serve_events_answer io now header body s :
  exists status s', serve io now (TEvents header body) s = (TDone status, s')
  /\ (status = 204 <->
      app_ready s = true /\ exists ev p r st, events_checks s header body = Ok (ev, p)
        /\ append io now (app_store s) ev p = (Ok r, st) /\ app_store s' = st)
  /\ (app_ready s = true -> (exists ev p e st, events_checks s header body = Ok (ev, p)
        /\ append io now (app_store s) ev p = (Err (Internal e), st)) ->
      status = 500 /\ app_ready s' = false).
Proof.
  unfold serve. cbn [run step]. destruct (app_ready s) eqn:Er.
  2:{ do 2 eexists. split; [reflexivity|]. split; [split; [done|]|]; naive_solver. }
  cbn [run step]. destruct (events_checks s header body) as [[ev p]|e] eqn:Ec; cbn [run step].
  - destruct (append io now (app_store s) ev p) as [[r|[m|m]] st] eqn:Ea;
      cbn [run step]; do 2 eexists; (split; [reflexivity|]); simpl.
    + split; [split; [|done]; intros _; split; [done|]; by exists ev, p, r, st|].
      intros _ (? & ? & ? & ? & ? & ?). congruence.
    + split; [split; [done|]; intros (_ & ? & ? & ? & ? & ? & ? & _)|intros _ (? & ? & ? & ? & ? & ?)];
        congruence.
    + split; [split; [done|]; intros (_ & ? & ? & ? & ? & ? & ? & _); congruence|done].
  - do 2 eexists. split; [reflexivity|].
    split; [split|]; [|intros (_ & ? & ? & ? & ? & ? & ? & _); congruence|naive_solver].
    intros Hst. exfalso. revert Ec. unfold events_checks.
    intros [Hc|(c & _ & Hc)]%rbind_err.
    { unfold authorize, authenticate, require, guard in Hc.
      destruct (bearer_token header) as [tok|]; [|by simplify_eq/=].
      destruct (foldl _ _ _); [|by simplify_eq/=]. simpl in Hc. by case_bool_decide; simplify_eq/=. }
    repeat (case_hyp Hc; [by simplify_eq/=|]).
    unfold authorize_session, authorize_event, guard in Hc.
    destruct (from_slice body ≫= de_event) as [ev|]; [|by simplify_eq/=]. simpl in Hc.
    destruct (validate_event ev); [|by simplify_eq/=]. simpl in Hc.
    destruct (matches_any (cl_sessions c) _); [|by simplify_eq/=]. simpl in Hc.
    destruct (matches_any (cl_event_types c) _); by simplify_eq/=.
Qed.

(** Reads are confined. Every read handler that answers does so to an
    authenticated client with the read permission whose patterns cover the log
    it returns data of, and the pages respect the limit of 1000. *)
Theorem reads_authorised s header :
  let reader id := exists c, authenticate (app_authorizer s) header = Ok c
                     /\ "read" ∈ cl_permissions c /\ matches_any (cl_sessions c) id = true in
  (forall id h, get_head s header id = Ok h -> reader id /\ head (app_store s) id = Some h)
  /\ (forall id a l es, get_entries s header id a l = Ok es ->
        reader id /\ (length es <= 1000)%nat /\ exists n, es = entries (app_store s) id (unwrap_or a 0) n)
  /\ (forall id a l cs, get_checkpoints s header id a l = Ok cs ->
        reader id /\ (length cs <= 1000)%nat /\ exists n, cs = checkpoints (app_store s) id (unwrap_or a 0) n)
  /\ (forall k c, get_checkpoint s header k = Ok c ->
        reader (cb_log_id (cp_body c)) /\ checkpoint (app_store s) k = Some c).
Proof.
  intros reader.
  assert (forall id c, read_client s header id = Ok c -> reader id) as Hrd.
  { unfold read_client, authorize_session. intros id c H. inv_ok.
    match goal with H : authorize _ _ _ = Ok _ |- _ => apply authorize_ok in H as [? ?] end.
    exists c. done. }
  assert (forall a l p, list_query a l = Ok p -> p.1 = unwrap_or a 0 /\ (Z.to_nat p.2 <= 1000)%nat) as Hlq.
  { unfold list_query. intros a l p H. case_hyp H; [done|]. bool_hyps. inv_ok. simpl.
    split; [done|]. rewrite Z.leb_le in *. lia. }
  split_and!.
  - unfold get_head. intros id h H. inv_ok. eauto.
  - unfold get_entries. intros id a l es H. inv_ok. apply Hlq in Hok0 as [-> Hn].
    split; [by eapply Hrd|]. split; [|eauto]. unfold entries. rewrite length_take. lia.
  - unfold get_checkpoints. intros id a l es H. inv_ok. apply Hlq in Hok0 as [-> Hn].
    split; [by eapply Hrd|]. split; [|eauto]. unfold checkpoints. rewrite length_take. lia.
  - unfold get_checkpoint, authorize_session, checkpoint_session, checkpoint. intros k c H. inv_ok.
    match goal with H : authorize _ _ _ = Ok _ |- _ => apply authorize_ok in H as [? ?] end.
    rewrite H in *. simpl in *. simplify_eq. unfold reader. eauto.
Qed.
End Concurrency.

(** ** Witnesses and a race: one client, a checkpoint every second entry *)

Module ServerWitness.

#[local] Instance platform : Platform := toy_platform (fun _ => None) 0.

Definition token : string := "token-0123456789abcdef".
Definition header : option string := Some ("Bearer " +:+ token).
Definition clients_file : string := Eval vm_compute in
  to_vec (VObj [("clients", VArr [VObj [
    ("id", VStr "producer-1"); ("tokenSha256", VStr ("sha256:" +:+ toy_hash token));
    ("permissions", VArr [VStr "append"; VStr "read"; VStr "verify"]);
    ("eventTypes", VArr [VStr "reviewer.*"]); ("sessions", VArr [VStr "session-*"])]])]).
Definition event_body (id : string) : string :=
  to_vec (to_value (mkEvent id "session-1" "reviewer.verdict" ("sha256:" +:+ toy_hash id) [])).
Definition verify_body : string := to_vec (VObj []).
Definition sg : Ed25519Signer := mkSigner "key-1" "logger-1".

Definition no_app : AppState := mkApp (mkStore "" sg 2 false ∅ LedgerState_default true) [] false 0 false 0 0 0 0 0.
Definition app0 : AppState := Eval vm_compute in
  match from_config "" clients_file sg 2 4096 false with Ok s => s | Err _ => no_app end.

Lemma app0_config : from_config "" clients_file sg 2 4096 false = Ok app0.
Proof. vm_compute. reflexivity. Qed.

(** A schedule: the actions in order, by thread number. *)
Fixpoint schedule (l : list (nat * WriteOutcome)) (c : list Thread * AppState) : list Thread * AppState :=
  match l with
  | [] => c
  | (i, io) :: l' =>
      match c.1 !! i with
      | Some t => let '(t', s') := step io "t1" t c.2 in schedule l' (<[i := t']> c.1, s')
      | None => schedule l' c
      end
  end.

Lemma schedule_steps l c : rtc server_step c (schedule l c).
Proof.
  revert c. induction l as [|[i io] l IH]; intros [ts s]; simpl; [done|].
  destruct (ts !! i) as [t|] eqn:Hi; [|apply IH].
  destruct (step io "t1" t s) as [t' s'] eqn:Hs.
  eapply rtc_l; [by eapply ss_act|]. apply IH.
Qed.

Definition requests : list Thread := [TEvents header (event_body "event-1"); TVerify header verify_body].

Lemma requests_arrive s : rtc server_step ([], s) (requests, s).
Proof.
  eapply rtc_l; [apply (ss_events header (event_body "event-1"))|].
  eapply rtc_l; [apply (ss_verify header verify_body)|]. done.
Qed.

Definition appended : list Thread * AppState := Eval vm_compute in
  schedule (repeat (0%nat, Wrote) 6) (requests, app0).

Lemma appended_reachable : rtc server_step ([], app0) appended.
Proof.
  etransitivity; [apply requests_arrive|].
  replace appended with (schedule (repeat (0%nat, Wrote) 6) (requests, app0)) by (vm_compute; reflexivity).
  apply schedule_steps.
Qed.

Lemma authenticate_exact_witness :
  exists specs, from_slice clients_file ≫= de_clients_file = Some specs
  /\ NoDup (map cl_id (app_authorizer app0)) /\ NoDup (map cl_token_digest (app_authorizer app0))
  /\ forall header c, authenticate (app_authorizer app0) header = Ok c <->
       exists token spec, header = Some ("Bearer " +:+ token) /\ token_ok token = true
         /\ In spec specs /\ cs_token_sha256 spec = "sha256:" +:+ sha256_hex token
         /\ In c (app_authorizer app0) /\ client_of spec c /\ cl_token_digest c = sha256_digest token.
Proof.
  apply (authenticate_exact (HS := toy_hash_shape (fun _ => None) 0) clients_file).
  vm_compute. reflexivity.
Defined.

Definition entry1 : Entry := Eval vm_compute in
  unwrap_or (log_entries (state (app_store appended.2)) "session-1" !! 0%nat)
    (mkEntry (mkBody "" 0 "" "" "" "" "" "" []) "").

Lemma concurrent_appends_authorised_witness :
  In entry1 (log_entries (state (app_store app0)) "session-1") \/
  exists c header, authenticate (app_authorizer app0) header = Ok c
    /\ eb_producer_id (en_body entry1) = cl_id c /\ "append" ∈ cl_permissions c
    /\ matches_any (cl_sessions c) "session-1" = true
    /\ matches_any (cl_event_types c) (eb_event_type (en_body entry1)) = true.
Proof.
  apply (concurrent_appends_authorised "" clients_file sg 2 4096 false app0 appended.1 appended.2
           "session-1" entry1).
  - exact app0_config.
  - exact appended_reachable.
  - vm_compute. left. reflexivity.
Defined.

Lemma concurrent_store_safety_witness :
  replay sg (ledger (app_store appended.2)) = Ok (state (app_store appended.2)).
Proof.
  apply (concurrent_store_safety "" clients_file sg 2 4096 false app0 appended.1 appended.2).
  - exact app0_config.
  - exact appended_reachable.
  - vm_compute. reflexivity.
Defined.

(** The race between [verify] and [events]: the verification reads the store
    before the failing append and stores its verdict after it. *)
Definition race : list Thread * AppState := Eval vm_compute in
  schedule ([(0, Wrote); (0, Wrote); (1, Wrote); (1, Wrote)]
            ++ repeat (0, Failed 100) 3 ++ repeat (1, Wrote) 2)%nat (requests, app0).

(** The [ready] flag can be stale. A verification whose critical section
    precedes a failing append may store its verdict after the append's: both
    requests are answered (200 and 500), the store refuses every append, and the
    server still reports ready. *)
Theorem ready_flag_race :
  exists ts s, rtc server_step ([], app0) (ts, s) /\ ts = [TDone 500; TDone 200]
    /\ writable (app_store s) = false /\ ready s = Ok true.
Proof.
  exists race.1, race.2. split_and!; [|vm_compute; reflexivity..].
  etransitivity; [apply requests_arrive|].
  replace (race.1, race.2) with
    (schedule ([(0, Wrote); (0, Wrote); (1, Wrote); (1, Wrote)]
            ++ repeat (0, Failed 100) 3 ++ repeat (1, Wrote) 2)%nat (requests, app0))
    by (vm_compute; reflexivity).
  apply schedule_steps.
Qed.

End ServerWitness.
