(* ===== verification/Config.v ===== *)
(** * Config: [runtime/src/config.rs]

    The fixed user identifiers of the roles, the directories, and whether the
    lifecycle gates are mandatory. *)

From S2P Require Import Prelude Text State.

Definition CONTROL_UID : Z := 10000.
Definition ORCHESTRATOR_UID : Z := 10001.
Definition WRITER_UID : Z := 10002.
Definition READER_UID : Z := 10003.
Definition SUPERVISOR_UID : Z := 10004.
Definition OPS_UID : Z := 10005.
Definition REVIEWER_UID : Z := 10007.

Section Config.
Context `{Platform}.

Definition lifecycle_enforced_for (real_uid : Z) (requested uid_sandbox : option string) : bool :=
  (real_uid =? ORCHESTRATOR_UID)
  || bool_decide (requested = Some "1") || bool_decide (uid_sandbox = Some "1").

Definition lifecycle_enforced : bool :=
  lifecycle_enforced_for getuid (env_var "MULTIAGENT_LIFECYCLE_ENFORCEMENT")
    (env_var "MULTIAGENT_UID_SANDBOX").

(** [env::var_os(name)] when it is set and not empty. *)
Definition env_nonempty (name : string) : option string :=
  value ← env_var name; if is_empty value then None else Some value.

Definition root : result string string :=
  match env_nonempty "MULTIAGENT_ROOT" with
  | Some value => Ok value
  | None => map_err (fun error => "cannot determine current directory: " +:+ error) current_dir
  end.

Definition state_dir : result string string :=
  match env_nonempty "MULTIAGENT_STATE_DIR" with
  | Some value => Ok value
  | None => let? r := root in Ok (path_join r ".multiagent")
  end.

End Config.
