(* ===== verification/Execution.v ===== *)
(** * Execution: [runtime/src/execution.rs]

    The authority of the running session: its scope, and the repository paths
    and effects a bounded mutation execution was granted. *)

From S2P Require Import Prelude Text State Json LogModel Config.

Definition ACTIVE_EXECUTION_FILE : string := "runtime_state/active-execution.json".
Definition ALLOWED_EFFECTS : list string := ["reviewed-ops"; "source-write"].

Record ReviewMutationGrant := mkGrant {
  rg_kind : string;
  rg_effects : list string;
  rg_repository : string;
  rg_paths : list string;
  rg_review_id : string;
  rg_source_session_id : string;
  rg_source_event_id : string;
  rg_question_sha256 : string;
  rg_granted_to_session_id : string;
  rg_approved_by : string;
  rg_approved_at : string
}.

Record ActiveExecution := mkActive {
  ax_schema_version : Z;
  ax_ordinal : Z;
  ax_kind : string;
  ax_effects : list string;
  ax_repository : string;
  ax_paths : list string;
  ax_session_id : string
}.

Record Execution := mkExecution {
  scope : string;
  ordinal : Z;
  granted_paths : gset string;
  source_write : bool;
  reviewed_ops : bool;
  fixed_grant : bool
}.

(** ** JSON *)

Definition u32_ok (n : Z) : bool := (0 <=? n) && (n <? 2 ^ 32).
Definition as_u32 (v : Value) : option Z :=
  match v with VNum n => if u32_ok n then Some n else None | _ => None end.
Definition u32_field (k : string) (kvs : list (string * Value)) : option Z := field k kvs ≫= as_u32.
Definition strings_value (l : list string) : Value := VArr (map VStr l).
Definition strings_field (k : string) (kvs : list (string * Value)) : option (list string) :=
  l ← field k kvs ≫= as_list; all_some as_str l.

Definition active_fields (a : ActiveExecution) : list (string * Value) :=
  [("schemaVersion", VNum (ax_schema_version a)); ("ordinal", VNum (ax_ordinal a));
   ("kind", VStr (ax_kind a)); ("effects", strings_value (ax_effects a));
   ("repository", VStr (ax_repository a)); ("paths", strings_value (ax_paths a));
   ("sessionId", VStr (ax_session_id a))].

Definition de_active (v : Value) : option ActiveExecution :=
  kvs ← as_fields v;
  if known_fields ["schemaVersion"; "ordinal"; "kind"; "effects"; "repository"; "paths"; "sessionId"] kvs
  then
    schema_version ← u32_field "schemaVersion" kvs;
    ordinal ← u32_field "ordinal" kvs;
    kind ← str_field "kind" kvs;
    effects ← strings_field "effects" kvs;
    repository ← str_field "repository" kvs;
    paths ← strings_field "paths" kvs;
    session_id ← str_field "sessionId" kvs;
    Some (mkActive schema_version ordinal kind effects repository paths session_id)
  else None.

Definition de_grant (v : Value) : option ReviewMutationGrant :=
  kvs ← as_fields v;
  if known_fields ["kind"; "effects"; "repository"; "paths"; "reviewId"; "sourceSessionId";
       "sourceEventId"; "questionSha256"; "grantedToSessionId"; "approvedBy"; "approvedAt"] kvs
  then
    kind ← str_field "kind" kvs;
    effects ← strings_field "effects" kvs;
    repository ← str_field "repository" kvs;
    paths ← strings_field "paths" kvs;
    review_id ← str_field "reviewId" kvs;
    source_session_id ← str_field "sourceSessionId" kvs;
    source_event_id ← str_field "sourceEventId" kvs;
    question_sha256 ← str_field "questionSha256" kvs;
    granted_to_session_id ← str_field "grantedToSessionId" kvs;
    approved_by ← str_field "approvedBy" kvs;
    approved_at ← str_field "approvedAt" kvs;
    Some (mkGrant kind effects repository paths review_id source_session_id source_event_id
            question_sha256 granted_to_session_id approved_by approved_at)
  else None.

(** ** Paths: [std::path] on Unix *)

Inductive PathComponent := CurDir | ParentDir | Normal (s : string).

#[export] Instance PathComponent_eq_dec : EqDecision PathComponent.
Proof. solve_decision. Defined.

Definition is_absolute (p : string) : bool := starts_with "/" p.

Definition body_component (piece : string) : option PathComponent :=
  if is_empty piece || String.eqb piece "." then None
  else if String.eqb piece ".." then Some ParentDir else Some (Normal piece).

(** [Path::components] after the root: repeated separators and interior [.]
    disappear, a leading [.] of a relative path is kept. *)
Definition components (p : string) : list PathComponent :=
  match split "/" p with
  | "." :: pieces => if is_absolute p then omap body_component pieces
                     else CurDir :: omap body_component pieces
  | pieces => omap body_component pieces
  end.

(** [Path::strip_prefix]: the text that remains after the components of [root],
    without separators and [.] at its ends. *)
Fixpoint drop_pieces (prefix : list PathComponent) (pieces : list string) : option (list string) :=
  match prefix, pieces with
  | [], _ => Some pieces
  | c :: prefix', piece :: pieces' =>
      match body_component piece with
      | None => drop_pieces prefix pieces'
      | Some d => if decide (c = d) then drop_pieces prefix' pieces' else None
      end
  | _ :: _, [] => None
  end.

Fixpoint trim_pieces (pieces : list string) : list string :=
  match pieces with
  | [] => []
  | piece :: pieces' => match body_component piece with
                        | None => trim_pieces pieces'
                        | Some _ => pieces
                        end
  end.

Definition trim_both (pieces : list string) : list string :=
  rev (trim_pieces (rev (trim_pieces pieces))).

Definition path_strip_prefix (root path : string) : option string :=
  if negb (Bool.eqb (is_absolute root) (is_absolute path)) then None
  else match components root, split "/" path with
  | [], pieces =>
      Some (join "/" (if is_absolute path then trim_both pieces else rev (trim_pieces (rev pieces))))
  | CurDir :: prefix, "." :: pieces =>
      (fun rest => join "/" (trim_both rest)) <$> drop_pieces prefix pieces
  | CurDir :: _, _ => None
  | _, "." :: _ => None
  | prefix, pieces => (fun rest => join "/" (trim_both rest)) <$> drop_pieces prefix pieces
  end.

(** ** Validation *)

Definition bounded (value : string) (max : Z) : bool :=
  negb (is_empty (trim value)) && (len value <=? max).

Definition backslash : ascii := "092".

Definition normalized_repo_path (value : string) : option string :=
  if negb (bounded value 512) then None
  else
    let normalized := replace_char backslash "/" value in
    if is_absolute normalized
       || existsb (fun part => match part with Normal _ => false | _ => true end)
            (components normalized)
    then None else Some normalized.

Definition normalized_effects (values : list string) : option (gset string) :=
  let effects : gset string := list_to_set values in
  if negb (bool_decide (effects = ∅)) && (size effects =? length values)%nat
     && bool_decide (effects ⊆ list_to_set ALLOWED_EFFECTS)
  then Some effects else None.

Definition validated_paths (values : list string) (source_write : bool) : option (gset string) :=
  let paths : gset string := list_to_set (omap normalized_repo_path values) in
  if (length values <=? 32)%nat && (size paths =? length values)%nat
     && Bool.eqb source_write (negb (bool_decide (values = [])))
  then Some paths else None.

Definition read_only (sc : string) : Execution := mkExecution sc 1 ∅ false false false.
Definition legacy_human : Execution := mkExecution "human" 1 ∅ true true true.

(** ** The methods of [Execution] *)

Definition is_read_only (e : Execution) : bool := negb (source_write e) && negb (reviewed_ops e).

Definition permits_workspace_write (e : Execution) (root : string) (paths : list string) : bool :=
  if String.eqb (scope e) "human" then true
  else source_write e && negb (bool_decide (paths = []))
       && forallb (fun path =>
            match path_strip_prefix root path ≫= normalized_repo_path with
            | Some relative => bool_decide (relative ∈ granted_paths e)
            | None => false
            end) paths.

Definition permits_reviewed_ops (e : Execution) : bool :=
  String.eqb (scope e) "human" || reviewed_ops e.

Definition permits_mutation_request (e : Execution) : bool :=
  String.eqb (scope e) "user" && is_read_only e && negb (fixed_grant e).

(** ** Configuration and the mutation request *)

Section Configured.
Context `{Platform, JsonCodec, JsonPretty}.

Definition from_review_grant (sc json session_id repository : string) : result string Execution :=
  let? grant := ok_or (from_slice json ≫= de_grant)
                  ("decode approved mutation grant: " +:+ os_error) in
  let? effects := ok_or (normalized_effects (rg_effects grant))
                    "approved mutation grant has invalid effects" in
  let source_write := bool_decide ("source-write" ∈ effects) in
  let? paths := ok_or (validated_paths (rg_paths grant) source_write)
                  "approved mutation grant has invalid paths" in
  let digest := unwrap_or (strip_prefix "sha256:" (rg_question_sha256 grant)) "" in
  if negb (String.eqb (rg_kind grant) "review-approved-repair")
     || negb (String.eqb (rg_repository grant) repository)
     || negb (String.eqb (rg_granted_to_session_id grant) session_id)
     || negb (bounded (rg_review_id grant) 128)
     || negb (bounded (rg_source_session_id grant) 63)
     || negb (bounded (rg_source_event_id grant) 128)
     || negb (len digest =? 64)
     || negb (all_chars is_ascii_hexdigit digest)
     || negb (bounded (rg_approved_by grant) 256)
     || negb (bounded (rg_approved_at grant) 64)
  then Err "approved mutation grant is incomplete or bound to another session or repository"
  else Ok (mkExecution sc 1 paths source_write (bool_decide ("reviewed-ops" ∈ effects)) true).

Definition from_active_execution (json session_id repository : string) : result string Execution :=
  let? active := ok_or (from_slice json ≫= de_active) ("decode active execution: " +:+ os_error) in
  let? effects := ok_or (normalized_effects (ax_effects active))
                    "active execution has invalid effects" in
  let source_write := bool_decide ("source-write" ∈ effects) in
  let? paths := ok_or (validated_paths (ax_paths active) source_write)
                  "active execution has invalid paths" in
  if negb (ax_schema_version active =? 1)
     || (ax_ordinal active <? 2)
     || negb (String.eqb (ax_kind active) "user-requested-mutation")
     || negb (String.eqb (ax_repository active) repository)
     || negb (String.eqb (ax_session_id active) session_id)
  then Err "active execution is incomplete or bound to another session or repository"
  else Ok (mkExecution "user" (ax_ordinal active) paths source_write
             (bool_decide ("reviewed-ops" ∈ effects)) false).

Definition configured_from (sc initial_grant_json : string) (active_execution_json : option string)
    (session_id repository : string) : result string Execution :=
  let has_initial_grant := negb (is_empty (trim initial_grant_json))
                           && negb (String.eqb (trim initial_grant_json) "null") in
  if String.eqb sc "human" && negb has_initial_grant then Ok legacy_human
  else if (String.eqb sc "observe" || String.eqb sc "diagnosis-only") && negb has_initial_grant
  then Ok (read_only sc)
  else if String.eqb sc "user" && has_initial_grant
  then from_review_grant sc initial_grant_json session_id repository
  else if String.eqb sc "user" then
    match active_execution_json with
    | Some json => from_active_execution json session_id repository
    | None => Ok (read_only sc)
    end
  else if String.eqb sc "human" || String.eqb sc "observe" || String.eqb sc "diagnosis-only"
  then Err ("execution scope " +:+ sc +:+ " must not carry a mutation grant")
  else Err "MULTIAGENT_AUTHORITY_SCOPE is invalid".

Definition repository_var : option string :=
  match env_var "MULTIAGENT_REPOSITORY_NAME" with
  | Some v => Some v
  | None => env_var "MULTIAGENT_SESSION_REPOSITORY"
  end.

Definition configured : IO Execution :=
  let sc := unwrap_or (env_nonempty "MULTIAGENT_AUTHORITY_SCOPE") "human" in
  let! dir := lift state_dir in
  let state_path := path_join dir ACTIVE_EXECUTION_FILE in
  let! exists_ := is_file state_path in
  let! active_json :=
    (if exists_ then let! t := read_to_string state_path in ret (Some t) else ret None) in
  lift (configured_from sc (unwrap_or (env_var "MULTIAGENT_MUTATION_GRANT_JSON") "") active_json
          (unwrap_or (env_var "MULTIAGENT_SESSION") "") (unwrap_or repository_var "")).

Definition request_mutation (paths : list string) (reviewed : bool) : IO Execution :=
  let! current := configured in
  let! _ := check (permits_mutation_request current)
              "only an initial read-only user execution may request mutation" in
  let normalized : gset string := list_to_set (omap normalized_repo_path paths) in
  let! _ := check (negb ((32 <? length paths)%nat || negb (size normalized =? length paths)%nat
                         || (bool_decide (normalized = ∅) && negb reviewed)))
              "mutation request requires unique exact repository paths and/or reviewed-ops" in
  let effects := (if bool_decide (normalized = ∅) then [] else ["source-write"])
                 ++ (if reviewed then ["reviewed-ops"] else []) in
  let! repository := lift (ok_or repository_var "mutation request requires a bound repository") in
  let! session_id := lift (ok_or (env_var "MULTIAGENT_SESSION")
                             "mutation request requires a bound session") in
  let active := mkActive 1 ((ordinal current + 1) mod 2 ^ 32) "user-requested-mutation" effects
                  repository (btree_list normalized) session_id in
  let encoded := to_string_pretty (VObj (active_fields active)) in
  let! dir := lift state_dir in
  let! _ := atomic_write (path_join dir ACTIVE_EXECUTION_FILE) (encoded +:+ String nl "") in
  configured.

End Configured.
