(* ===== verification/ExecutionProps.v ===== *)
(** * ExecutionProps: the authority of an execution and its one advance *)

From S2P Require Import Prelude Text State Json LogModel Config Execution Instances.

#[local] Arguments canon_fields : simpl never.
#[local] Arguments known_fields : simpl never.
#[local] Arguments str_field : simpl never.
#[local] Arguments u32_field : simpl never.
#[local] Arguments strings_field : simpl never.

Lemma all_some_str l : all_some as_str (map VStr l) = Some l.
Proof. induction l as [|x l IH]; simpl; [done|]. by rewrite IH. Qed.

Lemma active_distinct a : distinct_keys (VObj (active_fields a)) = true.
Proof.
  assert (forall l, forallb distinct_keys (map VStr l) = true) as Hs by (by induction l).
  simpl. by rewrite !Hs.
Qed.

(** The record of a mutation execution is read back as it was written. *)
Lemma active_roundtrip a :
  u32_ok (ax_schema_version a) = true -> u32_ok (ax_ordinal a) = true ->
  de_active (VObj (active_fields a)) = Some a.
Proof.
  destruct a as [v n k e r p s]. cbn [ax_schema_version ax_ordinal]. intros Hv Hn.
  unfold de_active. cbn [as_fields mbind option_bind].
  set (kvs := active_fields _).
  change (known_fields _ kvs) with true. cbv iota.
  change (u32_field "schemaVersion" kvs) with (if u32_ok v then Some v else None). rewrite Hv.
  change (u32_field "ordinal" kvs) with (if u32_ok n then Some n else None). rewrite Hn.
  change (str_field "kind" kvs) with (Some k).
  change (strings_field "effects" kvs) with (all_some as_str (map VStr e)).
  change (str_field "repository" kvs) with (Some r).
  change (strings_field "paths" kvs) with (all_some as_str (map VStr p)).
  change (str_field "sessionId" kvs) with (Some s).
  rewrite !all_some_str. done.
Qed.

(** ** Paths *)

Definition normal_component (c : PathComponent) : bool :=
  match c with Normal _ => true | _ => false end.

Lemma normalized_repo_path_spec v p :
  normalized_repo_path v = Some p ->
  p = replace_char backslash "/" v /\ bounded v 512 = true /\ is_absolute p = false
  /\ forallb normal_component (components p) = true.
Proof.
  unfold normalized_repo_path. destruct (bounded v 512) eqn:Hb; simpl; [|done].
  case_match eqn:E; [done|]. intros [= <-]. bool_hyps. split_and!; try done.
  apply forallb_forall. intros x Hx.
  match goal with E : existsb _ _ = false |- _ => rewrite existsb_false in E; specialize (E x Hx) end.
  by destruct x.
Qed.

Lemma replace_char_idem c d s : c <> d -> replace_char c d (replace_char c d s) = replace_char c d s.
Proof.
  intros Hne. induction s as [|a s IH]; simpl; [done|]. rewrite IH. f_equal.
  destruct (Ascii.eqb_spec a c) as [->|]; [by destruct (Ascii.eqb_spec d c)|].
  by destruct (Ascii.eqb_spec a c).
Qed.

Lemma replace_char_length c d s : String.length (replace_char c d s) = String.length s.
Proof. induction s; simpl; congruence. Qed.

(** White space holds neither separator, so trimming and replacing commute. *)
Section Replace.
Variables c d : ascii.

Lemma replace_eqb_char a b : a <> c -> a <> d -> Ascii.eqb a (if Ascii.eqb b c then d else b) = Ascii.eqb a b.
Proof.
  intros Hc Hd. destruct (Ascii.eqb_spec b c) as [->|]; [|done].
  by destruct (Ascii.eqb_spec a d), (Ascii.eqb_spec a c).
Qed.

Lemma replace_eqb p s :
  has_char c p = false -> has_char d p = false -> String.eqb (replace_char c d s) p = String.eqb s p.
Proof.
  revert p. induction s as [|b s IH]; intros [|a p]; simpl; try done.
  intros [Hc%Ascii.eqb_neq Hc']%orb_false_iff [Hd%Ascii.eqb_neq Hd']%orb_false_iff.
  rewrite !str_eqb_cons, IH by done. rewrite (Ascii.eqb_sym _ a), replace_eqb_char by done. by rewrite Ascii.eqb_sym.
Qed.

Lemma replace_strip_prefix p s :
  has_char c p = false -> has_char d p = false ->
  strip_prefix p (replace_char c d s) = replace_char c d <$> strip_prefix p s.
Proof.
  revert s. induction p as [|a p IH]; intros [|b s]; simpl; try done.
  intros [Hc%Ascii.eqb_neq Hc']%orb_false_iff [Hd%Ascii.eqb_neq Hd']%orb_false_iff.
  rewrite replace_eqb_char by done. destruct (Ascii.eqb a b); [by apply IH|done].
Qed.

Lemma replace_strip_suffix p s :
  has_char c p = false -> has_char d p = false ->
  strip_suffix p (replace_char c d s) = replace_char c d <$> strip_suffix p s.
Proof.
  intros Hc Hd. induction s as [|b s IH].
  - cbn. by destruct (String.eqb "" p).
  - pose proof (replace_eqb p (String b s) Hc Hd) as E. simpl in *. rewrite E.
    destruct (String.eqb (String b s) p); [done|]. rewrite IH. by destruct (strip_suffix p s).
Qed.

Lemma replace_trim s :
  forallb (fun w => negb (has_char c w) && negb (has_char d w)) whitespace = true ->
  trim (replace_char c d s) = replace_char c d (trim s).
Proof.
  intros Hw.
  assert (forall (strip : string -> string -> option string) n s,
    (forall p s, has_char c p = false -> has_char d p = false ->
       strip p (replace_char c d s) = replace_char c d <$> strip p s) ->
    strip_all (fun s => first_some (fun w => strip w s) whitespace) n (replace_char c d s) =
    replace_char c d (strip_all (fun s => first_some (fun w => strip w s) whitespace) n s)) as Hall.
  { intros strip n t Hstrip. revert t. induction n as [|n IH]; intros t; [done|]. cbn [strip_all].
    assert (first_some (fun w => strip w (replace_char c d t)) whitespace =
            replace_char c d <$> first_some (fun w => strip w t) whitespace) as ->.
    { revert Hw. generalize whitespace. induction l as [|w l IHl]; cbn; [done|].
      intros [[Hc%negb_true_iff Hd%negb_true_iff]%andb_true_iff Hl]%andb_true_iff.
      rewrite Hstrip by done. destruct (strip w t); [done|]. by apply IHl. }
    destruct (first_some _ _); [apply IH|done]. }
  unfold trim, trim_end, trim_start. rewrite replace_char_length.
  rewrite (Hall strip_prefix) by apply replace_strip_prefix. rewrite replace_char_length.
  apply (Hall strip_suffix). apply replace_strip_suffix.
Qed.
End Replace.

Lemma normalized_idem v p : normalized_repo_path v = Some p -> normalized_repo_path p = Some p.
Proof.
  intros H. pose proof H as (-> & Hb & Ha & Hc)%normalized_repo_path_spec. revert H.
  unfold normalized_repo_path. rewrite Hb. simpl. rewrite replace_char_idem by done.
  assert (bounded (replace_char backslash "/" v) 512 = true) as ->; [|done].
  unfold bounded in *. bool_hyps. unfold len in *. rewrite replace_char_length.
  rewrite replace_trim by (vm_compute; reflexivity).
  by destruct (trim v).
Qed.

Lemma omap_normalized_id (l : list string) :
  Forall (fun p => normalized_repo_path p = Some p) l -> omap normalized_repo_path l = l.
Proof. induction 1 as [|p l Hp _ IH]; [done|]. cbn. rewrite Hp. simpl. by rewrite IH. Qed.

Lemma normalized_set_elem ps p :
  p ∈ (list_to_set (omap normalized_repo_path ps) : gset string) -> normalized_repo_path p = Some p.
Proof.
  rewrite elem_of_list_to_set, list_elem_of_omap. intros (v & _ & Hv). by eapply normalized_idem.
Qed.

Lemma size_insert_le (x : string) (X : gset string) : (size ({[x]} ∪ X) <= S (size X))%nat.
Proof.
  rewrite size_union_alt, size_singleton. assert (size (X ∖ {[x]}) <= size X)%nat; [|lia].
  apply subseteq_size. set_solver.
Qed.

Lemma size_zero_iff (X : gset string) : size X = 0%nat <-> X = ∅.
Proof. by rewrite size_empty_iff, leibniz_equiv_iff. Qed.

(** When no path was dropped or collapsed, every one was normalised. *)
Lemma size_list_to_set_all (f : string -> option string) (l : list string) :
  size (list_to_set (omap f l) : gset string) = length l -> Forall (fun x => is_Some (f x)) l.
Proof.
  assert (forall l, size (list_to_set (omap f l) : gset string) <= length l)%nat as Hle.
  { induction l0 as [|x l0 IH]; cbn; [by rewrite size_empty|].
    destruct (f x) as [y|]; simpl; [|lia]. pose proof (size_insert_le y (list_to_set (omap f l0))).
    unfold omap in *. lia. }
  induction l as [|x l IH]; [constructor|]. specialize (Hle l). cbn.
  destruct (f x) as [y|] eqn:E; simpl; unfold omap in *; intros Hs.
  - constructor; [eauto|]. apply IH. pose proof (size_insert_le y (list_to_set (list_omap _ _ f l))).
    unfold omap in *. lia.
  - lia.
Qed.

Section Request.
Context `{HP : Platform, HJ : JsonCodec, HY : JsonPretty, HL : !JsonPrettyLaw}.

(** [configured] only reads: its answer is a function of the files. *)
Definition configured_in (fs : gmap string string) : result string Execution :=
  let? dir := state_dir in
  configured_from (unwrap_or (env_nonempty "MULTIAGENT_AUTHORITY_SCOPE") "human")
    (unwrap_or (env_var "MULTIAGENT_MUTATION_GRANT_JSON") "")
    (fs !! path_join dir ACTIVE_EXECUTION_FILE)
    (unwrap_or (env_var "MULTIAGENT_SESSION") "") (unwrap_or repository_var "").

Lemma configured_eq w : configured w = (configured_in (files w), w).
Proof.
  unfold configured, configured_in, is_file, read_to_string, get_files, lift, bind, ret.
  destruct state_dir as [dir|]; simpl; [|done].
  destruct (files w !! path_join dir ACTIVE_EXECUTION_FILE) eqn:E; simpl; rewrite ?E; done.
Qed.

(** Only a user session without an initial grant and without an active
    execution may ask. *)
Lemma permits_request_inv fs e :
  configured_in fs = Ok e -> permits_mutation_request e = true ->
  exists dir, state_dir = Ok dir /\ env_nonempty "MULTIAGENT_AUTHORITY_SCOPE" = Some "user"
    /\ fs !! path_join dir ACTIVE_EXECUTION_FILE = None /\ e = read_only "user"
    /\ forall json, configured_from "user" (unwrap_or (env_var "MULTIAGENT_MUTATION_GRANT_JSON") "")
         (Some json) (unwrap_or (env_var "MULTIAGENT_SESSION") "") (unwrap_or repository_var "")
         = from_active_execution json (unwrap_or (env_var "MULTIAGENT_SESSION") "")
             (unwrap_or repository_var "").
Proof.
  unfold configured_in. intros Hc Hp. inv_ok. exists a. split; [done|].
  unfold configured_from in *. set (sc := unwrap_or (env_nonempty _) "human") in *.
  destruct (String.eqb_spec sc "human") as [Hh|Hh].
  { rewrite Hh in Hc. case_hyp Hc; [|done]. by injection Hc as <-. }
  simpl in Hc. destruct (_ || _) eqn:E1 in Hc; simpl in Hc.
  { case_hyp Hc; [injection Hc as <-|].
    - exfalso. unfold permits_mutation_request in Hp. simpl in Hp. bool_hyps. subst.
      rewrite H in E1. done.
    - destruct (String.eqb_spec sc "user") as [Hu|]; [rewrite Hu in E1; done|]. done. }
  destruct (String.eqb_spec sc "user") as [Hu|Hu]; [|by simpl in Hc].
  assert (env_nonempty "MULTIAGENT_AUTHORITY_SCOPE" = Some "user") as Henv.
  { unfold sc in Hu. destruct (env_nonempty _); simpl in Hu; congruence. }
  destruct (_ && _) eqn:Eg in Hc; simpl in Hc.
  { exfalso. unfold from_review_grant in Hc. inv_ok. case_hyp Hc; [done|]. inv_ok.
    unfold permits_mutation_request in Hp. simpl in Hp. by rewrite andb_false_r in Hp. }
  destruct (_ !! _) as [json|] eqn:Ef.
  { exfalso. unfold from_active_execution in Hc. inv_ok. case_hyp Hc; [done|]. inv_ok.
    unfold permits_mutation_request, is_read_only in Hp. simpl in Hp. bool_hyps.
    unfold normalized_effects in *. repeat case_match; simplify_eq. bool_hyps.
    match goal with H : _ ⊆ _, N : _ <> ∅ |- _ => apply N; revert H end.
    unfold ALLOWED_EFFECTS. set_solver. }
  injection Hc as <-. split_and!; try done; [by rewrite Hu|]. intros json. simpl in Eg. by rewrite Eg.
Qed.

(** Reading back the record of a request. *)
Lemma active_granted (N : gset string) reviewed sid repo :
  (forall p, p ∈ N -> normalized_repo_path p = Some p) -> (size N <= 32)%nat ->
  (N = ∅ -> reviewed = true) ->
  let effects := (if bool_decide (N = ∅) then [] else ["source-write"])
                 ++ (if reviewed then ["reviewed-ops"] else []) in
  from_active_execution
    (to_string_pretty (VObj (active_fields (mkActive 1 2 "user-requested-mutation" effects repo
       (btree_list N) sid))) +:+ String nl "") sid repo
  = Ok (mkExecution "user" 2 N (negb (bool_decide (N = ∅))) reviewed false).
Proof.
  intros HN Hsize Hne effects. unfold from_active_execution.
  rewrite from_slice_pretty by apply active_distinct. cbn [mbind option_bind].
  rewrite active_roundtrip by done. cbn [ok_or rbind ax_effects ax_paths].
  assert (normalized_effects effects = Some (list_to_set effects) /\
    bool_decide ("source-write" ∈ (list_to_set effects : gset string)) = negb (bool_decide (N = ∅)) /\
    bool_decide ("reviewed-ops" ∈ (list_to_set effects : gset string)) = reviewed) as (-> & Hw & Ho).
  { unfold effects. case_bool_decide as HE.
    - rewrite (Hne HE). split_and!; vm_compute; reflexivity.
    - destruct reviewed; split_and!; vm_compute; reflexivity. }
  cbn [ok_or rbind]. rewrite Hw.
  assert (validated_paths (btree_list N) (negb (bool_decide (N = ∅))) = Some N) as ->.
  { unfold validated_paths. rewrite omap_normalized_id.
    2:{ apply Forall_forall. intros p Hp. apply HN. by apply btree_list_elem. }
    rewrite btree_list_set, btree_list_length, Nat.eqb_refl.
    rewrite (proj2 (Nat.leb_le _ _)) by done.
    assert (bool_decide (btree_list N = []) = bool_decide (N = ∅)) as ->.
    { apply bool_decide_ext. rewrite <- length_zero_iff_nil, btree_list_length.
      apply size_zero_iff. }
    by rewrite eqb_reflx. }
  cbn [ok_or rbind]. rewrite Ho. simpl. by rewrite !String.eqb_refl.
Qed.

(** A granted path is a path of its own normal form below the repository root. *)
Definition granted_inside (e : Execution) : Prop :=
  forall p, p ∈ granted_paths e ->
    is_absolute p = false /\ forallb normal_component (components p) = true /\ len p <= 512.

(** A mutation is granted once and exactly as asked. A successful request
    of a user session yields the second execution with exactly the requested
    paths (all of them normal paths below the repository root, at most 32) and
    effects, and the execution that any later process reads from the files is
    this one; every further request is refused and changes no file. *)
Theorem request_mutation_once paths reviewed w e w' :
  request_mutation paths reviewed w = (Ok e, w') ->
  e = mkExecution "user" 2 (list_to_set (omap normalized_repo_path paths))
        (negb (bool_decide (paths = []))) reviewed false
  /\ Forall (fun p => is_Some (normalized_repo_path p)) paths /\ (length paths <= 32)%nat
  /\ size (granted_paths e) = length paths /\ granted_inside e
  /\ forall w2, files w2 = files w' ->
       configured w2 = (Ok e, w2)
       /\ forall paths' reviewed', exists m, request_mutation paths' reviewed' w2 = (Err m, w2).
Proof.
  unfold request_mutation at 1. intros H. apply bind_ok in H as (cur & w1 & Hcur & H).
  rewrite configured_eq in Hcur. injection Hcur as Hcur <-. inv_io.
  match goal with H : permits_mutation_request _ = true |- _ => rename H into Hp end.
  rewrite configured_eq in H. injection H as He Hw. match type of Hw with ?x = _ => subst x end.
  destruct (permits_request_inv _ _ Hcur Hp) as (dir & Hdir & Hsc & Hno & -> & Hact).
  set (N := list_to_set (omap normalized_repo_path paths) : gset string) in *.
  match goal with H : state_dir = Ok _ |- _ => rewrite Hdir in H; injection H as <- end.
  match goal with H : ok_or _ _ = Ok _ |- _ => apply ok_or_ok in H; rename H into Hrepo end.
  match goal with H : ok_or _ _ = Ok _ |- _ => apply ok_or_ok in H; rename H into Hsid end.
  match goal with H : atomic_write _ _ _ = (Ok ?u, _) |- _ =>
    destruct u; apply put_file_ok in H as [Hfs _] end.
  bool_hyps. repeat match goal with
  | H : (32 <? length paths)%nat = false |- _ => apply Nat.ltb_ge in H
  | H : (size N =? length paths)%nat = true |- _ => apply Nat.eqb_eq in H
  end.
  assert (N = ∅ -> reviewed = true) as Hsome.
  { intros HE. match goal with H : (bool_decide (N = ∅) && _)%bool = false |- _ => revert H end.
    rewrite bool_decide_true by done. by destruct reviewed. }
  assert (N = ∅ <-> paths = []) as HN0.
  { rewrite <- (size_zero_iff N), <- length_zero_iff_nil. lia. }
  assert (configured_in (files w') = Ok (mkExecution "user" 2 N (negb (bool_decide (N = ∅))) reviewed false)) as Hc.
  { unfold configured_in. rewrite Hdir. cbn [rbind]. rewrite Hsc, Hfs, lookup_insert_eq. simpl.
    rewrite Hact, Hsid, Hrepo. simpl. apply active_granted.
    - apply normalized_set_elem.
    - lia.
    - done. }
  rewrite Hc in He. injection He as <-.
  assert (negb (bool_decide (N = ∅)) = negb (bool_decide (paths = []))) as HE.
  { f_equal. by apply bool_decide_ext. }
  rewrite HE in *. split_and!; try done.
  - by apply size_list_to_set_all.
  - intros p Hp'. apply normalized_set_elem in Hp'. apply normalized_repo_path_spec in Hp' as (_ & Hb & ? & ?).
    split_and!; try done. unfold bounded in Hb. bool_hyps. by apply Z.leb_le.
  - intros w2 Hw2. rewrite configured_eq, Hw2, Hc. split; [done|]. intros paths' reviewed'.
    eexists. unfold request_mutation, bind. rewrite configured_eq, Hw2, Hc. unfold check.
    replace (permits_mutation_request _) with false; [done|].
    unfold permits_mutation_request, is_read_only. simpl. destruct reviewed; simpl; [by rewrite andb_false_r|].
    rewrite bool_decide_false; [done|]. intros Hx%HN0. by specialize (Hsome Hx).
Qed.
End Request.

(** No authority without a binding. Whatever the environment and the state
    file hold, an execution can write source or publish reviewed operations only
    in a human session, or in a user session whose approved grant or whose
    active execution names this session and this repository; observing sessions
    are read-only, and an initial grant is never combined with a request. *)
Theorem execution_authority_bound `{Platform, JsonCodec} sc grant active session repository e :
  configured_from sc grant active session repository = Ok e ->
  scope e = sc /\ (sc = "human" \/ sc = "user" \/ sc = "observe" \/ sc = "diagnosis-only")
  /\ (is_read_only e = false ->
      sc = "human" \/
      sc = "user" /\
      ((exists g, from_slice grant ≫= de_grant = Some g /\ rg_repository g = repository
          /\ rg_granted_to_session_id g = session /\ rg_kind g = "review-approved-repair"
          /\ granted_paths e = list_to_set (omap normalized_repo_path (rg_paths g))
          /\ source_write e = bool_decide ("source-write" ∈ rg_effects g)
          /\ reviewed_ops e = bool_decide ("reviewed-ops" ∈ rg_effects g)
          /\ permits_mutation_request e = false)
       \/ (exists json a, active = Some json /\ from_slice json ≫= de_active = Some a
          /\ ax_repository a = repository /\ ax_session_id a = session /\ 2 <= ax_ordinal a
          /\ granted_paths e = list_to_set (omap normalized_repo_path (ax_paths a))
          /\ source_write e = bool_decide ("source-write" ∈ ax_effects a)
          /\ reviewed_ops e = bool_decide ("reviewed-ops" ∈ ax_effects a)))).
Proof.
  assert (forall l s, normalized_effects l = Some s -> s = list_to_set l) as Heff.
  { unfold normalized_effects. intros l s. case_match; naive_solver. }
  assert (forall l b s, validated_paths l b = Some s -> s = list_to_set (omap normalized_repo_path l)) as Hpat.
  { unfold validated_paths. intros l b s. case_match; naive_solver. }
  assert (forall l x, bool_decide (x ∈ (list_to_set l : gset string)) = bool_decide (x ∈ l)) as Hel.
  { intros l x. apply bool_decide_ext. apply elem_of_list_to_set. }
  unfold configured_from. intros Hc. repeat (case_hyp Hc; [bool_hyps|]); try done.
  - injection Hc as <-. subst. split_and!; auto.
  - injection Hc as <-. apply orb_true_iff in H1 as [Hs|Hs]; bool_hyps; subst; split_and!; auto; done.
  - subst. unfold from_review_grant in Hc. inv_ok. case_hyp Hc; [done|]. bool_hyps. inv_ok. simpl.
    apply Heff in Hok0 as ->. apply Hpat in Hok1 as ->. split_and!; auto. intros _. right. split; [done|].
    left. exists a. rewrite !Hel. split_and!; try done.
    unfold permits_mutation_request. simpl. apply andb_false_r.
  - subst. unfold from_active_execution in Hc. inv_ok. case_hyp Hc; [done|]. bool_hyps. inv_ok. simpl.
    apply Heff in Hok0 as ->. apply Hpat in Hok1 as ->. split_and!; auto. intros _. right. split; [done|].
    right. exists s, a. rewrite !Hel. split_and!; try done. by apply Z.ltb_ge.
  - injection Hc as <-. subst. split_and!; auto. done.
Qed.

(** ** Witnesses *)

Module ExecutionWitness.

Definition vars (k : string) : option string :=
  if String.eqb k "MULTIAGENT_AUTHORITY_SCOPE" then Some "user"
  else if String.eqb k "MULTIAGENT_SESSION" then Some "session-1"
  else if String.eqb k "MULTIAGENT_REPOSITORY_NAME" then Some "demo" else None.
#[local] Instance platform : Platform := toy_platform vars ORCHESTRATOR_UID.

Definition w0 : World := mkWorld ∅ [] 0 [].
Definition answer := Eval vm_compute in request_mutation ["src/main.rs"; "docs\guide.md"] false w0.
Definition granted : Execution :=
  mkExecution "user" 2 (list_to_set ["src/main.rs"; "docs/guide.md"]) true false false.

Lemma request_mutation_once_witness : configured answer.2 = (Ok granted, answer.2).
Proof.
  apply (request_mutation_once ["src/main.rs"; "docs\guide.md"] false w0 granted answer.2);
    [vm_compute; reflexivity|reflexivity].
Defined.

Lemma execution_authority_bound_witness :
  scope granted = "user" /\ is_read_only granted = false.
Proof.
  split; [|reflexivity].
  apply (execution_authority_bound "user" ""
    (files answer.2 !! ("/work/.multiagent/" +:+ ACTIVE_EXECUTION_FILE)) "session-1" "demo" granted).
  vm_compute. reflexivity.
Defined.
End ExecutionWitness.
