(* ===== verification/Authority.v ===== *)
(** * Authority: [runtime/src/authority.rs] and the request loop of
    [runtime/src/supervisor.rs]

    The privileged operations, the command lines they stand for, who may ask for
    them, under which execution they are allowed, and the supervisor's handling
    of a connection. *)

From S2P Require Import Prelude Text State Json LogModel Config Execution.

Inductive AuthorityOperation :=
| Workflow
| Decision
| Dag
| OrchestratorComplete
| ExecutionMutationRequest
| SupervisorRegisterLaunch
| SupervisorRenewLaunch
| SupervisorShutdown
| AssignmentCreate
| AssignmentShow
| AssignmentStatus
| AssignmentCheck
| CheckpointUpdate
| CheckpointShow
| FindingCreate
| FindingShow
| FindingList
| FindingDismiss
| TodoCreate
| TodoShow
| TodoList
| TodoAssign
| TodoStatus
| ResolutionCreate
| TodoClose
| ValidationLeaseAcquire
| ValidationLeaseStatus
| ValidationLeaseShow
| ValidationLeaseList
| GateCheck
| OpsDescribe
| OpsRead
| OpsPublishBound
| OpsPublish
| OpsExecute.

#[export] Instance AuthorityOperation_eq_dec : EqDecision AuthorityOperation.
Proof. solve_decision. Defined.

Record AuthorityRequest := mkRequest { operation : AuthorityOperation; args : list string }.

(** The kebab-case names of the wire format. *)
Definition operation_name (o : AuthorityOperation) : string :=
  match o with
  | Workflow => "workflow"
  | Decision => "decision"
  | Dag => "dag"
  | OrchestratorComplete => "orchestrator-complete"
  | ExecutionMutationRequest => "execution-mutation-request"
  | SupervisorRegisterLaunch => "supervisor-register-launch"
  | SupervisorRenewLaunch => "supervisor-renew-launch"
  | SupervisorShutdown => "supervisor-shutdown"
  | AssignmentCreate => "assignment-create"
  | AssignmentShow => "assignment-show"
  | AssignmentStatus => "assignment-status"
  | AssignmentCheck => "assignment-check"
  | CheckpointUpdate => "checkpoint-update"
  | CheckpointShow => "checkpoint-show"
  | FindingCreate => "finding-create"
  | FindingShow => "finding-show"
  | FindingList => "finding-list"
  | FindingDismiss => "finding-dismiss"
  | TodoCreate => "todo-create"
  | TodoShow => "todo-show"
  | TodoList => "todo-list"
  | TodoAssign => "todo-assign"
  | TodoStatus => "todo-status"
  | ResolutionCreate => "resolution-create"
  | TodoClose => "todo-close"
  | ValidationLeaseAcquire => "validation-lease-acquire"
  | ValidationLeaseStatus => "validation-lease-status"
  | ValidationLeaseShow => "validation-lease-show"
  | ValidationLeaseList => "validation-lease-list"
  | GateCheck => "gate-check"
  | OpsDescribe => "ops-describe"
  | OpsRead => "ops-read"
  | OpsPublishBound => "ops-publish-bound"
  | OpsPublish => "ops-publish"
  | OpsExecute => "ops-execute"
  end.

Definition all_operations : list AuthorityOperation :=
  [Workflow; Decision; Dag; OrchestratorComplete; ExecutionMutationRequest; SupervisorRegisterLaunch; SupervisorRenewLaunch; SupervisorShutdown; AssignmentCreate; AssignmentShow; AssignmentStatus; AssignmentCheck; CheckpointUpdate; CheckpointShow; FindingCreate; FindingShow; FindingList; FindingDismiss; TodoCreate; TodoShow; TodoList; TodoAssign; TodoStatus; ResolutionCreate; TodoClose; ValidationLeaseAcquire; ValidationLeaseStatus; ValidationLeaseShow; ValidationLeaseList; GateCheck; OpsDescribe; OpsRead; OpsPublishBound; OpsPublish; OpsExecute].

Definition operation_of_name (name : string) : option AuthorityOperation :=
  List.find (fun o => String.eqb (operation_name o) name) all_operations.

Definition ser_request (r : AuthorityRequest) : Value :=
  VObj [("operation", VStr (operation_name (operation r))); ("args", strings_value (args r))].

Definition de_request (v : Value) : option AuthorityRequest :=
  kvs ← as_fields v;
  operation ← str_field "operation" kvs ≫= operation_of_name;
  args ← strings_field "args" kvs;
  Some (mkRequest operation args).

(** ** The command line *)

(** The loop over the options of a mutation request or a review request. *)
Fixpoint request_options (has_path reviewed : bool) (options : list string) : bool :=
  match options with
  | [] => has_path || reviewed
  | "--path" :: value :: rest => if is_empty value then false else request_options true reviewed rest
  | "--reviewed-ops" :: rest => if reviewed then false else request_options has_path true rest
  | _ => false
  end.

Definition valid_mutation_request_args (args : list string) : bool :=
  match args with
  | "request-mutation" :: ((_ :: _) as options) => request_options false false options
  | _ => false
  end.

Definition valid_request_review_args (args : list string) : bool :=
  match args with
  | _ :: "--request-review" :: "--result-file" :: file :: ((_ :: _) as options) =>
      if is_empty file then false else request_options false false options
  | _ => false
  end.

Definition valid_complete_args (args : list string) : bool :=
  match args with
  | [_] => true
  | [_; "--external-only"] => true
  | _ => false
  end
  || match args with
     | [_; mode; "--result-file"; _] =>
         existsb (String.eqb mode)
           ["--external-only"; "--read-only"; "--direct-response"; "--auto"; "--clarification";
            "--auto-clarification"; "--observe"]
     | _ => false
     end
  || valid_request_review_args args
  || match args with
     | [_; mode; "--result-file"; _; "--reviewer"; _] =>
         existsb (String.eqb mode) ["--read-only"; "--human-review"]
     | _ => false
     end.

(** A [match] on the first word of the arguments. *)
Definition assoc {A} (l : list (string * A)) (name : string) : option A :=
  snd <$> List.find (fun kv => String.eqb kv.1 name) l.

Definition subagent_operations : list (string * AuthorityOperation) :=
  [("assignment-create", AssignmentCreate);
   ("assignment-show", AssignmentShow);
   ("assignment-status", AssignmentStatus);
   ("assignment-check", AssignmentCheck);
   ("checkpoint-update", CheckpointUpdate);
   ("checkpoint-show", CheckpointShow);
   ("finding-create", FindingCreate);
   ("finding-show", FindingShow);
   ("finding-list", FindingList);
   ("finding-dismiss", FindingDismiss);
   ("todo-create", TodoCreate);
   ("todo-show", TodoShow);
   ("todo-list", TodoList);
   ("todo-assign", TodoAssign);
   ("todo-status", TodoStatus);
   ("resolution-create", ResolutionCreate);
   ("todo-close", TodoClose);
   ("validation-lease-acquire", ValidationLeaseAcquire);
   ("validation-lease-status", ValidationLeaseStatus);
   ("validation-lease-show", ValidationLeaseShow);
   ("validation-lease-list", ValidationLeaseList);
   ("gate-check", GateCheck)].

Definition ops_operations : list (string * AuthorityOperation) :=
  [("describe", OpsDescribe); ("read", OpsRead); ("publish-bound", OpsPublishBound);
   ("publish", OpsPublish); ("execute", OpsExecute)].

Definition supervisor_operations : list (string * AuthorityOperation) :=
  [("register-launch", SupervisorRegisterLaunch); ("renew-launch", SupervisorRenewLaunch);
   ("stop", SupervisorShutdown)].

(** The [orchestrator] commands with the guards of their arms. *)
Definition orchestrator_operations (argv : list string) : list (string * AuthorityOperation) :=
  (if valid_mutation_request_args argv then [("request-mutation", ExecutionMutationRequest)] else [])
  ++ (if valid_complete_args argv then [("complete", OrchestratorComplete)] else []).

Definition first_word (table : list (string * AuthorityOperation)) (argv : list string)
  : option AuthorityRequest :=
  match argv with
  | name :: rest => (fun o => mkRequest o rest) <$> assoc table name
  | [] => None
  end.

Definition from_cli (command : string) (argv : list string) : option AuthorityRequest :=
  if String.eqb command "workflow" then
    if bool_decide (head argv = Some "context") then None else Some (mkRequest Workflow argv)
  else if String.eqb command "decision" then Some (mkRequest Decision argv)
  else if String.eqb command "dag" then Some (mkRequest Dag argv)
  else if String.eqb command "ops" then first_word ops_operations argv
  else if String.eqb command "orchestrator" then first_word (orchestrator_operations argv) argv
  else if String.eqb command "supervisor" then first_word supervisor_operations argv
  else if String.eqb command "subagent" then first_word subagent_operations argv
  else None.

Definition cli_name (o : AuthorityOperation) : string * option string :=
  match o with
  | Workflow => ("workflow", None)
  | Decision => ("decision", None)
  | Dag => ("dag", None)
  | OrchestratorComplete => ("orchestrator", Some "complete")
  | SupervisorRegisterLaunch => ("supervisor", Some "register-launch")
  | ExecutionMutationRequest => ("orchestrator", Some "request-mutation")
  | SupervisorRenewLaunch => ("supervisor", Some "renew-launch")
  | SupervisorShutdown => ("supervisor", Some "shutdown")
  | AssignmentCreate => ("subagent", Some "assignment-create")
  | AssignmentShow => ("subagent", Some "assignment-show")
  | AssignmentStatus => ("subagent", Some "assignment-status")
  | AssignmentCheck => ("subagent", Some "assignment-check")
  | CheckpointUpdate => ("subagent", Some "checkpoint-update")
  | CheckpointShow => ("subagent", Some "checkpoint-show")
  | FindingCreate => ("subagent", Some "finding-create")
  | FindingShow => ("subagent", Some "finding-show")
  | FindingList => ("subagent", Some "finding-list")
  | FindingDismiss => ("subagent", Some "finding-dismiss")
  | TodoCreate => ("subagent", Some "todo-create")
  | TodoShow => ("subagent", Some "todo-show")
  | TodoList => ("subagent", Some "todo-list")
  | TodoAssign => ("subagent", Some "todo-assign")
  | TodoStatus => ("subagent", Some "todo-status")
  | ResolutionCreate => ("subagent", Some "resolution-create")
  | TodoClose => ("subagent", Some "todo-close")
  | ValidationLeaseAcquire => ("subagent", Some "validation-lease-acquire")
  | ValidationLeaseStatus => ("subagent", Some "validation-lease-status")
  | ValidationLeaseShow => ("subagent", Some "validation-lease-show")
  | ValidationLeaseList => ("subagent", Some "validation-lease-list")
  | GateCheck => ("subagent", Some "gate-check")
  | OpsDescribe => ("ops", Some "describe")
  | OpsRead => ("ops", Some "read")
  | OpsPublishBound => ("ops", Some "publish-bound")
  | OpsPublish => ("ops", Some "publish")
  | OpsExecute => ("ops", Some "execute")
  end.

Definition into_cli (r : AuthorityRequest) : string * list string :=
  let '(command, subcommand) := cli_name (operation r) in
  (command, match subcommand with Some s => s :: args r | None => args r end).

Definition display (r : AuthorityRequest) : string :=
  let '(command, argv) := into_cli r in
  match argv with
  | subcommand :: _ => command +:+ " " +:+ subcommand
  | [] => command
  end.

Definition is_shutdown (r : AuthorityRequest) : bool :=
  bool_decide (operation r = SupervisorShutdown).

(** ** Authorisation *)

Definition one_of (uid : Z) (l : list Z) : bool := existsb (Z.eqb uid) l.

Definition authorized_for (r : AuthorityRequest) (uid : Z) : bool :=
  if uid =? 0 then true
  else match operation r with
  | Workflow | Decision | Dag | OrchestratorComplete | ExecutionMutationRequest
  | SupervisorRegisterLaunch | SupervisorRenewLaunch | SupervisorShutdown
  | AssignmentCreate | AssignmentShow | AssignmentStatus | AssignmentCheck
  | TodoCreate | TodoAssign | TodoStatus | GateCheck => uid =? ORCHESTRATOR_UID
  | OpsDescribe | OpsRead =>
      one_of uid [ORCHESTRATOR_UID; WRITER_UID; READER_UID; OPS_UID; REVIEWER_UID]
  | OpsPublish => uid =? OPS_UID
  | OpsExecute => one_of uid [OPS_UID; REVIEWER_UID]
  | OpsPublishBound => uid =? ORCHESTRATOR_UID
  | FindingCreate => uid =? READER_UID
  | FindingDismiss | TodoClose => one_of uid [ORCHESTRATOR_UID; READER_UID]
  | ResolutionCreate => uid =? WRITER_UID
  | CheckpointUpdate | CheckpointShow => one_of uid [ORCHESTRATOR_UID; WRITER_UID; READER_UID]
  | FindingShow | FindingList | TodoShow | TodoList | ValidationLeaseShow | ValidationLeaseList =>
      one_of uid [ORCHESTRATOR_UID; WRITER_UID; READER_UID]
  | ValidationLeaseAcquire | ValidationLeaseStatus => one_of uid [WRITER_UID; READER_UID]
  end.

(** [args.windows(2).any(..)]. *)
Fixpoint has_option_value (l : list string) (option expected : string) : bool :=
  match l with
  | a :: rest =>
      match rest with
      | b :: _ => (String.eqb a option && String.eqb b expected) || has_option_value rest option expected
      | [] => false
      end
  | [] => false
  end.

Definition allowed_for_authority_scope (r : AuthorityRequest) (sc : string) : bool :=
  if String.eqb sc "human" then true
  else if String.eqb sc "observe" || String.eqb sc "diagnosis-only" then
    match operation r with
    | ResolutionCreate => false
    | AssignmentCreate => negb (has_option_value (args r) "--role" "exploitation")
    | SupervisorRegisterLaunch => negb (has_option_value (args r) "--access" "workspace-write")
    | OrchestratorComplete =>
        match args r with
        | mode :: _ =>
            existsb (String.eqb mode)
              ["--observe"; "--request-review"; "--direct-response"; "--clarification"; "--auto";
               "--auto-clarification"; "--read-only"; "--human-review"]
        | [] => false
        end
    | OpsPublishBound | OpsPublish | OpsExecute => false
    | _ => true
    end
  else false.

Definition allowed_for_execution (r : AuthorityRequest) (e : Execution) : bool :=
  let sc := scope e in
  if String.eqb sc "human" || String.eqb sc "observe" || String.eqb sc "diagnosis-only"
  then allowed_for_authority_scope r sc
  else if String.eqb sc "user" then
    match operation r with
    | ExecutionMutationRequest => permits_mutation_request e
    | OpsPublishBound | OpsPublish | OpsExecute => permits_reviewed_ops e
    | _ => true
    end
  else false.

(** ** The supervisor's connections *)

Definition MAX_AUTHORITY_REQUEST_BYTES : Z := 128 * 1024.
Definition MAX_AUTHORITY_OUTPUT_BYTES : Z := 64 * 1024.
Definition nul : ascii := "000".

Record Response := mkResponse { rs_code : Z; rs_stdout : string; rs_stderr : string }.
Definition refusal (message : string) : Response := mkResponse 1 "" message.

(** A child process: the code it exits with and everything it printed. *)
Record ChildOutput := mkChild { ch_code : Z; ch_stdout : string; ch_stderr : string }.

(** What a peer sends: its kernel-authenticated identifier, and the bytes read
    from the socket up to the limit plus one ([None]: the read failed). *)
Record Connection := mkConnection { peer_uid : option Z; sent : option string }.

Section Supervisor.
Context `{Platform, JsonCodec}.

(** [child command args caller] is the transaction that the spawned process
    performs. *)
Variable child : string -> list string -> Z -> IO ChildOutput.

(** [execute]: [Command::spawn] refuses an argument with a NUL byte; the output
    of the child is bounded. *)
Definition execute (r : AuthorityRequest) (caller : Z) : IO Response :=
  let '(command, argv) := into_cli r in
  let! _ := check (negb (existsb (has_char nul) argv))
              ("execute authority transaction: " +:+ os_error) in
  let! out := child command argv caller in
  if (MAX_AUTHORITY_OUTPUT_BYTES <? len (ch_stdout out))
     || (MAX_AUTHORITY_OUTPUT_BYTES <? len (ch_stderr out))
  then ret (mkResponse 1 "" ("authority supervisor: transaction output exceeds the configured byte limit" +:+ String nl ""))
  else ret (mkResponse (ch_code out) (ch_stdout out) (ch_stderr out)).

Definition accepted_peer (uid : Z) : bool :=
  one_of uid [0; ORCHESTRATOR_UID; WRITER_UID; READER_UID; OPS_UID; REVIEWER_UID].

(** [serve_connection]: whether the supervisor stops, and the response that
    goes back ([None]: the connection is dropped). *)
Definition serve_connection (c : Connection) : IO (bool * option Response) :=
  match peer_uid c with
  | None => ret (false, None)
  | Some uid =>
      if negb (accepted_peer uid) then
        ret (false, Some (refusal ("authority supervisor: unauthorized peer" +:+ String nl "")))
      else match sent c with
      | None => ret (false, None)
      | Some bytes =>
          if MAX_AUTHORITY_REQUEST_BYTES <? len bytes then
            ret (false, Some (refusal ("authority supervisor: request exceeds the configured byte limit"
                                       +:+ String nl "")))
          else match from_slice bytes ≫= de_request with
          | None => ret (false, Some (refusal ("authority supervisor: invalid request: " +:+ os_error
                                              +:+ String nl "")))
          | Some request =>
              if is_shutdown request then ret (true, Some (mkResponse 0 "" ""))
              else if negb (authorized_for request uid) then
                ret (false, Some (refusal ("authority supervisor: caller uid " +:+ u64_to_string uid
                       +:+ " is not authorized for: " +:+ display request +:+ String nl "")))
              else
                let! execution := configured in
                if negb (allowed_for_execution request execution) then
                  ret (false, Some (refusal ("authority supervisor: scope " +:+ scope execution
                         +:+ " is not authorized for: " +:+ display request +:+ String nl "")))
                else
                  let! response := execute request uid in
                  ret (false, Some response)
          end
      end
  end.

(** The accept loop of [serve] over the connections that arrive; the responses
    it sent, in order. *)
Fixpoint serve (cs : list Connection) : IO (list (option Response)) :=
  match cs with
  | [] => ret []
  | c :: cs' =>
      let! stop_response := serve_connection c in
      if stop_response.1 then ret [stop_response.2]
      else
        let! rest := serve cs' in
        ret (stop_response.2 :: rest)
  end.

End Supervisor.
