(* ===== verification/AuthorityProps.v ===== *)
(** * AuthorityProps: the privileged surface and its guard *)

From S2P Require Import Prelude Text State Json LogModel.
From S2P Require Import Config Execution ExecutionProps Authority Instances.

(** ** The command line *)

Lemma assoc_in {A} (l : list (string * A)) name x : assoc l name = Some x -> In (name, x) l.
Proof.
  unfold assoc. destruct (List.find _ l) as [[k v]|] eqn:E; simpl; [|done]. intros [= <-].
  apply List.find_some in E as [Hin Heq]. simpl in Heq. apply String.eqb_eq in Heq as ->. done.
Qed.

(** A table is faithful when [cli_name] inverts it. *)
Definition inverts (command : string) (table : list (string * AuthorityOperation)) : bool :=
  forallb (fun kv => bool_decide (cli_name kv.2 = (command, Some kv.1))
                     || bool_decide (kv.2 = SupervisorShutdown)) table.

Lemma first_word_inv command table argv r :
  inverts command table = true -> first_word table argv = Some r -> is_shutdown r = false ->
  into_cli r = (command, argv).
Proof.
  intros Hi. unfold first_word. destruct argv as [|name rest]; [done|].
  destruct (assoc table name) as [o|] eqn:E; simpl; [|done]. intros [= <-] Hs.
  apply assoc_in in E. unfold inverts in Hi. rewrite forallb_forall in Hi. specialize (Hi _ E).
  unfold is_shutdown in Hs. bool_hyps. apply orb_true_iff in Hi as [Hi|Hi]; bool_hyps; [|done].
  unfold into_cli. simpl in *. by rewrite Hi.
Qed.

Lemma operation_name_inv o : operation_of_name (operation_name o) = Some o.
Proof. destruct o; vm_compute; reflexivity. Qed.

(** The supervisor runs the command that was typed. For every command line
    that is routed to the authority and is not a stop, the request carries the
    operation whose child command line is exactly the original one; and every
    request survives the wire format. A stop becomes the internal [shutdown]. *)
Theorem request_roundtrip :
  (forall command argv r, from_cli command argv = Some r ->
     if is_shutdown r then command = "supervisor" /\ argv = "stop" :: args r
     else into_cli r = (command, argv))
  /\ forall r, de_request (ser_request r) = Some r.
Proof.
  split.
  - intros command argv r. unfold from_cli.
    repeat match goal with
    | |- context [String.eqb command ?c] => destruct (String.eqb_spec command c) as [->|?]
    end; try done.
    + case_bool_decide; [done|]. intros [= <-]. done.
    + intros [= <-]. done.
    + intros [= <-]. done.
    + intros H. destruct (is_shutdown r) eqn:Hs; [|by apply (first_word_inv "ops" ops_operations)].
      exfalso. revert Hs. unfold first_word in H. destruct argv as [|word rest]; [done|].
      destruct (assoc ops_operations word) as [o|] eqn:E; simpl in H; [|done]. injection H as <-.
      apply assoc_in in E. simpl in E. destruct_or! E; by simplify_eq.
    + intros H. destruct (is_shutdown r) eqn:Hs.
      * exfalso. revert Hs. unfold first_word, orchestrator_operations in H. destruct argv as [|word rest]; [done|].
        destruct (assoc _ word) as [o|] eqn:E; simpl in H; [|done]. injection H as <-.
        apply assoc_in in E. apply in_app_iff in E.
        destruct (valid_mutation_request_args _), (valid_complete_args _); simpl in E; destruct_or! E; by simplify_eq.
      * eapply (first_word_inv _ (orchestrator_operations argv)); [|done|done]. unfold orchestrator_operations.
        destruct (valid_mutation_request_args _), (valid_complete_args _); vm_compute; reflexivity.
    + intros H. destruct (is_shutdown r) eqn:Hs; [|by apply (first_word_inv "supervisor" supervisor_operations)]. split; [done|].
      revert Hs. unfold first_word in H. destruct argv as [|word rest]; [done|].
      destruct (assoc supervisor_operations word) as [o|] eqn:E; simpl in H; [|done]. injection H as <-.
      apply assoc_in in E. simpl in E. destruct_or! E; by simplify_eq.
    + intros H. destruct (is_shutdown r) eqn:Hs; [|by apply (first_word_inv "subagent" subagent_operations)].
      exfalso. revert Hs. unfold first_word in H. destruct argv as [|word rest]; [done|].
      destruct (assoc subagent_operations word) as [o|] eqn:E; simpl in H; [|done]. injection H as <-.
      apply assoc_in in E. simpl in E. destruct_or! E; by simplify_eq.
  - intros [o l]. unfold de_request, ser_request. cbn [as_fields mbind option_bind operation args].
    change (str_field "operation" _) with (Some (operation_name o)). cbn [mbind option_bind].
    rewrite operation_name_inv. cbn [mbind option_bind].
    change (strings_field "args" _) with (all_some as_str (map VStr l)). by rewrite all_some_str.
Qed.

(** ** Who may do what *)

(** The operations that drive the session. *)
Definition control_operations : list AuthorityOperation :=
  [Workflow; Decision; Dag; OrchestratorComplete; ExecutionMutationRequest;
   SupervisorRegisterLaunch; SupervisorRenewLaunch; SupervisorShutdown; AssignmentCreate;
   AssignmentShow; AssignmentStatus; AssignmentCheck; TodoCreate; TodoAssign; TodoStatus; GateCheck;
   OpsPublishBound].

(** Separation of duties. Below root, only the five role identifiers are
    authorised for anything; the operations that drive the session belong to the
    orchestrator alone, findings to the reader, resolutions to the writer, the
    publication of operations to the ops role; so no identifier can both raise a
    finding and resolve it, or drive the session and do a worker's part. *)
Theorem separation_of_duties r uid :
  uid <> 0 -> authorized_for r uid = true ->
  In uid [ORCHESTRATOR_UID; WRITER_UID; READER_UID; OPS_UID; REVIEWER_UID]
  /\ (In (operation r) control_operations -> uid = ORCHESTRATOR_UID)
  /\ (operation r = FindingCreate -> uid = READER_UID)
  /\ (operation r = ResolutionCreate -> uid = WRITER_UID)
  /\ (operation r = OpsPublish -> uid = OPS_UID)
  /\ (operation r = OpsExecute -> uid = OPS_UID \/ uid = REVIEWER_UID)
  /\ (operation r = TodoClose \/ operation r = FindingDismiss ->
      uid = ORCHESTRATOR_UID \/ uid = READER_UID)
  /\ (operation r = ValidationLeaseAcquire \/ operation r = ValidationLeaseStatus ->
      uid = WRITER_UID \/ uid = READER_UID).
Proof.
  intros Hne. unfold authorized_for. destruct (Z.eqb_spec uid 0); [done|].
  unfold one_of, control_operations. destruct (operation r) eqn:Ho; simpl; intros Ha;
    repeat (apply orb_true_iff in Ha as [Ha|Ha]); try discriminate Ha;
    apply Z.eqb_eq in Ha; subst uid; naive_solver.
Qed.

(** ** The connection handler *)

Section Serve.
Context `{HP : Platform, HJ : JsonCodec}.
Variable child : string -> list string -> Z -> IO ChildOutput.

(** A connection that makes the supervisor start a child. *)
Definition transaction (c : Connection) (w : World) (uid : Z) (r : AuthorityRequest) : Prop :=
  peer_uid c = Some uid /\ accepted_peer uid = true
  /\ (exists bytes, sent c = Some bytes /\ from_slice bytes ≫= de_request = Some r
        /\ len bytes <= MAX_AUTHORITY_REQUEST_BYTES)
  /\ is_shutdown r = false /\ authorized_for r uid = true
  /\ exists e, configured w = (Ok e, w) /\ allowed_for_execution r e = true.

(** What the handler does, on every path. *)
Lemma serve_connection_cases c w res w' :
  serve_connection child c w = (res, w') ->
  (exists uid r, transaction c w uid r
     /\ (let! response := execute child r uid in ret (false, Some response)) w = (res, w'))
  \/ (w' = w /\ (exists response, res = Ok (false, response)))
  \/ (w' = w /\ exists uid r bytes, peer_uid c = Some uid /\ accepted_peer uid = true
        /\ sent c = Some bytes /\ from_slice bytes ≫= de_request = Some r
        /\ ((is_shutdown r = true /\ res = Ok (true, Some (mkResponse 0 "" "")))
            \/ (authorized_for r uid = true /\ exists e, configured w = (Err e, w) /\ res = Err e))).
Proof.
  unfold serve_connection. destruct (peer_uid c) as [uid|] eqn:Hp; [|intros [= <- <-]; eauto].
  destruct (accepted_peer uid) eqn:Ha; simpl; [|intros [= <- <-]; eauto].
  destruct (sent c) as [bytes|] eqn:Hs; [|intros [= <- <-]; eauto].
  destruct (Z.ltb_spec MAX_AUTHORITY_REQUEST_BYTES (len bytes)); [intros [= <- <-]; eauto|].
  destruct (from_slice bytes ≫= de_request) as [r|] eqn:Hr; [|intros [= <- <-]; eauto].
  destruct (is_shutdown r) eqn:Hsh.
  { intros [= <- <-]. right. right. split; [done|]. exists uid, r, bytes. split_and!; auto. }
  destruct (authorized_for r uid) eqn:Hau; cbn [negb]; [|intros [= <- <-]; eauto].
  unfold bind at 1. rewrite configured_eq. destruct (configured_in (files w)) as [e|e] eqn:Hc.
  - destruct (allowed_for_execution r e) eqn:Hal; cbn [negb]; [|intros [= <- <-]; eauto].
    intros He. left. exists uid, r. split; [|done]. unfold transaction.
    split_and!; [done|done|by eauto|done|done|]. exists e. by rewrite configured_eq, Hc.
  - intros [= <- <-]. right. right. split; [done|]. exists uid, r, bytes. split_and!; try done.
    right. split; [done|]. by exists e.
Qed.

(** C17: complete mediation. A connection changes the world only through the
    child process of a request that came from an accepted peer, within the size
    limit, authorised for that peer's identifier and allowed by the execution
    recorded in the state at that moment; the child runs exactly the command
    line of the request and is told the peer's identifier. *)
Theorem serve_connection_mediates c w res w' :
  serve_connection child c w = (res, w') -> w' <> w ->
  exists uid r out command argv, transaction c w uid r /\ into_cli r = (command, argv)
    /\ child command argv uid w = (out, w').
Proof.
  intros [(uid & r & Ht & He)|[[-> _]|[-> _]]]%serve_connection_cases Hne; try done.
  unfold execute in He. destruct (into_cli r) as [command argv] eqn:Hcli.
  unfold bind, check, ret, fail in He. case_hyp He; [|by injection He as <- <-].
  destruct (child command argv uid w) as [out w1] eqn:Hch.
  exists uid, r, out, command, argv. split; [done|]. split; [done|].
  destruct out as [out|]; [|by injection He as _ <-].
  case_hyp He; by injection He as _ <-.
Qed.

(** What a session of a restricted scope can reach. In an observing session
    no transaction resolves a finding, publishes or executes operations, creates
    an exploitation assignment or registers a writing launch; in a user session
    operations are published or executed only under a grant of that effect, and
    a mutation is requested only from the initial read-only execution. *)
Theorem scope_confines c w uid r e :
  transaction c w uid r -> configured w = (Ok e, w) -> scope e <> "human" ->
  (scope e = "user" \/ scope e = "observe" \/ scope e = "diagnosis-only")
  /\ (scope e <> "user" ->
      ~ In (operation r) [ResolutionCreate; OpsPublishBound; OpsPublish; OpsExecute]
      /\ (operation r = AssignmentCreate -> has_option_value (args r) "--role" "exploitation" = false)
      /\ (operation r = SupervisorRegisterLaunch ->
           has_option_value (args r) "--access" "workspace-write" = false))
  /\ (scope e = "user" ->
      (In (operation r) [OpsPublishBound; OpsPublish; OpsExecute] -> reviewed_ops e = true)
      /\ (operation r = ExecutionMutationRequest ->
           source_write e = false /\ reviewed_ops e = false /\ fixed_grant e = false)).
Proof.
  intros (_ & _ & _ & _ & _ & e' & He' & Hal) He Hh. rewrite He in He'. injection He' as <-.
  revert Hal. unfold allowed_for_execution, allowed_for_authority_scope.
  destruct (String.eqb_spec (scope e) "human"); [done|]. simpl.
  destruct (String.eqb_spec (scope e) "observe") as [Hs|Hs];
    [|destruct (String.eqb_spec (scope e) "diagnosis-only") as [Hd|Hd];
      [|destruct (String.eqb_spec (scope e) "user") as [Hu|Hu]; [|done]]]; simpl; intros Hal.
  3: split; [auto|]; split; [done|]; intros _;
     unfold permits_reviewed_ops, permits_mutation_request, is_read_only in Hal;
     rewrite Hu in Hal; simpl in Hal;
     (split; [intros Hin|intros Hop; rewrite Hop in Hal; bool_hyps; done]);
     simpl in Hin; destruct_or! Hin; (try done); rewrite <- Hin in Hal; done.
  all: split; [auto|]; split; [|congruence]; intros _;
     split_and!; [intros Hin; simpl in Hin; destruct_or! Hin; (try done); by rewrite <- Hin in Hal
                 |intros Hop; rewrite Hop in Hal; by apply negb_true_iff
                 |intros Hop; rewrite Hop in Hal; by apply negb_true_iff].
Qed.

(** The stop request is honoured for every accepted peer. The handler looks
    for it before it asks [authorized_for], which grants it to the orchestrator
    only; the reader, for one, is refused by the table and obeyed by the
    handler. *)
Theorem shutdown_before_authorisation uid bytes argv w :
  accepted_peer uid = true -> len bytes <= MAX_AUTHORITY_REQUEST_BYTES ->
  from_slice bytes ≫= de_request = Some (mkRequest SupervisorShutdown argv) ->
  (forall cs, serve child (mkConnection (Some uid) (Some bytes) :: cs) w =
     (Ok [Some (mkResponse 0 "" "")], w))
  /\ authorized_for (mkRequest SupervisorShutdown argv) READER_UID = false
  /\ accepted_peer READER_UID = true.
Proof.
  intros Ha Hl Hd. split; [|done]. intros cs. cbn [serve]. unfold bind at 1, serve_connection.
  cbn [peer_uid sent]. rewrite Ha. cbn [negb].
  destruct (Z.ltb_spec MAX_AUTHORITY_REQUEST_BYTES (len bytes)); [lia|]. rewrite Hd. done.
Qed.

(** One request can end the supervisor. An authorised transaction with a
    NUL byte in an argument makes the spawn of the child fail; the error leaves
    the accept loop, so the connections behind it are never served. *)
Theorem nul_argument_ends_loop c w uid r :
  transaction c w uid r -> existsb (has_char nul) (args r) = true ->
  forall cs, exists m, serve child (c :: cs) w = (Err m, w).
Proof.
  intros (Hp & Ha & (bytes & Hs & Hd & Hl) & Hsh & Hau & e & Hc & Hal) Hn cs.
  cbn [serve]. unfold bind at 1, serve_connection.
  rewrite Hp, Ha, Hs. cbn [negb].
  destruct (Z.ltb_spec MAX_AUTHORITY_REQUEST_BYTES (len bytes)); [lia|].
  rewrite Hd, Hsh, Hau. cbn [negb]. unfold bind at 1. rewrite Hc, Hal. cbn [negb].
  unfold bind at 1, execute, into_cli. destruct (cli_name (operation r)) as [command sub].
  assert (existsb (has_char nul) (match sub with Some s => s :: args r | None => args r end) = true) as Hx.
  { destruct sub; simpl; rewrite Hn; [apply orb_true_r|done]. }
  unfold bind, check. rewrite Hx. simpl. eauto.
Qed.
End Serve.

(** ** Witnesses *)

Module AuthorityWitness.

Definition vars (k : string) : option string :=
  if String.eqb k "MULTIAGENT_AUTHORITY_SCOPE" then Some "observe" else None.
#[local] Instance platform : Platform := toy_platform vars SUPERVISOR_UID.

Definition w0 : World := mkWorld ∅ [] 0 [].
(** A child that records its command line. *)
Definition recorder (command : string) (argv : list string) (caller : Z) : IO ChildOutput :=
  let! _ := put_file "log" (join " " (command :: argv)) "write" in ret (mkChild 0 "" "").

Definition message (r : AuthorityRequest) : string := to_vec (ser_request r).
Definition show : AuthorityRequest := mkRequest Workflow ["show"].
Definition conn (uid : Z) (r : AuthorityRequest) : Connection :=
  mkConnection (Some uid) (Some (message r)).

Lemma separation_of_duties_witness :
  In ORCHESTRATOR_UID [ORCHESTRATOR_UID; WRITER_UID; READER_UID; OPS_UID; REVIEWER_UID]
  /\ (In (operation show) control_operations -> ORCHESTRATOR_UID = ORCHESTRATOR_UID).
Proof.
  destruct (separation_of_duties show ORCHESTRATOR_UID) as (H1 & H2 & _); [done|reflexivity|].
  split; [exact H1|exact H2].
Defined.

Lemma show_transaction : transaction (conn ORCHESTRATOR_UID show) w0 ORCHESTRATOR_UID show.
Proof.
  split_and!; try done.
  - exists (message show). split_and!; [done|vm_compute; reflexivity|vm_compute; discriminate].
  - exists (read_only "observe"). split; vm_compute; reflexivity.
Qed.

Definition after : World := Eval vm_compute in
  (serve_connection recorder (conn ORCHESTRATOR_UID show) w0).2.

Lemma serve_connection_mediates_witness :
  exists uid r out command argv, transaction (conn ORCHESTRATOR_UID show) w0 uid r
    /\ into_cli r = (command, argv) /\ recorder command argv uid w0 = (out, after).
Proof.
  apply (serve_connection_mediates recorder (conn ORCHESTRATOR_UID show) w0
           (Ok (false, Some (mkResponse 0 "" ""))) after).
  - vm_compute. reflexivity.
  - intros H. apply (f_equal files) in H. discriminate H.
Defined.

Lemma scope_confines_witness :
  ~ In (operation show) [ResolutionCreate; OpsPublishBound; OpsPublish; OpsExecute].
Proof.
  apply (scope_confines (conn ORCHESTRATOR_UID show) w0 ORCHESTRATOR_UID show (read_only "observe"));
    [exact show_transaction|vm_compute; reflexivity|done|done].
Defined.

Definition stop : AuthorityRequest := mkRequest SupervisorShutdown [].

Lemma shutdown_before_authorisation_witness :
  serve recorder [conn READER_UID stop; conn ORCHESTRATOR_UID show] w0
  = (Ok [Some (mkResponse 0 "" "")], w0).
Proof.
  apply (shutdown_before_authorisation recorder READER_UID (message stop) [] w0);
    [reflexivity|vm_compute; discriminate|vm_compute; reflexivity].
Defined.

Definition poison : AuthorityRequest := mkRequest Workflow ["show"; String nul ""].

Lemma nul_argument_ends_loop_witness :
  exists m, serve recorder [conn ORCHESTRATOR_UID poison; conn ORCHESTRATOR_UID show] w0 = (Err m, w0).
Proof.
  apply (nul_argument_ends_loop recorder (conn ORCHESTRATOR_UID poison) w0 ORCHESTRATOR_UID poison);
    [|reflexivity].
  split_and!; try done.
  - exists (message poison). split_and!; [done|vm_compute; reflexivity|vm_compute; discriminate].
  - exists (read_only "observe"). split; vm_compute; reflexivity.
Defined.
End AuthorityWitness.
