(* ===== verification/Dag.v ===== *)
(** * Dag: [runtime/src/dag.rs]

    The task graph of a workflow: nodes and dependency edges in two TSV files,
    the commands that change them, and the queries for ready and blocked
    nodes. *)

From S2P Require Import Prelude Text State Json Config.

Definition tabs : string := String tab "".
Definition newline : string := String nl "".

Definition NODE_HEADER : string :=
  join tabs ["node_id"; "agent"; "assignment_id"; "role"; "branch"; "owned_paths"; "status";
             "decision_id"; "plan_id"; "added_at"].
Definition EDGE_HEADER : string := join tabs ["from_node"; "to_node"; "added_at"].
Definition STATUSES : list string :=
  ["pending"; "ready"; "running"; "blocked"; "done"; "failed"; "skipped"].
Definition ROLES : list string :=
  ["exploitation"; "exploration"; "reflection"; "architecture"; "qa"; "verifier"; "scout"].

Record Node := mkNode {
  node_id : string;
  agent : string;
  assignment_id : string;
  role : string;
  branch : string;
  owned_paths : string;
  status : string;
  decision_id : string;
  plan_id : string;
  added_at : string
}.

Record Edge := mkEdge { from : string; to : string; edge_added_at : string }.

Definition set_status (st : string) (n : Node) : Node :=
  mkNode (node_id n) (agent n) (assignment_id n) (role n) (branch n) (owned_paths n) st
    (decision_id n) (plan_id n) (added_at n).

(** ** Rows *)

(** [fields.resize(10, "")]: cut or filled up. *)
Definition resize (n : nat) (l : list string) : list string :=
  take n l ++ repeat "" (n - length l).

Definition parse_node (line : string) : Node :=
  match resize 10 (split tab line) with
  | [a; b; c; d; e; f; g; h; i; j] => mkNode a b c d e f g h i j
  | _ => mkNode "" "" "" "" "" "" "" "" "" ""
  end.

Definition node_fields (n : Node) : list string :=
  [node_id n; agent n; assignment_id n; role n; branch n; owned_paths n; status n;
   decision_id n; plan_id n; added_at n].
Definition node_line (n : Node) : string := join tabs (node_fields n).

Definition parse_edge (line : string) : option Edge :=
  match split tab line with
  | f :: t :: rest => Some (mkEdge f t (unwrap_or (head rest) ""))
  | _ => None
  end.
Definition edge_line (e : Edge) : string := join tabs [from e; to e; edge_added_at e].

(** ** Options *)

Fixpoint parse_options (args : list string) (allowed : list string) (options : gmap string string)
  : result string (gmap string string) :=
  match args with
  | [] => Ok options
  | raw :: rest =>
      let? key := ok_or (strip_prefix "--" raw) ("unknown option: " +:+ raw) in
      let? _ := guard (existsb (String.eqb key) allowed) ("unknown option: " +:+ raw) in
      match rest with
      | current :: rest' => parse_options rest' allowed (<[key := current]> options)
      | [] => Err (raw +:+ " requires a value")
      end
  end.

Definition value (options : gmap string string) (key : string) : string :=
  unwrap_or (options !! key) "".

Definition required (options : gmap string string) (key message : string) : result string string :=
  let? _ := guard (negb (is_empty (value options key))) message in
  Ok (value options key).

Definition id_char (c : ascii) : bool := is_ascii_alphanumeric c || has_char c "_.-".
Definition validate_id (label current : string) : result string unit :=
  guard (negb (is_empty current) && all_chars id_char current)
    ("invalid " +:+ label +:+ ": " +:+ current).

Definition validate_status (st : string) : result string unit :=
  guard (existsb (String.eqb st) STATUSES)
    ("invalid status: " +:+ st +:+ " (expected pending|ready|running|blocked|done|failed|skipped)").
Definition validate_role (r : string) : result string unit :=
  guard (existsb (String.eqb r) ROLES)
    ("invalid role: " +:+ r +:+
     " (expected exploitation|exploration|reflection|architecture|qa|verifier|scout)").
Definition reject_newline (label current : string) : result string unit :=
  guard (clean current) (label +:+ " may not contain newlines").

Fixpoint reject_newlines (l : list (string * string)) : result string unit :=
  match l with
  | [] => Ok tt
  | (label, current) :: l' => let? _ := reject_newline label current in reject_newlines l'
  end.

(** ** Cycles *)

(** The successors of a node, in the order of the edges. *)
Definition adjacency (edges : list Edge) (n : string) : list string :=
  map to (List.filter (fun e => String.eqb (from e) n) edges).
Definition edge_nodes (edges : list Edge) : gset string :=
  list_to_set (map from edges ++ map to edges).

(** [any] over the successors, threading the two sets; [None] means out of
    fuel. *)
Fixpoint any_state {S A} (f : A -> S -> option (bool * S)) (l : list A) (s : S) : option (bool * S) :=
  match l with
  | [] => Some (false, s)
  | x :: l' =>
      r ← f x s;
      if (r.1 : bool) then Some r else any_state f l' r.2
  end.

(** [visit_cycle] with its sets [visited] and [active]. *)
Fixpoint visit_cycle (fuel : nat) (adj : string -> list string) (n : string)
    (s : gset string * gset string) : option (bool * (gset string * gset string)) :=
  match fuel with
  | O => None
  | S fuel' =>
      let '(visited, active) := s in
      if decide (n ∈ active) then Some (true, s)
      else if decide (n ∈ visited) then Some (false, s)
      else
        r ← any_state (visit_cycle fuel' adj) (adj n) ({[n]} ∪ visited, {[n]} ∪ active);
        Some (r.1, (r.2.1, r.2.2 ∖ {[n]}))
  end.

(** Every nested call visits a new node: one more than their number is enough
    fuel. *)
Definition has_cycle (edges : list Edge) : bool :=
  let nodes := edge_nodes edges in
  match any_state (visit_cycle (S (size nodes)) (adjacency edges)) (btree_list nodes) (∅, ∅) with
  | Some r => r.1
  | None => true
  end.

(** ** The store *)

Section Dag.
Context `{Platform}.

Definition io_error (context : string) : string := context +:+ ": " +:+ os_error.

Definition workflow_dir (wid : string) : result string string :=
  let? dir := state_dir in Ok (path_join (path_join dir "workflows") wid).

(** [Store::configured], the exclusive lock and the directory of the workflow.
    The lock file is not read by anyone. *)
Definition require_workflow (wid : string) : IO string :=
  let! dir := lift (workflow_dir wid) in
  let! ok := is_file (path_join dir "workflow.env") in
  let! _ := check ok ("workflow does not exist: " +:+ wid) in
  ret dir.

Definition log_event (dir text : string) : IO unit :=
  let! now := timestamp in
  append_file (path_join dir "events.log") (now +:+ tabs +:+ text +:+ newline)
    (io_error "append workflow event").

Definition read_lines (path context : string) : IO (list string) :=
  let! fs := get_files in
  match fs !! path with
  | Some t => ret (tail (lines t))
  | None => fail (io_error context)
  end.

Definition read_nodes (path : string) : IO (list Node) :=
  let! ls := read_lines path "read workflow nodes" in ret (map parse_node ls).
Definition read_edges (path : string) : IO (list Edge) :=
  let! ls := read_lines path "read workflow edges" in ret (omap parse_edge ls).

Definition write_nodes (path : string) (nodes : list Node) : IO unit :=
  atomic_write path (unlines (NODE_HEADER :: map node_line nodes)).
Definition write_edges (path : string) (edges : list Edge) : IO unit :=
  atomic_write path (unlines (EDGE_HEADER :: map edge_line edges)).

(** ** Commands *)

Definition init (args : list string) : IO unit :=
  let! wid := lift (ok_or (head args) "init requires WORKFLOW_ID") in
  let! _ := lift (validate_id "workflow ID" wid) in
  let! options := lift (parse_options (tail args) ["title"; "owner"] ∅) in
  let! title := lift (required options "title" "init requires --title") in
  let owner := value options "owner" in
  let! _ := lift (reject_newline "--title" title) in
  let! _ := lift (reject_newline "--owner" owner) in
  let! dir := lift (workflow_dir wid) in
  let! exists_ := is_file (path_join dir "workflow.env") in
  let! _ := check (negb exists_) ("workflow already exists: " +:+ wid) in
  let! now := timestamp in
  let! _ := atomic_write (path_join dir "workflow.env")
    (unlines ["workflow_id=" +:+ wid; "title=" +:+ title; "owner=" +:+ owner; "status=active";
              "created_at=" +:+ now]) in
  let! _ := atomic_write (path_join dir "nodes.tsv") (unlines [NODE_HEADER]) in
  let! _ := atomic_write (path_join dir "edges.tsv") (unlines [EDGE_HEADER]) in
  let! _ := log_event dir ("workflow_created" +:+ tabs +:+ "title=" +:+ title +:+ tabs
                           +:+ "owner=" +:+ owner) in
  println ("workflow created" +:+ tabs +:+ wid +:+ tabs +:+ title).

(** The dependencies of [--depends-on]. *)
Definition split_dependencies (text : string) : list string :=
  List.filter (fun d => negb (is_empty d)) (map trim (split "," text)).

Definition node_options : list string :=
  ["agent"; "assignment-id"; "role"; "branch"; "owned"; "depends-on"; "status"; "decision-id"; "plan-id"].

(** The checked arguments of [add-node]: workflow, the new node (without its
    time) and the text of its dependencies. *)
Definition add_node_args (args : list string) : result string (string * Node * string) :=
  let? wid := ok_or (head args) "add-node requires WORKFLOW_ID" in
  let? nid := ok_or (args !! 1%nat) "add-node requires NODE_ID" in
  let? _ := validate_id "workflow ID" wid in
  let? _ := validate_id "node ID" nid in
  let? options := parse_options (drop 2 args) node_options ∅ in
  let? agent := required options "agent" "add-node requires --agent" in
  let? assignment := required options "assignment-id" "add-node requires --assignment-id" in
  let? role := required options "role" "add-node requires --role" in
  let? branch := required options "branch" "add-node requires --branch" in
  let? owned := required options "owned" "add-node requires --owned" in
  let status := unwrap_or (options !! "status") "pending" in
  let? _ := validate_role role in
  let? _ := validate_status status in
  let? _ := reject_newlines
    [("--agent", agent); ("--assignment-id", assignment); ("--role", role); ("--branch", branch);
     ("--owned", owned); ("--depends-on", value options "depends-on");
     ("--decision-id", value options "decision-id"); ("--plan-id", value options "plan-id")] in
  Ok (wid, mkNode nid agent assignment role branch owned status (value options "decision-id")
             (value options "plan-id") "", value options "depends-on").

Definition stamp_node (now : string) (n : Node) : Node :=
  mkNode (node_id n) (agent n) (assignment_id n) (role n) (branch n) (owned_paths n) (status n)
    (decision_id n) (plan_id n) now.

Definition has_node (nodes : list Node) (id : string) : bool :=
  existsb (fun n => String.eqb (node_id n) id) nodes.

Fixpoint check_dependencies (nodes : list Node) (deps : list string) : result string unit :=
  match deps with
  | [] => Ok tt
  | d :: deps' =>
      let? _ := guard (has_node nodes d) ("dependency does not exist: " +:+ d) in
      check_dependencies nodes deps'
  end.

Definition add_node (args : list string) : IO unit :=
  let! parsed := lift (add_node_args args) in
  let '(wid, n, depends_on) := parsed in
  let! dir := require_workflow wid in
  let! nodes := read_nodes (path_join dir "nodes.tsv") in
  let! _ := check (negb (has_node nodes (node_id n))) ("node ID already exists: " +:+ node_id n) in
  let dependencies := split_dependencies depends_on in
  let! _ := lift (check_dependencies nodes dependencies) in
  let! edges := read_edges (path_join dir "edges.tsv") in
  let! now := timestamp in
  let edges' := edges ++ map (fun d => mkEdge d (node_id n) now) dependencies in
  let! _ := check (negb (has_cycle edges')) "dependency cycle detected" in
  let! _ := write_nodes (path_join dir "nodes.tsv") (nodes ++ [stamp_node now n]) in
  let! _ := write_edges (path_join dir "edges.tsv") edges' in
  let! _ := log_event dir ("node_added" +:+ tabs +:+ "node_id=" +:+ node_id n +:+ tabs +:+ "agent="
              +:+ agent n +:+ tabs +:+ "assignment_id=" +:+ assignment_id n +:+ tabs +:+ "status="
              +:+ status n +:+ tabs +:+ "depends_on=" +:+ depends_on) in
  println ("node added" +:+ tabs +:+ wid +:+ tabs +:+ node_id n +:+ tabs +:+ agent n).

Definition update_status (args : list string) : IO unit :=
  let! wid := lift (ok_or (head args) "status requires WORKFLOW_ID") in
  let! nid := lift (ok_or (args !! 1%nat) "status requires NODE_ID") in
  let! st := lift (ok_or (args !! 2%nat) "status requires STATUS") in
  let! _ := lift (validate_id "workflow ID" wid) in
  let! _ := lift (validate_id "node ID" nid) in
  let! _ := lift (validate_status st) in
  let! options := lift (parse_options (drop 3 args) ["reason"] ∅) in
  let! _ := lift (reject_newline "--reason" (value options "reason")) in
  let! dir := require_workflow wid in
  let! nodes := read_nodes (path_join dir "nodes.tsv") in
  let! _ := check (has_node nodes nid) ("node does not exist: " +:+ nid) in
  let! _ := write_nodes (path_join dir "nodes.tsv")
              (update_first (fun n => String.eqb (node_id n) nid) (set_status st) nodes) in
  let! _ := log_event dir ("status_updated" +:+ tabs +:+ "node_id=" +:+ nid +:+ tabs +:+ "status="
              +:+ st +:+ tabs +:+ "reason=" +:+ value options "reason") in
  println ("status updated" +:+ tabs +:+ wid +:+ tabs +:+ nid +:+ tabs +:+ st).

(** The map from identifier to status; a later row of the same identifier wins. *)
Definition statuses (nodes : list Node) : gmap string string :=
  foldl (fun m n => <[node_id n := status n]> m) ∅ nodes.

Definition dependencies_of (edges : list Edge) (id : string) : list string :=
  map from (List.filter (fun e => String.eqb (to e) id) edges).

Definition satisfied (sts : gmap string string) (d : string) : bool :=
  match sts !! d with
  | Some st => String.eqb st "done" || String.eqb st "skipped"
  | None => false
  end.

Definition is_ready (sts : gmap string string) (edges : list Edge) (n : Node) : bool :=
  String.eqb (status n) "ready"
  || (String.eqb (status n) "pending")
     && forallb (satisfied sts) (dependencies_of edges (node_id n)).

Definition ready_nodes (nodes : list Node) (edges : list Edge) : list string :=
  map node_id (List.filter (is_ready (statuses nodes) edges) nodes).

Fixpoint println_all (l : list string) : IO unit :=
  match l with
  | [] => ret tt
  | x :: l' => let! _ := println x in println_all l'
  end.

Definition one_id (command : string) (args : list string) : result string string :=
  let? id := ok_or (head args) (command +:+ " requires WORKFLOW_ID") in
  let? _ := validate_id "workflow ID" id in
  Ok id.

Definition read_graph (command : string) (args : list string) : IO (list Node * list Edge) :=
  let! wid := lift (one_id command args) in
  let! dir := require_workflow wid in
  let! nodes := read_nodes (path_join dir "nodes.tsv") in
  let! edges := read_edges (path_join dir "edges.tsv") in
  ret (nodes, edges).

Definition ready (args : list string) : IO unit :=
  let! graph := read_graph "ready" args in
  println_all (ready_nodes graph.1 graph.2).

(** The blocked nodes, each with its first failed dependency. *)
Definition blocked_nodes (nodes : list Node) (edges : list Edge) : list (string * string) :=
  omap (fun n =>
    if String.eqb (status n) "pending" || String.eqb (status n) "ready" then
      (fun d => (node_id n, d)) <$>
        List.find (fun d => bool_decide (statuses nodes !! d = Some "failed"))
          (dependencies_of edges (node_id n))
    else None) nodes.

Definition blocked (args : list string) : IO unit :=
  let! graph := read_graph "blocked" args in
  let! _ := println ("BLOCKED_NODES" +:+ tabs +:+ "REASON") in
  println_all (map (fun nd => nd.1 +:+ tabs +:+ "dependency " +:+ nd.2 +:+ " failed")
                 (blocked_nodes graph.1 graph.2)).

End Dag.
