(* ===== verification/DagProps.v ===== *)
(** * DagProps: the task graph stays a readable acyclic graph *)

From S2P Require Import Prelude Text State Json Config Dag Instances.

(** ** Cycle detection *)

Definition edge_rel (edges : list Edge) (x y : string) : Prop :=
  exists e, In e edges /\ from e = x /\ to e = y.
Definition acyclic (edges : list Edge) : Prop := forall x, ~ tc (edge_rel edges) x x.

Lemma adjacency_spec edges x y : In y (adjacency edges x) <-> edge_rel edges x y.
Proof.
  unfold adjacency, edge_rel. rewrite in_map_iff. setoid_rewrite filter_In.
  setoid_rewrite String.eqb_eq. naive_solver.
Qed.

Lemma edge_rel_nodes edges x y : edge_rel edges x y -> x ∈ edge_nodes edges /\ y ∈ edge_nodes edges.
Proof.
  intros (e & He & <- & <-). unfold edge_nodes. rewrite !elem_of_list_to_set, !elem_of_app.
  split; [left|right]; apply list_elem_of_In; by apply in_map.
Qed.

Section Cycle.
Variable adj : string -> list string.
Variable N : gset string.
Hypothesis adj_nodes : forall x y, In y (adj x) -> y ∈ N.

Definition E (x y : string) : Prop := In y (adj x).

(** The finished nodes [V ∖ A] are closed under successors and on no cycle. *)
Record visit_inv (V A : gset string) : Prop := {
  vi_active : A ⊆ V;
  vi_closed : forall x y, x ∈ V ∖ A -> E x y -> y ∈ V ∖ A;
  vi_acyclic : forall x, x ∈ V ∖ A -> ~ tc E x x
}.

Lemma closed_tc V A x y : visit_inv V A -> x ∈ V ∖ A -> tc E x y -> y ∈ V ∖ A.
Proof. intros Hi Hx Ht. induction Ht; eauto using vi_closed. Qed.

(** What a call for [x] (or a sequence of calls for the list [l]) returns. *)
Definition visit_post (l : list string) (V A : gset string)
    (r : option (bool * (gset string * gset string))) : Prop :=
  match r with
  | None => False
  | Some (true, _) => exists y, tc E y y
  | Some (false, (V', A')) =>
      A' = A /\ V ⊆ V' /\ visit_inv V' A /\ forall x, In x l -> x ∈ V' ∖ A
  end.

Lemma any_visit fuel l V A :
  (forall x V, In x l -> visit_inv V A -> (size (N ∖ V) < fuel)%nat ->
     visit_post [x] V A (visit_cycle fuel adj x (V, A))) ->
  visit_inv V A -> (size (N ∖ V) < fuel)%nat ->
  visit_post l V A (any_state (visit_cycle fuel adj) l (V, A)).
Proof.
  revert V. induction l as [|x l IH]; intros V Hx Hi Hf; cbn [any_state].
  { simpl. split_and!; try done. }
  specialize (Hx x V (or_introl eq_refl) Hi Hf) as Hp.
  destruct (visit_cycle fuel adj x (V, A)) as [[[] [V1 A1]]|]; simpl in *; try done.
  destruct Hp as (-> & HV & Hi1 & Hx1).
  assert (size (N ∖ V1) < fuel)%nat.
  { eapply Nat.le_lt_trans; [|done]. apply subseteq_size. set_solver. }
  specialize (IH V1). destruct (any_state _ l (V1, A)) as [[[] [V2 A2]]|]; simpl in *.
  - apply IH; auto.
  - destruct IH as (-> & HV2 & Hi2 & Hl); [auto..|]. split_and!; try done; [set_solver|].
    intros y [<-|Hy]; [|auto]. specialize (Hx1 x (or_introl eq_refl)). set_solver.
  - apply IH; auto.
Qed.

Lemma visit_cycle_post fuel x V A :
  x ∈ N -> visit_inv V A -> (forall a, a ∈ A -> tc E a x) -> (size (N ∖ V) < fuel)%nat ->
  visit_post [x] V A (visit_cycle fuel adj x (V, A)).
Proof.
  revert x V A. induction fuel as [|fuel IH]; intros x V A Hx Hi Ha Hf; [lia|].
  cbn [visit_cycle]. destruct (decide (x ∈ A)) as [HxA|HxA]; [simpl; eauto|].
  destruct (decide (x ∈ V)) as [HxV|HxV].
  { simpl. split_and!; try done. intros y [<-|[]]. set_solver. }
  assert (visit_inv ({[x]} ∪ V) ({[x]} ∪ A)) as Hi1.
  { destruct Hi as [Hact Hcl Hac].
    assert (forall y, y ∈ ({[x]} ∪ V) ∖ ({[x]} ∪ A) <-> y ∈ V ∖ A) as Heq by set_solver.
    constructor; [set_solver| |].
    - intros y z Hy Hyz. apply Heq. apply Heq in Hy. eauto.
    - intros y Hy. apply Hac. by apply Heq. }
  assert (size (N ∖ ({[x]} ∪ V)) < fuel)%nat as Hf1.
  { assert (size (N ∖ ({[x]} ∪ V)) < size (N ∖ V))%nat; [|lia]. apply subset_size. set_solver. }
  pose proof (any_visit fuel (adj x) ({[x]} ∪ V) ({[x]} ∪ A)) as Hany.
  assert (visit_post (adj x) ({[x]} ∪ V) ({[x]} ∪ A)
            (any_state (visit_cycle fuel adj) (adj x) ({[x]} ∪ V, {[x]} ∪ A))) as Hp.
  { apply Hany; [|done|done]. intros y V1 Hy Hi2 Hf2. apply IH; try done; [by eapply adj_nodes|].
    intros a Ha'. destruct (decide (a = x)) as [->|]; [by constructor|].
    eapply tc_r; [apply Ha; set_solver|done]. }
  destruct (any_state _ _ _) as [[[] [V2 A2]]|]; simpl in *; try done.
  destruct Hp as (-> & HV2 & [Hact Hcl Hac] & Hsucc).
  assert (({[x]} ∪ A) ∖ {[x]} = A) as -> by set_solver.
  split; [done|]. split; [set_solver|]. split; [|intros y [<-|[]]; set_solver].
  assert (forall y, y ∈ V2 ∖ A <-> y = x \/ y ∈ V2 ∖ ({[x]} ∪ A)) as Heq.
  { intros y. destruct (decide (y = x)); set_solver. }
  assert (visit_inv V2 ({[x]} ∪ A)) as Hi2 by done.
  constructor; [set_solver| |].
  - intros y z Hy Hyz. apply Heq. right. apply Heq in Hy as [->|Hy]; eauto.
  - intros y Hy Ht. apply Heq in Hy as [->|Hy]; [|by eapply Hac].
    assert (x ∈ V2 ∖ ({[x]} ∪ A)); [|set_solver].
    inversion Ht as [? ? Hxx|? z ? Hxz Hzx]; subst; [by apply Hsucc|].
    eapply closed_tc; [done| |done]. by apply Hsucc.
Qed.
End Cycle.

Lemma has_cycle_spec edges :
  has_cycle edges = true <-> exists x, tc (edge_rel edges) x x.
Proof.
  set (N := edge_nodes edges).
  assert (forall x y, tc (E (adjacency edges)) x y <-> tc (edge_rel edges) x y) as Htc.
  { intros x y. split; intros H; (induction H as [x y H|x y z H _ IH];
      [constructor|eapply tc_l; [|done]]; by apply adjacency_spec). }
  assert (visit_inv (adjacency edges) ∅ ∅) as Hi by (constructor; set_solver).
  assert (forall a b, In b (adjacency edges a) -> b ∈ N) as HN.
  { intros a b Hab. apply adjacency_spec, edge_rel_nodes in Hab as [_ ?]. done. }
  assert (visit_post (adjacency edges) (btree_list N) ∅ ∅
    (any_state (visit_cycle (S (size N)) (adjacency edges)) (btree_list N) (∅, ∅))) as Hp.
  { apply (any_visit _ N HN); [|done|].
    - intros x V Hx HiV Hf. apply (visit_cycle_post _ N HN); [|done|set_solver|done].
      by apply btree_list_elem, list_elem_of_In.
    - apply Nat.lt_succ_r, subseteq_size. set_solver. }
  unfold has_cycle. fold N. setoid_rewrite <- Htc.
  destruct (any_state _ _ _) as [[[] [V A]]|]; simpl in *; [done| |done].
  destruct Hp as (_ & _ & Hi' & Hall). split; [done|]. intros [x Hx].
  exfalso. eapply vi_acyclic; [done| |done].
  apply Hall. apply list_elem_of_In, btree_list_elem.
  apply Htc in Hx. inversion Hx as [? ? Hxx|? ? ? Hxx]; subst; by apply edge_rel_nodes in Hxx as [? _].
Qed.

Lemma has_cycle_false edges : has_cycle edges = false <-> acyclic edges.
Proof.
  unfold acyclic. destruct (has_cycle edges) eqn:Hc.
  - apply has_cycle_spec in Hc as [x Hx]. split; [done|]. intros H. by destruct (H x).
  - split; [|done]. intros _ x Hx.
    assert (has_cycle edges = true) by (apply has_cycle_spec; eauto). congruence.
Qed.


(** ** Rows and files *)

Definition node_clean (n : Node) : bool := forallb clean_field (node_fields n).
Definition edge_clean (e : Edge) : bool := forallb clean_field [from e; to e; edge_added_at e].

Lemma clean_fields_split l :
  l <> [] -> forallb clean_field l = true -> split tab (join tabs l) = l /\ clean (join tabs l) = true.
Proof.
  intros Hne Hl. split.
  - apply split_join; [done|]. eapply forallb_impl; [|done]. intros x Hx.
    unfold clean_field in Hx. by apply andb_true_iff in Hx as [_ Hx].
  - apply clean_join; [done|]. eapply forallb_impl; [|done]. intros x. apply clean_field_clean.
Qed.

Lemma parse_node_line n : node_clean n = true -> parse_node (node_line n) = n.
Proof.
  intros [Hs _]%clean_fields_split; [|done]. unfold parse_node, node_line. rewrite Hs. by destruct n.
Qed.

Lemma parse_edge_line e : edge_clean e = true -> parse_edge (edge_line e) = Some e.
Proof.
  intros [Hs _]%clean_fields_split; [|done]. unfold parse_edge, edge_line. rewrite Hs. by destruct e.
Qed.

(** The two files of a workflow hold these nodes and edges. *)
Definition node_text (nodes : list Node) : string := unlines (NODE_HEADER :: map node_line nodes).
Definition edge_text (edges : list Edge) : string := unlines (EDGE_HEADER :: map edge_line edges).

Lemma node_text_lines nodes :
  forallb node_clean nodes = true -> map parse_node (tail (lines (node_text nodes))) = nodes.
Proof.
  intros Hc. unfold node_text. rewrite lines_unlines.
  - simpl. induction nodes as [|n nodes IH]; simpl in *; [done|]. bool_hyps.
    rewrite parse_node_line, IH by done. done.
  - cbn [forallb]. change (clean NODE_HEADER) with true. simpl.
    induction nodes as [|n nodes IH]; simpl in *; [done|]. bool_hyps.
    rewrite IH, andb_true_r by done. by apply clean_fields_split.
Qed.

Lemma edge_text_lines edges :
  forallb edge_clean edges = true -> omap parse_edge (tail (lines (edge_text edges))) = edges.
Proof.
  intros Hc. unfold edge_text. rewrite lines_unlines.
  - cbn [tail]. induction edges as [|e edges IH]; [done|]. cbn [forallb] in Hc. bool_hyps.
    cbn [map omap list_omap]. rewrite parse_edge_line by done. f_equal. by apply IH.
  - cbn [forallb]. change (clean EDGE_HEADER) with true. simpl.
    induction edges as [|e edges IH]; simpl in *; [done|]. bool_hyps.
    rewrite IH, andb_true_r by done. by apply clean_fields_split.
Qed.

(** ** The invariant of a stored graph *)

Record graph_ok (nodes : list Node) (edges : list Edge) : Prop := {
  gk_clean : forallb node_clean nodes = true;
  gk_edges_clean : forallb edge_clean edges = true;
  gk_ids : NoDup (map node_id nodes);
  gk_status : Forall (fun n => existsb (String.eqb (status n)) STATUSES = true) nodes;
  gk_ends : Forall (fun e => has_node nodes (from e) = true /\ has_node nodes (to e) = true) edges;
  gk_acyclic : acyclic edges
}.

Definition stored (dir : string) (nodes : list Node) (edges : list Edge) (w : World) : Prop :=
  is_Some (files w !! path_join dir "workflow.env")
  /\ files w !! path_join dir "nodes.tsv" = Some (node_text nodes)
  /\ files w !! path_join dir "edges.tsv" = Some (edge_text edges)
  /\ graph_ok nodes edges.

Lemma path_join_inj d a b : path_join d a = path_join d b -> a = b.
Proof. unfold path_join. intros H%str_app_inj_l. by injection H. Qed.

Lemma has_node_in nodes id : has_node nodes id = true <-> In id (map node_id nodes).
Proof.
  unfold has_node. rewrite existsb_exists, in_map_iff. setoid_rewrite String.eqb_eq. naive_solver.
Qed.

(** *** Adding a node *)

Definition new_edges (id now : string) (deps : list string) : list Edge :=
  map (fun d => mkEdge d id now) deps.

Lemma has_node_app nodes n id :
  has_node (nodes ++ [n]) id = has_node nodes id || String.eqb (node_id n) id.
Proof. unfold has_node. rewrite existsb_app. simpl. by rewrite orb_false_r. Qed.

Lemma edge_rel_new edges id now deps x y :
  edge_rel (edges ++ new_edges id now deps) x y <->
  edge_rel edges x y \/ (y = id /\ In x deps).
Proof.
  unfold edge_rel, new_edges. setoid_rewrite in_app_iff. setoid_rewrite in_map_iff. split.
  - intros (e & [He|(d & <- & Hd)] & <- & <-); [left; eauto|right; auto].
  - intros [(e & He & <- & <-)|[-> Hx]]; [eauto|]. exists (mkEdge x id now). split; [right|done]. eauto.
Qed.

(** A new node has no successors, so it closes no cycle. *)
Lemma acyclic_new nodes edges id now deps :
  acyclic edges ->
  Forall (fun e => has_node nodes (from e) = true /\ has_node nodes (to e) = true) edges ->
  has_node nodes id = false -> Forall (fun d => has_node nodes d = true) deps ->
  acyclic (edges ++ new_edges id now deps).
Proof.
  intros Hac Hends Hid Hdeps. rewrite Forall_forall in Hends. rewrite Forall_forall in Hdeps.
  assert (forall y, ~ edge_rel (edges ++ new_edges id now deps) id y) as Hout.
  { intros y [(e & He & <- & _)|[_ Hin]]%edge_rel_new.
    - apply list_elem_of_In in He. by destruct (Hends _ He); congruence.
    - apply list_elem_of_In in Hin. specialize (Hdeps _ Hin). congruence. }
  assert (forall x y, tc (edge_rel (edges ++ new_edges id now deps)) x y ->
    y = id \/ tc (edge_rel edges) x y) as Htc.
  { induction 1 as [x y [H|[-> _]]%edge_rel_new|x y z [H|[-> _]]%edge_rel_new Ht IH]; auto.
    - right. by constructor.
    - destruct IH; [auto|]. right. by eapply tc_l.
    - exfalso. inversion Ht; subst; by eapply Hout. }
  intros x Hx. destruct (Htc _ _ Hx) as [->|?]; [|by eapply Hac].
  inversion Hx; subst; by eapply Hout.
Qed.

Lemma graph_ok_add nodes edges n now deps :
  graph_ok nodes edges -> has_node nodes (node_id n) = false -> node_clean n = true ->
  existsb (String.eqb (status n)) STATUSES = true -> clean_field now = true ->
  Forall (fun d => has_node nodes d = true) deps ->
  graph_ok (nodes ++ [n]) (edges ++ new_edges (node_id n) now deps).
Proof.
  intros [Hc Hec Hids Hst Hends Hac] Hid Hn Hs Hnow Hdeps.
  assert (forall d, has_node nodes d = true -> clean_field d = true) as Hdc.
  { intros d (m & <- & Hm)%has_node_in%in_map_iff. rewrite forallb_forall in Hc.
    specialize (Hc _ Hm). unfold node_clean in Hc. simpl in Hc. by bool_hyps. }
  constructor.
  - rewrite forallb_app. simpl. by rewrite Hc, Hn.
  - rewrite forallb_app, Hec. simpl. apply forallb_forall. intros e (d & <- & Hd)%in_map_iff.
    rewrite Forall_forall in Hdeps. unfold edge_clean. simpl. rewrite Hnow, Hdc by (by apply Hdeps, list_elem_of_In).
    unfold node_clean in Hn. simpl in Hn. bool_hyps. by rewrite H.
  - rewrite map_app. apply NoDup_app. split; [done|]. split; [|apply NoDup_singleton].
    intros x Hx%list_elem_of_In%has_node_in ->%list_elem_of_singleton. congruence.
  - apply Forall_app. split; [done|]. by constructor.
  - apply Forall_app. split.
    + eapply Forall_impl; [done|]. intros e [H1 H2]. by rewrite !has_node_app, H1, H2.
    + apply Forall_forall. intros e (d & -> & Hd)%list_elem_of_fmap. simpl.
      rewrite !has_node_app, String.eqb_refl, orb_true_r.
      rewrite Forall_forall in Hdeps. by rewrite (Hdeps _ Hd).
  - by eapply acyclic_new.
Qed.

Lemma check_dependencies_ok nodes deps :
  check_dependencies nodes deps = Ok tt <-> Forall (fun d => has_node nodes d = true) deps.
Proof.
  induction deps as [|d deps IH]; simpl; [naive_solver|].
  rewrite Forall_cons, <- IH. unfold guard. destruct (has_node nodes d); simpl; naive_solver.
Qed.

Lemma existsb_eqb_in x l : existsb (String.eqb x) l = true <-> In x l.
Proof. rewrite existsb_exists. setoid_rewrite String.eqb_eq. naive_solver. Qed.

(** Distinct files of one directory. *)
Ltac other_file := intros ?%path_join_inj; discriminate.

Section Commands.
Context `{HP : Platform}.

Lemma add_node_args_status args wid n deps :
  add_node_args args = Ok (wid, n, deps) -> existsb (String.eqb (status n)) STATUSES = true.
Proof.
  unfold add_node_args, validate_status. intros H. inv_ok.
  repeat match goal with u : unit |- _ => destruct u end. by simplify_eq/=.
Qed.

Lemma read_nodes_stored dir nodes edges w :
  stored dir nodes edges w -> read_nodes (path_join dir "nodes.tsv") w = (Ok nodes, w).
Proof.
  intros (_ & Hn & _ & Hg). unfold read_nodes, read_lines, bind, get_files, ret. rewrite Hn. cbv beta iota.
  by rewrite node_text_lines by apply Hg.
Qed.

Lemma read_edges_stored dir nodes edges w :
  stored dir nodes edges w -> read_edges (path_join dir "edges.tsv") w = (Ok edges, w).
Proof.
  intros (_ & _ & He & Hg). unfold read_edges, read_lines, bind, get_files, ret. rewrite He. cbv beta iota.
  by rewrite edge_text_lines by apply Hg.
Qed.

Lemma require_stored wid dir nodes edges w :
  workflow_dir wid = Ok dir -> stored dir nodes edges w -> require_workflow wid w = (Ok dir, w).
Proof.
  intros Hd (Hw & _). unfold require_workflow, is_file, bind, lift, get_files, ret, check. rewrite Hd.
  by rewrite bool_decide_true by done.
Qed.

Definition tick (w : World) : World := mkWorld (files w) (faults w) (S (ticks w)) (stdout w).

(** The writes of [add-node], on a disk without faults. *)
Lemma add_node_writes dir N E text line w :
  faults w = [] ->
  exists w', (let! _ := write_nodes (path_join dir "nodes.tsv") N in
              let! _ := write_edges (path_join dir "edges.tsv") E in
              let! _ := log_event dir text in println line) w = (Ok tt, w')
    /\ faults w' = []
    /\ files w' !! path_join dir "workflow.env" = files w !! path_join dir "workflow.env"
    /\ files w' !! path_join dir "nodes.tsv" = Some (node_text N)
    /\ files w' !! path_join dir "edges.tsv" = Some (edge_text E).
Proof.
  intros Hf. unfold write_nodes, write_edges, log_event, atomic_write, append_file, put_file,
    timestamp, println, bind. rewrite Hf. simpl. eexists. split; [reflexivity|]. simpl.
  split; [done|]. rewrite !lookup_insert_ne by other_file. rewrite !lookup_insert_eq.
  rewrite lookup_insert_ne by other_file. by rewrite lookup_insert_eq.
Qed.

(** Adding a node. On a stored graph and a sound disk, [add-node] with
    tab-free fields succeeds exactly when the identifier is new and every
    dependency exists; then the files hold the old graph with the new node and
    its edges, again readable, with distinct identifiers, existing end points
    and no cycle; otherwise nothing has changed. *)
Theorem add_node_correct `{HC : !ClockClean} args wid n deps dir nodes edges w :
  add_node_args args = Ok (wid, n, deps) -> workflow_dir wid = Ok dir ->
  stored dir nodes edges w -> faults w = [] -> node_clean n = true ->
  let ds := split_dependencies deps in
  let now := rfc3339_secs (ticks w) in
  if negb (has_node nodes (node_id n)) && forallb (has_node nodes) ds
  then exists w', add_node args w = (Ok tt, w')
         /\ stored dir (nodes ++ [stamp_node now n]) (edges ++ new_edges (node_id n) now ds) w'
  else exists e w', add_node args w = (Err e, w') /\ files w' = files w.
Proof.
  intros Ha Hd Hst Hf Hn ds now. pose proof Hst as (Hw & _ & _ & Hg).
  unfold add_node. run_lift Ha.
  run_step ltac:(by eapply require_stored). run_step ltac:(by eapply read_nodes_stored).
  destruct (has_node nodes (node_id n)) eqn:Hid; cbn [negb andb].
  { do 2 eexists. split; reflexivity. }
  run_check (eq_refl true). fold ds.
  destruct (forallb (has_node nodes) ds) eqn:Hall.
  2:{ destruct (check_dependencies nodes ds) as [[]|e] eqn:Hc; [|do 2 eexists; split; reflexivity].
      exfalso. apply check_dependencies_ok in Hc. rewrite Forall_forall in Hc.
      assert (forallb (has_node nodes) ds = true); [|congruence].
      apply forallb_forall. intros d Hin. by apply Hc, list_elem_of_In. }
  assert (Forall (fun d => has_node nodes d = true) ds) as Hdeps.
  { apply Forall_forall. rewrite forallb_forall in Hall. intros d Hin. by apply Hall, list_elem_of_In. }
  run_lift (proj2 (check_dependencies_ok nodes ds) Hdeps).
  run_step ltac:(by eapply read_edges_stored). run_step ltac:(reflexivity). fold now.
  assert (has_cycle (edges ++ new_edges (node_id n) now ds) = false) as Hcy.
  { apply has_cycle_false. eapply acyclic_new; try done; apply Hg. }
  unfold new_edges in Hcy. rewrite Hcy. run_check (eq_refl true).
  match goal with |- exists w', bind _ (fun _ => bind _ (fun _ => bind (log_event _ ?t) (fun _ => println ?l))) ?x = _ /\ _ =>
    destruct (add_node_writes dir (nodes ++ [stamp_node now n])
      (edges ++ new_edges (node_id n) now ds) t l x Hf) as (w' & Hrun & _ & H1 & H2 & H3) end.
  exists w'. split; [exact Hrun|]. unfold stored. rewrite H1, H2, H3. split; [done|]. split; [done|].
  split; [done|].
  apply (graph_ok_add nodes edges (stamp_node now n) now ds); try done.
  - unfold node_clean in *. simpl in *. bool_hyps. unfold now. rewrite rfc3339_clean.
    repeat match goal with H : clean_field _ = true |- _ => rewrite H; clear H end. done.
  - by apply add_node_args_status in Ha.
  - apply rfc3339_clean.
Qed.

Lemma graph_ok_set_status nodes1 n nodes2 edges st :
  graph_ok (nodes1 ++ n :: nodes2) edges -> existsb (String.eqb st) STATUSES = true ->
  graph_ok (nodes1 ++ set_status st n :: nodes2) edges.
Proof.
  intros [Hc Hec Hids Hst Hends Hac] Hs.
  assert (forall id, has_node (nodes1 ++ set_status st n :: nodes2) id = has_node (nodes1 ++ n :: nodes2) id) as Hh.
  { intros id. unfold has_node. by rewrite !existsb_app. }
  assert (clean_field st = true) as Hcs.
  { apply existsb_eqb_in in Hs. simpl in Hs. destruct_or! Hs; by subst. }
  constructor; try done.
  - rewrite forallb_app in *. simpl in *. apply andb_true_iff in Hc as [-> [Hn ->]%andb_true_iff].
    unfold node_clean in *. simpl in *. bool_hyps. rewrite Hcs.
    repeat match goal with H : clean_field _ = true |- _ => rewrite H; clear H end. done.
  - by rewrite map_app in *.
  - apply Forall_app in Hst as [? [? ?]%Forall_cons]. apply Forall_app. split; [done|]. by constructor.
  - eapply Forall_impl; [done|]. intros e. by rewrite !Hh.
Qed.

(** A status update changes the status of exactly the named node and keeps
    the graph well-formed; an unknown node or status changes nothing. *)
Theorem update_status_correct wid nid st rest options dir nodes edges w :
  validate_id "workflow ID" wid = Ok tt -> validate_id "node ID" nid = Ok tt ->
  parse_options rest ["reason"] ∅ = Ok options -> clean (value options "reason") = true ->
  workflow_dir wid = Ok dir -> stored dir nodes edges w -> faults w = [] ->
  if has_node nodes nid && existsb (String.eqb st) STATUSES
  then exists w' nodes1 n nodes2, update_status (wid :: nid :: st :: rest) w = (Ok tt, w')
         /\ nodes = nodes1 ++ n :: nodes2 /\ node_id n = nid
         /\ stored dir (nodes1 ++ set_status st n :: nodes2) edges w'
  else exists e w', update_status (wid :: nid :: st :: rest) w = (Err e, w') /\ files w' = files w.
Proof.
  intros Hw Hn Ho Hr Hd Hst Hf. unfold update_status.
  do 3 run_step ltac:(by apply lift_run). run_lift Hw. run_lift Hn. unfold validate_status.
  destruct (existsb (String.eqb st) STATUSES) eqn:Hs.
  2:{ rewrite andb_false_r. do 2 eexists. split; reflexivity. }
  run_step ltac:(by apply lift_run). run_lift Ho. unfold reject_newline. rewrite Hr.
  run_step ltac:(by apply lift_run).
  run_step ltac:(by eapply require_stored). run_step ltac:(by eapply read_nodes_stored).
  destruct (has_node nodes nid) eqn:Hin; cbn [andb]; [|do 2 eexists; split; reflexivity].
  run_check (eq_refl true). unfold has_node in Hin.
  destruct (List.find (fun n => String.eqb (node_id n) nid) nodes) as [n|] eqn:Hfind.
  2:{ apply existsb_exists in Hin as (x & Hx & Hxe). by rewrite (List.find_none _ _ Hfind x Hx) in Hxe. }
  destruct (update_first_split _ (set_status st) _ _ Hfind) as (n1 & n2 & -> & _ & ->).
  apply List.find_some in Hfind as [_ Hid%String.eqb_eq].
  unfold write_nodes, log_event, atomic_write, append_file, put_file, timestamp, println, bind.
  rewrite Hf. simpl. eexists _, n1, n, n2. split; [reflexivity|]. split; [done|]. split; [done|].
  destruct Hst as (Hwf & _ & He & Hg). unfold stored. simpl.
  rewrite !lookup_insert_ne by other_file. rewrite lookup_insert_eq.
  rewrite ?lookup_insert_ne by other_file.
  split; [done|]. split; [done|]. split; [done|]. by apply graph_ok_set_status.
Qed.

(** A refused command changes nothing. On a sound disk, whenever [init],
    [add-node] or [status] returns an error, for whatever arguments and whatever
    the files hold, every file is as before. *)
Theorem dag_commands_reject args : rejects (init args) /\ rejects (add_node args) /\ rejects (update_status args).
Proof.
  unfold init, add_node, update_status, require_workflow, read_nodes, read_edges, read_lines,
    write_nodes, write_edges, log_event.
  split_and!; rejects.
Qed.
End Commands.

(** ** Ready nodes *)

Lemma statuses_lookup nodes n :
  NoDup (map node_id nodes) -> In n nodes -> statuses nodes !! node_id n = Some (status n).
Proof.
  unfold statuses. intros Hnd Hin. revert Hnd Hin. generalize (∅ : gmap string string).
  assert (forall l (m : gmap string string) k, ~ In k (map node_id l) ->
    foldl (fun m n => <[node_id n := status n]> m) m l !! k = m !! k) as Hno.
  { induction l as [|a l IH]; intros m k Hk; simpl in *; [done|]. rewrite IH by tauto.
    rewrite lookup_insert_ne by tauto. done. }
  induction nodes as [|a nodes IH]; intros m; [done|]. simpl. rewrite NoDup_cons.
  intros [Ha Hnd] [->|Hin]; [|by apply IH].
  rewrite Hno by (by rewrite <- list_elem_of_In). apply lookup_insert_eq.
Qed.

(** A finite relation without cycles has a minimal element. *)
Section Minimal.
Context {A : Type} `{EqDecision A} (R : A -> A -> Prop) `{forall x y, Decision (R x y)}.
Hypothesis R_acyclic : forall x, ~ tc R x x.

Inductive walk : list A -> Prop :=
| walk_one x : walk [x]
| walk_cons x y l : R x y -> walk (y :: l) -> walk (x :: y :: l).

Lemma walk_tc x l y : walk (x :: l) -> y ∈ l -> tc R x y.
Proof.
  revert x. induction l as [|z l IH]; intros x Hw Hy; [by apply not_elem_of_nil in Hy|].
  inversion Hw as [|? ? ? Hxz Hw']; subst. apply elem_of_cons in Hy as [->|Hy]; [by constructor|].
  eapply tc_l; eauto.
Qed.

Lemma walk_nodup l : walk l -> NoDup l.
Proof.
  induction 1 as [x|x y l Hxy Hw IH]; [apply NoDup_singleton|]. constructor; [|done].
  intros Hin. eapply R_acyclic, walk_tc; [|exact Hin]. by constructor.
Qed.

Lemma minimal_in (X : list A) : X <> [] -> exists x, x ∈ X /\ forall y, y ∈ X -> ~ R y x.
Proof.
  intros Hne. destruct (decide (Exists (fun x => Forall (fun y => ~ R y x) X) X)) as [He|Hno].
  { apply Exists_exists in He as (x & Hx & Hf). exists x. split; [done|]. by apply Forall_forall. }
  assert (forall x, x ∈ X -> exists y, y ∈ X /\ R y x) as Hpred.
  { intros x Hx. destruct (decide (Exists (fun y => R y x) X)) as [He|Hn]; [by apply Exists_exists|].
    exfalso. apply Hno, Exists_exists. exists x. split; [done|]. apply Forall_forall. intros y Hy HR.
    apply Hn, Exists_exists. eauto. }
  assert (forall k, exists l, length l = S k /\ walk l /\ Forall (fun x => x ∈ X) l) as Hlong.
  { induction k as [|k (l & Hl & Hw & Hf)].
    - destruct X as [|x X']; [done|]. exists [x]. split_and!; [done|constructor|].
      constructor; [by left|constructor].
    - destruct l as [|x l]; [done|]. inversion Hf as [|? ? Hx]; subst.
      destruct (Hpred x Hx) as (y & Hy & HR). exists (y :: x :: l). simpl in *.
      split_and!; [lia|by constructor|by constructor]. }
  destruct (Hlong (length X)) as (l & Hl & Hw & Hf). apply walk_nodup in Hw.
  assert (length l <= length X)%nat; [|lia].
  apply submseteq_length, NoDup_submseteq; [done|]. intros x Hx. by apply (proj1 (Forall_forall _ _) Hf).
Qed.
End Minimal.

#[local] Instance edge_rel_dec edges x y : Decision (edge_rel edges x y).
Proof.
  refine (cast_if (decide (Exists (fun e => from e = x /\ to e = y) edges)));
    rewrite Exists_exists in *; unfold edge_rel; setoid_rewrite <- list_elem_of_In; naive_solver.
Defined.

(** Progress of the task graph. In a well-formed graph, [ready] lists
    exactly the nodes marked ready and the pending nodes whose dependencies are
    all done or skipped; and while some node is pending or ready and none is
    running, blocked or failed, the list is not empty. *)
Theorem ready_nodes_progress nodes edges :
  graph_ok nodes edges ->
  (forall id, In id (ready_nodes nodes edges) <->
     exists n, In n nodes /\ node_id n = id /\
       (status n = "ready" \/
        status n = "pending" /\ forall e d, In e edges -> to e = id -> In d nodes -> node_id d = from e ->
          status d = "done" \/ status d = "skipped"))
  /\ ((exists n, In n nodes /\ (status n = "pending" \/ status n = "ready")) ->
      (forall n, In n nodes -> ~ In (status n) ["running"; "blocked"; "failed"]) ->
      ready_nodes nodes edges <> []).
Proof.
  intros [_ _ Hids Hst Hends Hac].
  assert (forall n, In n nodes -> is_ready (statuses nodes) edges n = true <->
     (status n = "ready" \/ status n = "pending" /\
        forall e d, In e edges -> to e = node_id n -> In d nodes -> node_id d = from e ->
          status d = "done" \/ status d = "skipped")) as Hspec.
  { intros n Hn. unfold is_ready. rewrite orb_true_iff, andb_true_iff, !String.eqb_eq, forallb_forall.
    unfold dependencies_of. setoid_rewrite in_map_iff. setoid_rewrite filter_In. setoid_rewrite String.eqb_eq.
    split; (intros [?|[Hp Hd]]; [by left|right; split; [done|]]).
    - intros e d He Hto Hdn Hid. specialize (Hd (from e) ltac:(eauto)). unfold satisfied in Hd.
      rewrite <- Hid, statuses_lookup in Hd by done. apply orb_true_iff in Hd.
      rewrite !String.eqb_eq in Hd. done.
    - intros x (e & <- & He & Hto). unfold satisfied.
      rewrite Forall_forall in Hends. destruct (Hends e) as [Hf _]; [by apply list_elem_of_In|].
      apply has_node_in, in_map_iff in Hf as (d & Hid & Hdn).
      rewrite <- Hid, statuses_lookup by done. apply orb_true_iff. rewrite !String.eqb_eq. eauto. }
  assert (forall n, In n nodes -> is_ready (statuses nodes) edges n = true ->
    In (node_id n) (ready_nodes nodes edges)) as Hin.
  { intros n Hn Hr. apply in_map, filter_In. done. }
  split.
  - intros id. unfold ready_nodes. rewrite in_map_iff. setoid_rewrite filter_In. split.
    + intros (n & <- & Hn & Hr). exists n. split; [done|]. split; [done|]. by apply Hspec.
    + intros (n & Hn & <- & Hr). exists n. split; [done|]. split; [done|]. by apply Hspec.
  - intros (n0 & Hn0 & Hs0) Hquiet.
    set (X := List.filter (fun n => String.eqb (status n) "pending" || String.eqb (status n) "ready") nodes).
    assert (forall n, n ∈ map node_id X <-> exists m, In m nodes /\ node_id m = n
              /\ (status m = "pending" \/ status m = "ready")) as HX.
    { intros n. rewrite list_elem_of_In, in_map_iff. unfold X. setoid_rewrite filter_In.
      setoid_rewrite orb_true_iff. setoid_rewrite String.eqb_eq. naive_solver. }
    destruct (minimal_in (edge_rel edges) Hac (map node_id X)) as (x & Hx & Hmin).
    { intros E. assert (node_id n0 ∈ map node_id X) as H by (apply HX; eauto). rewrite E in H.
      by apply not_elem_of_nil in H. }
    apply HX in Hx as (n & Hn & <- & Hsn). intros E.
    assert (In (node_id n) (ready_nodes nodes edges)) as Hbad; [|by rewrite E in Hbad].
    apply Hin; [done|]. apply Hspec; [done|]. destruct Hsn as [Hsn|Hsn]; [right|by left].
    split; [done|]. intros e d He Hto Hdn Hid.
    rewrite Forall_forall in Hst. specialize (Hst d). rewrite list_elem_of_In in Hst.
    specialize (Hst Hdn). apply existsb_eqb_in in Hst. specialize (Hquiet d Hdn).
    assert (~ (status d = "pending" \/ status d = "ready")) as Hnp.
    { intros Hp. apply (Hmin (node_id d)); [apply HX; eauto|]. exists e. split_and!; [done|by rewrite Hid|done]. }
    simpl in Hst, Hquiet. naive_solver.
Qed.

(** ** Witnesses, and two ways to leave the invariant *)

Module DagWitness.

#[local] Instance platform : Platform := toy_platform (fun _ => None) 0.
#[local] Instance clock : ClockClean := toy_clock_clean (fun _ => None) 0.

Definition blank : World := mkWorld ∅ [] 0 [].
Definition w0 : World := Eval vm_compute in (init ["wf"; "--title"; "demo"] blank).2.
Definition node_args (id owned deps : string) : list string :=
  ["wf"; id; "--agent"; "worker"; "--assignment-id"; "A1"; "--role"; "qa"; "--branch"; "main";
   "--owned"; owned; "--depends-on"; deps].
Definition w1 : World := Eval vm_compute in (add_node (node_args "a" "src" "") w0).2.
Definition dir : string := "/work/.multiagent/workflows/wf".
Definition node_a : Node :=
  mkNode "a" "worker" "A1" "qa" "main" "src" "pending" "" "" "2026-01-01T00:00:2Z".
Definition node_b : Node := mkNode "b" "worker" "A1" "qa" "main" "docs" "pending" "" "" "".

Lemma graph_a : graph_ok [node_a] [].
Proof.
  constructor; try (vm_compute; reflexivity); [apply NoDup_singleton|repeat constructor..|].
  apply has_cycle_false. vm_compute. reflexivity.
Qed.

Lemma stored_a : stored dir [node_a] [] w1.
Proof. split; [by eexists|]. split; [vm_compute; reflexivity|]. split; [vm_compute; reflexivity|apply graph_a]. Qed.

Lemma add_node_correct_witness :
  exists w', add_node (node_args "b" "docs" "a") w1 = (Ok tt, w')
    /\ stored dir ([node_a] ++ [stamp_node (rfc3339_secs (ticks w1)) node_b])
         ([] ++ new_edges (node_id node_b) (rfc3339_secs (ticks w1)) (split_dependencies "a")) w'.
Proof.
  pose proof (add_node_correct (node_args "b" "docs" "a") "wf" node_b "a" dir [node_a] [] w1) as H.
  cbv zeta in H.
  replace (negb _ && _) with true in H by (vm_compute; reflexivity).
  apply H; [vm_compute; reflexivity|reflexivity|exact stored_a|reflexivity|reflexivity].
Defined.

Lemma update_status_correct_witness :
  exists w' nodes1 n nodes2, update_status ["wf"; "a"; "done"] w1 = (Ok tt, w')
    /\ [node_a] = nodes1 ++ n :: nodes2 /\ node_id n = "a"
    /\ stored dir (nodes1 ++ set_status "done" n :: nodes2) [] w'.
Proof.
  pose proof (update_status_correct "wf" "a" "done" [] ∅ dir [node_a] [] w1) as H.
  replace (has_node _ _ && _) with true in H by (vm_compute; reflexivity).
  apply H; try reflexivity. exact stored_a.
Defined.

Lemma ready_nodes_progress_witness : ready_nodes [node_a] [] <> [].
Proof.
  apply (ready_nodes_progress [node_a] [] graph_a).
  - exists node_a. split; [by left|by left].
  - intros n [<-|[]]. vm_compute. naive_solver.
Defined.

Definition tab_args : list string := node_args "a" ("src" +:+ tabs +:+ "done") "".
Definition tab_node : Node := mkNode "a" "worker" "A1" "qa" "main" ("src" +:+ tabs +:+ "done") "pending" "" "" "".
Definition tab_w2 : World := Eval vm_compute in (add_node tab_args w0).2.
Definition tab_w3 : World := Eval vm_compute in (add_node (node_args "b" "docs" "a") tab_w2).2.

Definition graph_of (w : World) : list Node * list Edge :=
  match (read_graph "ready" ["wf"] w).1 with Ok g => g | Err _ => ([], []) end.

(** A tab in a field moves the columns. [add-node] accepts a tab in
    [--owned]; the row it writes is read back with the text after the tab as
    its status: a node that was added as pending counts as done, and its
    dependents are ready at once. *)
Theorem add_node_tab_injection :
  exists n w2 w3,
    add_node_args tab_args = Ok ("wf", n, "") /\ status n = "pending"
    /\ add_node tab_args w0 = (Ok tt, w2)
    /\ add_node (node_args "b" "docs" "a") w2 = (Ok tt, w3)
    /\ map status (graph_of w3).1 = ["done"; "pending"]
    /\ ready_nodes (graph_of w3).1 (graph_of w3).2 = ["b"].
Proof. exists tab_node, tab_w2, tab_w3. split_and!; vm_compute; reflexivity. Qed.

Definition torn_disk : World := mkWorld (files w1) [false; true] (ticks w1) [].
Definition torn_w2 : World := Eval vm_compute in (add_node (node_args "b" "docs" "a") torn_disk).2.

(** A torn addition. [add-node] replaces the node file before the edge
    file; when the second write fails the command reports the error, but the
    node is there without its dependencies and [ready] lists it while the node
    it was to wait for is pending. *)
Theorem add_node_torn :
  exists w2,
    add_node (node_args "b" "docs" "a") torn_disk =
      (Err ("publish state " +:+ path_join dir "edges.tsv" +:+ ": " +:+ os_error), w2)
    /\ map (fun n => (node_id n, status n)) (graph_of w2).1 = [("a", "pending"); ("b", "pending")]
    /\ (graph_of w2).2 = [] /\ ready_nodes (graph_of w2).1 (graph_of w2).2 = ["a"; "b"].
Proof. exists torn_w2. split_and!; vm_compute; reflexivity. Qed.
End DagWitness.
