(* ===== verification/Decision.v ===== *)
(** * Decision: [runtime/src/decision.rs]

    Decision records: alternatives and assumptions are collected while a
    decision is open, one alternative is committed, metrics are recorded, and
    the decision is reflected upon. *)

From S2P Require Import Prelude Text State Config Dag.

Definition USAGE : string := "Usage:
  multiagent decision init DECISION_ID --title TEXT [--owner NAME]
  multiagent decision add-alternative DECISION_ID --plan-id PLAN_ID --summary TEXT --proposed-by AGENT [--branch BRANCH] [--assignment-name NAME] [--expected-outcome TEXT] [--risk TEXT]
  multiagent decision add-assumption DECISION_ID --assumption-id ID --statement TEXT [--confidence VALUE] [--validation-method TEXT] [--expected-signal TEXT]
  multiagent decision commit DECISION_ID --selected-plan PLAN_ID --reason TEXT [--rollback-policy TEXT] [--reflection-due TEXT]
  multiagent decision record-metric DECISION_ID --name NAME [--expected VALUE] [--actual VALUE]
  multiagent decision reflect DECISION_ID --recommendation continue|adjust|rollback|pivot --reason TEXT [--follow-up-assignment NAME]
  multiagent decision show DECISION_ID
  multiagent decision list".
Definition ALTERNATIVES_HEADER : string :=
  join tabs ["plan_id"; "summary"; "proposed_by"; "branch"; "assignment_name"; "expected_outcome";
             "risk"; "added_at"].
Definition ASSUMPTIONS_HEADER : string :=
  join tabs ["assumption_id"; "statement"; "confidence"; "validation_method"; "expected_signal"; "added_at"].
Definition METRICS_HEADER : string := join tabs ["name"; "expected"; "actual"; "recorded_at"].

Section Decision.
Context `{Platform}.

(** ** The store *)

Definition decision_dir (id : string) : result string string :=
  let? dir := state_dir in Ok (path_join (path_join dir "decisions") id).

Definition log_decision_event (dir text : string) : IO unit :=
  let! now := timestamp in
  append_file (path_join dir "events.log") (now +:+ tabs +:+ text +:+ newline)
    (io_error "append decision event").

(** [id_and_options]: the loop over the arguments; help is printed. *)
Fixpoint options_loop (args allowed : list string) (options : gmap string string)
  : IO (gmap string string) :=
  match args with
  | [] => ret options
  | raw :: rest =>
      if String.eqb raw "-h" || String.eqb raw "--help" then
        let! _ := println USAGE in fail "help requested"
      else
        let! key := lift (ok_or (strip_prefix "--" raw) ("unknown option: " +:+ raw)) in
        let! _ := check (existsb (String.eqb key) allowed) ("unknown option: " +:+ raw) in
        match rest with
        | option_value :: rest' => options_loop rest' allowed (<[key := option_value]> options)
        | [] => fail (raw +:+ " requires a value")
        end
  end.

Definition id_and_options (command : string) (args allowed : list string)
  : IO (string * gmap string string) :=
  let! id := lift (ok_or (head args) (command +:+ " requires DECISION_ID")) in
  let! options := options_loop (tail args) allowed ∅ in
  ret (id, options).

Definition exists_decision (dir : string) : IO bool := is_file (path_join dir "decision.env").

Definition decision_status (dir id : string) : IO string :=
  let! env := read_env (path_join dir "decision.env") in
  lift (ok_or (env !! "status") ("decision status is missing: " +:+ id)).

Definition require_open (dir id action : string) : IO unit :=
  let! ok := exists_decision dir in
  let! _ := check ok ("decision does not exist: " +:+ id) in
  let! status := decision_status dir id in
  check (String.eqb status "open") ("cannot " +:+ action +:+ " to " +:+ status +:+ " decision: " +:+ id).

Definition require_status (dir id expected action : string) : IO unit :=
  let! ok := exists_decision dir in
  let! _ := check ok ("decision does not exist: " +:+ id) in
  let! status := decision_status dir id in
  check (String.eqb status expected)
    (action +:+ " " +:+ expected +:+ " decisions, got: " +:+ status).

(** ** Tables *)

Definition first_columns (text : string) : list string :=
  omap (fun line => head (split tab line)) (tail (lines text)).

Definition tsv_first_column_contains (path expected : string) : IO bool :=
  let! fs := get_files in
  match fs !! path with
  | Some text => ret (existsb (fun current => String.eqb current expected) (first_columns text))
  | None => fail (io_error "read decision table")
  end.

(** The table is opened without [create]: it must exist. *)
Definition append_tsv (path : string) (fields : list string) : IO unit :=
  let! ok := is_file path in
  let! _ := check ok (io_error "append decision table") in
  append_file path (join tabs fields +:+ newline) (io_error "append decision table").

Definition without_status (text : string) : list string :=
  List.filter (fun line => negb (starts_with "status=" line)) (lines text).

Definition rewrite_status (path : string) (appended : list string) : IO unit :=
  let! fs := get_files in
  match fs !! path with
  | Some text => atomic_write path (unlines (without_status text ++ appended))
  | None => fail (io_error "read decision metadata")
  end.

(** ** Commands *)

Definition init (args : list string) : IO unit :=
  let! io := id_and_options "init" args ["title"; "owner"] in
  let '(id, options) := io in
  let! _ := lift (validate_id "decision ID" id) in
  let! title := lift (required options "title" "init requires --title") in
  let owner := value options "owner" in
  let! _ := lift (reject_newline "--title" title) in
  let! _ := lift (reject_newline "--owner" owner) in
  let! dir := lift (decision_dir id) in
  let! exists_ := exists_decision dir in
  let! _ := check (negb exists_) ("decision already exists: " +:+ id) in
  let! now := timestamp in
  let! _ := atomic_write (path_join dir "decision.env")
    (unlines ["decision_id=" +:+ id; "title=" +:+ title; "owner=" +:+ owner; "status=open";
              "created_at=" +:+ now]) in
  let! _ := atomic_write (path_join dir "alternatives.tsv") (unlines [ALTERNATIVES_HEADER]) in
  let! _ := atomic_write (path_join dir "assumptions.tsv") (unlines [ASSUMPTIONS_HEADER]) in
  let! _ := atomic_write (path_join dir "metrics.tsv") (unlines [METRICS_HEADER]) in
  let! _ := log_decision_event dir ("decision_created" +:+ tabs +:+ "title=" +:+ title +:+ tabs
              +:+ "owner=" +:+ owner) in
  println ("decision created" +:+ tabs +:+ id +:+ tabs +:+ title).

Definition add_alternative (args : list string) : IO unit :=
  let! io := id_and_options "add-alternative" args
    ["plan-id"; "summary"; "proposed-by"; "branch"; "assignment-name"; "expected-outcome"; "risk"] in
  let '(id, options) := io in
  let! _ := lift (validate_id "decision ID" id) in
  let! plan := lift (required options "plan-id" "add-alternative requires --plan-id") in
  let! summary := lift (required options "summary" "add-alternative requires --summary") in
  let! proposed_by := lift (required options "proposed-by" "add-alternative requires --proposed-by") in
  let! _ := lift (validate_id "plan ID" plan) in
  let! _ := lift (reject_newlines
    [("--plan-id", plan); ("--summary", summary); ("--proposed-by", proposed_by);
     ("--branch", value options "branch"); ("--assignment-name", value options "assignment-name");
     ("--expected-outcome", value options "expected-outcome"); ("--risk", value options "risk")]) in
  let! dir := lift (decision_dir id) in
  let! _ := require_open dir id "add alternatives" in
  let path := path_join dir "alternatives.tsv" in
  let! known := tsv_first_column_contains path plan in
  let! _ := check (negb known) ("plan ID already exists: " +:+ plan) in
  let! now := timestamp in
  let! _ := append_tsv path
    [plan; summary; proposed_by; value options "branch"; value options "assignment-name";
     value options "expected-outcome"; value options "risk"; now] in
  let! _ := log_decision_event dir ("alternative_added" +:+ tabs +:+ "plan_id=" +:+ plan +:+ tabs
              +:+ "proposed_by=" +:+ proposed_by) in
  println ("alternative added" +:+ tabs +:+ id +:+ tabs +:+ plan +:+ tabs +:+ summary).

Definition add_assumption (args : list string) : IO unit :=
  let! io := id_and_options "add-assumption" args
    ["assumption-id"; "statement"; "confidence"; "validation-method"; "expected-signal"] in
  let '(id, options) := io in
  let! _ := lift (validate_id "decision ID" id) in
  let! assumption := lift (required options "assumption-id" "add-assumption requires --assumption-id") in
  let! statement := lift (required options "statement" "add-assumption requires --statement") in
  let! _ := lift (validate_id "assumption ID" assumption) in
  let! _ := lift (reject_newlines
    [("--assumption-id", assumption); ("--statement", statement);
     ("--confidence", value options "confidence");
     ("--validation-method", value options "validation-method");
     ("--expected-signal", value options "expected-signal")]) in
  let! dir := lift (decision_dir id) in
  let! _ := require_open dir id "add assumptions" in
  let path := path_join dir "assumptions.tsv" in
  let! known := tsv_first_column_contains path assumption in
  let! _ := check (negb known) ("assumption ID already exists: " +:+ assumption) in
  let! now := timestamp in
  let! _ := append_tsv path
    [assumption; statement; value options "confidence"; value options "validation-method";
     value options "expected-signal"; now] in
  let! _ := log_decision_event dir ("assumption_added" +:+ tabs +:+ "assumption_id=" +:+ assumption) in
  println ("assumption added" +:+ tabs +:+ id +:+ tabs +:+ assumption +:+ tabs +:+ statement).

Definition outcome_text (plan reason policy due now : string) : string :=
  unlines ["selected_plan=" +:+ plan; "reason=" +:+ reason; "rollback_policy=" +:+ policy;
           "reflection_due=" +:+ due; "committed_at=" +:+ now; "status=implementation"].

Definition commit (args : list string) : IO unit :=
  let! io := id_and_options "commit" args ["selected-plan"; "reason"; "rollback-policy"; "reflection-due"] in
  let '(id, options) := io in
  let! _ := lift (validate_id "decision ID" id) in
  let! plan := lift (required options "selected-plan" "commit requires --selected-plan") in
  let! reason := lift (required options "reason" "commit requires --reason") in
  let! _ := lift (validate_id "plan ID" plan) in
  let! _ := lift (reject_newlines
    [("--selected-plan", plan); ("--reason", reason);
     ("--rollback-policy", value options "rollback-policy");
     ("--reflection-due", value options "reflection-due")]) in
  let! dir := lift (decision_dir id) in
  let! _ := require_open dir id "commit" in
  let! known := tsv_first_column_contains (path_join dir "alternatives.tsv") plan in
  let! _ := check known ("selected plan does not exist: " +:+ plan) in
  let! stamp := timestamp in
  let! _ := rewrite_status (path_join dir "decision.env")
              ["status=committed"; "committed_at=" +:+ stamp] in
  let! now := timestamp in
  let! _ := atomic_write (path_join dir "outcome.env")
              (outcome_text plan reason (value options "rollback-policy")
                 (value options "reflection-due") now) in
  let! _ := log_decision_event dir ("decision_committed" +:+ tabs +:+ "selected_plan=" +:+ plan
              +:+ tabs +:+ "reason=" +:+ reason) in
  println ("decision committed" +:+ tabs +:+ id +:+ tabs +:+ plan +:+ tabs +:+ reason).

Definition record_metric (args : list string) : IO unit :=
  let! io := id_and_options "record-metric" args ["name"; "expected"; "actual"] in
  let '(id, options) := io in
  let! _ := lift (validate_id "decision ID" id) in
  let! name := lift (required options "name" "record-metric requires --name") in
  let expected := value options "expected" in
  let actual := value options "actual" in
  let! _ := lift (reject_newlines [("--name", name); ("--expected", expected); ("--actual", actual)]) in
  let! dir := lift (decision_dir id) in
  let! _ := require_status dir id "committed" "can only record metrics for" in
  let! now := timestamp in
  let! _ := append_tsv (path_join dir "metrics.tsv") [name; expected; actual; now] in
  let! _ := log_decision_event dir ("metric_recorded" +:+ tabs +:+ "name=" +:+ name +:+ tabs
              +:+ "expected=" +:+ expected +:+ tabs +:+ "actual=" +:+ actual) in
  println ("metric recorded" +:+ tabs +:+ id +:+ tabs +:+ name +:+ tabs +:+ "expected=" +:+ expected
           +:+ tabs +:+ "actual=" +:+ actual).

Definition reflect (args : list string) : IO unit :=
  let! io := id_and_options "reflect" args ["recommendation"; "reason"; "follow-up-assignment"] in
  let '(id, options) := io in
  let! _ := lift (validate_id "decision ID" id) in
  let! recommendation := lift (required options "recommendation" "reflect requires --recommendation") in
  let! reason := lift (required options "reason" "reflect requires --reason") in
  let! _ := check (existsb (String.eqb recommendation) ["continue"; "adjust"; "rollback"; "pivot"])
              ("invalid recommendation: " +:+ recommendation
               +:+ " (expected continue|adjust|rollback|pivot)") in
  let follow_up := value options "follow-up-assignment" in
  let! _ := lift (reject_newlines
    [("--recommendation", recommendation); ("--reason", reason); ("--follow-up-assignment", follow_up)]) in
  let! dir := lift (decision_dir id) in
  let! _ := require_status dir id "committed" "can only reflect on" in
  let! now := timestamp in
  let! _ := rewrite_status (path_join dir "decision.env")
              ["status=reflected"; "reflected_at=" +:+ now] in
  let outcome_path := path_join dir "outcome.env" in
  let! ok := is_file outcome_path in
  let! _ := check ok ("no outcome record found: " +:+ id) in
  let! outcome := read_to_string outcome_path in
  let! now := timestamp in
  let! _ := atomic_write outcome_path (outcome +:+ unlines
    ["recommendation=" +:+ recommendation; "reflection_reason=" +:+ reason;
     "follow_up_assignment=" +:+ follow_up; "reflected_at=" +:+ now; "status=reflected"]) in
  let! _ := log_decision_event dir ("decision_reflected" +:+ tabs +:+ "recommendation="
              +:+ recommendation +:+ tabs +:+ "reason=" +:+ reason +:+ tabs +:+ "follow_up=" +:+ follow_up) in
  println ("decision reflected" +:+ tabs +:+ id +:+ tabs +:+ recommendation +:+ tabs +:+ reason).

(** The commands that change a decision. *)
Inductive Command := Init | AddAlternative | AddAssumption | Commit | RecordMetric | Reflect.

Definition run_decision (c : Command) (args : list string) : IO unit :=
  match c with
  | Init => init args
  | AddAlternative => add_alternative args
  | AddAssumption => add_assumption args
  | Commit => commit args
  | RecordMetric => record_metric args
  | Reflect => reflect args
  end.

End Decision.
