(* ===== verification/DecisionProps.v ===== *)
(** * DecisionProps: the life cycle of a decision *)

From S2P Require Import Prelude Text State Config Dag DagProps Decision Instances.

(** ** Lines of rewritten files *)

Lemma parse_env_app ls r :
  Forall (fun l => has_char nl l = false) ls ->
  parse_env (unlines ls +:+ r) =
  foldl (fun m kv => <[kv.1 := kv.2]> m) (foldl (fun m kv => <[kv.1 := kv.2]> m) ∅
    (omap (split_once "=") (map strip_cr ls))) (omap (split_once "=") (lines r)).
Proof.
  intros Hls. unfold parse_env. rewrite lines_unlines_weak by done.
  by rewrite omap_app, foldl_app.
Qed.

(** The last lines of a rewritten file decide the bindings they hold. *)
Lemma parse_env_tail ls kvs k v :
  Forall (fun l => has_char nl l = false) ls -> forallb env_clean kvs = true ->
  NoDup kvs.*1 -> (k, v) ∈ kvs ->
  parse_env (unlines (ls ++ map env_line kvs)) !! k = Some v.
Proof.
  intros Hls Hc Hnd Hin. rewrite unlines_app, parse_env_app by done.
  fold (print_env kvs). generalize (foldl (fun m kv => <[kv.1 := kv.2]> m) (∅ : gmap string string)
    (omap (split_once "=") (map strip_cr ls))). intros m.
  unfold print_env. rewrite lines_unlines.
  2:{ apply forallb_forall. intros x (kv & <- & Hkv)%in_map_iff. apply env_line_clean.
      rewrite forallb_forall in Hc. by apply Hc. }
  assert (omap (split_once "=") (map env_line kvs) = kvs) as ->.
  { clear -Hc. induction kvs as [|[k v] kvs IH]; [done|]. cbn [forallb] in Hc. bool_hyps.
    cbn [map omap list_omap]. unfold env_clean in H. simpl in H. bool_hyps. unfold env_line at 1. simpl.
    rewrite split_once_app by done. f_equal. by apply IH. }
  clear -Hnd Hin. revert m. induction kvs as [|[k' v'] kvs IH]; intros m; [by apply not_elem_of_nil in Hin|].
  simpl in *. apply NoDup_cons in Hnd as [Hk Hnd]. apply elem_of_cons in Hin as [[= <- <-]|Hin].
  - rewrite foldl_insert_lookup_notin by done. apply lookup_insert_eq.
  - by apply IH.
Qed.

(** ** The status of a decision *)

Section Status.
Context `{HP : Platform}.

Definition decision_file (id : string) : option string :=
  match decision_dir id with Ok dir => Some (path_join dir "decision.env") | Err _ => None end.

(** The status the program reads: none before [init]. *)
Definition status_in (fs : gmap string string) (id : string) : option string :=
  p ← decision_file id; text ← fs !! p; parse_env text !! "status".

Inductive advances : option string -> option string -> Prop :=
| adv_init : advances None (Some "open")
| adv_commit : advances (Some "open") (Some "committed")
| adv_reflect : advances (Some "committed") (Some "reflected").

Definition valid_id (id : string) : bool := negb (is_empty id) && all_chars id_char id.

(** Files of different decisions are different. *)
Lemma decision_paths_distinct id id' dir dir' f f' :
  valid_id id = true -> valid_id id' = true ->
  decision_dir id = Ok dir -> decision_dir id' = Ok dir' -> path_join dir f = path_join dir' f' ->
  id = id' /\ f = f'.
Proof.
  unfold decision_dir, valid_id. intros Hv Hv' Hd Hd' E. inv_ok. bool_hyps.
  match goal with H1 : state_dir = Ok ?a, H2 : state_dir = Ok ?b |- _ =>
    rewrite H1 in H2; injection H2 as <- end.
  unfold path_join in E. rewrite !str_app_assoc in E.
  apply str_app_inj_l in E. simpl in E. injection E as E.
  assert (forall s, all_chars id_char s = true -> has_char "/" s = false) as Hslash.
  { intros s. by apply all_chars_no_char. }
  apply (f_equal (split_once "/")) in E. rewrite !split_once_app in E by auto. by injection E.
Qed.

(** [same_status m]: whatever happens, no decision changes its status. *)
Definition same_status {A} (m : IO A) : Prop :=
  forall w r w', m w = (r, w') -> forall id, valid_id id = true -> status_in (files w') id = status_in (files w) id.

Lemma same_keeps {A} (m : IO A) : keeps_files m -> same_status m.
Proof. intros Hm w r w' Hw id _. by destruct (Hm _ _ _ Hw) as [-> _]. Qed.

Lemma same_bind {A B} (m : IO A) (k : A -> IO B) :
  same_status m -> (forall a, same_status (k a)) -> same_status (bind m k).
Proof.
  intros Hm Hk w r w'. unfold bind. destruct (m w) as [[a|e] w1] eqn:E.
  - intros Hr id Hv. rewrite (Hk _ _ _ _ Hr) by done. by eapply Hm.
  - intros [= <- <-] id Hv. by eapply Hm.
Qed.

Lemma same_put_file id dir f t e :
  valid_id id = true -> decision_dir id = Ok dir -> f <> "decision.env" ->
  same_status (put_file (path_join dir f) t e).
Proof.
  intros Hv Hd Hf w r w' Hw id' Hv'. unfold put_file in Hw.
  assert (status_in (<[path_join dir f := t]> (files w)) id' = status_in (files w) id') as Hs.
  { unfold status_in, decision_file. destruct (decision_dir id') as [dir'|] eqn:Hd'; simpl; [|done].
    rewrite lookup_insert_ne; [done|]. intros E.
    by destruct (decision_paths_distinct id id' dir dir' f "decision.env" Hv Hv' Hd Hd' E). }
  destruct (faults w) as [|[] ?]; injection Hw as _ <-; done.
Qed.

Lemma same_append_file id dir f t e :
  valid_id id = true -> decision_dir id = Ok dir -> f <> "decision.env" ->
  same_status (append_file (path_join dir f) t e).
Proof. intros Hv Hd Hf w r w' Hw. by eapply (same_put_file id dir f). Qed.


Lemma keeps_options_loop n args allowed options :
  (length args <= n)%nat -> keeps_files (options_loop args allowed options).
Proof.
  revert args options. induction n as [|n IH]; intros [|raw rest] options Hn; simpl in *;
    [apply keeps_ret|lia|apply keeps_ret|].
  case_match; [keeps|]. apply keeps_bind; [auto with keeps|]. intros key.
  apply keeps_bind; [auto with keeps|]. intros _.
  destruct rest as [|v rest]; [auto with keeps|]. apply IH. simpl in *. lia.
Qed.

Lemma keeps_id_and_options c args allowed : keeps_files (id_and_options c args allowed).
Proof.
  unfold id_and_options. apply keeps_bind; [auto with keeps|]. intros id.
  apply keeps_bind; [by eapply keeps_options_loop|]. intros ?. apply keeps_ret.
Qed.

Lemma keeps_require_open dir id action : keeps_files (require_open dir id action).
Proof. unfold require_open, exists_decision, decision_status. keeps. Qed.
Lemma keeps_require_status dir id e action : keeps_files (require_status dir id e action).
Proof. unfold require_status, exists_decision, decision_status. keeps. Qed.
Lemma keeps_first_column p x : keeps_files (tsv_first_column_contains p x).
Proof. unfold tsv_first_column_contains. keeps. Qed.

#[local] Hint Resolve keeps_id_and_options keeps_require_open keeps_require_status keeps_first_column : keeps.

Lemma same_bind_keeps {A B} (m : IO A) (k : A -> IO B) :
  keeps_files m -> (forall a, same_status (k a)) -> same_status (bind m k).
Proof. intros Hm. apply same_bind. by apply same_keeps. Qed.

(** A pure step leaves its equation. *)
Lemma same_bind_lift {A B} (r : result string A) (k : A -> IO B) :
  (forall a, r = Ok a -> same_status (k a)) -> same_status (bind (lift r) k).
Proof.
  intros Hk w r' w'. unfold bind, lift. destruct r as [a|e]; [by apply Hk|]. by intros [= <- <-].
Qed.

Lemma same_log_event id dir text :
  valid_id id = true -> decision_dir id = Ok dir -> same_status (log_decision_event dir text).
Proof.
  intros Hv Hd. apply same_bind_keeps; [auto with keeps|]. intros now. by eapply same_append_file.
Qed.

Lemma same_append_tsv id dir f fields :
  valid_id id = true -> decision_dir id = Ok dir -> f <> "decision.env" ->
  same_status (append_tsv (path_join dir f) fields).
Proof.
  intros Hv Hd Hf. do 2 (apply same_bind_keeps; [auto with keeps|]; intros ?). by eapply same_append_file.
Qed.

Lemma same_atomic_write id dir f t :
  valid_id id = true -> decision_dir id = Ok dir -> f <> "decision.env" ->
  same_status (atomic_write (path_join dir f) t).
Proof. apply same_put_file. Qed.

Lemma validate_id_valid label id u : validate_id label id = Ok u -> valid_id id = true.
Proof. unfold validate_id. destruct u. by intros ?%guard_ok. Qed.

(** The life cycle of the decision [id0] at the moment of a command that moves
    it from [a] to [b]. *)
Definition moves (a b : option string) (id0 : string) (P : gmap string string -> Prop) {A} (m : IO A) : Prop :=
  forall w r w', P (files w) -> m w = (r, w') -> forall id, valid_id id = true ->
    status_in (files w') id = status_in (files w) id
    \/ (id = id0 /\ status_in (files w) id = a /\ status_in (files w') id = b).

Lemma moves_same a b id0 P {A} (m : IO A) : same_status m -> moves a b id0 P m.
Proof. intros Hm w r w' _ Hw id Hv. left. by eapply Hm. Qed.

Lemma moves_bind_keeps a b id0 {A B} (P : gmap string string -> Prop)
    (Q : A -> gmap string string -> Prop) (m : IO A) (k : A -> IO B) :
  keeps_files m ->
  (forall w x w1, P (files w) -> m w = (Ok x, w1) -> Q x (files w1)) ->
  (forall x, moves a b id0 (Q x) (k x)) -> moves a b id0 P (bind m k).
Proof.
  intros Hm HQ Hk w r w' Hpre. unfold bind. destruct (m w) as [[x|e] w1] eqn:E.
  - intros Hw id Hv. destruct (Hm _ _ _ E) as [Hfs _]. rewrite <- Hfs. eapply Hk; eauto.
  - intros [= <- <-] id Hv. left. by destruct (Hm _ _ _ E) as [-> _].
Qed.

Lemma moves_bind_weak a b id0 P {A B} (m : IO A) (k : A -> IO B) :
  keeps_files m -> (forall x, moves a b id0 P (k x)) -> moves a b id0 P (bind m k).
Proof.
  intros Hm Hk. apply (moves_bind_keeps _ _ _ P (fun _ => P)); [done| |done].
  intros w x w1 Hpre Hw. by destruct (Hm _ _ _ Hw) as [-> _].
Qed.

Lemma moves_bind_write a b id0 P {A B} (m : IO A) (k : A -> IO B) :
  (forall w r w', P (files w) -> m w = (r, w') ->
     files w' = files w \/ forall id, valid_id id = true ->
       (id = id0 /\ status_in (files w) id = a /\ status_in (files w') id = b)
       \/ status_in (files w') id = status_in (files w) id) ->
  (forall x, same_status (k x)) -> moves a b id0 P (bind m k).
Proof.
  intros Hm Hk w r w' Hpre. unfold bind. destruct (m w) as [[x|e] w1] eqn:E.
  - intros Hw id Hv. rewrite (Hk _ _ _ _ Hw) by done.
    destruct (Hm _ _ _ Hpre E) as [->|H]; [by left|]. destruct (H id Hv); auto.
  - intros [= <- <-] id Hv. destruct (Hm _ _ _ Hpre E) as [->|H]; [by left|]. destruct (H id Hv); auto.
Qed.

(** The write of a new status to the file of the decision. *)
Lemma put_status a b id dir text e w r w' :
  valid_id id = true -> decision_dir id = Ok dir -> status_in (files w) id = a ->
  parse_env text !! "status" = b ->
  put_file (path_join dir "decision.env") text e w = (r, w') ->
  files w' = files w \/ forall id', valid_id id' = true ->
       (id' = id /\ status_in (files w) id' = a /\ status_in (files w') id' = b)
       \/ status_in (files w') id' = status_in (files w) id'.
Proof.
  intros Hv Hd Ha Hb. unfold put_file.
  assert (forall id', valid_id id' = true ->
       (id' = id /\ status_in (files w) id' = a
          /\ status_in (<[path_join dir "decision.env" := text]> (files w)) id' = b)
       \/ status_in (<[path_join dir "decision.env" := text]> (files w)) id' = status_in (files w) id') as Hall.
  { intros id' Hv'. destruct (decide (id' = id)) as [->|Hne].
    - left. split; [done|]. split; [done|]. unfold status_in, decision_file. rewrite Hd. simpl.
      rewrite lookup_insert_eq. done.
    - right. unfold status_in, decision_file. destruct (decision_dir id') as [dir'|] eqn:Hd'; simpl; [|done].
      rewrite lookup_insert_ne; [done|]. intros E.
      by destruct (decision_paths_distinct id id' dir dir' _ _ Hv Hv' Hd Hd' E). }
  destruct (faults w) as [|[] ?]; intros [= <- <-]; simpl; auto.
Qed.

Lemma without_status_no_nl text : Forall (fun l => has_char nl l = false) (without_status text).
Proof.
  apply Forall_forall. intros l Hl%list_elem_of_In. apply filter_In in Hl as [Hl _].
  pose proof (lines_no_nl text) as Hn. rewrite Forall_forall in Hn. by apply Hn, list_elem_of_In.
Qed.

Lemma rewrite_status_moves b stamp_key stamp id dir w r w' a :
  valid_id id = true -> decision_dir id = Ok dir -> status_in (files w) id = a ->
  env_clean (stamp_key, stamp) = true -> stamp_key <> "status" -> clean b = true ->
  rewrite_status (path_join dir "decision.env") ["status=" +:+ b; stamp_key +:+ "=" +:+ stamp] w = (r, w') ->
  files w' = files w \/ forall id', valid_id id' = true ->
       (id' = id /\ status_in (files w) id' = a /\ status_in (files w') id' = Some b)
       \/ status_in (files w') id' = status_in (files w) id'.
Proof.
  intros Hv Hd Ha Hc Hne Hb. unfold rewrite_status, bind, get_files.
  destruct (files w !! _) as [text|]; [|intros [= <- <-]; by left].
  intros Hw. eapply put_status; [done|done|done| |exact Hw].
  apply (parse_env_tail (without_status text) [("status", b); (stamp_key, stamp)]).
  - apply without_status_no_nl.
  - simpl. unfold env_clean in *. simpl in *. rewrite Hc, Hb. done.
  - csimpl. apply NoDup_cons. split; [|apply NoDup_singleton]. by intros ?%list_elem_of_singleton.
  - apply elem_of_cons. by left.
Qed.

(** The keys of a literal list of bindings are distinct. *)
Ltac literal_keys := apply (proj1 (bool_decide_eq_true _)); vm_compute; reflexivity.

Ltac same_io :=
  repeat match goal with
  | |- same_status (bind (lift _) _) => apply same_bind_lift; intros ? ?
  | |- same_status (bind _ _) => apply same_bind_keeps; [solve [keeps]|intros ?]
  | |- same_status (bind _ _) => apply same_bind; [|intros ?]
  | |- same_status (let '_ := ?x in _) => destruct x
  | |- same_status (log_decision_event _ _) =>
      eapply same_log_event; cycle 1; [eassumption|first [eassumption|by eapply validate_id_valid]]
  | |- same_status (append_tsv _ _) => eapply same_append_tsv; cycle 1; [eassumption|done|first [eassumption|by eapply validate_id_valid]]
  | |- same_status (atomic_write _ _) =>
      eapply same_atomic_write; cycle 1; [eassumption|done|first [eassumption|by eapply validate_id_valid]]
  | |- same_status _ => apply same_keeps; solve [keeps]
  end.

Lemma same_add_alternative args : same_status (add_alternative args).
Proof. unfold add_alternative. same_io. Qed.
Lemma same_add_assumption args : same_status (add_assumption args).
Proof. unfold add_assumption. same_io. Qed.
Lemma same_record_metric args : same_status (record_metric args).
Proof. unfold record_metric. same_io. Qed.

Lemma moves_bind_lift a b id0 P {A B} (r : result string A) (k : A -> IO B) :
  (forall x, r = Ok x -> moves a b id0 P (k x)) -> moves a b id0 P (bind (lift r) k).
Proof.
  intros Hk w r' w' HP'. unfold bind, lift. destruct r as [x|e]; [by apply Hk|].
  intros [= <- <-] id Hv. by left.
Qed.

(** [some_move a b m]: [m] moves at most one decision, from [a] to [b]. *)
Definition some_move (a b : option string) {A} (m : IO A) : Prop :=
  forall w r w', m w = (r, w') -> forall id, valid_id id = true ->
    status_in (files w') id = status_in (files w) id
    \/ (status_in (files w) id = a /\ status_in (files w') id = b).

Lemma some_move_bind_keeps a b {A B} (m : IO A) (k : A -> IO B) :
  keeps_files m -> (forall x, some_move a b (k x)) -> some_move a b (bind m k).
Proof.
  intros Hm Hk w r w'. unfold bind. destruct (m w) as [[x|e] w1] eqn:E; destruct (Hm _ _ _ E) as [Hfs _].
  - intros Hw. rewrite <- Hfs. by eapply Hk.
  - intros [= <- <-] id Hv. left. by rewrite Hfs.
Qed.
Lemma some_move_bind_lift a b {A B} (r : result string A) (k : A -> IO B) :
  (forall x, r = Ok x -> some_move a b (k x)) -> some_move a b (bind (lift r) k).
Proof.
  intros Hk w r' w'. unfold bind, lift. destruct r as [x|e]; [by apply Hk|].
  intros [= <- <-] id Hv. by left.
Qed.
Lemma some_move_moves a b id0 {A} (m : IO A) : moves a b id0 (fun _ => True) m -> some_move a b m.
Proof. intros Hm w r w' Hw id Hv. destruct (Hm w r w' I Hw id Hv) as [?|(_ & ? & ?)]; auto. Qed.

Lemma decision_status_in dir id w st w1 :
  decision_dir id = Ok dir -> decision_status dir id w = (Ok st, w1) ->
  status_in (files w) id = Some st /\ w1 = w.
Proof.
  intros Hd Hs. unfold decision_status, read_env in Hs. inv_io.
  destruct (files w !! path_join dir "decision.env") eqn:E; inv_io.
  unfold status_in, decision_file. rewrite Hd. simpl. rewrite E. simpl. inv_ok. done.
Qed.

Lemma require_open_in dir id action w u w1 :
  decision_dir id = Ok dir -> require_open dir id action w = (Ok u, w1) ->
  status_in (files w1) id = Some "open".
Proof.
  intros Hd Hs. unfold require_open, exists_decision, is_file in Hs. inv_io.
  match goal with H : decision_status _ _ _ = _ |- _ => apply (decision_status_in _ _ _ _ _ Hd) in H as [Hst ->] end.
  bool_hyps. by subst.
Qed.
Lemma require_status_in dir id e action w u w1 :
  decision_dir id = Ok dir -> require_status dir id e action w = (Ok u, w1) ->
  status_in (files w1) id = Some e.
Proof.
  intros Hd Hs. unfold require_status, exists_decision, is_file in Hs. inv_io.
  match goal with H : decision_status _ _ _ = _ |- _ => apply (decision_status_in _ _ _ _ _ Hd) in H as [Hst ->] end.
  bool_hyps. by subst.
Qed.

Context `{HCC : !ClockClean}.

Lemma timestamp_clean w now w1 : timestamp w = (Ok now, w1) -> clean_field now = true.
Proof. intros [= <- <-]. apply rfc3339_clean. Qed.

Lemma reject_newline_clean label x u : reject_newline label x = Ok u -> clean x = true.
Proof. unfold reject_newline. destruct u. apply guard_ok. Qed.

Lemma id_clean id : valid_id id = true -> clean id = true.
Proof.
  unfold valid_id, clean. intros H. bool_hyps. by rewrite !(all_chars_no_char id_char) by done.
Qed.

Lemma some_move_init args : some_move None (Some "open") (init args).
Proof.
  unfold init. apply some_move_bind_keeps; [solve [keeps]|]. intros [id options].
  apply some_move_bind_lift. intros _ Hid%validate_id_valid.
  apply some_move_bind_lift. intros title _.
  apply some_move_bind_lift. intros _ Ht%reject_newline_clean.
  apply some_move_bind_lift. intros _ Ho%reject_newline_clean.
  apply some_move_bind_lift. intros dir Hdir. apply (some_move_moves _ _ id).
  apply (moves_bind_keeps _ _ _ _ (fun x fs => x = bool_decide (is_Some (fs !! path_join dir "decision.env"))));
    [unfold exists_decision; solve [keeps]| |].
  { intros w x w1 _ Hx. unfold exists_decision, is_file in Hx. by inv_io. }
  intros ex. apply (moves_bind_keeps _ _ _ _ (fun _ fs => status_in fs id = None)); [solve [keeps]| |].
  { intros w x w1 -> Hx. inv_io. bool_hyps. rewrite <- eq_None_not_Some in Hx.
    unfold status_in, decision_file. rewrite Hdir. simpl. by rewrite Hx. }
  intros _. apply (moves_bind_keeps _ _ _ _ (fun now fs => status_in fs id = None /\ clean now = true));
    [solve [keeps]| |].
  { intros w now w1 Hs Hn. pose proof Hn as ?%timestamp_clean. injection Hn as _ <-. split; [done|].
    by apply clean_field_clean. }
  intros now. apply moves_bind_write; [|intros _; same_io].
  intros w r w' [Hs Hn] Hw. eapply put_status; [done|done|done| |exact Hw].
  apply (parse_env_print_lookup [("decision_id", id); ("title", title); ("owner", value options "owner");
    ("status", "open"); ("created_at", now)]).
  - simpl. unfold env_clean. simpl. by rewrite (id_clean id), Ht, Ho, Hn.
  - literal_keys.
  - repeat first [by left|right].
Qed.

(** The shared end of [commit] and [reflect]: the status is rewritten. *)
Lemma moves_rewrite a b key id dir now (k : unit -> IO unit) :
  valid_id id = true -> decision_dir id = Ok dir -> clean now = true -> clean b = true ->
  env_clean (key, "") = true -> key <> "status" -> (forall x, same_status (k x)) ->
  moves a (Some b) id (fun fs => status_in fs id = a)
    (bind (rewrite_status (path_join dir "decision.env") ["status=" +:+ b; key +:+ "=" +:+ now]) k).
Proof.
  intros Hid Hdir Hn Hb Hk Hne Hs. apply moves_bind_write; [|done].
  assert (env_clean (key, now) = true) as Hkey.
  { unfold env_clean in *. cbn [fst snd] in *. rewrite Hn. by change (clean "") with true in Hk. }
  intros w r w' Ha Hw. by eapply (rewrite_status_moves b key now id dir w r w' a).
Qed.

Lemma moves_timestamp a b id P (k : string -> IO unit) :
  (forall now, clean now = true -> moves a b id P (k now)) -> moves a b id P (bind timestamp k).
Proof.
  intros Hk. apply (moves_bind_keeps _ _ _ P (fun now fs => P fs /\ clean now = true)); [solve [keeps]| |].
  - intros w now w1 Hpre Hn. pose proof Hn as ?%timestamp_clean. injection Hn as _ <-. split; [done|].
    by apply clean_field_clean.
  - intros now w r w' [Hpre Hc]. by apply Hk.
Qed.

Lemma some_move_commit args : some_move (Some "open") (Some "committed") (commit args).
Proof.
  unfold commit. apply some_move_bind_keeps; [solve [keeps]|]. intros [id options].
  apply some_move_bind_lift. intros _ Hid%validate_id_valid.
  do 4 (apply some_move_bind_lift; intros ? ?).
  apply some_move_bind_lift. intros dir Hdir. apply (some_move_moves _ _ id).
  apply (moves_bind_keeps _ _ _ _ (fun _ fs => status_in fs id = Some "open")); [solve [keeps]| |].
  { intros ? ? ? _ Hx. by eapply require_open_in. }
  intros _. do 2 (apply moves_bind_weak; [solve [keeps]|]; intros ?). apply moves_timestamp. intros now Hnow.
  apply (moves_rewrite (Some "open") "committed" "committed_at"); try done. intros _. same_io.
Qed.

Lemma some_move_reflect args : some_move (Some "committed") (Some "reflected") (reflect args).
Proof.
  unfold reflect. apply some_move_bind_keeps; [solve [keeps]|]. intros [id options].
  apply some_move_bind_lift. intros _ Hid%validate_id_valid.
  do 2 (apply some_move_bind_lift; intros ? ?). apply some_move_bind_keeps; [solve [keeps]|]. intros _.
  apply some_move_bind_lift. intros _ _.
  apply some_move_bind_lift. intros dir Hdir. apply (some_move_moves _ _ id).
  apply (moves_bind_keeps _ _ _ _ (fun _ fs => status_in fs id = Some "committed")); [solve [keeps]| |].
  { intros ? ? ? _ Hx. by eapply require_status_in. }
  intros _. apply moves_timestamp. intros now Hnow.
  apply (moves_rewrite (Some "committed") "reflected" "reflected_at"); try done. intros _. same_io.
Qed.


Lemma first_column_in path x w b w1 :
  tsv_first_column_contains path x w = (Ok b, w1) ->
  w1 = w /\ exists text, files w !! path = Some text /\ (b = true <-> In x (first_columns text)).
Proof.
  unfold tsv_first_column_contains. intros H. inv_io.
  destruct (files w !! path) as [text|] eqn:E; [|discriminate H]. unfold ret in H. injection H as <- <-.
  split; [done|]. exists text. split; [done|]. rewrite existsb_exists. setoid_rewrite String.eqb_eq. naive_solver.
Qed.

Lemma required_value options key m v : required options key m = Ok v -> value options key = v.
Proof. unfold required. intros H. by inv_ok. Qed.

Lemma reject_newlines_clean l u : reject_newlines l = Ok u -> Forall (fun lv => clean lv.2 = true) l.
Proof.
  induction l as [|[label x] l IH]; simpl; [constructor|]. intros H. inv_ok. constructor; [|auto].
  by apply reject_newline_clean in Hok.
Qed.

Lemma rewrite_status_ok path appended w u w1 :
  rewrite_status path appended w = (Ok u, w1) ->
  exists text, files w !! path = Some text
    /\ files w1 = <[path := unlines (without_status text ++ appended)]> (files w).
Proof.
  unfold rewrite_status. intros H. inv_io. destruct (files w !! path) as [text|] eqn:E; [|discriminate H].
  exists text. split; [done|]. destruct u. by apply put_file_ok in H as [-> _].
Qed.

Lemma log_decision_event_ok dir text w u w1 :
  log_decision_event dir text w = (Ok u, w1) ->
  forall f, f <> "events.log" -> files w1 !! path_join dir f = files w !! path_join dir f.
Proof.
  unfold log_decision_event. intros H f Hf. inv_io.
  match goal with H : timestamp _ = _ |- _ => injection H as <- <- end. destruct u.
  apply put_file_ok in H as [-> _]. rewrite lookup_insert_ne; [done|]. by intros ?%path_join_inj.
Qed.

Lemma outcome_lookup plan reason policy due now k v :
  clean plan = true -> clean reason = true -> clean policy = true -> clean due = true -> clean now = true ->
  (k, v) ∈ [("selected_plan", plan); ("reason", reason); ("rollback_policy", policy);
            ("reflection_due", due); ("committed_at", now); ("status", "implementation")] ->
  parse_env (outcome_text plan reason policy due now) !! k = Some v.
Proof.
  intros H1 H2 H3 H4 H5 Hin.
  apply (parse_env_print_lookup [("selected_plan", plan); ("reason", reason); ("rollback_policy", policy);
            ("reflection_due", due); ("committed_at", now); ("status", "implementation")]); [|literal_keys|done].
  cbn [forallb]. unfold env_clean. cbn [fst snd]. by rewrite H1, H2, H3, H4, H5.
Qed.

(** A commitment is recorded. A successful [commit] was made on an open
    decision for a plan that its table of alternatives lists; afterwards the
    decision is committed and its outcome file reads back as this plan, this
    reason, the given rollback policy and reflection date, in implementation. *)
Theorem commit_recorded args w w' :
  commit args w = (Ok tt, w') ->
  exists id dir options text outcome,
    decision_dir id = Ok dir /\ status_in (files w) id = Some "open"
    /\ status_in (files w') id = Some "committed"
    /\ files w !! path_join dir "alternatives.tsv" = Some text
    /\ In (value options "selected-plan") (first_columns text)
    /\ files w' !! path_join dir "outcome.env" = Some outcome
    /\ parse_env outcome !! "selected_plan" = Some (value options "selected-plan")
    /\ parse_env outcome !! "reason" = Some (value options "reason")
    /\ parse_env outcome !! "rollback_policy" = Some (value options "rollback-policy")
    /\ parse_env outcome !! "reflection_due" = Some (value options "reflection-due")
    /\ parse_env outcome !! "status" = Some "implementation".
Proof.
  unfold commit. intros H. apply bind_ok in H as ([id options] & w0 & Hio & H).
  apply keeps_id_and_options in Hio as [Hfs _]. inv_io.
  repeat match goal with H : validate_id "decision ID" _ = Ok _ |- _ => apply validate_id_valid in H as Hid; clear H
    | H : required _ _ _ = Ok _ |- _ => apply required_value in H as <-
    | H : reject_newlines _ = Ok _ |- _ => apply reject_newlines_clean in H as Hcl; clear H end.
  match goal with H : decision_dir id = Ok ?d |- _ => rename H into Hdir; rename d into dir end.
  match goal with H : require_open _ _ _ _ = _ |- _ => pose proof H as Hopen; apply keeps_require_open in H as [Hf1 _] end.
  apply (require_open_in _ _ _ _ _ _ Hdir) in Hopen.
  match goal with H : tsv_first_column_contains _ _ _ = _ |- _ => apply first_column_in in H as (-> & text & Htext & Hin) end.
  repeat match goal with H : timestamp _ = _ |- _ => pose proof (timestamp_clean _ _ _ H); injection H as <- <- end.
  match goal with H : rewrite_status _ _ _ = _ |- _ => apply rewrite_status_ok in H as (env & Henv & Hfs2) end.
  match goal with H : atomic_write _ _ _ = (Ok ?u, _) |- _ => destruct u; apply put_file_ok in H as [Hfs3 _] end.
  match goal with H : log_decision_event _ _ _ = _ |- _ => pose proof (log_decision_event_ok _ _ _ _ _ H) as Hlog end.
  repeat match goal with H : Forall _ (_ :: _) |- _ => apply Forall_cons in H as [? ?] end. cbn [snd] in *.
  repeat match goal with H : clean_field _ = true |- _ => apply clean_field_clean in H end. cbn [files] in *.
  rewrite Hf1, Hfs in *.
  eexists id, dir, options, text, _.
  split; [done|]. split; [done|]. split.
  { unfold status_in, decision_file. rewrite Hdir. simpl. rewrite Hlog by done. rewrite Hfs3.
    rewrite lookup_insert_ne by (intros ?%path_join_inj; discriminate). rewrite Hfs2, lookup_insert_eq. simpl.
    eapply (parse_env_tail (without_status env) [("status", "committed"); ("committed_at", _)]);
      [apply without_status_no_nl| |literal_keys|by left].
    cbn [forallb]. unfold env_clean. cbn [fst snd]. by rewrite !andb_true_r. }
  split; [done|]. split; [by apply Hin|]. split.
  { rewrite Hlog by done. rewrite Hfs3. apply lookup_insert_eq. }
  split_and!; apply outcome_lookup; try done; repeat first [by left|right].
Qed.

Lemma append_tsv_ok path fields w u w1 :
  append_tsv path fields w = (Ok u, w1) ->
  exists text, files w !! path = Some text
    /\ files w1 = <[path := text +:+ join tabs fields +:+ newline]> (files w).
Proof.
  unfold append_tsv, is_file. intros H. inv_io. bool_hyps.
  match goal with H : is_Some _ |- _ => destruct H as [text Ht] end. exists text. split; [done|].
  destruct u. unfold append_file in H. rewrite Ht in H. by apply put_file_ok in H as [-> _].
Qed.

(** A row appended to a table of clean rows. *)
Lemma append_row h rows plan fields :
  forallb clean (h :: rows) = true -> clean (join tabs (plan :: fields)) = true ->
  has_char tab plan = false -> fields <> [] ->
  unlines (h :: rows) +:+ join tabs (plan :: fields) +:+ newline = unlines (h :: rows ++ [join tabs (plan :: fields)])
  /\ first_columns (unlines (h :: rows ++ [join tabs (plan :: fields)]))
     = first_columns (unlines (h :: rows)) ++ [plan].
Proof.
  intros Hc Hrow Htab Hne. split.
  - change (h :: rows ++ [join tabs (plan :: fields)]) with ((h :: rows) ++ [join tabs (plan :: fields)]).
    rewrite unlines_app. f_equal. unfold unlines. simpl. by rewrite str_app_nil_r.
  - unfold first_columns. rewrite !lines_unlines; [|done|].
    + cbn [tail]. rewrite omap_app. f_equal. cbn [omap list_omap].
      destruct fields as [|x fields]; [done|].
      change (join tabs (plan :: x :: fields)) with (plan +:+ String tab (join tabs (x :: fields))).
      rewrite split_app by done. done.
    + cbn [forallb] in *. bool_hyps. rewrite forallb_app. cbn [forallb]. rewrite H, H0, Hrow. done.
Qed.

(** Plan identifiers are unique. When [add-alternative] succeeds on a table
    of clean rows, the plan was not listed before and the table is the old one
    with one more row, whose first column is this plan. *)
Theorem alternatives_unique args w w' :
  add_alternative args w = (Ok tt, w') ->
  exists id dir plan, decision_dir id = Ok dir /\ head args = Some id
    /\ status_in (files w) id = Some "open" /\
    forall h rows, files w !! path_join dir "alternatives.tsv" = Some (unlines (h :: rows)) ->
      forallb clean (h :: rows) = true ->
      ~ In plan (first_columns (unlines (h :: rows)))
      /\ exists row, clean row = true
         /\ files w' !! path_join dir "alternatives.tsv" = Some (unlines (h :: rows ++ [row]))
         /\ first_columns (unlines (h :: rows ++ [row])) = first_columns (unlines (h :: rows)) ++ [plan].
Proof.
  unfold add_alternative. intros H. apply bind_ok in H as ([id options] & w0 & Hio & H).
  assert (head args = Some id) as Hhead.
  { unfold id_and_options in Hio. inv_io. inv_ok. done. }
  apply keeps_id_and_options in Hio as [Hfs _]. inv_io.
  match goal with H : validate_id "plan ID" _ = Ok _ |- _ => apply validate_id_valid in H as Hplan end.
  match goal with H : reject_newlines _ = Ok _ |- _ => apply reject_newlines_clean in H as Hcl end.
  match goal with H : decision_dir id = Ok ?d |- _ => rename H into Hdir; rename d into dir end.
  match goal with H : require_open _ _ _ _ = _ |- _ => pose proof H as Hopen; apply keeps_require_open in H as [Hf1 _] end.
  apply (require_open_in _ _ _ _ _ _ Hdir) in Hopen.
  match goal with H : tsv_first_column_contains _ _ _ = _ |- _ => apply first_column_in in H as (-> & text & Htext & Hin) end.
  repeat match goal with H : timestamp _ = _ |- _ => pose proof (timestamp_clean _ _ _ H) as Hnow; injection H as <- <- end.
  match goal with H : append_tsv _ _ _ = _ |- _ => apply append_tsv_ok in H as (text' & Ht' & Hfs2) end.
  match goal with H : log_decision_event _ _ _ = _ |- _ => pose proof (log_decision_event_ok _ _ _ _ _ H) as Hlog end.
  repeat match goal with H : Forall _ (_ :: _) |- _ => apply Forall_cons in H as [? ?] end. cbn [snd files] in *.
  rewrite Hf1, Hfs in *. bool_hyps.
  match goal with H : required options "plan-id" _ = Ok ?p |- _ => exists id, dir, p; rename p into plan end.
  split; [done|]. split; [done|]. split; [done|]. intros h rows Hrows Hcr.
  rewrite Htext in Ht', Hrows. injection Ht' as <-. injection Hrows as ->. split.
  { intros Hx%Hin. congruence. }
  eexists. rewrite Hlog, Hfs2, lookup_insert_eq by done.
  match goal with |- clean ?r = true /\ Some (_ +:+ join tabs (_ :: ?fs) +:+ _) = _ /\ _ =>
    assert (clean (join tabs (plan :: fs)) = true) as Hrow end.
  { apply clean_join; [done|]. cbn [forallb]. apply clean_field_clean in Hnow.
    repeat match goal with H : clean _ = true |- _ => rewrite H; clear H end. done. }
  split; [exact Hrow|].
  destruct (append_row h rows plan _ Hcr Hrow) as [-> ->]; [|done|done].
  unfold valid_id in Hplan. bool_hyps. by apply (all_chars_no_char id_char).
Qed.
End Status.

(** ** Witnesses *)

Module DecisionWitness.

#[local] Instance platform : Platform := toy_platform (fun _ => None) 0.
#[local] Instance clock : ClockClean := toy_clock_clean (fun _ => None) 0.

Definition blank : World := mkWorld ∅ [] 0 [].
Definition alt_args : list string :=
  ["d1"; "--plan-id"; "p1"; "--summary"; "first plan"; "--proposed-by"; "scout"].
Definition commit_args : list string := ["d1"; "--selected-plan"; "p1"; "--reason"; "cheapest"].
Definition w0 : World := Eval vm_compute in (init ["d1"; "--title"; "demo"] blank).2.
Definition w1 : World := Eval vm_compute in (add_alternative alt_args w0).2.
Definition w2 : World := Eval vm_compute in (commit commit_args w1).2.


Lemma commit_recorded_witness :
  exists id dir options text outcome,
    decision_dir id = Ok dir /\ status_in (files w1) id = Some "open"
    /\ status_in (files w2) id = Some "committed"
    /\ files w1 !! path_join dir "alternatives.tsv" = Some text
    /\ In (value options "selected-plan") (first_columns text)
    /\ files w2 !! path_join dir "outcome.env" = Some outcome
    /\ parse_env outcome !! "selected_plan" = Some (value options "selected-plan")
    /\ parse_env outcome !! "reason" = Some (value options "reason")
    /\ parse_env outcome !! "rollback_policy" = Some (value options "rollback-policy")
    /\ parse_env outcome !! "reflection_due" = Some (value options "reflection-due")
    /\ parse_env outcome !! "status" = Some "implementation".
Proof. apply (commit_recorded commit_args w1 w2). vm_compute. reflexivity. Defined.

Lemma alternatives_unique_witness :
  exists id dir plan, decision_dir id = Ok dir /\ head alt_args = Some id
    /\ status_in (files w0) id = Some "open" /\
    forall h rows, files w0 !! path_join dir "alternatives.tsv" = Some (unlines (h :: rows)) ->
      forallb clean (h :: rows) = true ->
      ~ In plan (first_columns (unlines (h :: rows)))
      /\ exists row, clean row = true
         /\ files w1 !! path_join dir "alternatives.tsv" = Some (unlines (h :: rows ++ [row]))
         /\ first_columns (unlines (h :: rows ++ [row])) = first_columns (unlines (h :: rows)) ++ [plan].
Proof. apply (alternatives_unique alt_args w0 w1). vm_compute. reflexivity. Defined.

(** The disk fails at the outcome file of the commit. *)
Definition torn_disk : World := mkWorld (files w1) [false; true] (ticks w1) [].
Definition torn_w2 : World := Eval vm_compute in (commit commit_args torn_disk).2.
Definition reflect_args : list string := ["d1"; "--recommendation"; "continue"; "--reason"; "fine"].
Definition torn_w3 : World := Eval vm_compute in (reflect reflect_args torn_w2).2.

(** A refused reflection still closes the decision. After a commit whose
    outcome file could not be written, [reflect] reports that there is no
    outcome record, but it has already set the status to reflected; the decision
    can then be neither committed nor reflected upon again. *)
Theorem reflect_error_changes_status :
  exists e1 w2 w3, commit commit_args torn_disk = (Err e1, w2)
    /\ status_in (files w2) "d1" = Some "committed"
    /\ reflect reflect_args w2 = (Err "no outcome record found: d1", w3)
    /\ status_in (files w3) "d1" = Some "reflected"
    /\ (reflect reflect_args w3).1 = Err "can only reflect on committed decisions, got: reflected"
    /\ (commit commit_args w3).1 = Err "cannot commit to reflected decision: d1".
Proof.
  exists ("publish state " +:+ "/work/.multiagent/decisions/d1/outcome.env" +:+ ": " +:+ os_error), torn_w2, torn_w3.
  split_and!; vm_compute; reflexivity.
Qed.
End DecisionWitness.
