(* ===== verification/Lifecycle.v ===== *)
(** * Lifecycle: [runtime/src/workflow.rs], the store and the gates

    The lifecycle of a workflow is a directory of text files: [lifecycle.env]
    with one line per field, and three tables of TODOs, reviews and review
    obligations. This file has the store, the bindings of artifacts to their
    digests, the evidence of reviewers, and the two gates; the commands that
    change the lifecycle are in [Workflow].

    The files hold UTF-8 text. Every command holds the lock of its workflow
    while it runs, so that commands on a workflow are sequential. *)

From S2P Require Import Prelude Text State Json Config Dag.

Definition PHASES : list string :=
  ["pre-implementation"; "implementation"; "post-implementation"; "complete"].
Definition ACTIVE : list string := ["open"; "assigned"; "in-progress"].
Definition TODO_KINDS : list string := ["direct"; "evidence"; "decision"].
Definition REVIEW_TYPES : list string :=
  ["plan-alignment"; "read-only-integrity"; "scope"; "technical"; "reflection"].
Definition POST_REVIEWS : list string := ["scope"; "technical"; "reflection"].
Definition ENV_ORDER : list string :=
  ["workflow_id"; "phase"; "iteration"; "original_task"; "original_task_sha256"; "contract_scout";
   "contract_artifact"; "contract_artifact_sha256"; "preimplementation_gate";
   "implementation_context"; "implementation_context_sha256"; "alignment_review_id";
   "iteration_plan_sha256"; "iteration_worker_count"; "candidate_diff_hash";
   "reviewed_diff_hash"; "terminal_outcome"; "human_review_status"; "human_review_request";
   "human_review_request_sha256"; "human_review_reviewer"; "human_review_reason"; "resume_count";
   "created_at"; "updated_at"].
Definition TODO_HEADER : string :=
  join tabs ["todo_id"; "kind"; "summary"; "origin"; "status"; "assignment_id"; "resolution";
             "reason_code"; "reason"; "evidence"; "authority"; "destination"; "resume_condition";
             "iteration"; "updated_at"].
Definition REVIEW_HEADER : string :=
  join tabs ["review_id"; "type"; "verdict"; "diff_hash"; "evidence"; "iteration"; "recorded_at";
             "reviewer"].
Definition REVIEW_OBLIGATION_HEADER : string :=
  join tabs ["obligation_id"; "type"; "trigger"; "artifact_digest"; "reason"; "iteration";
             "status"; "review_id"; "updated_at"].

Definition mem (x : string) (l : list string) : bool := existsb (String.eqb x) l.

(** ** Rows: [Todo], [Review] and [ReviewObligation]

    A row is an array of strings of a fixed length: 15, 8 and 9. *)

Definition Row : Type := list string.
Definition get (i : nat) (r : Row) : string := nth i r "".
Definition set (i : nat) (v : string) (r : Row) : Row := <[i := v]> r.
Definition parse_fields (n : nat) (line : string) : Row := resize n (split tab line).
Definition encode_fields (r : Row) : string := join tabs r.

Definition active (status : string) : bool := mem status ACTIVE.

(** ** Arguments *)

Definition valid_id (label current : string) : result string unit :=
  guard (negb (is_empty current) && all_chars id_char current)
    ("invalid " +:+ label +:+ ": " +:+ current).

Fixpoint options_from (out : gmap string string) (args : list string)
  : result string (gmap string string) :=
  match args with
  | [] => Ok out
  | key :: rest =>
      let? _ := guard (starts_with "--" key) ("unexpected argument: " +:+ key) in
      match rest with
      | v :: rest' => options_from (<[key := v]> out) rest'
      | [] => Err (key +:+ " requires a value")
      end
  end.
Definition options (args : list string) : result string (gmap string string) :=
  options_from ∅ args.

Definition required (o : gmap string string) (key : string) : result string string :=
  match o !! key with
  | Some v => if is_empty v then
                Err (strip_all (strip_prefix "--") (String.length key) key +:+ " requires " +:+ key)
              else Ok v
  | None => Err (strip_all (strip_prefix "--") (String.length key) key +:+ " requires " +:+ key)
  end.
Definition opt (o : gmap string string) (key : string) : string := unwrap_or (o !! key) "".

(** [str::parse::<usize>] on a 64-bit target. *)
Definition parse_usize : string -> option Z := parse_u64.

(** ** Text *)

(** [str::split_once] with a string. *)
Fixpoint split_once_str (p s : string) : option (string * string) :=
  match strip_prefix p s with
  | Some r => Some ("", r)
  | None => match s with
            | EmptyString => None
            | String c s' => (fun lr => (String c lr.1, lr.2)) <$> split_once_str p s'
            end
  end.

(** [str::split_whitespace]; every step consumes a byte, hence the fuel. *)
Fixpoint tokens (fuel : nat) (current s : string) : list string :=
  let emit (l : list string) := if is_empty current then l else current :: l in
  match fuel with
  | O => emit []
  | S n =>
      match first_some (fun w => strip_prefix w s) whitespace with
      | Some r => emit (tokens n "" r)
      | None => match s with
                | EmptyString => emit []
                | String c s' => tokens n (current +:+ String c "") s'
                end
      end
  end.
Definition split_whitespace (s : string) : list string := tokens (S (String.length s)) "" s.

(** ** The contract artifact *)

Definition contract_rule_field (rule key : string) : string :=
  unwrap_or (first_some (strip_prefix (key +:+ "=")) (split_whitespace rule)) "".

Definition contract_rule_statement (rule : string) : string :=
  match split_once_str " statement=" rule with
  | Some (_, v) => match split_once_str " evidence=" v with
                   | Some (statement, _) => statement
                   | None => ""
                   end
  | None => ""
  end.

Definition valid_rule (rule : string) : bool :=
  contains " id=" rule
  && (contains " polarity=must " rule || contains " polarity=must-not " rule)
  && contains " statement=" rule && contains " evidence=" rule.

Fixpoint check_rules (rules : list string) : result string unit :=
  match rules with
  | [] => Ok tt
  | rule :: rules' =>
      let? _ := guard (valid_rule rule) ("invalid structured contract rule: " +:+ trim rule) in
      check_rules rules'
  end.

Definition positive_rule (rule : string) : option (string * string * string) :=
  if contains " polarity=must " rule && contains " structure=positive " rule then
    Some (contract_rule_field rule "owner", contract_rule_field rule "member",
          contract_rule_field rule "member-type")
  else None.

Definition negative_rule (rule : string) : option (string * string) :=
  if contains " polarity=must-not " rule && contains " structure=negative " rule
     && contains "embed" (to_ascii_lowercase (contract_rule_statement rule)) then
    Some (contract_rule_field rule "owner", contract_rule_field rule "embedded-type")
  else None.

Definition requires_embedding_rule (original_task : string) : bool :=
  let original := to_ascii_lowercase original_task in
  contains "embedded unnecessarily" original || contains "must not embed" original
  || contains "should not embed" original || contains "without embedding" original.

Definition validate_contract_schema (text original_task : string) : result string unit :=
  let rules := List.filter (fun line => starts_with "contract-rule:" (trim_start line)) (lines text) in
  let? _ := guard (existsb (String.eqb "contract-artifact: version=1") (lines text))
              "contract scout artifact is missing `contract-artifact: version=1`" in
  let? _ := match rules with
            | [] => if requires_embedding_rule original_task then
                      Err "contract scout artifact must contain structured `contract-rule:` lines, including a positive structural rule and a separate `polarity=must-not` rule covering the requested embedding prohibition"
                    else Err "contract scout artifact must contain at least one `contract-rule:`"
            | _ => Ok tt
            end in
  let? _ := check_rules rules in
  if requires_embedding_rule original_task then
    match first_some positive_rule rules with
    | None => Err "contract scout artifact requires a machine-readable positive structural rule with `structure=positive owner=OWNER member=FIELD member-type=TYPE`"
    | Some (positive_owner, member, member_type) =>
        match first_some negative_rule rules with
        | None => Err "contract scout artifact requires a machine-readable negative structural rule with `structure=negative owner=OWNER embedded-type=TYPE` covering the embedding prohibition"
        | Some (negative_owner, embedded_type) =>
            guard (negb (is_empty positive_owner || is_empty member || is_empty member_type
                         || is_empty negative_owner || is_empty embedded_type
                         || negb (String.eqb positive_owner negative_owner)
                         || negb (String.eqb member_type embedded_type)))
              "contract scout embedding rules must name one matching owner/type pair and a concrete replacement member"
        end
    end
  else Ok tt.

(** ** Review markers *)

Definition numbered (prefix : string) : bool :=
  match (match strip_suffix "." prefix with Some n => Some n | None => strip_suffix ")" prefix end) with
  | Some number => negb (is_empty number) && all_chars is_ascii_digit number
  | None => false
  end.

(** The text between two copies of [wrapper], if there is one. *)
Definition unwrap_marker (value wrapper : string) : string :=
  if starts_with wrapper value && ends_with wrapper value
     && (2 * String.length wrapper <=? String.length value)%nat
  then String.substring (String.length wrapper) (String.length value - 2 * String.length wrapper) value
  else value.

Definition review_marker_matches (line marker : string) : bool :=
  let value := trim line in
  let value := match split_once " " value with
               | Some (prefix, rest) =>
                   if numbered prefix || String.eqb prefix "-" || String.eqb prefix "*"
                   then trim_start rest else value
               | None => value
               end in
  String.eqb (foldl unwrap_marker value ["`"; "**"; "__"]) marker.

Definition has_marker (message marker : string) : bool :=
  existsb (fun line => review_marker_matches line marker) (lines message).

(** ** The store *)

Record Paths := mkPaths {
  base : string;
  state : string;
  todos : string;
  reviews : string;
  review_obligations : string;
  events : string
}.

Section Lifecycle.
Context `{Platform}.

Definition lifecycle_paths (dir id : string) : Paths :=
  let b := path_join (path_join (path_join dir "workflows") id) "lifecycle" in
  mkPaths b (path_join b "lifecycle.env") (path_join b "todos.tsv") (path_join b "reviews.tsv")
    (path_join b "review-obligations.tsv") (path_join b "events.log").

Definition paths (id : string) : result string Paths :=
  let? dir := state_dir in
  let? _ := valid_id "workflow ID" id in
  Ok (lifecycle_paths dir id).

(** [read_env] of [workflow.rs]: the lifecycle must exist. *)
Definition read_state (p id : string) : IO (gmap string string) :=
  let! ok := is_file p in
  let! _ := check ok ("workflow lifecycle does not exist: " +:+ id) in
  read_env_optional p.

Definition env_text (st : gmap string string) : string :=
  concat_all (map (fun k => k +:+ "=" +:+ state_value st k +:+ newline) ENV_ORDER).
Definition write_env (p : string) (st : gmap string string) : IO unit := atomic_write p (env_text st).

Definition init_table (p header : string) : IO unit :=
  let! ok := is_file p in
  if ok then ret tt else atomic_write p (header +:+ newline).

Definition table_lines (text : string) : list string :=
  List.filter (fun line => negb (is_empty line)) (tail (lines text)).
Definition read_rows (n : nat) (p : string) : IO (list Row) :=
  let! fs := get_files in
  match fs !! p with
  | None => ret []
  | Some text => ret (map (parse_fields n) (table_lines text))
  end.
Definition read_todos : string -> IO (list Row) := read_rows 15.
Definition read_reviews : string -> IO (list Row) := read_rows 8.
Definition read_review_obligations : string -> IO (list Row) := read_rows 9.

Definition write_rows (p header : string) (rows : list Row) : IO unit :=
  atomic_write p (unlines (header :: map encode_fields rows)).
Definition write_todos (p : string) (rows : list Row) : IO unit := write_rows p TODO_HEADER rows.
Definition write_reviews (p : string) (rows : list Row) : IO unit := write_rows p REVIEW_HEADER rows.
Definition write_review_obligations (p : string) (rows : list Row) : IO unit :=
  write_rows p REVIEW_OBLIGATION_HEADER rows.

Definition event (p name detail : string) : IO unit :=
  let! now := timestamp in
  append_file p (now +:+ tabs +:+ name +:+ tabs +:+ detail +:+ newline)
    (io_error "append lifecycle event").

(** [sha256] of a file. *)
Definition sha256 (p : string) : IO string :=
  let! fs := get_files in
  match fs !! p with
  | Some t => ret (sha256_hex t)
  | None => fail (io_error "read implementation context")
  end.

(** ** Artifact bindings *)

Definition validate_artifact_binding (label path expected : string) : IO unit :=
  if is_empty path && is_empty expected then ret tt
  else if is_empty path || is_empty expected then fail (label +:+ " artifact binding is incomplete")
  else
    let! ok := is_file path in
    let! _ := check ok (label +:+ " artifact is missing: " +:+ path) in
    let! digest := sha256 path in
    check (String.eqb digest expected) (label +:+ " artifact changed after registration").

Definition validate_original_task (st : gmap string string) : IO unit :=
  validate_artifact_binding "original task" (state_value st "original_task")
    (state_value st "original_task_sha256").
Definition validate_contract (st : gmap string string) : IO unit :=
  validate_artifact_binding "contract" (state_value st "contract_artifact")
    (state_value st "contract_artifact_sha256").

Definition validate_context (st : gmap string string) : IO unit :=
  let! _ := validate_original_task st in
  let! _ := validate_contract st in
  let text := state_value st "implementation_context" in
  let! _ := check (negb (is_empty text)) "implementation gate requires approved implementation context" in
  let! ok := is_file text in
  let! _ := check ok ("approved implementation context is missing: " +:+ text) in
  let! digest := sha256 text in
  check (String.eqb digest (state_value st "implementation_context_sha256"))
    "approved implementation context changed after pre-implementation approval".

Definition read_optional_artifact (path : string) : IO string :=
  if is_empty path then ret ""
  else let! fs := get_files in
       match fs !! path with
       | Some t => ret t
       | None => fail (io_error "read semantic artifact")
       end.

(** ** Reviewer evidence *)

Definition reviewer_evidence_required : bool := lifecycle_enforced.

Definition secure_reviewer_evidence : bool :=
  bool_decide (env_var "MULTIAGENT_UID_SANDBOX" = Some "1")
  && bool_decide (env_var "MULTIAGENT_AUTHORITY_SERVER_CHILD" = Some "1").

Definition evidence_file : string := if secure_reviewer_evidence then "evidence.env" else "meta.env".
Definition access_key : string := if secure_reviewer_evidence then "access" else "codex_access".

(** [fs::read_to_string(dir.join("status"))] trimmed, and [finalized_at]. *)
Definition finalized (fs : gmap string string) (dir : string) : bool :=
  String.eqb (trim (unwrap_or (fs !! path_join dir "status") "")) "finalized"
  && bool_decide (is_Some (fs !! path_join dir "finalized_at")).

Definition check_marker (message reviewer marker : string) : IO unit :=
  check (has_marker message marker)
    ("reviewer " +:+ reviewer +:+ " final message is missing marker: " +:+ marker).

Definition review_marker (kind verdict diff : string) : string :=
  "review-record: type=" +:+ kind +:+ " verdict=" +:+ verdict +:+ " diff=" +:+ diff.

Definition validate_reviewer_evidence (workflow_id reviewer kind verdict diff : string) : IO unit :=
  let! root := lift state_dir in
  let! _ := lift (valid_id "reviewer name" reviewer) in
  let dir := path_join (path_join root (if secure_reviewer_evidence then "reviewer-evidence"
                                        else "subagents")) reviewer in
  let! metadata := read_env_optional (path_join dir evidence_file) in
  let! _ := check (String.eqb (state_value metadata "role") "reviewer"
                   && String.eqb (state_value metadata access_key) "read-only")
              ("reviewer evidence must come from a read-only reviewer role: " +:+ reviewer) in
  let! fs := get_files in
  let! _ :=
    if secure_reviewer_evidence then
      check (String.eqb (state_value metadata "state") "completed"
             && String.eqb (state_value metadata "workflow_id") workflow_id)
        ("reviewer evidence is not sealed for workflow " +:+ workflow_id +:+ ": " +:+ reviewer)
    else
      let! _ := check (bool_decide (is_Some (fs !! path_join dir "status")))
                  ("reviewer status is missing: " +:+ reviewer) in
      check (finalized fs dir) ("reviewer is not finalized: " +:+ reviewer) in
  let! message := lift (ok_or (fs !! path_join dir "last-message.txt")
                          ("reviewer final message is missing: " +:+ reviewer)) in
  let! _ := check_marker message reviewer (review_marker kind verdict diff) in
  let! _ :=
    if String.eqb kind "plan-alignment" then
      let plan_hash := state_value metadata "iteration_plan_sha256" in
      let task_hash := state_value metadata "original_task_sha256" in
      let! _ := check (negb (is_empty plan_hash || is_empty task_hash))
                  ("plan-alignment reviewer evidence has no sealed input digests: " +:+ reviewer) in
      check_marker message reviewer
        ("plan-alignment-review: plan-sha256=" +:+ plan_hash +:+ " original-task-sha256="
         +:+ task_hash +:+ " alignment="
         +:+ (if String.eqb verdict "pass" then "aligned" else "misaligned"))
    else ret tt in
  if String.eqb kind "plan-alignment" || String.eqb kind "technical" then
    let! p := lift (paths workflow_id) in
    let! st := read_state (state p) workflow_id in
    let! _ := validate_original_task st in
    let! _ := validate_contract st in
    let contract_hash := state_value st "contract_artifact_sha256" in
    if negb (is_empty contract_hash) && String.eqb verdict "pass" then
      check_marker message reviewer
        ("contract-review: artifact-sha256=" +:+ contract_hash +:+ " verdict=pass")
    else ret tt
  else ret tt.

(** The subdirectories of [root] that hold a file, each name once. *)
Definition subdirectories (fs : gmap string string) (root : string) : list string :=
  btree_list (list_to_set
    (omap (fun p => rest ← strip_prefix (root +:+ "/") p; fst <$> split_once "/" rest)
       (map_to_list fs).*1)).

(** Whether a subagent is a reviewer of this workflow that has finished. *)
Definition finished_reviewer (fs : gmap string string) (workflow_id dir : string) : bool :=
  let metadata := parse_env (unwrap_or (fs !! path_join dir evidence_file) "") in
  let reviewer_workflow := state_value metadata "workflow_id" in
  String.eqb (state_value metadata "role") "reviewer"
  && String.eqb (state_value metadata access_key) "read-only"
  && (is_empty reviewer_workflow || String.eqb reviewer_workflow workflow_id)
  && (if secure_reviewer_evidence then String.eqb (state_value metadata "state") "completed"
      else finalized fs dir).

Definition unrecorded_reviewer_findings (workflow_id diff : string) (rows : list Row)
  : IO (list string) :=
  let! dir := lift state_dir in
  let! fs := get_files in
  let root := path_join dir (if secure_reviewer_evidence then "reviewer-evidence" else "subagents") in
  let of_reviewer reviewer :=
    let d := path_join root reviewer in
    let message := unwrap_or (fs !! path_join d "last-message.txt") "" in
    if finished_reviewer fs workflow_id d then
      map (fun kind => reviewer +:+ ":" +:+ kind)
        (List.filter (fun kind =>
           has_marker message (review_marker kind "findings" diff)
           && negb (existsb (fun r => String.eqb (get 1 r) kind && String.eqb (get 2 r) "findings"
                                      && String.eqb (get 3 r) diff && String.eqb (get 7 r) reviewer)
                      rows)) POST_REVIEWS)
    else [] in
  ret (btree_list (list_to_set (concat (map of_reviewer (subdirectories fs root))))).

Definition active_reviewers : IO (list string) :=
  let! dir := lift state_dir in
  let! fs := get_files in
  let root := path_join dir (if secure_reviewer_evidence then "launch-authorizations"
                             else "subagents") in
  let unfinished name :=
    let d := path_join root name in
    let metadata := parse_env (unwrap_or (fs !! path_join d (if secure_reviewer_evidence
                                                             then "launch.env" else "meta.env")) "") in
    let st := if secure_reviewer_evidence then state_value metadata "state"
              else unwrap_or (fs !! path_join d "status") "" in
    String.eqb (state_value metadata "role") "reviewer"
    && mem (trim st) ["starting"; "pending"; "registered"; "running"] in
  ret (List.filter unfinished (subdirectories fs root)).

Definition validate_plan_alignment_evidence (workflow_id reviewer plan_sha256 : string) : IO unit :=
  let! root := lift state_dir in
  let! _ := lift (valid_id "reviewer name" reviewer) in
  let dir := path_join (path_join root "reviewer-evidence") reviewer in
  let! metadata := read_env_optional (path_join dir "evidence.env") in
  let bound key expected :=
    check (String.eqb (state_value metadata key) expected)
      ("plan-alignment review binding mismatch: " +:+ key +:+ " expected=" +:+ expected
       +:+ " actual=" +:+ state_value metadata key) in
  let! _ := bound "workflow_id" workflow_id in
  let! _ := bound "iteration_plan_sha256" plan_sha256 in
  let binding_hash := state_value metadata "alignment_binding_sha256" in
  let binding_path := path_join dir "plan-alignment-binding.json" in
  let! fs := get_files in
  check (negb (is_empty binding_hash)
         && bool_decide (sha256_hex <$> fs !! binding_path = Some binding_hash))
    "plan-alignment review binding evidence is missing or changed".

(** ** The gates *)

Definition blocking_todo (r : Row) : bool :=
  active (get 4 r) && mem (get 1 r) ["evidence"; "decision"].

Definition implementation_gate_state (id expected_plan_sha256 : string) (allow_pre : bool)
  : IO (gmap string string) :=
  let! p := lift (paths id) in
  let! st := read_state (state p) id in
  let phase := state_value st "phase" in
  let! _ := check (String.eqb phase "implementation"
                   || allow_pre && String.eqb phase "pre-implementation")
              ("implementation gate requires phase=implementation, got " +:+ phase) in
  let! _ := check (String.eqb (state_value st "preimplementation_gate") "passed")
              "implementation gate has not passed" in
  let! _ := validate_context st in
  let! rows := read_todos (todos p) in
  let blockers := map (get 0) (List.filter blocking_todo rows) in
  let! _ := check (bool_decide (blockers = []))
              ("implementation blocked by active evidence/decision TODOs: " +:+ join "," blockers) in
  let! _ := check (is_empty expected_plan_sha256
                   || String.eqb expected_plan_sha256 (state_value st "iteration_plan_sha256"))
              "assignment plan digest does not match the active workflow plan" in
  ret st.

(** The last review of each type for this diff and iteration. *)
Definition latest_reviews (rows : list Row) (iteration diff : string) : gmap string Row :=
  foldl (fun m r => <[get 1 r := r]> m) ∅
    (List.filter (fun r => String.eqb (get 5 r) iteration && String.eqb (get 3 r) diff) rows).
Definition btree_values (m : gmap string Row) : list Row := omap (fun k => m !! k) (btree_list (dom m)).
Definition with_verdict (verdict : string) (latest : gmap string Row) : gset string :=
  list_to_set (map (get 1) (List.filter (fun r => String.eqb (get 2 r) verdict) (btree_values latest))).

Definition current_obligations (rows : list Row) (iteration diff : string) : list Row :=
  List.filter (fun r => String.eqb (get 3 r) diff && String.eqb (get 5 r) iteration) rows.
Definition required_types (current : list Row) : gset string :=
  match current with
  | [] => list_to_set POST_REVIEWS
  | _ => list_to_set (map (get 1) current)
  end.

Fixpoint validate_passing (id diff : string) (rows : list Row) : IO unit :=
  match rows with
  | [] => ret tt
  | r :: rows' =>
      let! _ := check (negb (is_empty (get 7 r)))
                  ("passing " +:+ get 1 r +:+ " review is missing durable reviewer evidence") in
      let! _ := validate_reviewer_evidence id (get 7 r) (get 1 r) "pass" diff in
      validate_passing id diff rows'
  end.

Definition completion_state (id : string) : IO (gmap string string) :=
  let! p := lift (paths id) in
  let! st := read_state (state p) id in
  let phase := state_value st "phase" in
  let! _ := check (String.eqb phase "post-implementation" || String.eqb phase "complete")
              ("completion requires phase=post-implementation, got " +:+ phase) in
  let! todo_rows := read_todos (todos p) in
  let active_rows := map (get 0) (List.filter (fun r => active (get 4 r)) todo_rows) in
  let! _ := check (bool_decide (active_rows = []))
              ("completion blocked by active TODOs: " +:+ join "," active_rows) in
  let diff := state_value st "candidate_diff_hash" in
  let! _ := check (negb (is_empty diff)) "completion requires a candidate diff hash" in
  let iteration := state_value st "iteration" in
  let! review_rows := read_reviews (reviews p) in
  let latest := latest_reviews review_rows iteration diff in
  let findings := btree_list (with_verdict "findings" latest) in
  let! _ := check (bool_decide (findings = []))
              ("completion blocked by current-diff review findings: " +:+ join "," findings) in
  let passed := with_verdict "pass" latest in
  let! obligation_rows := read_review_obligations (review_obligations p) in
  let current := current_obligations obligation_rows iteration diff in
  let pending := map (get 0) (List.filter (fun r => negb (String.eqb (get 6 r) "satisfied")) current) in
  let! _ := check (bool_decide (pending = []))
              ("completion blocked by pending review obligations: " +:+ join "," pending) in
  let types := required_types current in
  let missing := List.filter (fun kind => negb (bool_decide (kind ∈ passed))) (btree_list types) in
  let! _ := check (bool_decide (missing = []))
              ("completion requires passing current-diff reviews: " +:+ join "," missing) in
  let! _ :=
    if reviewer_evidence_required then
      let! unrecorded := unrecorded_reviewer_findings id diff review_rows in
      let! _ := check (bool_decide (unrecorded = []))
                  ("completion blocked by unrecorded reviewer findings: " +:+ join "," unrecorded) in
      let! unfinished := active_reviewers in
      let! _ := check (bool_decide (unfinished = []))
                  ("completion blocked by active reviewers: " +:+ join "," unfinished) in
      validate_passing id diff
        (List.filter (fun r => String.eqb (get 2 r) "pass" && bool_decide (get 1 r ∈ types))
           (btree_values latest))
    else ret tt in
  let! _ := validate_context st in
  ret st.

End Lifecycle.
