(* ===== verification/Snapshot.v ===== *)
(** * Snapshot: [runtime/src/snapshot.rs]

    The canonical diff of the repository that reviews and gates are bound to:
    the diff that [git] prints for the tracked files, followed by the diffs of
    the untracked files in the order of their paths. [git] is a program outside
    the repository: a parameter that maps its arguments and the files to its
    exit status and output. *)

From S2P Require Import Prelude Text State Json Config Execution Lifecycle.

(** ** Processes *)

Record Output := mkOutput { exit_code : option Z; out_bytes : string; err_bytes : string }.
Definition success (o : Output) : bool := bool_decide (exit_code o = Some 0).

(** [Command::new("git").args(args).output()]. *)
Class Git := git : list string -> gmap string string -> result string Output.

(** ** [String::from_utf8_lossy] *)

Definition byte_in (lo hi : Z) (c : ascii) : bool := (lo <=? code c) && (code c <=? hi).

(** The replacement character U+FFFD. *)
Definition replacement : string :=
  String.string_of_list_ascii (map (fun z => ascii_of_N (Z.to_N z)) [239; 191; 189]).

(** How many bytes follow a first byte, and the range of the second. *)
Definition utf8_lead (c : ascii) : option (nat * (Z * Z)) :=
  if byte_in 0 127 c then Some (0%nat, (0, 0))
  else if byte_in 194 223 c then Some (1%nat, (128, 191))
  else if byte_in 224 224 c then Some (2%nat, (160, 191))
  else if byte_in 237 237 c then Some (2%nat, (128, 159))
  else if byte_in 225 239 c then Some (2%nat, (128, 191))
  else if byte_in 240 240 c then Some (3%nat, (144, 191))
  else if byte_in 241 243 c then Some (3%nat, (128, 191))
  else if byte_in 244 244 c then Some (3%nat, (128, 143))
  else None.

(** [seen]: the bytes of a character of which [n] more are due, the next one in
    [lo..hi]. *)
Fixpoint lossy_from (seen : string) (n : nat) (lo hi : Z) (s : string) : string :=
  match s with
  | EmptyString => if (n =? 0)%nat then "" else replacement
  | String c s' =>
      if (0 <? n)%nat && byte_in lo hi c then
        if (n =? 1)%nat then seen +:+ String c (lossy_from "" 0 0 0 s')
        else lossy_from (seen +:+ String c "") (n - 1) 128 191 s'
      else
        (if (0 <? n)%nat then replacement else "") +:+
        match utf8_lead c with
        | Some (O, _) => String c (lossy_from "" 0 0 0 s')
        | Some (k, (lo', hi')) => lossy_from (String c "") k lo' hi' s'
        | None => replacement +:+ lossy_from "" 0 0 0 s'
        end
  end.
Definition from_utf8_lossy (s : string) : string := lossy_from "" 0 0 0 s.

(** ** The order of paths *)

(** [Ord] of [Component]: the root before [.], [..] and names. *)
Definition component_key (c : PathComponent) : Z * string :=
  match c with CurDir => (1, "") | ParentDir => (2, "") | Normal s => (3, s) end.
Definition path_key (p : string) : list (Z * string) :=
  (if is_absolute p then [(0, "")] else []) ++ map component_key (components p).

Definition key_leb (x y : Z * string) : bool := (x.1 <? y.1) || ((x.1 =? y.1) && String.leb x.2 y.2).
Fixpoint keys_leb (l k : list (Z * string)) : bool :=
  match l, k with
  | [], _ => true
  | _ :: _, [] => false
  | x :: l', y :: k' => if decide (x = y) then keys_leb l' k' else key_leb x y
  end.
Definition path_leb (p q : string) : bool := keys_leb (path_key p) (path_key q).

(** [slice::sort]: stable. *)
Fixpoint insert_path (p : string) (l : list string) : list string :=
  match l with
  | [] => [p]
  | q :: l' => if path_leb p q then p :: l else q :: insert_path p l'
  end.
Definition sort_paths (l : list string) : list string := foldr insert_path [] l.

(** ** Changed paths *)

Definition DIFF_HEADER : string := "diff --git a/".

Definition header_paths (line : string) : list string :=
  match strip_prefix DIFF_HEADER line ≫= split_once_str " b/" with
  | Some (old_path, new_path) =>
      List.filter (fun path => negb (is_empty path) && negb (String.eqb path "/dev/null"))
        [old_path; trim (unwrap_or (hd_error (split tab new_path)) "")]
  | None => []
  end.

Definition changed_paths (diff : string) : gset string :=
  list_to_set (concat (map header_paths (lines diff))).

(** The text after the last dot of the last name, unless the name has no other
    dot than its first character. *)
Fixpoint after_last (c : ascii) (s : string) : option (string * string) :=
  match s with
  | EmptyString => None
  | String d s' =>
      match after_last c s' with
      | Some (l, r) => Some (String d l, r)
      | None => if Ascii.eqb d c then Some ("", s') else None
      end
  end.
Definition extension (path : string) : option string :=
  match last (components path) with
  | Some (Normal name) =>
      match after_last "." name with
      | Some (stem, ext) => if is_empty stem then None else Some ext
      | None => None
      end
  | _ => None
  end.

Definition SOURCE_EXTENSIONS : list string :=
  ["c"; "cc"; "cpp"; "go"; "h"; "hpp"; "java"; "js"; "jsx"; "kt"; "m"; "mm"; "php"; "py"; "pyi"; "pyx";
   "rb"; "rs"; "scala"; "swift"; "ts"; "tsx"].
Definition is_source (path : string) : bool :=
  match extension path with Some ext => mem ext SOURCE_EXTENSIONS | None => false end.

Definition is_test_path (path : string) : bool :=
  let pieces := split "/" path in
  let name := to_ascii_lowercase (unwrap_or (last pieces) "") in
  existsb (fun piece => mem piece ["test"; "tests"; "__tests__"]) pieces
  || starts_with "test_" name
  || ends_with "_test.go" name
  || existsb (fun suffix => ends_with suffix name)
       [".test.ts"; ".test.tsx"; ".spec.ts"; ".spec.tsx"; ".test.js"; ".spec.js"].

Definition is_ignored (path : string) : bool :=
  existsb (fun prefix => starts_with prefix path) [".cache/"; ".gomodcache/"; "node_modules/"; "vendor/"].

Definition is_framework_internal_path (path : string) : bool :=
  negb (is_absolute path)
  && match components path with Normal name :: _ => String.eqb name ".multiagent" | _ => false end.

(** ** The diff *)

Definition git_error (fallback stderr : string) : string :=
  let message := trim (from_utf8_lossy stderr) in
  if is_empty message then fallback else message.

Definition nul_char : ascii := "000".

Section Snapshot.
Context `{Platform} `{Git}.

Definition baseline_untracked (fs : gmap string string) : result string (gset string) :=
  match env_var "MULTIAGENT_BASELINE_UNTRACKED_FILE" with
  | None => Ok ∅
  | Some path =>
      if is_empty path then Ok ∅
      else
        let? contents := ok_or (fs !! path) ("read baseline untracked file " +:+ path +:+ ": " +:+ os_error) in
        Ok (list_to_set (List.filter (fun line => negb (is_empty line)) (lines contents)))
  end.

Definition untracked_paths (root : string) (fs : gmap string string) : result string (list string) :=
  let? output := map_err (fun error => "list untracked files: " +:+ error)
                   (git ["-C"; root; "ls-files"; "--others"; "--exclude-standard"; "-z"] fs) in
  let? _ := guard (success output) (git_error "git ls-files failed" (err_bytes output)) in
  let? baseline := baseline_untracked fs in
  let present path := bool_decide (is_Some (fs !! path_join root path)) in
  Ok (sort_paths
        (List.filter present
           (List.filter (fun path => negb (is_framework_internal_path path))
              (List.filter (fun path => negb (bool_decide (from_utf8_lossy path ∈ baseline)))
                 (List.filter (fun path => negb (is_empty path)) (split nul_char (out_bytes output))))))).

Fixpoint untracked_diffs (root : string) (paths : list string) (fs : gmap string string)
  : result string string :=
  match paths with
  | [] => Ok ""
  | path :: rest =>
      let? output := map_err (fun error => "run git diff for " +:+ path +:+ ": " +:+ error)
                       (git ["-C"; root; "diff"; "--no-index"; "--binary"; "--"; "/dev/null"; path] fs) in
      let? _ := guard (bool_decide (exit_code output = Some 0) || bool_decide (exit_code output = Some 1))
                  (git_error ("git diff failed for untracked path " +:+ path) (err_bytes output)) in
      let? diff := untracked_diffs root rest fs in
      Ok (out_bytes output +:+ diff)
  end.

Definition canonical_diff (root base : string) (fs : gmap string string) : result string string :=
  let? output := map_err (fun error => "run git diff: " +:+ error)
                   (git ["-C"; root; "diff"; base; "--binary"; "--ignore-submodules=all"; "--"] fs) in
  let? _ := guard (success output) (git_error "git diff failed" (err_bytes output)) in
  let? paths := untracked_paths root fs in
  let? untracked := untracked_diffs root paths fs in
  Ok (out_bytes output +:+ untracked).

(** ** [capture] *)

Record Snapshot := mkSnapshot {
  final_diff_sha256 : string;
  changed_files : nat;
  snapshot_paths : list string;
  changed_code_paths : list string
}.

Definition capture (root base : string) (fs : gmap string string) : result string Snapshot :=
  let? bytes := canonical_diff root base fs in
  let diff := from_utf8_lossy bytes in
  let paths := btree_list (changed_paths diff) in
  Ok (mkSnapshot (sha256_hex bytes)
        (length (List.filter (starts_with DIFF_HEADER) (lines diff)))
        paths
        (List.filter (fun path => is_source path && negb (is_test_path path) && negb (is_ignored path)) paths)).

End Snapshot.
