(* ===== verification/Findings.v ===== *)
(** * Findings: [runtime/src/subagent.rs], findings and TODOs

    Verifiers record findings; each blocking finding is queued as a TODO, which
    a worker resolves with evidence and a verifier closes after a recheck, or
    which falls away when the finding is dismissed. All of it is files below
    [findings/] and [todos/] of the state directory. *)

From S2P Require Import Prelude Text State Json LogModel Config Execution Dag Lifecycle Snapshot.

(** ** Arguments *)

Fixpoint repeated_options_from (repeatable : list string) (values : gmap string (list string))
    (args : list string) : result string (gmap string (list string)) :=
  match args with
  | [] => Ok values
  | key :: rest =>
      if negb (starts_with "--" key) then Err ("unknown argument: " +:+ key)
      else match rest with
      | [] => Err (key +:+ " requires a value")
      | value :: rest' =>
          let old := unwrap_or (values !! key) [] in
          let new := if negb (mem key repeatable) && bool_decide (is_Some (values !! key))
                     then [value] else old ++ [value] in
          repeated_options_from repeatable (<[key := new]> values) rest'
      end
  end.
Definition repeated_options (args repeatable : list string) : result string (gmap string (list string)) :=
  repeated_options_from repeatable ∅ args.

Definition option_first (values : gmap string (list string)) (key : string) : string :=
  unwrap_or (values !! key ≫= hd_error) "".
Definition option_required (values : gmap string (list string)) (key message : string)
  : result string string :=
  let value := option_first values key in
  if is_empty value then Err message else Ok value.

Definition name_char (c : ascii) : bool :=
  is_ascii_alphanumeric c || Ascii.eqb c "_" || Ascii.eqb c "." || Ascii.eqb c "-".
Definition validate_name (name : string) : result string unit :=
  let? _ := guard (negb (is_empty name || starts_with "-" name || negb (all_chars name_char name)))
              ("invalid subagent name: " +:+ name) in
  guard (negb (String.eqb name "orchestrator")) ("reserved subagent name: " +:+ name).

Definition no_newline (label value : string) : result string unit :=
  guard (negb (has_char nl value)) (label +:+ " may not contain newlines").

Fixpoint all_no_newline (l : list (string * string)) : result string unit :=
  match l with
  | [] => Ok tt
  | (label, value) :: l' => let? _ := no_newline label value in all_no_newline l'
  end.

Definition push_unique (output : list string) (value : string) : list string :=
  if mem value output then output else output ++ [value].
Definition csv_unique (raw : string) : list string :=
  foldl push_unique [] (List.filter (fun v => negb (is_empty v)) (map trim (split "," raw))).

Definition first_arg (args : list string) (message : string) : result string (string * list string) :=
  match args with
  | id :: rest => if is_empty id then Err message else Ok (id, rest)
  | [] => Err message
  end.

(** ** JSON *)

Fixpoint value_eqb (v w : Value) : bool :=
  match v, w with
  | VNull, VNull => true
  | VBool a, VBool b => Bool.eqb a b
  | VNum a, VNum b => a =? b
  | VStr a, VStr b => String.eqb a b
  | VArr l, VArr k =>
      (fix go (l k : list Value) : bool :=
         match l, k with
         | [], [] => true
         | x :: l', y :: k' => value_eqb x y && go l' k'
         | _, _ => false
         end) l k
  | VObj l, VObj k =>
      (fix go (l k : list (string * Value)) : bool :=
         match l, k with
         | [], [] => true
         | x :: l', y :: k' => String.eqb x.1 y.1 && value_eqb x.2 y.2 && go l' k'
         | _, _ => false
         end) l k
  | _, _ => false
  end.
(** [PartialEq] of [Value]: the order of the members of an object is
    irrelevant. *)
Definition same_value (v w : option Value) : bool :=
  match v, w with
  | Some a, Some b => value_eqb (canonical_value a) (canonical_value b)
  | None, None => true
  | _, _ => false
  end.

(** [Value::get] with a key. *)
Definition member (key : string) (v : Value) : option Value :=
  match v with VObj kvs => snd <$> List.find (fun kv => String.eqb kv.1 key) kvs | _ => None end.
Definition member_str (key : string) (v : Value) : option string := member key v ≫= as_str.
Definition or_else {A} (a b : option A) : option A := match a with Some _ => a | None => b end.
Definition is_object (v : Value) : bool := match v with VObj _ => true | _ => false end.
Definition is_true (v : option Value) : bool := match v with Some (VBool true) => true | _ => false end.
Definition is_some {A} (o : option A) : bool := match o with Some _ => true | None => false end.

Definition i64_ok (n : Z) : bool := (- 2 ^ 63 <=? n) && (n <? 2 ^ 63).
Definition parse_i64 (s : string) : option Z :=
  match strip_prefix "-" s with
  | Some digits =>
      if starts_with "+" digits then None
      else (n ← parse_u64 digits; if i64_ok (- n) then Some (- n) else None)
  | None => (n ← parse_u64 s; if i64_ok n then Some n else None)
  end.
Definition i64_to_string (n : Z) : string :=
  if n <? 0 then "-" +:+ u64_to_string (- n) else u64_to_string n.
Definition as_i64 (v : Value) : option Z :=
  match v with VNum n => if i64_ok n then Some n else None | _ => None end.
Definition json_integer (v : Value) : option Z := or_else (as_i64 v) (as_str v ≫= parse_i64).

Definition nonempty_json (v : Value) : bool :=
  match v with
  | VStr s => negb (is_empty (trim s))
  | VNull => false
  | _ => true
  end.

Definition text_present (v : Value) (key : string) : bool :=
  match member_str key v with Some s => negb (is_empty (trim s)) | None => false end.

(** ** Evidence of a finding *)

Definition validate_finding_evidence (severity kind : string) (evidence : Value) : result string unit :=
  let? kvs := ok_or (as_fields evidence) "evidence JSON must be an object" in
  let? _ := guard (negb (bool_decide (kvs.*1 = []))) "evidence JSON must be non-empty" in
  let has_command := text_present evidence "command" || text_present evidence "cmd" in
  let rc := or_else (member "returncode" evidence) (member "rc" evidence) in
  let has_source := existsb (text_present evidence)
                      ["source_evidence"; "source_reasoning"; "evidence"; "stderr_excerpt"; "stdout_excerpt"] in
  let? _ := guard (negb (String.eqb severity "blocking" && negb ((has_command && is_some rc) || has_source)))
              "blocking finding evidence needs command+returncode or source evidence" in
  let? _ := guard (match rc with Some v => is_some (json_integer v) | None => true end)
              "finding evidence returncode/rc must be an integer" in
  guard (negb (String.eqb severity "blocking"
               && mem kind ["compile_failure"; "build_failure"; "test_failure"; "validation_failure"]
               && negb (has_command && is_some rc)))
    (kind +:+ " finding evidence requires command and returncode").

(** ** Evidence of a resolution and of a recheck *)

Definition words (s : string) : string := join " " (split_whitespace s).

Definition row_command (row : Value) : option string :=
  or_else (or_else (member "cmd" row) (member "command_text" row) ≫= as_str)
    (parts ← member "command" row ≫= as_list;
     Some (join " " (map (fun part => unwrap_or (as_str part) "") parts))).

Definition successful_command (item : Value) : list string :=
  if negb (is_object item) then []
  else
    let rc := unwrap_or (or_else (member "rc" item) (member "returncode" item) ≫= json_integer) 0 in
    if negb (rc =? 0) then []
    else match row_command item with
         | Some command => let normalized := words command in
                           if is_empty normalized then [] else [normalized]
         | None => []
         end.

Definition command_items (v : Value) : list Value :=
  unwrap_or
    (if is_object v then or_else (member "commands" v) (member "validation" v) ≫= as_list else as_list v) [].

Definition successful_commands (v : Value) : gset string :=
  list_to_set (concat (map successful_command (command_items v))).

Fixpoint validate_items (status : string) (index : nat) (items : list Value) : result string unit :=
  match items with
  | [] => Ok tt
  | item :: rest =>
      let n := u64_to_string (Z.of_nat index) in
      let? _ := guard (is_object item) ("validation item " +:+ n +:+ " must be an object") in
      let rc := member "rc" item in
      let source := existsb (fun key => match member key item with Some v => nonempty_json v | None => false end)
                      ["source_reasoning"; "source_evidence"; "evidence"] in
      let? _ := guard ((text_present item "cmd" && is_some rc) || source)
                  ("validation item " +:+ n +:+ " needs cmd+rc or source evidence") in
      let? _ := match rc with
                | None => Ok tt
                | Some raw =>
                    let? parsed := ok_or (json_integer raw)
                                     ("validation item " +:+ n +:+ " rc must be an integer") in
                    guard (negb (String.eqb status "resolved" && negb (parsed =? 0)))
                      ("resolved validation item " +:+ n +:+ " has nonzero rc=" +:+ i64_to_string parsed)
                end in
      validate_items status (S index) rest
  end.

Definition validate_resolution (status : string) (v : Value) : result string unit :=
  match as_list v with
  | Some ((_ :: _) as items) => validate_items status 0 items
  | _ => Err "validation JSON must be a non-empty array"
  end.

Fixpoint validate_commands (index : nat) (items : list Value) : result string unit :=
  match items with
  | [] => Ok tt
  | item :: rest =>
      let n := u64_to_string (Z.of_nat index) in
      let? _ := guard (is_object item) ("recheck command " +:+ n +:+ " must be an object") in
      let? _ := guard (text_present item "cmd") ("recheck command " +:+ n +:+ " missing cmd") in
      let? rc := ok_or (member "rc" item) ("recheck command " +:+ n +:+ " missing rc") in
      let? rc := ok_or (json_integer rc) ("recheck command " +:+ n +:+ " rc must be an integer") in
      let? _ := guard (rc =? 0) ("recheck command " +:+ n +:+ " has nonzero rc=" +:+ i64_to_string rc) in
      validate_commands (S index) rest
  end.

Definition validate_closure (v : Value) : result string unit :=
  let? _ := guard (is_object v) "recheck JSON must be an object" in
  let? _ := guard (is_true (member "accepted" v)) "recheck JSON must include accepted=true" in
  let? _ := guard (existsb (fun key => is_some (member key v))
                     ["finding_rechecked"; "source_finding_id"; "commands"; "evidence"; "final_diff_hash"])
              "recheck JSON must name the finding, commands, evidence, or final diff hash" in
  match member "commands" v with
  | None => Ok tt
  | Some commands =>
      let? items := ok_or (as_list commands) "recheck commands must be an array when present" in
      validate_commands 0 items
  end.

(** The findings a recheck names. *)
Definition recheck_names (recheck : Value) : list string :=
  omap (fun key => member_str key recheck) ["finding_rechecked"; "source_finding_id"].

Definition missing_commands (resolution recheck : Value) : list string :=
  btree_list (successful_commands resolution ∖ successful_commands recheck).

Definition validate_closure_matches (todo source source_hash : string) (resolution recheck : Value)
  : result string unit :=
  let? _ := guard (is_object recheck) "recheck JSON must be an object" in
  let? _ := guard (mem source (recheck_names recheck))
              ("recheck JSON for todo " +:+ todo +:+ " must name source finding " +:+ source) in
  let? _ := guard (match member_str "source_finding_hash" recheck with
                   | Some hash => is_empty hash || String.eqb hash source_hash
                   | None => true
                   end)
              ("recheck JSON for todo " +:+ todo +:+ " must match source finding hash " +:+ source_hash) in
  let missing := missing_commands resolution recheck in
  guard (bool_decide (missing = []))
    ("recheck JSON for todo " +:+ todo +:+ " must cover worker validation command(s): " +:+ join ", " missing).

(** The final diff a recheck reports. *)
Definition reported_diff (recheck : Value) : string :=
  unwrap_or (or_else (member "final_diff_sha256" recheck) (member "final_diff_hash" recheck) ≫= as_str) "".

(** ** Verdicts *)

Definition drop_whitespace (s : string) : string := concat_all (split_whitespace s).

Definition first_line (text : string) : string :=
  unwrap_or (List.find (fun line => negb (is_empty line)) (map trim (lines text))) "".

(** [accepted_verdict]. *)
Definition accepted_verdict (text : string) : bool :=
  let first := to_ascii_lowercase (first_line text) in
  let accepts prefix := match strip_prefix prefix first with
                        | Some value => starts_with "accepted" (trim value)
                        | None => false
                        end in
  String.eqb first "accepted" || starts_with "accepted " first || accepts "verdict:" || accepts "verdict=".

(** [evidence_matches_hash]: the evidence names the diff, white space and case
    aside. The markers are ASCII, and no other character has a lower-case form
    that completes one, so that [to_lowercase], which [finding_dismiss] calls
    here, finds the same markers. *)
Definition evidence_matches_hash (text expected : string) : bool :=
  let compact := to_ascii_lowercase (drop_whitespace text) in
  let expected := to_ascii_lowercase expected in
  let quoted s := String dquote (s +:+ String dquote "") in
  existsb (fun marker => contains marker compact)
    ["final-diff-sha256=" +:+ expected;
     quoted "final_diff_hash" +:+ ":" +:+ quoted expected;
     quoted "final_diff_sha256" +:+ ":" +:+ quoted expected].

(** ** Directories

    A directory exists when a file lies below it; [create_dir_all] makes an
    entry for the directory itself, the path that ends with a slash. *)
Definition is_dir (fs : gmap string string) (p : string) : bool :=
  existsb (fun q => starts_with (p +:+ "/") q) (map_to_list fs).*1.

Section Findings.
Context `{Platform} `{Git} `{JsonCodec} `{JsonPretty}.

Definition create_dir_all (p context : string) : IO unit := put_file (p +:+ "/") "" (io_error context).

(** [fs::read_to_string(p).unwrap_or(default)]. *)
Definition read_or (p default : string) : IO string :=
  let! fs := get_files in ret (unwrap_or (fs !! p) default).

Definition write_json (p : string) (v : Value) : IO unit :=
  atomic_write p (to_string_pretty v +:+ newline).

Definition file_sha256 (p : string) : IO string :=
  let! fs := get_files in
  lift (ok_or (sha256_hex <$> fs !! p) (io_error "read artifact")).

Definition parse_json (text error : string) : result string Value :=
  ok_or (from_slice text) (error +:+ os_error).

Definition read_json (p context error : string) : IO Value :=
  let! fs := get_files in
  let! text := lift (ok_or (fs !! p) (io_error context)) in
  lift (parse_json text error).

(** [env::var(name).as_deref() == Ok("1")]. *)
Definition env_flag (name : string) : bool := bool_decide (env_var name = Some "1").
Definition uid_authority_child : bool :=
  env_flag "MULTIAGENT_UID_SANDBOX" && env_flag "MULTIAGENT_AUTHORITY_SERVER_CHILD".

Definition start_head : string := unwrap_or (env_nonempty "MULTIAGENT_START_HEAD") "HEAD".

Definition is_ascii_whitespace (c : ascii) : bool :=
  existsb (fun z => code c =? z) [9; 10; 12; 13; 32].

Definition current_final_diff_sha256 : IO string :=
  if negb (env_flag "MULTIAGENT_REQUIRE_HASH_BOUND_VERIFIER") then ret ""
  else
    let! r := lift root in
    let! fs := get_files in
    if negb (is_dir fs r) then ret ""
    else
      let! diff := lift (canonical_diff r start_head fs) in
      if all_chars is_ascii_whitespace diff then ret "" else ret (sha256_hex diff).

(** The sealed message of a reviewer inside the authority supervisor, the last
    message of the subagent elsewhere; it must accept. *)
Definition verifier_evidence (dir verified operation : string) : IO (string * string) :=
  let! evidence_path :=
    if uid_authority_child then
      let directory := path_join (path_join dir "reviewer-evidence") verified in
      let! metadata := read_env (path_join directory "evidence.env") in
      let! _ := check (String.eqb (state_value metadata "role") "reviewer"
                       && String.eqb (state_value metadata "access") "read-only"
                       && String.eqb (state_value metadata "state") "completed")
                  (operation +:+ " requires completed supervisor-sealed reviewer evidence: " +:+ verified) in
      let workflow := unwrap_or (env_var "MULTIAGENT_WORKFLOW_ID") "" in
      let! _ := check (is_empty workflow || String.eqb (state_value metadata "workflow_id") workflow)
                  (operation +:+ " reviewer evidence " +:+ verified +:+ " belongs to a different workflow") in
      let path := path_join directory "last-message.txt" in
      let expected := state_value metadata "output_sha256" in
      let seal_error := operation +:+ " reviewer evidence " +:+ verified +:+ " failed its supervisor seal" in
      let! _ := check (negb (is_empty expected)) seal_error in
      let! actual := file_sha256 path in
      let! _ := check (eq_ignore_ascii_case actual expected) seal_error in
      ret path
    else ret (path_join (path_join (path_join dir "subagents") verified) "last-message.txt") in
  let! ok := is_file evidence_path in
  let! _ := check ok (operation +:+ " requires verifier evidence: " +:+ verified) in
  let! evidence := read_or evidence_path "" in
  let! _ := check (accepted_verdict evidence)
              (operation +:+ " verifier " +:+ verified +:+ " did not ACCEPT") in
  ret (evidence_path, evidence).

(** ** Findings *)

Definition finding_create (args : list string) : IO unit :=
  let! first := lift (first_arg args "finding-create requires FINDING_ID") in
  let id := first.1 in
  let! _ := lift (validate_name id) in
  let! values := lift (repeated_options first.2 []) in
  let! severity := lift (option_required values "--severity" "invalid finding severity: ") in
  let! _ := check (mem severity ["blocking"; "nonblocking"; "warning"])
              ("invalid finding severity: " +:+ severity) in
  let! kind := lift (option_required values "--type" "finding-create requires --type TYPE") in
  let! summary := lift (option_required values "--summary" "finding-create requires --summary TEXT") in
  let! evidence_raw := lift (option_required values "--evidence-json"
                               "finding-create requires --evidence-json JSON") in
  let! required_resolution := lift (option_required values "--required-resolution"
                                      "finding-create requires --required-resolution TEXT") in
  let! _ := lift (all_no_newline [("--type", kind); ("--summary", summary);
                                  ("--required-resolution", required_resolution)]) in
  let! evidence := lift (parse_json evidence_raw "invalid evidence JSON: ") in
  let! _ := lift (validate_finding_evidence severity kind evidence) in
  let! state := lift state_dir in
  let base := path_join state "findings" in
  let! _ := create_dir_all base "create findings directory" in
  let dir := path_join base id in
  let! fs := get_files in
  let! _ := check (negb (is_dir fs dir)) ("finding already exists: " +:+ id) in
  let! _ := create_dir_all dir "create finding directory" in
  let! created := timestamp in
  let! r := lift root in
  let! _ := atomic_write (path_join dir "finding.env")
              (unlines ["finding_id=" +:+ id; "severity=" +:+ severity; "type=" +:+ kind;
                        "summary=" +:+ summary; "required_resolution=" +:+ required_resolution;
                        "created_at=" +:+ created; "root=" +:+ r]) in
  let! _ := atomic_write (path_join dir "evidence.json") (to_vec evidence +:+ newline) in
  let affected := csv_unique (option_first values "--affected") in
  let! _ := atomic_write (path_join dir "affected-paths") (unlines affected) in
  let! _ := write_json (path_join dir "finding.json")
              (VObj [("affected_paths", strings_value affected); ("created_at", VStr created);
                     ("evidence", evidence); ("id", VStr id);
                     ("required_resolution", VStr required_resolution); ("severity", VStr severity);
                     ("summary", VStr summary); ("type", VStr kind)]) in
  println ("finding created" +:+ tabs +:+ id +:+ tabs +:+ severity +:+ tabs +:+ kind).

(** ** TODOs *)

Definition nullable (v : string) : Value := if is_empty v then VNull else VStr v.

Definition nonempty_lines (text : string) : list string :=
  List.filter (fun l => negb (is_empty l)) (lines text).

Definition write_todo_json (dir : string) : IO unit :=
  let! metadata := read_env (path_join dir "todo.env") in
  let! criteria := read_or (path_join dir "done-criteria") "" in
  let! commands := read_or (path_join dir "required-commands") "" in
  let! context := read_or (path_join dir "context.txt") "" in
  let! status := read_or (path_join dir "status") "unknown" in
  let value := state_value metadata in
  let updated := if is_empty (value "updated_at") then value "created_at" else value "updated_at" in
  write_json (path_join dir "todo.json")
    (VObj [("assigned_to", nullable (value "assigned_to")); ("context", VStr context);
           ("created_at", VStr (value "created_at"));
           ("done_criteria", strings_value (nonempty_lines criteria));
           ("required_commands", strings_value (nonempty_lines commands));
           ("source_finding_hash", nullable (value "source_finding_hash"));
           ("source_finding_id", VStr (value "source_finding_id"));
           ("status", VStr (trim status)); ("task", VStr (value "task"));
           ("todo_id", VStr (value "todo_id")); ("updated_at", VStr updated)]).

Definition TODO_ORDER : list string :=
  ["todo_id"; "source_finding_id"; "source_finding_hash"; "assigned_to"; "task"; "created_at";
   "updated_at"; "root"].
Definition todo_text (metadata : gmap string string) : string :=
  unlines (map (fun key => key +:+ "=" +:+ state_value metadata key) TODO_ORDER).

Definition update_todo_state_locked (dir : string) (assigned_to : option string) (status : string)
  : IO unit :=
  let! metadata := read_env (path_join dir "todo.env") in
  let metadata := match assigned_to with
                  | Some value => <["assigned_to" := value]> metadata
                  | None => metadata
                  end in
  let! now := timestamp in
  let metadata := <["updated_at" := now]> metadata in
  let! _ := atomic_write (path_join dir "todo.env") (todo_text metadata) in
  let! _ := atomic_write (path_join dir "status") (status +:+ newline) in
  write_todo_json dir.

Definition update_todo_state (id : string) (assigned_to : option string) (status : string) : IO unit :=
  let! state := lift state_dir in
  let base := path_join state "todos" in
  let! _ := create_dir_all base "create todos directory" in
  let dir := path_join base id in
  let! ok := is_file (path_join dir "todo.env") in
  let! _ := check ok ("no todo: " +:+ id) in
  update_todo_state_locked dir assigned_to status.

Definition todo_assign (args : list string) : IO unit :=
  match args with
  | [id; name] =>
      let! _ := lift (validate_name id) in
      let! _ := lift (validate_name name) in
      let! _ := update_todo_state id (Some name) "assigned" in
      println ("todo assigned" +:+ tabs +:+ id +:+ tabs +:+ name)
  | _ => fail "todo-assign requires TODO_ID NAME"
  end.

Definition todo_status (args : list string) : IO unit :=
  match args with
  | [id; status] =>
      let! _ := lift (validate_name id) in
      let! _ := check (mem status ["open"; "assigned"; "resolved"; "reopened"; "closed"])
                  ("invalid todo status: " +:+ status) in
      let! _ := update_todo_state id None status in
      println ("todo status" +:+ tabs +:+ id +:+ tabs +:+ status)
  | _ => fail "todo-status requires TODO_ID STATUS"
  end.

(** The commands of the criteria of the form [run COMMAND]. *)
Definition criteria_commands (criteria : list string) : list string :=
  foldl push_unique []
    (omap (fun c => (command ← strip_prefix "run " c;
                     if is_empty (trim command) then None else Some (trim command))) criteria).

Fixpoint add_commands (commands extra : list string) : result string (list string) :=
  match extra with
  | [] => Ok commands
  | command :: rest =>
      let? _ := no_newline "--required-command" command in
      let? _ := guard (negb (is_empty command)) "todo-create --required-command may not be empty" in
      add_commands (push_unique commands command) rest
  end.

Definition todo_create (args : list string) : IO unit :=
  let! first := lift (first_arg args "todo-create requires TODO_ID") in
  let id := first.1 in
  let! _ := lift (validate_name id) in
  let! values := lift (repeated_options first.2 ["--done-criteria"; "--required-command"]) in
  let no_source := "todo-create requires --source-finding-id FINDING_ID" in
  let! source := lift (ok_or (or_else (values !! "--source-finding-id") (values !! "--finding") ≫= hd_error)
                         no_source) in
  let! _ := check (negb (is_empty source)) no_source in
  let! _ := lift (validate_name source) in
  let! task := lift (option_required values "--task" "todo-create requires --task TEXT") in
  let! _ := lift (no_newline "--task" task) in
  let criteria := unwrap_or (values !! "--done-criteria") [] in
  let! _ := check (negb (bool_decide (criteria = []))) "todo-create requires at least one --done-criteria TEXT" in
  let! _ := lift (all_no_newline (map (fun c => ("--done-criteria", c)) criteria)) in
  let context := option_first values "--context" in
  let context_file := option_first values "--context-file" in
  let! _ := check (is_empty context || is_empty context_file)
              "todo-create accepts only one of --context or --context-file" in
  let! found := is_file context_file in
  let! _ := check (is_empty context_file || found) ("context file not found: " +:+ context_file) in
  let assigned := option_first values "--assigned-to" in
  let! _ := lift (if is_empty assigned then Ok tt else validate_name assigned) in
  let! state := lift state_dir in
  let finding := path_join (path_join state "findings") source in
  let! ok := is_file (path_join finding "finding.env") in
  let! _ := check ok ("no finding: " +:+ source) in
  let! source_hash := file_sha256 (path_join finding "finding.json") in
  let base := path_join state "todos" in
  let! _ := create_dir_all base "create todos directory" in
  let dir := path_join base id in
  let! fs := get_files in
  let! _ := check (negb (is_dir fs dir)) ("todo already exists: " +:+ id) in
  let! _ := create_dir_all dir "create todo directory" in
  let! created := timestamp in
  let! updated := timestamp in
  let! r := lift root in
  let! _ := atomic_write (path_join dir "todo.env")
              (unlines ["todo_id=" +:+ id; "source_finding_id=" +:+ source;
                        "source_finding_hash=" +:+ source_hash; "assigned_to=" +:+ assigned;
                        "task=" +:+ task; "created_at=" +:+ created; "updated_at=" +:+ updated;
                        "root=" +:+ r]) in
  let! _ := atomic_write (path_join dir "done-criteria") (unlines criteria) in
  let! commands := lift (add_commands (criteria_commands criteria)
                           (unwrap_or (values !! "--required-command") [])) in
  let! _ := atomic_write (path_join dir "required-commands") (unlines commands) in
  let! context_text :=
    if is_empty context_file then ret (context +:+ newline)
    else (let! fs := get_files in lift (ok_or (fs !! context_file) (io_error "read context file"))) in
  let! _ := atomic_write (path_join dir "context.txt") context_text in
  let status := if is_empty assigned then "open" else "assigned" in
  let! _ := atomic_write (path_join dir "status") (status +:+ newline) in
  let! _ := write_todo_json dir in
  println ("todo created" +:+ tabs +:+ id +:+ tabs +:+ source +:+ tabs +:+ status).

(** ** Resolution *)

(** Every required command is covered by a successful one. *)
Fixpoint cover (label todo : string) (covered : gset string) (required : list string)
  : result string unit :=
  match required with
  | [] => Ok tt
  | command :: rest =>
      let? _ := guard (bool_decide (words command ∈ covered))
                  (label +:+ " for todo " +:+ todo +:+ " missing required command: " +:+ command) in
      cover label todo covered rest
  end.
Definition validate_required_commands (dir todo label : string) (v : Value) : IO unit :=
  let! required := read_or (path_join dir "required-commands") "" in
  lift (cover label todo (successful_commands v) (nonempty_lines required)).

Definition write_resolution_json (dir : string) : IO unit :=
  let! metadata := read_env (path_join dir "resolution.env") in
  let! validation := read_json (path_join dir "validation.json") "read validation" "invalid validation JSON: " in
  let! changed := read_or (path_join dir "changed-paths") "" in
  let value key := VStr (state_value metadata key) in
  write_json (path_join dir "resolution.json")
    (VObj [("changed_paths", strings_value (nonempty_lines changed)); ("created_at", value "created_at");
           ("status", value "status"); ("todo_id", value "todo_id"); ("validation", validation);
           ("why_resolved", value "why_resolved"); ("worker", value "worker")]).

(** [MULTIAGENT_RESOLUTION_AUTOCREATE_TODO]: a finding and a TODO for a
    resolution that has none. *)
Definition autocreate (state todo_id why : string) : IO unit :=
  let finding_id := "auto-" +:+ todo_id in
  let! known := is_file (path_join (path_join (path_join state "findings") finding_id) "finding.env") in
  let! _ :=
    if known then ret tt
    else finding_create
           [finding_id; "--severity"; "blocking"; "--type"; "worker_resolution_without_registered_todo";
            "--summary"; "Worker recorded a resolution for an unregistered todo."; "--evidence-json";
            to_vec (VObj [("evidence", VStr why); ("source", VStr "resolution-create-autocreate")]);
            "--required-resolution";
            "Create durable todo state before assigning worker repairs; verifier must close the todo after rechecking the worker resolution."] in
  todo_create
    [todo_id; "--source-finding-id"; finding_id; "--task"; "Record and verify worker resolution evidence.";
     "--context"; why; "--done-criteria"; "worker records structured resolution evidence";
     "--done-criteria"; "verifier closes todo only after objective recheck"].

Definition resolution_create (args : list string) : IO unit :=
  let no_id := "resolution-create requires TODO_ID" in
  let! first := lift (first_arg args no_id) in
  let todo_id := first.1 in
  let! _ := check (negb (starts_with "--" todo_id)) no_id in
  let! _ := lift (validate_name todo_id) in
  let! values := lift (repeated_options first.2 []) in
  let! worker := lift (option_required values "--worker" "resolution-create requires --worker NAME") in
  let! _ := lift (validate_name worker) in
  let! status := lift (option_required values "--status"
                         "resolution-create requires --status resolved|blocked") in
  let! _ := check (mem status ["resolved"; "blocked"]) ("invalid resolution status: " +:+ status) in
  let! validation_raw := lift (option_required values "--validation-json"
                                 "resolution-create requires --validation-json JSON") in
  let! why := lift (option_required values "--why" "resolution-create requires --why TEXT") in
  let! state := lift state_dir in
  let dir := path_join (path_join state "todos") todo_id in
  let! known := is_file (path_join dir "todo.env") in
  let! _ := if negb known && env_flag "MULTIAGENT_RESOLUTION_AUTOCREATE_TODO"
            then autocreate state todo_id why else ret tt in
  let! known := is_file (path_join dir "todo.env") in
  let! _ := check known ("no todo: " +:+ todo_id) in
  let! _ := lift (no_newline "--why" why) in
  let! validation := lift (parse_json validation_raw "invalid validation JSON: ") in
  let! _ := lift (validate_resolution status validation) in
  let! _ := if String.eqb status "resolved"
            then validate_required_commands dir todo_id "worker resolution" validation else ret tt in
  let! created := timestamp in
  let! _ := atomic_write (path_join dir "resolution.env")
              (unlines ["todo_id=" +:+ todo_id; "status=" +:+ status; "worker=" +:+ worker;
                        "why_resolved=" +:+ why; "created_at=" +:+ created]) in
  let! _ := atomic_write (path_join dir "validation.json") (to_vec validation +:+ newline) in
  let changed := csv_unique (option_first values "--changed") in
  let! _ := atomic_write (path_join dir "changed-paths") (unlines changed) in
  let! _ := write_resolution_json dir in
  let! _ := update_todo_state_locked dir None
              (if String.eqb status "resolved" then "resolved" else "reopened") in
  println ("resolution recorded" +:+ tabs +:+ todo_id +:+ tabs +:+ worker +:+ tabs +:+ status).

(** ** Closing a TODO *)

Definition todo_close (args : list string) : IO unit :=
  let! first := lift (first_arg args "todo-close requires TODO_ID") in
  let todo_id := first.1 in
  let! _ := lift (validate_name todo_id) in
  let! values := lift (repeated_options first.2 []) in
  let! verified := lift (option_required values "--verified-by" "todo-close requires --verified-by NAME") in
  let! _ := lift (validate_name verified) in
  let! recheck_raw := lift (option_required values "--recheck-json"
                              "todo-close requires --recheck-json JSON") in
  let notes := option_first values "--notes" in
  let! _ := lift (no_newline "--notes" notes) in
  let! state := lift state_dir in
  let dir := path_join (path_join state "todos") todo_id in
  let! known := is_file (path_join dir "todo.env") in
  let! _ := check known ("no todo: " +:+ todo_id) in
  let! status := read_or (path_join dir "status") "" in
  let! _ := check (String.eqb (trim status) "resolved") "todo-close requires a resolved todo" in
  let! resolved := is_file (path_join dir "resolution.json") in
  let! _ := check resolved "todo-close requires worker resolution evidence" in
  let! recheck := lift (parse_json recheck_raw "invalid recheck JSON: ") in
  let! _ := lift (validate_closure recheck) in
  let! _ := validate_required_commands dir todo_id "verifier recheck" recheck in
  let! found :=
    if uid_authority_child || env_flag "MULTIAGENT_REQUIRE_HASH_BOUND_VERIFIER"
    then verifier_evidence state verified "todo-close"
    else ret (path_join (path_join (path_join state "subagents") verified) "last-message.txt", "") in
  let! final_hash := current_final_diff_sha256 in
  let! _ := check (is_empty final_hash || eq_ignore_ascii_case (reported_diff recheck) final_hash)
              ("todo-close must bind to final diff " +:+ final_hash) in
  let! _ := check (is_empty final_hash || evidence_matches_hash found.2 final_hash)
              ("todo-close verifier " +:+ verified +:+ " is not bound to final diff " +:+ final_hash) in
  let! metadata := read_env (path_join dir "todo.env") in
  let source := state_value metadata "source_finding_id" in
  let source_hash := state_value metadata "source_finding_hash" in
  let! resolution := read_json (path_join dir "resolution.json") "read resolution" "invalid resolution JSON: " in
  let! _ := lift (validate_closure_matches todo_id source source_hash resolution recheck) in
  let! created := timestamp in
  let! _ := atomic_write (path_join dir "closure.env")
              (unlines ["todo_id=" +:+ todo_id; "source_finding_id=" +:+ source;
                        "source_finding_hash=" +:+ source_hash; "verified_by=" +:+ verified;
                        "notes=" +:+ notes; "created_at=" +:+ created]) in
  let! _ := atomic_write (path_join dir "recheck.json") (to_vec recheck +:+ newline) in
  let! _ := write_json (path_join dir "closure.json")
              (VObj [("created_at", VStr created); ("notes", VStr notes); ("recheck", recheck);
                     ("source_finding_hash", nullable source_hash); ("source_finding_id", VStr source);
                     ("todo_id", VStr todo_id); ("verified_by", VStr verified);
                     ("verifier_evidence", VStr found.1)]) in
  let! _ := update_todo_state_locked dir None "closed" in
  println ("todo closed" +:+ tabs +:+ todo_id +:+ tabs +:+ verified).

(** ** Dismissing a finding *)

Definition DISPOSITIONS : list string := ["invalid"; "superseded"; "not_reproducible"].
Definition disposed (recheck : Value) : bool :=
  match member_str "disposition" recheck with Some d => mem d DISPOSITIONS | None => false end.
Definition names_finding (recheck : Value) (id : string) : bool :=
  existsb (fun value => String.eqb (trim value) id) (recheck_names recheck).
Definition has_evidence (recheck : Value) : bool :=
  match member "evidence" recheck with Some v => nonempty_json v | None => false end.

(** The TODOs that were queued for a finding. *)
Definition linked_todos (fs : gmap string string) (todos id : string) : list string :=
  List.filter (fun todo =>
      match fs !! path_join (path_join todos todo) "todo.env" with
      | Some text => String.eqb (state_value (parse_env text) "source_finding_id") id
      | None => false
      end)
    (subdirectories fs todos).

Fixpoint supersede (todos id finding_hash verified evidence_path : string) (recheck : Value)
    (linked : list string) : IO unit :=
  match linked with
  | [] => ret tt
  | todo :: rest =>
      let dir := path_join todos todo in
      let! _ := write_json (path_join dir "supersession.json")
                  (VObj [("recheck", recheck); ("source_finding_hash", VStr finding_hash);
                         ("source_finding_id", VStr id); ("todo_id", VStr todo);
                         ("verified_by", VStr verified); ("verifier_evidence", VStr evidence_path)]) in
      let! _ := update_todo_state_locked dir None "superseded" in
      supersede todos id finding_hash verified evidence_path recheck rest
  end.

Definition finding_dismiss (args : list string) : IO unit :=
  let! first := lift (first_arg args "finding-dismiss requires FINDING_ID") in
  let id := first.1 in
  let! _ := lift (validate_name id) in
  let! values := lift (repeated_options first.2 []) in
  let! verified := lift (option_required values "--verified-by"
                           "finding-dismiss requires --verified-by NAME") in
  let! _ := lift (validate_name verified) in
  let! recheck_raw := lift (option_required values "--recheck-json"
                              "finding-dismiss requires --recheck-json JSON") in
  let notes := option_first values "--notes" in
  let! _ := lift (no_newline "--notes" notes) in
  let! state := lift state_dir in
  let findings := path_join state "findings" in
  let todos := path_join state "todos" in
  let! _ := create_dir_all findings "create findings directory" in
  let! _ := create_dir_all todos "create todos directory" in
  let dir := path_join findings id in
  let! known := is_file (path_join dir "finding.json") in
  let! _ := check known ("no finding: " +:+ id) in
  let! dismissed := is_file (path_join dir "dismissal.json") in
  let! _ := check (negb dismissed) ("finding already dismissed: " +:+ id) in
  let! fs := get_files in
  let linked := linked_todos fs todos id in
  let! found := verifier_evidence state verified "finding-dismiss" in
  let! recheck := lift (parse_json recheck_raw "invalid finding dismissal recheck: ") in
  let! _ := check (is_object recheck) "finding dismissal recheck must be an object" in
  let! _ := check (is_true (member "accepted" recheck)) "finding dismissal recheck must include accepted=true" in
  let! _ := check (names_finding recheck id) ("finding dismissal recheck must name finding " +:+ id) in
  let! _ := check (disposed recheck)
              "finding dismissal disposition must be invalid, superseded, or not_reproducible" in
  let! _ := check (has_evidence recheck) "finding dismissal requires concrete recheck evidence" in
  let! finding_hash := file_sha256 (path_join dir "finding.json") in
  let! final_hash := current_final_diff_sha256 in
  let! _ := check (is_empty final_hash || eq_ignore_ascii_case (reported_diff recheck) final_hash)
              ("finding dismissal must bind to final diff " +:+ final_hash) in
  let! _ := check (is_empty final_hash || evidence_matches_hash found.2 final_hash)
              ("finding dismissal verifier " +:+ verified +:+ " is not bound to final diff " +:+ final_hash) in
  let! _ := write_json (path_join dir "dismissal.json")
              (VObj [("finding_hash", VStr finding_hash); ("finding_id", VStr id); ("notes", VStr notes);
                     ("recheck", recheck); ("verified_by", VStr verified);
                     ("verifier_evidence", VStr found.1)]) in
  let! _ := supersede todos id finding_hash verified found.1 recheck linked in
  println ("finding dismissed" +:+ tabs +:+ id +:+ tabs +:+ verified).

End Findings.
