(* ===== verification/FinalGate.v ===== *)
(** * FinalGate: [runtime/src/subagent.rs], the gate before completion

    The gate settles the status of verifiers that have reported, and then
    rejects for every verifier that still runs, a last verdict that does not
    accept the final diff, a blocking finding that is neither dismissed nor
    queued and closed, and a TODO whose closure or supersession does not stand
    up to an audit of its evidence. The audits read one state of the files; a
    rejection is a line of output, so each audit is the list of its lines. *)

From S2P Require Import Prelude Text State Json LogModel Config Execution Dag Lifecycle Snapshot Findings.

(** The modification time of a file, in nanoseconds: kept by the file system
    next to the contents. *)
Class Modified := modified : gmap string string -> string -> Z.

(** [Path::join]. *)
Definition path_push (p q : string) : string := if is_absolute q then q else path_join p q.

(** ** Verdicts of verifiers *)

Inductive Verdict := ACCEPTED | BLOCKING | MISSING.
#[export] Instance Verdict_eq_dec : EqDecision Verdict.
Proof. solve_decision. Defined.

Definition hash_part (part : string) : bool :=
  match split_once "=" part with
  | Some (key, hash) =>
      mem key ["final_diff_sha256"; "final-diff-sha256"; "final_diff_hash"; "final-diff-hash"]
      && (len hash =? 64) && all_chars is_ascii_hexdigit hash
  | None => false
  end.
Definition verifier_hash_suffix (value : string) : bool := forallb hash_part (split_whitespace value).

Definition with_suffix (word normalized : string) : bool :=
  match strip_prefix word normalized with Some rest => verifier_hash_suffix rest | None => false end.

(** The first word of a recommendation. *)
Definition separators : list string := whitespace ++ [";"; ","; "."; ":"].
Fixpoint until_separator (s : string) : string :=
  match first_some (fun w => strip_prefix w s) separators with
  | Some _ => ""
  | None => match s with EmptyString => "" | String c s' => String c (until_separator s') end
  end.

Definition recommendation (line : string) : option Verdict :=
  let lower := to_ascii_lowercase (trim line) in
  value ← first_some (fun p => strip_prefix p lower)
            ["final recommendation:"; "final-recommendation:"; "recommendation:"; "recommendation="];
  let word := until_separator (trim value) in
  if mem word ["accept"; "accepted"] then Some ACCEPTED
  else if mem word ["block"; "blocking"; "reject"; "rejected"] then Some BLOCKING
  else None.

Definition report_verdict (text : string) : Verdict :=
  let lower := to_ascii_lowercase (first_line text) in
  let normalized := trim (unwrap_or (first_some (fun p => strip_prefix p lower) ["verdict:"; "verdict="]) lower) in
  if String.eqb normalized "accepted" || with_suffix "accepted " normalized then ACCEPTED
  else if mem normalized ["blocking"; "rejected"] || with_suffix "blocking " normalized then BLOCKING
  else unwrap_or (first_some recommendation (lines text)) MISSING.

(** ** Verifiers *)

Definition is_verifier (name : string) : bool :=
  let lower := to_ascii_lowercase name in contains "verifier" lower && negb (contains "build-verifier" lower).
Definition verifier_names (fs : gmap string string) (state : string) : list string :=
  List.filter is_verifier (subdirectories fs (path_join state "subagents")).
Definition subagent_dir (state name : string) : string := path_join (path_join state "subagents") name.

Definition is_running (status : string) : bool := mem (trim status) ["running"; "starting"; "pending"].
Definition file_or (fs : gmap string string) (p default : string) : string := unwrap_or (fs !! p) default.
Definition status_of (fs : gmap string string) (dir : string) : string := file_or fs (path_join dir "status") "".
Definition report_of (fs : gmap string string) (dir : string) : string :=
  file_or fs (path_join dir "last-message.txt") "".

Definition active_verifiers (fs : gmap string string) (state : string) : list (string * string) :=
  omap (fun name => let status := status_of fs (subagent_dir state name) in
                    if is_running status then Some (name, trim status) else None)
    (verifier_names fs state).

Section FinalGate.
Context `{Platform} `{Git} `{JsonCodec} `{JsonPretty} `{Modified}.

Fixpoint reconcile (state : string) (names : list string) : IO unit :=
  match names with
  | [] => ret tt
  | name :: rest =>
      let dir := subagent_dir state name in
      let! fs := get_files in
      let! _ :=
        if negb (is_running (status_of fs dir)) then ret tt
        else match report_verdict (report_of fs dir) with
             | ACCEPTED => atomic_write (path_join dir "status") ("done" +:+ newline)
             | BLOCKING => atomic_write (path_join dir "status") ("blocked" +:+ newline)
             | MISSING => ret tt
             end in
      reconcile state rest
  end.
Definition reconcile_terminal_verifiers (state : string) : IO unit :=
  let! fs := get_files in reconcile state (verifier_names fs state).

(** The verifiers with a report, and the last of them by time and path. *)
Definition candidates (fs : gmap string string) (state : string) : list (Z * string) :=
  omap (fun name => let path := path_join (subagent_dir state name) "last-message.txt" in
                    (fun _ => (modified fs path, name)) <$> fs !! path)
    (verifier_names fs state).
Definition later (x y : Z * string) : Z * string :=
  if (x.1 <? y.1) || ((x.1 =? y.1) && String.leb x.2 y.2) then y else x.
Definition latest (l : list (Z * string)) : option (Z * string) :=
  match l with [] => None | x :: l' => Some (foldl later x l') end.
Definition latest_verifier_verdict (fs : gmap string string) (state : string)
  : option (Verdict * string * string) :=
  (fun c => let dir := subagent_dir state c.2 in
            (report_verdict (report_of fs dir), c.2, path_join dir "last-message.txt"))
    <$> latest (candidates fs state).

(** ** The source diff *)

Definition route_stems : list string := ["route"; "routes"; "router"; "routers"; "routing"].
Definition route_line (line : string) : bool :=
  match strip_prefix DIFF_HEADER line ≫= split_once_str " b/" with
  | Some (_, path) =>
      existsb (fun component =>
                 let component := to_ascii_lowercase component in
                 mem (unwrap_or (hd_error (split "." component)) component) route_stems)
        (split "/" path)
  | None => false
  end.

Definition current_diff_requires_route_probe : IO bool :=
  if negb (env_flag "MULTIAGENT_REQUIRE_HASH_BOUND_VERIFIER") then ret false
  else
    let! r := lift root in
    let! fs := get_files in
    if negb (is_dir fs r) then ret false
    else
      let! diff := lift (canonical_diff r start_head fs) in
      ret (existsb route_line (lines (from_utf8_lossy diff))).

(** ** Audits *)

Definition audit_dismissal (fs : gmap string string) (dir id final_hash : string) : result string unit :=
  let? finding := ok_or (fs !! path_join dir "finding.json") (io_error "read finding") in
  let? text := ok_or (fs !! path_join dir "dismissal.json") (io_error "read dismissal") in
  let? dismissal := parse_json text "invalid dismissal JSON: " in
  let? recheck := ok_or (member "recheck" dismissal) "missing recheck" in
  let? _ := guard (is_object recheck) "missing recheck" in
  let? _ := guard (bool_decide (member_str "finding_id" dismissal = Some id)) "id-mismatch" in
  let? _ := guard (bool_decide (member_str "finding_hash" dismissal = Some (sha256_hex finding)))
              "hash-mismatch" in
  let? _ := guard (is_true (member "accepted" recheck) && names_finding recheck id && disposed recheck
                   && has_evidence recheck) "invalid-recheck" in
  let? evidence_path := ok_or (member_str "verifier_evidence" dismissal) "missing verifier evidence" in
  let? evidence := ok_or (fs !! evidence_path) (io_error "read verifier evidence") in
  let? _ := guard (bool_decide (report_verdict evidence = ACCEPTED)) "verifier-not-accepted" in
  guard (is_empty final_hash
         || (eq_ignore_ascii_case (reported_diff recheck) final_hash
             && evidence_matches_hash evidence final_hash)) "final-diff-mismatch".

Definition rejection (prefix : string) (r : result string unit) : list string :=
  match r with Ok _ => [] | Err reason => [prefix +:+ reason] end.

Definition audit_dismissed_finding (fs : gmap string string) (dir id final_hash : string) : list string :=
  rejection ("reject" +:+ tabs +:+ "invalid-finding-dismissal-evidence" +:+ tabs +:+ "finding=" +:+ id
             +:+ tabs +:+ "reason=") (audit_dismissal fs dir id final_hash).

(** What a superseded TODO needs besides the audit of the dismissal. *)
Definition audit_supersession (fs : gmap string string) (state dir id : string)
  : result string (string * string) :=
  let? text := ok_or (fs !! path_join dir "todo.env") ("read state " +:+ path_join dir "todo.env" +:+ ": " +:+ os_error) in
  let metadata := parse_env text in
  let source := state_value metadata "source_finding_id" in
  let expected_hash := state_value metadata "source_finding_hash" in
  let finding_dir := path_push (path_join state "findings") source in
  let? finding := ok_or (if is_empty source then None else fs !! path_join finding_dir "finding.json")
                    "missing-source-finding" in
  let? _ := guard (negb (is_empty expected_hash) && String.eqb (sha256_hex finding) expected_hash)
              "source-finding-hash-mismatch" in
  let? text := ok_or (fs !! path_join finding_dir "dismissal.json") "source-finding-not-dismissed" in
  let? dismissal := parse_json text "invalid dismissal JSON: " in
  let? text := ok_or (fs !! path_join dir "supersession.json") (io_error "read todo supersession") in
  let? supersession := parse_json text "invalid supersession JSON: " in
  let same key := same_value (member key supersession) (member key dismissal) in
  let? _ := guard (bool_decide (member_str "todo_id" supersession = Some id)
                   && bool_decide (member_str "source_finding_id" supersession = Some source)
                   && bool_decide (member_str "source_finding_hash" supersession = Some expected_hash)
                   && same "verified_by" && same "verifier_evidence" && same "recheck")
              "supersession-binding-mismatch" in
  Ok (finding_dir, source).

Definition audit_superseded_todo (fs : gmap string string) (state dir id final_hash : string) : list string :=
  let prefix := "reject" +:+ tabs +:+ "invalid-todo-supersession" +:+ tabs +:+ "todo=" +:+ id +:+ tabs
                +:+ "reason=" in
  match audit_supersession fs state dir id with
  | Err reason => [prefix +:+ reason]
  | Ok (finding_dir, source) =>
      match audit_dismissed_finding fs finding_dir source final_hash with
      | [] => []
      | rejections => rejections ++ [prefix +:+ "invalid-source-finding-dismissal"]
      end
  end.

Definition audit_closure (fs : gmap string string) (state dir id final_hash : string) : result string unit :=
  let about what := what +:+ tabs +:+ "todo=" +:+ id in
  let invalid error := about "closed-todo-invalid-evidence" +:+ tabs +:+ "reason=" +:+ error in
  let? text := ok_or (fs !! path_join dir "todo.env") ("read state " +:+ path_join dir "todo.env" +:+ ": " +:+ os_error) in
  let metadata := parse_env text in
  let source := state_value metadata "source_finding_id" in
  let expected_hash := state_value metadata "source_finding_hash" in
  let with_finding what := about what +:+ tabs +:+ "finding=" +:+ source in
  let finding_path := path_join (path_push (path_join state "findings") source) "finding.json" in
  let? finding := ok_or (if is_empty source then None else fs !! finding_path)
                    (with_finding "closed-todo-missing-source-finding") in
  let? _ := guard (negb (is_empty expected_hash)) (about "closed-todo-missing-source-finding-hash") in
  let? _ := guard (String.eqb (sha256_hex finding) expected_hash)
              (with_finding "closed-todo-source-finding-hash-changed") in
  let? resolution_text := ok_or (fs !! path_join dir "resolution.json") (about "closed-todo-missing-resolution") in
  let? closure_text := ok_or (fs !! path_join dir "closure.json") (about "closed-todo-missing-verifier-closure") in
  let? resolution := ok_or (from_slice resolution_text) (invalid os_error) in
  let? closure := ok_or (from_slice closure_text) (invalid os_error) in
  let? _ := guard (bool_decide (member_str "todo_id" resolution = Some id)
                   && bool_decide (member_str "status" resolution = Some "resolved"))
              (about "closed-todo-invalid-resolution") in
  let? recheck := ok_or (member "recheck" closure) (about "closed-todo-invalid-closure") in
  let? _ := guard (is_object recheck) (about "closed-todo-invalid-closure") in
  let? _ := guard (bool_decide (member_str "todo_id" closure = Some id) && is_true (member "accepted" recheck))
              (about "closed-todo-invalid-closure") in
  let? _ := guard (bool_decide (member_str "source_finding_hash" closure = Some expected_hash))
              (about "closed-todo-closure-finding-hash-mismatch") in
  let? _ := guard (is_empty final_hash || eq_ignore_ascii_case (reported_diff recheck) final_hash)
              (about "closed-todo-final-diff-hash-mismatch") in
  let? _ := guard (names_finding recheck source) (with_finding "closed-todo-recheck-mismatch") in
  let? _ := match missing_commands resolution recheck with
            | [] => Ok tt
            | command :: _ => Err (about "closed-todo-recheck-missing-worker-command" +:+ tabs +:+ "cmd=" +:+ command)
            end in
  let required := nonempty_lines (file_or fs (path_join dir "required-commands") "") in
  let? _ := map_err invalid (cover "closed todo resolution" id (successful_commands resolution) required) in
  map_err invalid (cover "closed todo verifier recheck" id (successful_commands recheck) required).

Definition audit_closed_todo (fs : gmap string string) (state dir id final_hash : string) : list string :=
  rejection ("reject" +:+ tabs) (audit_closure fs state dir id final_hash).

(** ** The gate *)

Definition reject (parts : list string) : string := join tabs ("reject" :: parts).

Definition verifier_rejections (fs : gmap string string) (state final_hash : string) (route_probe : bool)
  : list string :=
  map (fun nv => reject ["active-verifier"; nv.1; nv.2]) (active_verifiers fs state)
  ++ match latest_verifier_verdict fs state with
     | Some (verdict, name, path) =>
         let about what extra := reject ([what; "verifier=" +:+ name] ++ extra ++ ["evidence=" +:+ path]) in
         match verdict with
         | BLOCKING => [about "latest-verifier-blocking" []]
         | MISSING => [about "latest-verifier-missing-verdict" []]
         | ACCEPTED =>
             if is_empty final_hash then []
             else
               let evidence := file_or fs path "" in
               (if evidence_matches_hash evidence final_hash then []
                else [about "latest-verifier-final-diff-hash-mismatch" ["expected=" +:+ final_hash]])
               ++ (if negb route_probe
                      || contains ("route-integration-probe-passed: final-diff-sha256=" +:+ final_hash) evidence
                   then [] else [about "missing-route-integration-probe" ["expected=" +:+ final_hash]])
         end
     | None => if is_empty final_hash then []
               else [reject ["missing-verifier-acceptance"; "expected=" +:+ final_hash]]
     end.

Definition todo_source (fs : gmap string string) (dir : string) : string :=
  state_value (parse_env (file_or fs (path_join dir "todo.env") "")) "source_finding_id".

Definition finding_rejections (fs : gmap string string) (state final_hash id : string) : list string :=
  let dir := path_join (path_join state "findings") id in
  let todos := path_join state "todos" in
  if negb (String.eqb (state_value (parse_env (file_or fs (path_join dir "finding.env") "")) "severity") "blocking")
  then []
  else if bool_decide (is_Some (fs !! path_join dir "dismissal.json"))
  then audit_dismissed_finding fs dir id final_hash
  else
    match List.filter (fun todo => String.eqb (todo_source fs (path_join todos todo)) id)
            (subdirectories fs todos) with
    | [] => [reject ["unqueued-blocking-finding"; "finding=" +:+ id]]
    | linked =>
        omap (fun todo =>
                let status := trim (status_of fs (path_join todos todo)) in
                if String.eqb status "closed" then None
                else Some (reject ["open-blocking-todo"; "finding=" +:+ id; "todo=" +:+ todo;
                                   "status=" +:+ status])) linked
    end.

Definition todo_rejections (fs : gmap string string) (state final_hash id : string) : list string :=
  let dir := path_join (path_join state "todos") id in
  let status := trim (status_of fs dir) in
  if String.eqb status "superseded" then audit_superseded_todo fs state dir id final_hash
  else if negb (String.eqb status "closed") then [reject ["open-todo"; "todo=" +:+ id; "status=" +:+ status]]
  else audit_closed_todo fs state dir id final_hash.

Definition rejections (fs : gmap string string) (state final_hash : string) (route_probe : bool) : list string :=
  verifier_rejections fs state final_hash route_probe
  ++ concat (map (finding_rejections fs state final_hash) (subdirectories fs (path_join state "findings")))
  ++ concat (map (todo_rejections fs state final_hash) (subdirectories fs (path_join state "todos"))).

(** The digest of the final diff, when verdicts are bound to it, and whether it
    touches routes. *)
Definition source_diff (include_source_diff : bool) : IO (string * bool) :=
  if include_source_diff then
    let! final_hash := current_final_diff_sha256 in
    let! route_probe := current_diff_requires_route_probe in
    ret (final_hash, route_probe)
  else ret ("", false).

Definition completion_gate_check_with_source_diff (include_source_diff : bool) : IO unit :=
  let! state := lift state_dir in
  let! _ := reconcile_terminal_verifiers state in
  let! source := source_diff include_source_diff in
  let! fs := get_files in
  let rejected := rejections fs state source.1 source.2 in
  let! _ := println_all rejected in
  if bool_decide (rejected = []) then println ("accepted" +:+ tabs +:+ "final-gate") else fail "".

Definition completion_gate_check : IO unit := completion_gate_check_with_source_diff true.
Definition external_completion_gate_check : IO unit := completion_gate_check_with_source_diff false.

Definition gate_check (args : list string) : IO unit :=
  let! _ := check (bool_decide (args = [])) "gate-check takes no arguments" in
  completion_gate_check_with_source_diff true.

End FinalGate.
