(* ===== verification/FinalGateFacts.v ===== *)
(** * FinalGateFacts: what the gate before completion decides

    The specification of the gate over the files, and that the audits, the
    verdicts and the whole command decide it. *)

From S2P Require Import Prelude Text State Json LogModel Config Execution Dag Lifecycle Snapshot Findings FinalGate.

(** ** Chains of checks *)

Lemma ok_or_then {A B} (o : option A) e (k : A -> result string B) b :
  rbind (ok_or o e) k = Ok b <-> exists a, o = Some a /\ k a = Ok b.
Proof. rewrite rbind_ok. by setoid_rewrite ok_or_ok. Qed.
Lemma guard_then {B} (c : bool) e (k : result string B) b :
  rbind (guard c e) (fun _ => k) = Ok b <-> c = true /\ k = Ok b.
Proof. destruct c; simpl; naive_solver. Qed.
Lemma guard_iff (c : bool) (e : string) u : guard c e = Ok u <-> c = true.
Proof. destruct u. apply guard_ok. Qed.
Lemma map_err_then {B} f (c : result string unit) (k : result string B) b :
  rbind (map_err f c) (fun _ => k) = Ok b <-> c = Ok tt /\ k = Ok b.
Proof. destruct c as [[]|]; simpl; naive_solver. Qed.

Lemma unless_empty h (b : bool) : is_empty h || b = true <-> (h <> "" -> b = true).
Proof.
  destruct (is_empty h) eqn:E; [apply is_empty_true in E|apply is_empty_false in E]; naive_solver.
Qed.

Lemma impl_iff (P Q : Prop) : P -> ((P -> Q) <-> Q).
Proof. tauto. Qed.

Lemma rejection_nil prefix r : rejection prefix r = [] <-> r = Ok tt.
Proof. destruct r as [[]|]; naive_solver. Qed.

Lemma concat_map_nil {A B} (f : A -> list B) l : concat (map f l) = [] <-> forall x, x ∈ l -> f x = [].
Proof.
  induction l as [|x l IH]; simpl; [set_solver|]. split.
  - intros [Hx Hl]%app_eq_nil y [->|Hy]%elem_of_cons; [done|by apply IH].
  - intros Hx. rewrite (Hx x) by set_solver. apply IH. set_solver.
Qed.
Lemma map_nil_iff {A B} (f : A -> B) l : map f l = [] <-> l = [].
Proof. by destruct l. Qed.
Lemma omap_nil {A B} (f : A -> option B) l : omap f l = [] <-> forall x, x ∈ l -> f x = None.
Proof.
  induction l as [|x l IH]; simpl; [set_solver|]. destruct (f x) eqn:E.
  - split; [done|]. intros Hx. rewrite (Hx x) in E; [done|set_solver].
  - rewrite IH. set_solver.
Qed.

(** ** The specification *)

Section Spec.
Context `{Platform} `{JsonCodec}.
Implicit Types (fs : gmap string string) (state dir id h : string).

(** The recheck of a dismissal accepts it for a reason, with evidence. *)
Definition dismisses (recheck : Value) (id : string) : Prop :=
  is_true (member "accepted" recheck) = true /\ names_finding recheck id = true
  /\ disposed recheck = true /\ has_evidence recheck = true.

(** A dismissal is backed by the accepting report of a verifier for exactly
    this finding and, where diffs are bound, this diff. *)
Definition dismissal_backed fs dir id h : Prop :=
  exists finding text dismissal recheck path evidence,
    fs !! path_join dir "finding.json" = Some finding
    /\ fs !! path_join dir "dismissal.json" = Some text /\ from_slice text = Some dismissal
    /\ member "recheck" dismissal = Some recheck /\ is_object recheck = true
    /\ member_str "finding_id" dismissal = Some id
    /\ member_str "finding_hash" dismissal = Some (sha256_hex finding)
    /\ dismisses recheck id
    /\ member_str "verifier_evidence" dismissal = Some path /\ fs !! path = Some evidence
    /\ report_verdict evidence = ACCEPTED
    /\ (h <> "" -> eq_ignore_ascii_case (reported_diff recheck) h = true
                  /\ evidence_matches_hash evidence h = true).

(** The finding of a TODO, unchanged since the TODO was queued. *)
Definition bound_finding fs state dir source hash : Prop :=
  exists metadata finding,
    fs !! path_join dir "todo.env" = Some metadata
    /\ source = state_value (parse_env metadata) "source_finding_id"
    /\ hash = state_value (parse_env metadata) "source_finding_hash"
    /\ source <> "" /\ hash <> ""
    /\ fs !! path_join (path_push (path_join state "findings") source) "finding.json" = Some finding
    /\ sha256_hex finding = hash.

(** A superseded TODO repeats the dismissal of its finding, which is backed. *)
Definition supersession_backed fs state dir id h : Prop :=
  exists source hash text dismissal text' supersession,
    bound_finding fs state dir source hash
    /\ fs !! path_join (path_push (path_join state "findings") source) "dismissal.json" = Some text
    /\ from_slice text = Some dismissal
    /\ fs !! path_join dir "supersession.json" = Some text' /\ from_slice text' = Some supersession
    /\ member_str "todo_id" supersession = Some id
    /\ member_str "source_finding_id" supersession = Some source
    /\ member_str "source_finding_hash" supersession = Some hash
    /\ (forall key, key ∈ ["verified_by"; "verifier_evidence"; "recheck"] ->
          same_value (member key supersession) (member key dismissal) = true)
    /\ dismissal_backed fs (path_push (path_join state "findings") source) source h.

(** A closed TODO has a resolution, an accepting recheck of the same finding
    and diff, and the recheck repeats every command of the worker; both cover
    the required commands. *)
Definition closure_backed fs state dir id h : Prop :=
  exists source hash text resolution text' closure recheck,
    bound_finding fs state dir source hash
    /\ fs !! path_join dir "resolution.json" = Some text /\ from_slice text = Some resolution
    /\ fs !! path_join dir "closure.json" = Some text' /\ from_slice text' = Some closure
    /\ member_str "todo_id" resolution = Some id /\ member_str "status" resolution = Some "resolved"
    /\ member "recheck" closure = Some recheck /\ is_object recheck = true
    /\ member_str "todo_id" closure = Some id /\ is_true (member "accepted" recheck) = true
    /\ member_str "source_finding_hash" closure = Some hash
    /\ (h <> "" -> eq_ignore_ascii_case (reported_diff recheck) h = true)
    /\ names_finding recheck source = true
    /\ successful_commands resolution ⊆ successful_commands recheck
    /\ forall command, command ∈ nonempty_lines (file_or fs (path_join dir "required-commands") "") ->
         words command ∈ successful_commands resolution ∩ successful_commands recheck.

Definition blocking fs state id : Prop :=
  state_value (parse_env (file_or fs (path_join (path_join (path_join state "findings") id) "finding.env") ""))
    "severity" = "blocking".
Definition is_linked fs state id todo : Prop :=
  todo ∈ subdirectories fs (path_join state "todos")
  /\ todo_source fs (path_join (path_join state "todos") todo) = id.
Definition todo_state fs state todo : string := trim (status_of fs (path_join (path_join state "todos") todo)).

(** A blocking finding is dismissed with backing, or queued and closed. *)
Definition finding_settled fs state h id : Prop :=
  let dir := path_join (path_join state "findings") id in
  if decide (is_Some (fs !! path_join dir "dismissal.json")) then dismissal_backed fs dir id h
  else (exists todo, is_linked fs state id todo)
       /\ forall todo, is_linked fs state id todo -> todo_state fs state todo = "closed".

Definition todo_settled fs state h id : Prop :=
  let dir := path_join (path_join state "todos") id in
  todo_state fs state id = "superseded" /\ supersession_backed fs state dir id h
  \/ todo_state fs state id = "closed" /\ closure_backed fs state dir id h.

Definition report_path state name : string := path_join (subagent_dir state name) "last-message.txt".
End Spec.

Section VerifierSpec.
Context `{Modified}.

(** The verifier whose report was written last; equal times are decided by the
    path. *)
Definition is_latest (fs : gmap string string) (state name : string) : Prop :=
  name ∈ verifier_names fs state /\ is_Some (fs !! report_path state name)
  /\ forall other, other ∈ verifier_names fs state -> is_Some (fs !! report_path state other) ->
       modified fs (report_path state other) < modified fs (report_path state name)
       \/ (modified fs (report_path state other) = modified fs (report_path state name)
           /\ String.leb other name = true).

Definition verifiers_settled (fs : gmap string string) (state h : string) (route_probe : bool) : Prop :=
  (forall name, name ∈ verifier_names fs state -> is_running (status_of fs (subagent_dir state name)) = false)
  /\ (h = "" /\ (forall name, name ∈ verifier_names fs state -> fs !! report_path state name = None)
      \/ exists name evidence,
           is_latest fs state name /\ fs !! report_path state name = Some evidence
           /\ report_verdict evidence = ACCEPTED
           /\ (h <> "" ->
               evidence_matches_hash evidence h = true
               /\ (route_probe = true ->
                   contains ("route-integration-probe-passed: final-diff-sha256=" +:+ h) evidence = true))).
End VerifierSpec.

(** Everything that verifiers, findings and TODOs ask for before completion. *)
Definition settled `{Platform} `{JsonCodec} `{Modified} (fs : gmap string string) (state h : string)
    (route_probe : bool) : Prop :=
  verifiers_settled fs state h route_probe
  /\ (forall id, id ∈ subdirectories fs (path_join state "findings") -> blocking fs state id ->
       finding_settled fs state h id)
  /\ (forall id, id ∈ subdirectories fs (path_join state "todos") -> todo_settled fs state h id).

(** ** The audits decide the specification *)

Lemma cover_ok label todo covered required u :
  cover label todo covered required = Ok u <-> forall command, command ∈ required -> words command ∈ covered.
Proof.
  induction required as [|c l IH]; cbn [cover]; [destruct u; set_solver|].
  rewrite guard_then, IH, bool_decide_eq_true. set_solver.
Qed.

Lemma missing_commands_nil resolution recheck :
  missing_commands resolution recheck = [] <->
  successful_commands resolution ⊆ successful_commands recheck.
Proof.
  unfold missing_commands. split.
  - intros Hm x Hx. destruct (decide (x ∈ successful_commands recheck)); [done|].
    assert (x ∈ btree_list (successful_commands resolution ∖ successful_commands recheck)) as Hin
      by (apply btree_list_elem; set_solver). rewrite Hm in Hin. set_solver.
  - intros Hs. replace (successful_commands resolution ∖ successful_commands recheck) with (∅ : gset string)
      by set_solver. reflexivity.
Qed.

(** One step of an audit whose facts are in the context. *)
Ltac facts :=
  repeat match goal with
  | |- _ && _ = true => apply andb_true_iff; split
  | |- bool_decide _ = true => apply bool_decide_eq_true
  | |- negb _ = true => apply negb_true_iff
  | |- String.eqb _ _ = true => apply String.eqb_eq
  | |- is_empty _ = false => apply is_empty_false
  end; eauto.
Ltac audit_step :=
  match goal with
  | |- rbind (ok_or _ _) _ = Ok _ => apply ok_or_then; eexists; split; [eassumption|]
  | |- rbind (guard _ _) _ = Ok _ => apply guard_then; split; [solve [facts]|]
  end.

Section Audits.
Context `{Platform} `{JsonCodec}.

Lemma audit_dismissal_iff fs dir id h :
  audit_dismissal fs dir id h = Ok tt <-> dismissal_backed fs dir id h.
Proof.
  unfold audit_dismissal, dismissal_backed, dismisses, parse_json. split.
  - intros Hok. inv_ok. bool_hyps. pose proof (proj1 (unless_empty _ _) Hok) as Hh.
    do 6 eexists. split_and!; try eassumption. intros Hne. specialize (Hh Hne). by bool_hyps.
  - intros (finding & text & dismissal & recheck & path & evidence & H1 & H2 & H3 & H4 & H5 & H6 & H7
      & (H8 & H9 & H10 & H11) & H12 & H13 & H14 & H15).
    repeat audit_step.
    apply guard_iff, unless_empty. intros Hne. destruct (H15 Hne) as [-> ->]. done.
Qed.

Lemma source_present (source : string) (o : option string) finding :
  (if is_empty source then None else o) = Some finding <-> source <> "" /\ o = Some finding.
Proof. destruct (is_empty source) eqn:E; [apply is_empty_true in E|apply is_empty_false in E]; naive_solver. Qed.

Lemma audit_supersession_iff fs state dir id h :
  audit_superseded_todo fs state dir id h = [] <-> supersession_backed fs state dir id h.
Proof.
  unfold audit_superseded_todo, supersession_backed. split.
  - destruct (audit_supersession fs state dir id) as [[finding_dir source]|] eqn:E; [|done].
    destruct (audit_dismissed_finding _ _ _ _) eqn:Ea; [intros _|done].
    apply rejection_nil, audit_dismissal_iff in Ea. unfold audit_supersession, parse_json in E. inv_ok.
    match goal with Hs : (if is_empty _ then None else _) = Some _ |- _ => apply source_present in Hs as [Hne Hs] end.
    simplify_eq. bool_hyps. do 6 eexists. split_and!; try eassumption.
    + do 2 eexists. split_and!; try eassumption; try done. by apply is_empty_false.
    + intros key. rewrite !elem_of_cons, elem_of_nil. by intros [->|[->|[->|[]]]].
  - intros (source & hash & text & dismissal & text' & supersession & (metadata & finding & H1 & H2 & H3 & H4 & H5 & H6
      & H7) & H8 & H9 & H10 & H11 & H12 & H13 & H14 & H15 & H16%audit_dismissal_iff).
    assert (audit_supersession fs state dir id = Ok (path_push (path_join state "findings") source, source)) as ->.
    { unfold audit_supersession, parse_json. audit_step. rewrite <- H2, <- H3.
      apply ok_or_then. eexists. split; [by apply source_present|]. repeat audit_step.
      apply guard_then. split; [|done]. facts; apply H15; set_solver. }
    unfold audit_dismissed_finding. by rewrite H16.
Qed.

Lemma audit_closure_iff fs state dir id h :
  audit_closure fs state dir id h = Ok tt <-> closure_backed fs state dir id h.
Proof.
  unfold audit_closure, closure_backed. split.
  - intros Hok. inv_ok.
    match goal with Hs : (if is_empty _ then None else _) = Some _ |- _ => apply source_present in Hs as [Hne Hs] end.
    match goal with Hm : match missing_commands ?r ?c with _ => _ end = Ok _ |- _ =>
      destruct (missing_commands r c) eqn:Hmiss; [|done] end.
    apply missing_commands_nil in Hmiss.
    repeat match goal with Hc : cover _ _ _ _ = Ok _ |- _ => rewrite cover_ok in Hc end.
    match goal with Hh : is_empty h || _ = true |- _ => pose proof (proj1 (unless_empty _ _) Hh) end.
    bool_hyps. do 7 eexists. split_and!; try eassumption.
    + do 2 eexists. split_and!; try eassumption; try done. by apply is_empty_false.
    + intros command Hin. apply elem_of_intersection. eauto.
  - intros (source & hash & text & resolution & text' & closure & recheck & (metadata & finding & H1 & H2 & H3 & H4
      & H5 & H6 & H7) & H8 & H9 & H10 & H11 & H12 & H13 & H14 & H15 & H16 & H17 & H18 & H19 & H20 & H21 & H22).
    audit_step. rewrite <- H2, <- H3. apply ok_or_then. eexists. split; [by apply source_present|].
    repeat audit_step. apply guard_then. split; [by apply unless_empty|]. audit_step.
    rewrite (proj2 (missing_commands_nil _ _) H21). cbn [rbind].
    apply map_err_then. rewrite cover_ok, map_err_ok, cover_ok. set_solver.
Qed.
End Audits.

(** ** The latest verdict *)

Definition earlier (x y : Z * string) : Prop := x.1 < y.1 \/ (x.1 = y.1 /\ String.leb x.2 y.2 = true).

Lemma earlier_refl x : earlier x x.
Proof. right. split; [done|]. by destruct (str_leb_total x.2 x.2). Qed.
Lemma earlier_trans x y z : earlier x y -> earlier y z -> earlier x z.
Proof.
  intros [H1|[H1 L1]] [H2|[H2 L2]]; [left; lia..|right]. split; [lia|]. by eapply str_leb_trans.
Qed.
Lemma later_spec x y : (later x y = x \/ later x y = y) /\ earlier x (later x y) /\ earlier y (later x y).
Proof.
  unfold later. destruct (Z.ltb_spec x.1 y.1) as [Hlt|Hge]; cbn [orb].
  - split_and!; [by right|by left|apply earlier_refl].
  - destruct (Z.eqb_spec x.1 y.1) as [He|Hne]; cbn [andb].
    + destruct (String.leb x.2 y.2) eqn:E; [split_and!; [by right|by right|apply earlier_refl]|].
      split_and!; [by left|apply earlier_refl|]. right. split; [done|].
      destruct (str_leb_total x.2 y.2); congruence.
    + split_and!; [by left|apply earlier_refl|left; lia].
Qed.

Lemma latest_spec l c : latest l = Some c -> c ∈ l /\ forall x, x ∈ l -> earlier x c.
Proof.
  destruct l as [|x l]; [done|]. intros [= <-]. revert x. induction l as [|y l IH]; intros x; cbn [foldl].
  - split; [set_solver|]. intros x' ->%list_elem_of_singleton. apply earlier_refl.
  - destruct (later_spec x y) as (Hxy & Hx & Hy). destruct (IH (later x y)) as [Hin Hall]. split.
    + destruct Hxy as [->| ->]; set_solver.
    + assert (earlier (later x y) (foldl later (later x y) l)) as Hl by (apply Hall; set_solver).
      intros z. rewrite !elem_of_cons. intros [->|[->|Hz]]; [by eapply earlier_trans..|apply Hall; set_solver].
Qed.

Lemma earlier_antisym x y : earlier x y -> earlier y x -> x = y.
Proof.
  destruct x as [a s], y as [b t]. unfold earlier. simpl. intros [H1|[-> L1]] [H2|[H2 L2]]; try lia.
  f_equal. by apply str_leb_antisym.
Qed.

Section Verifiers.
Context `{Modified}.
Implicit Types (fs : gmap string string) (state h name : string).

Lemma candidates_elem fs state c :
  c ∈ candidates fs state <->
  c.2 ∈ verifier_names fs state /\ is_Some (fs !! report_path state c.2)
  /\ c.1 = modified fs (report_path state c.2).
Proof.
  unfold candidates. rewrite list_elem_of_omap. split.
  - intros (name & Hn & He). apply fmap_Some in He as (t & Ht & ->). simpl. eauto.
  - destruct c as [m name]. simpl. intros (Hn & [t Ht] & ->). exists name. split; [done|].
    unfold report_path in *. by rewrite Ht.
Qed.

Lemma latest_iff fs state name :
  latest (candidates fs state) = Some (modified fs (report_path state name), name) <-> is_latest fs state name.
Proof.
  split.
  - intros [Hin Hall]%latest_spec. apply candidates_elem in Hin as (Hn & Hr & _). split_and!; [done..|].
    intros other Ho Hro. apply (Hall (modified fs (report_path state other), other)), candidates_elem. done.
  - intros (Hn & Hr & Hall).
    assert ((modified fs (report_path state name), name) ∈ candidates fs state) as Hin by (by apply candidates_elem).
    destruct (latest (candidates fs state)) as [c|] eqn:E.
    + apply latest_spec in E as [Hc Hmax]. f_equal. apply earlier_antisym; [|by apply Hmax].
      apply candidates_elem in Hc as (Hcn & Hcr & Hcm). destruct (Hall _ Hcn Hcr) as [?|[? ?]]; [left|right]; simpl; lia || (split; [lia|done]).
    + unfold latest in E. destruct (candidates fs state); [set_solver|done].
Qed.

Lemma no_candidates fs state :
  latest (candidates fs state) = None <->
  forall name, name ∈ verifier_names fs state -> fs !! report_path state name = None.
Proof.
  unfold latest, candidates. split.
  - intros Hl name Hn. destruct (omap _ _) as [|x l] eqn:E; [|done]. rewrite omap_nil in E.
    specialize (E name Hn). by apply fmap_None in E.
  - intros Hall. rewrite (proj2 (omap_nil _ _)); [done|]. intros name Hn. by rewrite (Hall name Hn : fs !! path_join (subagent_dir state name) "last-message.txt" = None).
Qed.

Lemma latest_candidate fs state c :
  latest (candidates fs state) = Some c -> c.1 = modified fs (report_path state c.2) /\ is_latest fs state c.2.
Proof.
  intros Hl. assert (c.1 = modified fs (report_path state c.2)) as Hm.
  { apply latest_spec in Hl as [Hin _]. by apply candidates_elem in Hin as (_ & _ & Hm). }
  split; [done|]. apply latest_iff. destruct c. simpl in *. by subst.
Qed.

Lemma active_nil fs state :
  active_verifiers fs state = [] <->
  forall name, name ∈ verifier_names fs state -> is_running (status_of fs (subagent_dir state name)) = false.
Proof.
  unfold active_verifiers. rewrite omap_nil. split; intros Hall name Hn; specialize (Hall name Hn).
  - by destruct (is_running _).
  - by rewrite Hall.
Qed.

Lemma verifier_rejections_nil fs state h probe :
  verifier_rejections fs state h probe = [] <-> verifiers_settled fs state h probe.
Proof.
  unfold verifier_rejections, verifiers_settled, latest_verifier_verdict. rewrite app_nil, map_nil_iff, active_nil.
  apply and_iff_compat_l. destruct (latest (candidates fs state)) as [c|] eqn:E; cbn [fmap option_fmap option_map].
  - apply latest_candidate in E as [_ Hl]. pose proof Hl as (Hn & [evidence Hr] & Hmax).
    change (path_join (subagent_dir state c.2) "last-message.txt") with (report_path state c.2).
    change (report_of fs (subagent_dir state c.2)) with (file_or fs (report_path state c.2) "").
    unfold file_or. rewrite Hr. cbn [unwrap_or]. split.
    + intros Hrej. right. exists c.2, evidence. split_and!; [done..| |].
      * by destruct (report_verdict evidence).
      * intros Hne%is_empty_false. destruct (report_verdict evidence); [|done..]. rewrite Hne in Hrej.
        apply app_nil in Hrej as [H1 H2]. split; [by destruct (evidence_matches_hash _ _)|].
        intros ->. cbn [negb orb] in H2. by destruct (contains _ _).
    + intros [[_ Hnone]|(name & evidence' & Hl' & Hr' & Hacc & Hb)]; [by rewrite Hnone in Hr|].
      apply latest_iff in Hl, Hl'. rewrite Hl in Hl'. injection Hl' as _ <-. rewrite Hr in Hr'. injection Hr' as <-.
      rewrite Hacc. destruct (is_empty h) eqn:Eh; [done|]. apply is_empty_false in Eh. destruct (Hb Eh) as [-> Hp].
      destruct probe; [|done]. by rewrite Hp.
  - pose proof (proj1 (no_candidates _ _) E) as Hnone. split.
    + intros Hrej. left. split; [|done]. destruct (is_empty h) eqn:Eh; [by apply is_empty_true|done].
    + intros [[-> _]|(name & evidence & (Hn & [t Ht] & _) & _)]; [done|]. by rewrite Hnone in Ht.
Qed.
End Verifiers.

(** ** The rejections decide the specification *)

Section Rejections.
Context `{Platform} `{JsonCodec}.
Implicit Types (fs : gmap string string) (state h id : string).

Lemma linked_elem fs state id todo :
  todo ∈ List.filter (fun todo => String.eqb (todo_source fs (path_join (path_join state "todos") todo)) id)
           (subdirectories fs (path_join state "todos")) <-> is_linked fs state id todo.
Proof. rewrite list_elem_of_In, filter_In, <- list_elem_of_In, String.eqb_eq. done. Qed.

Lemma finding_rejections_nil fs state h id :
  finding_rejections fs state h id = [] <-> (blocking fs state id -> finding_settled fs state h id).
Proof.
  unfold finding_rejections, blocking, finding_settled.
  destruct (String.eqb_spec (state_value (parse_env (file_or fs (path_join (path_join (path_join state "findings") id)
    "finding.env") "")) "severity") "blocking") as [Hb|Hb]; cbn [negb]; [|naive_solver].
  rewrite (impl_iff _ _ Hb). case_bool_decide as Hd; case_decide; try done.
  { unfold audit_dismissed_finding. by rewrite rejection_nil, audit_dismissal_iff. }
  setoid_rewrite <- linked_elem. set (linked := List.filter _ _). destruct linked as [|todo linked'] eqn:El.
  { split; [done|]. intros [[todo Hin] _]. set_solver. }
  rewrite omap_nil. unfold todo_state. split.
  - intros Hall. split; [exists todo; set_solver|]. intros todo' Hin. specialize (Hall todo' Hin). simpl in Hall.
    destruct (String.eqb_spec (trim (status_of fs (path_join (path_join state "todos") todo'))) "closed"); done.
  - intros [_ Hall] todo' Hin. by rewrite (Hall todo' Hin).
Qed.

Lemma todo_rejections_nil fs state h id :
  todo_rejections fs state h id = [] <-> todo_settled fs state h id.
Proof.
  unfold todo_rejections, todo_settled. fold (todo_state fs state id).
  destruct (String.eqb_spec (todo_state fs state id) "superseded") as [->|Hs].
  { rewrite audit_supersession_iff. naive_solver. }
  destruct (String.eqb_spec (todo_state fs state id) "closed") as [->|Hc]; cbn [negb].
  { unfold audit_closed_todo. rewrite rejection_nil, audit_closure_iff. naive_solver. }
  naive_solver.
Qed.

Lemma rejections_nil `{Modified} fs state h probe :
  rejections fs state h probe = [] <-> settled fs state h probe.
Proof.
  unfold rejections, settled. rewrite !app_nil, verifier_rejections_nil, !concat_map_nil.
  setoid_rewrite finding_rejections_nil. by setoid_rewrite todo_rejections_nil.
Qed.
End Rejections.
