(* ===== verification/FindingsFacts.v ===== *)
(** * FindingsFacts: the commands on findings and TODOs, file by file *)

From S2P Require Import Prelude Text State Json LogModel Config Execution Dag Lifecycle Snapshot Findings FinalGate.
From S2P Require Import FinalGateFacts.

(** ** Paths *)

Lemma after_last_app c a f : has_char c f = false -> after_last c (a +:+ String c f) = Some (a, f).
Proof.
  intros Hf. assert (after_last c f = None) as Hn.
  { revert Hf. induction f as [|d f IH]; simpl; [done|]. intros [Hd Hf]%orb_false_iff.
    rewrite IH by done. by rewrite Hd. }
  induction a as [|d a IH]; cbn [String.append after_last].
  - by rewrite Hn, Ascii.eqb_refl.
  - by rewrite IH.
Qed.

(** Paths with different last names are different. *)
Lemma path_join_ne a b f g :
  has_char "/" f = false -> has_char "/" g = false -> f <> g -> path_join a f <> path_join b g.
Proof.
  intros Hf Hg Hne Heq. unfold path_join in Heq. change ("/" +:+ f) with (String "/" f) in Heq.
  change ("/" +:+ g) with (String "/" g) in Heq. apply (f_equal (after_last "/")) in Heq.
  rewrite !after_last_app in Heq by done. congruence.
Qed.

Ltac other_file := apply path_join_ne; [reflexivity..|discriminate].

(** ** Names *)

Lemma strip_none {A} (f : string -> option A) l : (forall w, w ∈ l -> f w = None) -> first_some f l = None.
Proof. induction l as [|w l IH]; simpl; [done|]. intros Hl. rewrite Hl by set_solver. apply IH. set_solver. Qed.

Lemma name_trim s : all_chars name_char s = true -> trim s = s.
Proof.
  intros Hs.
  assert (forall w, w ∈ whitespace -> exists c r, w = String c r /\ name_char c = false) as Hfst.
  { intros w Hw. assert (forallb (fun w => match w with String c _ => negb (name_char c) | _ => false end) whitespace = true)
      as Hall by reflexivity. rewrite forallb_forall in Hall. apply list_elem_of_In, Hall in Hw.
    destruct w as [|c r]; [done|]. apply negb_true_iff in Hw. eauto. }
  assert (forall w, w ∈ whitespace -> all_chars name_char w = false) as Hall.
  { intros w (c & r & -> & Hc)%Hfst. simpl. by rewrite Hc. }
  assert (trim_start s = s) as Hstart.
  { unfold trim_start. destruct (String.length s) eqn:El; [done|]. cbn [strip_all]. rewrite strip_none; [done|].
    intros w Hw. destruct (strip_prefix w s) eqn:E; [|done]. apply strip_prefix_some in E as ->.
    rewrite all_chars_app, Hall in Hs by done. done. }
  unfold trim. rewrite Hstart. unfold trim_end. destruct (String.length s) eqn:El; [done|]. cbn [strip_all].
  rewrite strip_none; [done|]. intros w Hw. destruct (strip_suffix w s) eqn:E; [|done].
  apply strip_suffix_some in E as ->. rewrite all_chars_app, (Hall w Hw), andb_false_r in Hs. done.
Qed.

Lemma validate_name_ok name u : validate_name name = Ok u -> all_chars name_char name = true /\ name <> "".
Proof.
  unfold validate_name. intros Hv. inv_ok. bool_hyps.
  split; [done|]. by apply is_empty_false.
Qed.

Lemma names_exact recheck source :
  all_chars name_char source = true -> mem source (recheck_names recheck) = true ->
  names_finding recheck source = true.
Proof.
  intros Hs Hm. unfold names_finding, mem in *. apply existsb_exists in Hm as (v & Hv & He%String.eqb_eq).
  subst v. apply existsb_exists. exists source. split; [done|]. by rewrite name_trim, String.eqb_refl.
Qed.

(** ** Env files whose values may end in a carriage return *)

Lemma strip_cr_cons c s : s <> "" -> strip_cr (String c s) = String c (strip_cr s).
Proof.
  intros Hne. unfold strip_cr. destruct (strip_suffix (String cr "") s) as [r|] eqn:E.
  - apply strip_suffix_some in E as ->. by rewrite (proj2 (strip_suffix_some (String cr "") (String c (r +:+ String cr "")) (String c r)) eq_refl).
  - destruct (strip_suffix (String cr "") (String c s)) as [r|] eqn:E2; [|done]. apply strip_suffix_some in E2.
    destruct r as [|d r]; injection E2 as -> ->; [done|].
    by rewrite (proj2 (strip_suffix_some (String cr "") _ r) eq_refl) in E.
Qed.

Lemma strip_cr_env kv : strip_cr (env_line kv) = env_line (kv.1, strip_cr kv.2).
Proof.
  unfold env_line. simpl. destruct kv as [k v]. simpl. induction k as [|c k IH]; cbn [String.append].
  - destruct v; [done|]. by apply strip_cr_cons.
  - rewrite strip_cr_cons, IH; [done|]. by destruct k.
Qed.

Definition env_weak (kv : string * string) : bool :=
  clean kv.1 && negb (has_char "=" kv.1) && negb (has_char nl kv.2).

Lemma parse_env_weak kvs :
  forallb env_weak kvs = true ->
  parse_env (print_env kvs) = foldl (fun m kv => <[kv.1 := strip_cr kv.2]> m) ∅ kvs.
Proof.
  intros Hw. unfold parse_env, print_env.
  pose proof (lines_unlines_weak (map env_line kvs) "") as Hl. rewrite str_app_nil_r, app_nil_r in Hl. rewrite Hl.
  - clear Hl. generalize (∅ : gmap string string). induction kvs as [|kv kvs IH]; intros m; [done|].
    cbn [forallb] in Hw. apply andb_true_iff in Hw as [Hkv Hw]. cbn [map]. rewrite strip_cr_env.
    unfold env_weak in Hkv. bool_hyps. unfold env_line at 1. cbn [fst snd].
    simpl. rewrite split_once_app by done. simpl. by apply IH.
  - apply Forall_forall. intros l. rewrite list_elem_of_In, in_map_iff. intros (kv & <- & Hkv).
    rewrite forallb_forall in Hw. specialize (Hw kv Hkv). unfold env_weak, clean in Hw. bool_hyps.
    unfold env_line. rewrite has_char_app. simpl.
    repeat match goal with Hc : has_char nl _ = false |- _ => rewrite Hc; clear Hc end. done.
Qed.

Lemma parse_env_weak_value kvs k v :
  forallb env_weak kvs = true -> NoDup kvs.*1 -> (k, v) ∈ kvs -> has_char cr v = false ->
  state_value (parse_env (print_env kvs)) k = v.
Proof.
  intros Hw Hnd Hin Hv. unfold state_value. rewrite parse_env_weak by done. clear Hw. revert Hnd Hin.
  generalize (∅ : gmap string string).
  assert (forall (l : list (string * string)) (m : gmap string string), k ∉ l.*1 ->
            foldl (fun m kv => <[kv.1 := strip_cr kv.2]> m) m l !! k = m !! k) as Hout.
  { induction l as [|[k' v'] l IH]; intros m; simpl; [done|]. rewrite not_elem_of_cons. intros [Hne Hk].
    rewrite IH by done. by rewrite lookup_insert_ne. }
  induction kvs as [|[k' v'] kvs IH]; intros m; simpl; [set_solver|].
  rewrite NoDup_cons, elem_of_cons. intros [Hk Hnd] [[= <- <-]|Hin]; [|by apply IH].
  rewrite Hout, lookup_insert_eq by done. by apply strip_cr_id.
Qed.

(** ** Successful runs

    [ok_wp m Q fs]: whenever [m] succeeds on the files [fs], its value and the
    files it leaves satisfy [Q]. *)

Definition ok_wp {A} (m : IO A) (Q : A -> gmap string string -> Prop) (fs : gmap string string) : Prop :=
  wp m (fun r fs' => forall a, r = Ok a -> Q a fs') fs.

Section OkWp.
Context {A : Type}.
Implicit Types (Q : A -> gmap string string -> Prop) (fs : gmap string string).

Lemma ok_bind {B} (m : IO B) (k : B -> IO A) Q fs :
  ok_wp m (fun b fs' => ok_wp (k b) Q fs') fs -> ok_wp (bind m k) Q fs.
Proof.
  intros Hm. apply wp_bind. eapply wp_mono; [exact Hm|]. intros [b|e] fs' Hb; [by apply Hb|done].
Qed.
Lemma ok_mono (m : IO A) Q Q' fs : ok_wp m Q fs -> (forall a fs', Q a fs' -> Q' a fs') -> ok_wp m Q' fs.
Proof. intros Hm HQ. eapply wp_mono; [exact Hm|]. intros r fs' Hr a Ha. by apply HQ, Hr. Qed.
Lemma ok_ret (a : A) Q fs : Q a fs -> ok_wp (ret a) Q fs.
Proof. intros HQ. apply wp_ret. by intros b [= <-]. Qed.
Lemma ok_fail e Q fs : ok_wp (fail e) Q fs.
Proof. by apply wp_fail. Qed.
Lemma ok_lift (c : result string A) Q fs : (forall a, c = Ok a -> Q a fs) -> ok_wp (lift c) Q fs.
Proof. intros HQ. apply wp_lift; [|done]. intros a Ha b [= <-]. by apply HQ. Qed.
Lemma ok_reader (m : IO A) Q fs : reader m -> (forall a, eval m fs = Ok a -> Q a fs) -> ok_wp m Q fs.
Proof. intros Hm HQ. by apply wp_reader. Qed.
Lemma ok_run (m : IO A) Q w a w' : ok_wp m Q (files w) -> m w = (Ok a, w') -> Q a (files w').
Proof. intros Hm Hr. by apply (Hm w (Ok a) w' eq_refl Hr). Qed.
End OkWp.

Lemma ok_check b e Q fs : (b = true -> Q tt fs) -> ok_wp (check b e) Q fs.
Proof. intros HQ. apply wp_check; [|done]. by intros Hb [] _; apply HQ. Qed.
Lemma ok_get_files Q fs : Q fs fs -> ok_wp get_files Q fs.
Proof. intros HQ. apply wp_get_files. by intros a [= <-]. Qed.
Lemma ok_is_file p Q fs : Q (bool_decide (is_Some (fs !! p))) fs -> ok_wp (is_file p) Q fs.
Proof. intros HQ. apply wp_is_file. by intros a [= <-]. Qed.
Lemma ok_println s Q fs : Q tt fs -> ok_wp (println s) Q fs.
Proof. intros HQ. apply wp_println. by intros [] _. Qed.
Lemma ok_timestamp `{Platform} `{HC : !ClockClean} Q fs :
  (forall now, clean_field now = true -> Q now fs) -> ok_wp timestamp Q fs.
Proof. intros HQ. apply wp_timestamp. intros now Hn a [= <-]. by apply HQ. Qed.
Lemma ok_put p t e Q fs : Q tt (<[p := t]> fs) -> ok_wp (put_file p t e) Q fs.
Proof. intros HQ. apply wp_put_file; [|done]. by intros [] _. Qed.

(** One step of a successful run; reads of the files are kept as equations. *)
Ltac ok_prim :=
  lazymatch goal with
  | |- ok_wp (lift _) _ _ => apply ok_lift; intros ? ?
  | |- ok_wp (check _ _) _ _ => apply ok_check; intros ?
  | |- ok_wp get_files _ _ => apply ok_get_files
  | |- ok_wp (is_file _) _ _ => apply ok_is_file
  | |- ok_wp (println _) _ _ => apply ok_println
  | |- ok_wp timestamp _ _ => apply ok_timestamp; intros ? ?
  | |- ok_wp (put_file _ _ _) _ _ => apply ok_put
  | |- ok_wp (atomic_write _ _) _ _ => apply ok_put
  | |- ok_wp (write_json _ _) _ _ => apply ok_put
  | |- ok_wp (create_dir_all _ _) _ _ => apply ok_put
  | |- ok_wp (ret _) _ _ => apply ok_ret
  | |- ok_wp (fail _) _ _ => apply ok_fail
  | |- ok_wp _ _ _ => apply ok_reader; [solve [readers]|intros ? ?]
  end.
Ltac ok_step :=
  lazymatch goal with
  | |- ok_wp (bind _ _) _ _ => apply ok_bind; ok_prim
  | _ => ok_prim
  end; cbn beta iota.

(** ** Reading *)

Section Facts.
Context `{Platform} `{Git} `{JsonCodec} `{JsonPretty}.
Implicit Types (fs : gmap string string).

Lemma eval_read_or p d fs t : eval (read_or p d) fs = Ok t <-> t = file_or fs p d.
Proof. unfold eval, read_or, file_or. simpl. naive_solver. Qed.

Lemma reader_read_env p : reader (read_env p).
Proof. unfold read_env. readers. Qed.
Lemma reader_read_json p c e : reader (read_json p c e).
Proof. unfold read_json. readers. Qed.
Lemma reader_file_sha256 p : reader (file_sha256 p).
Proof. unfold file_sha256. readers. Qed.
Lemma reader_required dir todo label v : reader (validate_required_commands dir todo label v).
Proof. unfold validate_required_commands, read_or. readers. Qed.
Lemma reader_read_or p d : reader (read_or p d).
Proof. unfold read_or. readers. Qed.
#[local] Hint Resolve reader_read_env reader_read_json reader_file_sha256 reader_required reader_read_or : readers.
Lemma reader_verifier_evidence dir verified operation : reader (verifier_evidence dir verified operation).
Proof. unfold verifier_evidence. readers. Qed.
Lemma reader_final_diff : reader current_final_diff_sha256.
Proof. unfold current_final_diff_sha256. readers. Qed.

Lemma eval_read_env p fs m : eval (read_env p) fs = Ok m <-> exists t, fs !! p = Some t /\ m = parse_env t.
Proof. unfold eval, read_env, bind, get_files. simpl. destruct (fs !! p); naive_solver. Qed.
Lemma eval_read_json p c e fs v :
  eval (read_json p c e) fs = Ok v <-> exists t, fs !! p = Some t /\ from_slice t = Some v.
Proof.
  unfold eval, read_json, bind, get_files, parse_json, lift. simpl. destruct (fs !! p) as [t|]; simpl; [|naive_solver].
  rewrite ok_or_ok. naive_solver.
Qed.
Lemma eval_required dir todo label v fs u :
  eval (validate_required_commands dir todo label v) fs = Ok u <->
  forall command, command ∈ nonempty_lines (file_or fs (path_join dir "required-commands") "") ->
    words command ∈ successful_commands v.
Proof. apply cover_ok. Qed.

(** ** The state of a TODO *)

Definition assign (assigned_to : option string) (now : string) (metadata : gmap string string)
  : gmap string string :=
  <["updated_at" := now]> (match assigned_to with
                           | Some value => <["assigned_to" := value]> metadata
                           | None => metadata
                           end).

(** [fs'] is [fs] after the TODO below [dir] was set to [status]. *)
Definition todo_updated (dir : string) (assigned_to : option string) (status : string) fs fs' : Prop :=
  fs' !! path_join dir "status" = Some (status +:+ newline)
  /\ (exists text now, clean_field now = true /\ fs !! path_join dir "todo.env" = Some text
        /\ fs' !! path_join dir "todo.env" = Some (todo_text (assign assigned_to now (parse_env text))))
  /\ forall d f, f ∉ ["status"; "todo.env"; "todo.json"] -> has_char "/" f = false ->
       fs' !! path_join d f = fs !! path_join d f.

Lemma ok_update_todo `{HC : !ClockClean} dir assigned_to status fs :
  ok_wp (update_todo_state_locked dir assigned_to status) (fun _ => todo_updated dir assigned_to status fs) fs.
Proof.
  unfold update_todo_state_locked, write_todo_json. ok_step.
  match goal with E : eval (read_env _) fs = Ok _ |- _ => apply eval_read_env in E as (text & Ht & ->) end.
  do 9 ok_step. split_and!.
  - rewrite lookup_insert_ne by other_file. apply lookup_insert_eq.
  - eexists text, _. split_and!; [eassumption|done|]. rewrite !lookup_insert_ne by other_file.
    apply lookup_insert_eq.
  - intros d f Hf Hc. rewrite !elem_of_cons in Hf. rewrite !lookup_insert_ne; [done|..];
      apply path_join_ne; try done; intros <-; apply Hf; auto.
Qed.

Lemma todo_text_value md k :
  k ∈ TODO_ORDER -> (forall k, k ∈ TODO_ORDER -> clean (state_value md k) = true) ->
  state_value (parse_env (todo_text md)) k = state_value md k.
Proof.
  intros Hk Hc. unfold todo_text. apply parse_env_keys; [|done|reflexivity|done].
  unfold TODO_ORDER. repeat constructor; set_solver.
Qed.
End Facts.

#[export] Hint Resolve reader_read_env reader_read_json reader_file_sha256 reader_required reader_read_or
  reader_verifier_evidence reader_final_diff : readers.

#[export] Hint Resolve reader_read_env reader_read_json reader_file_sha256 reader_required reader_read_or : readers.
