(* ===== verification/Policy.v ===== *)
(** * Policy: [runtime/src/policy.rs]

    The write policy: paths below the root are writable, others only when an
    approval for them or an ancestor is recorded. *)

From S2P Require Import Prelude Text State Config Execution Dag Lifecycle Findings.

(** [fs::canonicalize] on absolute paths: the resolved path, when the path
    exists. Links are the file system's, so it is a parameter. *)
Class Resolver := resolve : gmap string string -> string -> option string.

Definition POLICY_TEMPLATE : string :=
  unlines
    ["# Multiagent repo write policy";
     "#";
     "# Default allowed write root is $MULTIAGENT_ROOT for the launched session.";
     "# Orchestrator-owned: workers should not edit this file directly.";
     "# Add approvals only with:";
     "#   multiagent policy approve PATH --actor ACTOR --assignment-id ID --reason TEXT [--force]";
     "#";
     "# Records are TSV:";
     "#   approval<TAB>timestamp<TAB>actor<TAB>assignment_id<TAB>requested_path<TAB>canonical_path<TAB>reason<TAB>force";
     "# Blank lines and comments are ignored. Legacy bare absolute path lines are read";
     "# for compatibility but new approvals must be structured records."].

(** ** Paths as components *)

(** An absolute path from its components after the root. *)
Definition component_text (c : PathComponent) : string :=
  match c with CurDir => "." | ParentDir => ".." | Normal s => s end.
Definition render (cs : list PathComponent) : string := "/" +:+ join "/" (map component_text cs).

(** [normalize_lexically] on the components of an absolute path. *)
Definition pop (cs : list PathComponent) : list PathComponent := removelast cs.
Definition normalize_step (out : list PathComponent) (c : PathComponent) : list PathComponent :=
  match c with
  | ParentDir => pop out
  | CurDir => out
  | other => out ++ [other]
  end.
Definition normalize_lexically (cs : list PathComponent) : list PathComponent := foldl normalize_step [] cs.

(** [Path::starts_with] for absolute paths: by components; equality of paths is
    the same relation both ways. *)
Fixpoint is_prefix (root path : list PathComponent) : bool :=
  match root, path with
  | [], _ => true
  | c :: root', d :: path' => bool_decide (c = d) && is_prefix root' path'
  | _ :: _, [] => false
  end.
Definition inside (path root : string) : bool := is_prefix (components root) (components path).
Definition same_path (p q : string) : bool := bool_decide (components p = components q).

Definition file_name (cs : list PathComponent) : option string :=
  match last cs with Some (Normal s) => Some s | _ => None end.

(** [Path::parent]. *)
Definition path_parent (p : string) : option string :=
  match components p with
  | [] => None
  | cs => Some (if is_absolute p then render (pop cs) else join "/" (map component_text (pop cs)))
  end.

(** [Path::join] with a relative second path: no second slash after one. *)
Definition push_path (p q : string) : string :=
  if is_empty p then q else if ends_with "/" p then p +:+ q else path_join p q.

Definition POLICY_USAGE : string :=
  join newline
    ["Usage:";
     "  multiagent policy init";
     "  multiagent policy show";
     "  multiagent policy check PATH [...]";
     "  multiagent policy approve PATH --actor ACTOR --assignment-id ID --reason TEXT [--force]"].

Section Policy.
Context `{Platform} `{Resolver}.

(** [Path::exists] and [Path::is_dir]. *)
Definition path_exists (fs : gmap string string) (p : string) : bool := is_some (resolve fs p).
Definition path_is_dir (fs : gmap string string) (p : string) : bool :=
  match resolve fs p with Some c => is_dir fs c || String.eqb c "/" | None => false end.

(** The walk from a missing path up to an existing ancestor. Every step drops a
    component, so their number is enough fuel; the root itself has no parent. *)
Fixpoint find_ancestor (fuel : nat) (fs : gmap string string) (ancestor : list PathComponent)
    (missing : list string) : option (list PathComponent * list string) :=
  if path_exists fs (render ancestor) then Some (ancestor, missing)
  else match fuel with
  | O => None
  | S n =>
      match ancestor with
      | [] => None
      | _ => find_ancestor n fs (pop ancestor)
               (match file_name ancestor with Some name => missing ++ [name] | None => missing end)
      end
  end.

Definition canonical_path (fs : gmap string string) (path : string) : result string string :=
  let? absolute := if is_absolute path then Ok path
                   else (let? cwd := map_err (fun e => "determine current directory: " +:+ e) current_dir in
                         Ok (push_path cwd path)) in
  let cs := components absolute in
  if path_exists fs absolute then
    if path_is_dir fs absolute then ok_or (resolve fs absolute) (io_error "canonicalize path")
    else
      let? up := ok_or (path_parent absolute) ("path has no parent: " +:+ absolute) in
      let? parent := ok_or (resolve fs up) (io_error "canonicalize path parent") in
      Ok (push_path parent (unwrap_or (file_name cs) ""))
  else
    let? found := ok_or (find_ancestor (length cs) fs cs []) ("cannot resolve path: " +:+ absolute) in
    let? resolved := ok_or (resolve fs (render found.1)) (io_error "canonicalize path ancestor") in
    Ok (render (normalize_lexically (components resolved ++ map Normal (reverse found.2)))).

(** ** The policy file *)

Record Policy := mkPolicy { policy_root : string; policy_path : string }.

Definition policy_configured : result string Policy :=
  let? r := root in
  Ok (mkPolicy r (unwrap_or (env_nonempty "MULTIAGENT_WRITE_POLICY") (path_join r "docs/write-policy.paths"))).

(** The directory of the policy; the lock file in it is read by nobody. *)
Definition policy_lock (p : Policy) : IO unit :=
  let! parent := lift (ok_or (path_parent (policy_path p)) ("policy path has no parent: " +:+ policy_path p)) in
  create_dir_all parent "create policy directory".

Definition init_locked (p : Policy) : IO unit :=
  let! known := is_file (policy_path p) in
  if known then ret tt else atomic_write (policy_path p) POLICY_TEMPLATE.

Definition policy_init (p : Policy) : IO unit :=
  let! _ := policy_lock p in init_locked p.

Definition canonical_root (p : Policy) : IO string :=
  let! _ := create_dir_all (policy_root p) "create write root" in
  let! fs := get_files in
  lift (ok_or (resolve fs (policy_root p)) (io_error "canonicalize write root")).

(** The path a line of the policy approves. *)
Definition candidate (raw : string) : option string :=
  let line := trim (unwrap_or (hd_error (split "#" raw)) "") in
  if is_empty line then None
  else if starts_with ("approval" +:+ tabs) line then
    let fields := split tab line in
    if (length fields <? 6)%nat then None
    else let path := nth 5 fields "" in if is_empty path then None else Some path
  else Some line.

Fixpoint canonical_all (fs : gmap string string) (paths : list string) : result string (list string) :=
  match paths with
  | [] => Ok []
  | path :: rest =>
      let? c := canonical_path fs path in
      let? cs := canonical_all fs rest in
      Ok (c :: cs)
  end.

Definition approved_paths (fs : gmap string string) (p : Policy) : result string (list string) :=
  match fs !! policy_path p with
  | None => Ok []
  | Some text => canonical_all fs (omap candidate (lines text))
  end.

(** ** Commands *)

Definition policy_show (p : Policy) : IO unit :=
  let! _ := policy_init p in
  let! r := canonical_root p in
  let! _ := println ("Default write root: " +:+ r) in
  let! _ := println ("Policy file: " +:+ policy_path p) in
  let! _ := println "Approved outside write roots:" in
  let! fs := get_files in
  let! approved := lift (approved_paths fs p) in
  match List.filter (fun path => negb (inside path r)) approved with
  | [] => println "  (none)"
  | outside => println_all (map (fun path => "  " +:+ path) outside)
  end.

Definition is_allowed (r : string) (approved : list string) (path : string) : bool :=
  inside path r || existsb (inside path) approved.

Fixpoint check_paths (fs : gmap string string) (r : string) (approved : list string) (denied : bool)
    (paths : list string) : IO bool :=
  match paths with
  | [] => ret denied
  | raw :: rest =>
      let! path := lift (canonical_path fs raw) in
      let allowed := is_allowed r approved path in
      let! _ := println ((if allowed then "allowed" else "denied") +:+ tabs +:+ path) in
      check_paths fs r approved (denied || negb allowed) rest
  end.

Definition policy_check (p : Policy) (paths : list string) : IO unit :=
  let! _ := check (negb (bool_decide (paths = []))) "check requires at least one PATH" in
  let! _ := policy_init p in
  let! r := canonical_root p in
  let! fs := get_files in
  let! approved := lift (approved_paths fs p) in
  let! denied := check_paths fs r approved false paths in
  check (negb denied) "".

Record Approval := mkApproval { actor : string; assignment_id : string; reason : string; force : bool }.

Fixpoint approve_options (a : Approval) (args : list string) : result string Approval :=
  match args with
  | [] => Ok a
  | option :: rest =>
      if String.eqb option "--force"
      then approve_options (mkApproval (actor a) (assignment_id a) (reason a) true) rest
      else if mem option ["--actor"; "--assignment-id"; "--reason"] then
        match rest with
        | [] => Err (option +:+ " requires a value")
        | value :: rest' =>
            approve_options
              (if String.eqb option "--actor" then mkApproval value (assignment_id a) (reason a) (force a)
               else if String.eqb option "--assignment-id" then mkApproval (actor a) value (reason a) (force a)
               else mkApproval (actor a) (assignment_id a) value (force a)) rest'
        end
      else Err ("unknown approve argument: " +:+ option)
  end.

Definition BROAD : list string :=
  ["/"; "/tmp"; "/private/tmp"; "/var/tmp"; "/Users"; "/home"; "/opt"; "/usr"; "/var"; "/private"; "/Applications"].
Definition broad_approval (path r : string) : bool :=
  existsb (same_path path) BROAD
  || match env_var "HOME" with Some home => is_absolute home && same_path path home | None => false end
  || (negb (bool_decide (components r = []))
      && bool_decide (components path = pop (components r))).

Definition reject_record_field (label current : string) : result string unit :=
  guard (negb (has_any [nl; cr; tab] current)) (label +:+ " may not contain tabs or newlines").

Definition approval_line (now : string) (a : Approval) (requested canonical : string) : string :=
  join tabs ["approval"; now; actor a; assignment_id a; requested; canonical; reason a;
             if force a then "1" else "0"] +:+ newline.

Definition policy_approve (p : Policy) (args : list string) : IO unit :=
  let! requested := lift (ok_or (hd_error args) "approve requires PATH") in
  let! a := lift (approve_options (mkApproval "" "" "" false) (tl args)) in
  let! _ := check (negb (is_empty (actor a))) "approve requires --actor ACTOR" in
  let! _ := check (negb (is_empty (assignment_id a))) "approve requires --assignment-id ID" in
  let! _ := check (negb (is_empty (reason a))) "approve requires --reason TEXT" in
  let! _ := policy_lock p in
  let! _ := init_locked p in
  let! r := canonical_root p in
  let! fs := get_files in
  let! canonical := lift (canonical_path fs requested) in
  if inside canonical r then println ("already allowed by default root: " +:+ canonical)
  else
    let! approved := lift (approved_paths fs p) in
    if existsb (same_path canonical) approved then println ("already approved: " +:+ canonical)
    else
      let! _ := check (negb (broad_approval canonical r && negb (force a)))
                  ("refusing broad outside approval without --force: " +:+ canonical) in
      let! _ := lift (reject_record_field "actor" (actor a)) in
      let! _ := lift (reject_record_field "assignment ID" (assignment_id a)) in
      let! _ := lift (reject_record_field "requested path" requested) in
      let! _ := lift (reject_record_field "reason" (reason a)) in
      let! now := timestamp in
      let! _ := append_file (policy_path p) (approval_line now a requested canonical)
                  (io_error "append write policy") in
      println ("approved outside write root: " +:+ canonical +:+ (if force a then " (forced)" else "")).

Definition policy_run (args : list string) : IO unit :=
  match args with
  | [] => println POLICY_USAGE
  | command :: rest =>
      if mem command ["-h"; "--help"] then println POLICY_USAGE
      else
        let! p := lift policy_configured in
        if String.eqb command "init" then
          let! _ := check (bool_decide (rest = [])) "init takes no arguments" in policy_init p
        else if String.eqb command "show" then
          let! _ := check (bool_decide (rest = [])) "show takes no arguments" in policy_show p
        else if String.eqb command "check" then policy_check p rest
        else if String.eqb command "approve" then policy_approve p rest
        else fail ("unknown command: " +:+ command)
  end.

End Policy.
