(* ===== verification/PolicyProps.v ===== *)
(** * PolicyProps: what the write policy allows *)

From S2P Require Import Prelude Text State Config Execution Dag DagProps Lifecycle Findings Policy FindingsFacts Instances.

(** Resolution depends on which paths exist, not on what files hold. *)
Class ResolverNames `{Resolver} : Prop :=
  resolve_names : forall fs fs' p, dom fs = dom fs' -> resolve fs p = resolve fs' p.

(** ** Containment *)

Lemma is_prefix_iff root path : is_prefix root path = true <-> root `prefix_of` path.
Proof.
  revert path. induction root as [|c root IH]; intros [|d path]; simpl.
  - split; [intros _; apply prefix_nil|done].
  - split; [intros _; apply prefix_nil|done].
  - split; [done|]. intros [k Hk]. done.
  - rewrite andb_true_iff, bool_decide_eq_true, IH. split.
    + intros [-> Hp]. by apply prefix_cons.
    + intros Hp. split; [by eapply prefix_cons_inv_1|by eapply prefix_cons_inv_2].
Qed.

Lemma inside_iff path root : inside path root = true <-> components root `prefix_of` components path.
Proof. apply is_prefix_iff. Qed.

Section Canonical.
Context `{Platform} `{Resolver}.

(** ** The walk to an existing ancestor *)

Lemma find_ancestor_total fs fuel cs missing :
  path_exists fs "/" = true -> (length cs <= fuel)%nat ->
  exists found, find_ancestor fuel fs cs missing = Some found /\ path_exists fs (render found.1) = true.
Proof.
  intros Hroot. revert cs missing. induction fuel as [|n IH]; intros cs missing Hlen; cbn [find_ancestor].
  - destruct cs; [|simpl in Hlen; lia]. change (render []) with "/". rewrite Hroot. eauto.
  - destruct (path_exists fs (render cs)) eqn:E; [eauto|]. destruct cs as [|c cs]; [by change (render []) with "/" in E; rewrite Hroot in E|].
    apply IH. unfold pop. rewrite removelast_firstn_len, length_firstn. simpl in *. lia.
Qed.

Definition normal_name (c : PathComponent) : option string :=
  match c with Normal s => Some s | _ => None end.

Lemma find_ancestor_names fs fuel cs missing ancestor found :
  find_ancestor fuel fs cs missing = Some (ancestor, found) ->
  exists rest, cs = ancestor ++ rest /\ found = missing ++ reverse (omap normal_name rest).
Proof.
  revert cs missing. induction fuel as [|n IH]; intros cs missing; cbn [find_ancestor];
    (destruct (path_exists fs (render cs)); [intros [= <- <-]; exists []; by rewrite !app_nil_r|]); [done|].
  destruct cs as [|c0 cs0] eqn:Ecs; [done|]. rewrite <- Ecs.
  destruct (exists_last (l := cs)) as (init & c & ->); [by subst|]. unfold pop, file_name.
  rewrite removelast_last, last_snoc. intros (rest & -> & ->)%IH. exists (rest ++ [c]). split; [by rewrite app_assoc|].
  rewrite omap_app, reverse_app. by destruct c; cbn; rewrite <- ?app_assoc.
Qed.

(** Resolving a path that does not exist always ends. The walk up reaches an
    existing ancestor before the components run out, so the error for an
    unresolvable path is never returned below an existing root, and the result
    is the resolved ancestor followed by the named components below it. *)
Theorem missing_path_resolves fs path :
  path_exists fs "/" = true -> is_absolute path = true -> path_exists fs path = false ->
  exists ancestor rest q,
    components path = ancestor ++ rest /\ resolve fs (render ancestor) = Some q
    /\ canonical_path fs path = Ok (render (normalize_lexically (components q ++ map Normal (omap normal_name rest)))).
Proof.
  intros Hroot Habs Hno.
  destruct (find_ancestor_total fs (length (components path)) (components path) [] Hroot) as ([anc found] & Hf & He); [done|].
  destruct (find_ancestor_names _ _ _ _ _ _ Hf) as (rest & Hcs & ->).
  unfold path_exists in He. cbn [fst] in He. destruct (resolve fs (render anc)) as [q|] eqn:Eq; [|done].
  exists anc, rest, q. split_and!; [done|done|]. unfold canonical_path. rewrite Habs. cbn [rbind].
  rewrite Hno, Hf. cbn [ok_or rbind fst snd]. rewrite Eq. cbn [ok_or rbind].
  by rewrite app_nil_l, reverse_involutive.
Qed.

(** ** The list of approvals *)

Lemma canonical_all_app fs l k :
  canonical_all fs (l ++ k) =
  (let? cs := canonical_all fs l in let? ds := canonical_all fs k in Ok (cs ++ ds)).
Proof.
  induction l as [|p l IH]; cbn [app canonical_all rbind].
  - by destruct (canonical_all fs k).
  - destruct (canonical_path fs p); [|done]. cbn [rbind]. rewrite IH.
    destruct (canonical_all fs l); [|done]. cbn [rbind]. by destruct (canonical_all fs k).
Qed.

Lemma path_exists_names `{HN : !ResolverNames} fs fs' p : dom fs = dom fs' -> path_exists fs p = path_exists fs' p.
Proof. intros Hd. unfold path_exists. by rewrite (resolve_names fs fs'). Qed.

Lemma dom_same_prefix (fs fs' : gmap string string) p : dom fs = dom fs' -> is_dir fs p = is_dir fs' p.
Proof.
  intros Hd. unfold is_dir. apply Bool.eq_iff_eq_true. rewrite !existsb_exists.
  assert (forall q, In q (map_to_list fs).*1 <-> In q (map_to_list fs').*1) as Heq.
  { intros q. rewrite <- !list_elem_of_In. rewrite !list_elem_of_fmap. split.
    - intros ([k v] & -> & Hk%elem_of_map_to_list). assert (k ∈ dom fs') as [v' Hv']%elem_of_dom
        by (rewrite <- Hd; by eapply elem_of_dom_2). exists (k, v'). by rewrite elem_of_map_to_list.
    - intros ([k v] & -> & Hk%elem_of_map_to_list). assert (k ∈ dom fs) as [v' Hv']%elem_of_dom
        by (rewrite Hd; by eapply elem_of_dom_2). exists (k, v'). by rewrite elem_of_map_to_list. }
  split; intros (q & Hq & Hs); exists q; split; try done; by apply Heq.
Qed.

Lemma canonical_path_names `{HN : !ResolverNames} fs fs' p :
  dom fs = dom fs' -> canonical_path fs p = canonical_path fs' p.
Proof.
  intros Hd. unfold canonical_path. destruct (if is_absolute p then _ else _) as [a|e]; [|done]. cbn [rbind].
  rewrite (path_exists_names fs fs') by done. destruct (path_exists fs' a).
  - unfold path_is_dir. rewrite (resolve_names fs fs') by done.
    destruct (resolve fs' a) as [c|]; [rewrite (dom_same_prefix fs fs') by done|].
    all: destruct (path_parent a); [|done]; cbn [ok_or rbind]; by rewrite (resolve_names fs fs').
  - assert (forall fuel cs missing, find_ancestor fuel fs cs missing = find_ancestor fuel fs' cs missing) as Hf.
    { induction fuel as [|n IH]; intros cs missing; cbn [find_ancestor]; rewrite (path_exists_names fs fs') by done;
        destruct (path_exists fs' (render cs)); try done. destruct cs; [done|]. apply IH. }
    rewrite Hf. destruct (find_ancestor _ _ _ _); [|done]. cbn [ok_or rbind]. by rewrite (resolve_names fs fs').
Qed.

Lemma canonical_all_names `{HN : !ResolverNames} fs fs' l : dom fs = dom fs' -> canonical_all fs l = canonical_all fs' l.
Proof.
  intros Hd. induction l as [|p l IH]; cbn [canonical_all]; [done|]. by rewrite (canonical_path_names fs fs'), IH.
Qed.
End Canonical.

(** ** Records *)

Lemma raw_lines_app t s : raw_lines (t +:+ String nl s) = raw_lines (t +:+ String nl "") ++ raw_lines s.
Proof.
  induction t as [|c t IH]; cbn [String.append raw_lines]; [done|].
  destruct (Ascii.eqb c nl) eqn:E; [by rewrite IH|]. rewrite IH.
  assert (raw_lines (t +:+ String nl "") <> []) as Hne.
  { destruct t as [|d t]; cbn [String.append raw_lines]; [done|]. destruct (Ascii.eqb d nl); [done|].
    destruct (raw_lines (t +:+ String nl "")) as [|[? ?] ?]; discriminate. }
  by destruct (raw_lines (t +:+ String nl "")) as [|[l b] r].
Qed.
Lemma lines_app t s : lines (t +:+ String nl s) = lines (t +:+ String nl "") ++ lines s.
Proof. unfold lines. rewrite raw_lines_app. apply map_app. Qed.

Definition record_fields (now : string) (a : Approval) (requested canonical : string) : list string :=
  ["approval"; now; actor a; assignment_id a; requested; canonical; reason a; if force a then "1" else "0"].

Lemma snoc_inj a b x y : a +:+ String x "" = b +:+ String y "" -> x = y.
Proof.
  revert b. induction a as [|c a IH]; intros [|d b]; cbn [String.append]; intros [= H1].
  - done.
  - by destruct b.
  - by destruct a.
  - eauto.
Qed.

(** Text between two characters of names has no white space at its ends. *)
Lemma trim_ends c s d :
  name_char c = true -> name_char d = true ->
  trim (String c (s +:+ String d "")) = String c (s +:+ String d "").
Proof.
  intros Hc Hd.
  assert (forall w, w ∈ whitespace -> exists x r v y, w = String x r /\ w = v +:+ String y ""
            /\ name_char x = false /\ name_char y = false) as Hw.
  { intros w Hw. assert (forallb (fun w => existsb (fun n => match String.get 0 w, String.get n w with
      | Some x, Some y => String.eqb w (String.substring 0 n w +:+ String y "") && negb (name_char x) && negb (name_char y)
      | _, _ => false end) [0; 1; 2]%nat) whitespace = true) as Hall by (vm_compute; reflexivity).
    rewrite forallb_forall in Hall. apply list_elem_of_In, Hall, existsb_exists in Hw as (n & _ & Hn).
    destruct w as [|x r]; [done|]. change (String.get 0 (String x r)) with (Some x) in Hn. cbv beta iota in Hn. destruct (String.get n (String x r)) as [y|]; [|done].
    bool_hyps. eauto 10. }
  set (t := String c (s +:+ String d "")).
  assert (trim_start t = t) as Hstart.
  { unfold trim_start. destruct (String.length t) eqn:El; [done|]. cbn [strip_all]. rewrite strip_none; [done|].
    intros w (x & r & v & y & -> & _ & Hx & _)%Hw. destruct (strip_prefix _ t) eqn:E; [|done].
    apply strip_prefix_some in E. unfold t in E. injection E as -> _. congruence. }
  unfold trim. rewrite Hstart. unfold trim_end. destruct (String.length t) eqn:El; [done|]. cbn [strip_all].
  rewrite strip_none; [done|]. intros w (x & r & v & y & _ & -> & _ & Hy)%Hw.
  destruct (strip_suffix _ t) as [u|] eqn:E; [|done]. apply strip_suffix_some in E. unfold t in E.
  change (String c (s +:+ String d "")) with ((String c s) +:+ String d "") in E.
  rewrite <- str_app_assoc in E. apply snoc_inj in E. congruence.
Qed.

Lemma join_ends sep y l x : exists v, join sep (y :: l ++ [x]) = y +:+ v +:+ x.
Proof.
  revert y. induction l as [|z l IH]; intros y; [by exists sep|].
  destruct (IH z) as [v Hv]. exists (sep +:+ z +:+ v). cbn [app].
  change (join sep (y :: z :: l ++ [x])) with (y +:+ sep +:+ join sep (z :: l ++ [x])).
  by rewrite Hv, !str_app_assoc.
Qed.

Lemma candidate_record now a requested canonical :
  forallb clean_field (record_fields now a requested canonical) = true -> canonical <> "" ->
  has_char "#" (join tabs (record_fields now a requested canonical)) = false ->
  candidate (join tabs (record_fields now a requested canonical)) = Some canonical.
Proof.
  intros Hc Hne Hh. unfold candidate. rewrite split_no_char by done. cbn [hd_error unwrap_or].
  assert (exists s d, join tabs (record_fields now a requested canonical) = String "a" (s +:+ String d "")
            /\ name_char d = true) as (s & d & Hj & Hd).
  { destruct (join_ends tabs "approval" [now; actor a; assignment_id a; requested; canonical; reason a]
      (if force a then "1" else "0")) as [v Hv].
    exists ("pproval" +:+ v), (if force a then "1" else "0")%char. split; [|by destruct (force a)].
    change (join tabs (record_fields now a requested canonical) = String "a" (("pproval" +:+ v)
      +:+ String (if force a then "1" else "0")%char "")).
    change (record_fields now a requested canonical) with
      ("approval" :: [now; actor a; assignment_id a; requested; canonical; reason a] ++ [if force a then "1" else "0"]).
    rewrite Hv, str_app_assoc. by destruct (force a). }
  rewrite Hj, trim_ends, <- Hj by done.
  assert (is_empty (join tabs (record_fields now a requested canonical)) = false) as -> by (by rewrite Hj).
  assert (starts_with ("approval" +:+ tabs) (join tabs (record_fields now a requested canonical)) = true) as ->.
  { apply starts_with_spec. eexists. reflexivity. }
  unfold tabs. rewrite split_join; [|done|].
  - cbn [record_fields length Nat.ltb Nat.leb nth]. by apply is_empty_false in Hne as ->.
  - eapply forallb_impl; [|exact Hc]. intros x Hx. unfold clean_field in Hx. by apply andb_true_iff in Hx as [_ Hx].
Qed.

(** ** Commands *)

Section Commands.
Context `{Platform} `{Resolver}.

(** What the policy allows in the files [fs]: paths that resolve below the root
    or below an approved path. *)
Definition writable (fs : gmap string string) (p : Policy) (raw : string) : Prop :=
  exists r approved c,
    resolve fs (policy_root p) = Some r /\ approved_paths fs p = Ok approved /\ canonical_path fs raw = Ok c
    /\ (components r `prefix_of` components c
        \/ exists a, a ∈ approved /\ components a `prefix_of` components c).

Lemma is_allowed_iff r approved c :
  is_allowed r approved c = true <->
  components r `prefix_of` components c \/ exists a, a ∈ approved /\ components a `prefix_of` components c.
Proof.
  unfold is_allowed. rewrite orb_true_iff, inside_iff, existsb_exists. setoid_rewrite inside_iff.
  setoid_rewrite <- list_elem_of_In. done.
Qed.

Lemma check_paths_run fs r approved denied paths w :
  files (check_paths fs r approved denied paths w).2 = files w
  /\ ((check_paths fs r approved denied paths w).1 = Ok false <->
      denied = false /\ forall raw, raw ∈ paths ->
        exists c, canonical_path fs raw = Ok c /\ is_allowed r approved c = true).
Proof.
  revert denied w. induction paths as [|raw rest IH]; intros denied w; cbn [check_paths].
  - split; [done|]. unfold ret. simpl. split; [intros [= ->]; set_solver|]. by intros [-> _].
  - unfold bind, lift. destruct (canonical_path fs raw) as [c|e] eqn:E.
    + unfold println. destruct (IH (denied || negb (is_allowed r approved c))
        (mkWorld (files w) (faults w) (ticks w) (stdout w ++ [(if is_allowed r approved c then "allowed" else "denied")
           +:+ tabs +:+ c]))) as [IHf IHr].
      split; [exact IHf|]. rewrite IHr. rewrite orb_false_iff, negb_false_iff. split.
      * intros ((Hd & Ha) & Hrest). split; [done|]. intros raw' [->|Hr']%elem_of_cons; eauto.
      * intros [-> Hall]. destruct (Hall raw) as (c' & Hc' & Ha); [set_solver|]. rewrite E in Hc'. injection Hc' as <-.
        split_and!; [done..|]. intros raw' Hr'. apply Hall. set_solver.
    + cbn. split; [done|]. split; [done|]. intros [_ Hall]. destruct (Hall raw) as (c' & Hc' & _); [set_solver|].
      by rewrite E in Hc'.
Qed.

Lemma policy_init_run p w :
  faults w = [] -> is_Some (path_parent (policy_path p)) ->
  exists w', policy_init p w = (Ok tt, w') /\ faults w' = [].
Proof.
  intros Hf [parent Hp].
  assert (no_fail (policy_init p)) as Hn.
  { unfold policy_init, policy_lock, init_locked, create_dir_all. rewrite Hp. apply no_fail_bind.
    - apply no_fail_bind; [by intros w0 r w' Hf0 [= <- <-]; eauto|]. intros d. no_fail.
    - intros _. apply no_fail_bind; [by intros w0 r w' Hf0 [= <- <-]; eauto|]. intros b. no_fail. }
  destruct (policy_init p w) as [r w'] eqn:E. destruct (Hn _ _ _ Hf E) as [[[] ->] ?]. eauto.
Qed.

(** The part of the check after the initialisation, as one expression. *)
Definition checked (p : Policy) (paths : list string) (w2 : World) : result string unit * World :=
  match resolve (files w2) (policy_root p) with
  | None => (Err (io_error "canonicalize write root"), w2)
  | Some r =>
      match approved_paths (files w2) p with
      | Err e => (Err e, w2)
      | Ok approved =>
          let out := check_paths (files w2) r approved false paths w2 in
          (match out.1 with Ok true => Err "" | Ok false => Ok tt | Err e => Err e end, out.2)
      end
  end.

Lemma policy_check_run p paths w :
  faults w = [] -> is_Some (path_parent (policy_path p)) -> paths <> [] ->
  exists w2, policy_check p paths w = checked p paths w2.
Proof.
  intros Hf Hp Hne. destruct (policy_init_run p w Hf Hp) as (w1 & E1 & Hf1).
  exists (mkWorld (<[policy_root p +:+ "/" := ""]> (files w1)) [] (ticks w1) (stdout w1)).
  unfold policy_check. rewrite bool_decide_eq_false_2 by done.
  rewrite (bind_run _ _ w tt w) by done. rewrite (bind_run _ _ _ _ _ E1).
  unfold canonical_root, create_dir_all, checked, bind at 1 2, put_file. rewrite Hf1. cbn [tail].
  set (w2 := mkWorld _ _ _ _). unfold bind at 1. cbn [get_files lift].
  destruct (resolve (files w2) (policy_root p)) as [r|]; cbn [ok_or]; [|done].
  unfold bind, get_files, lift. destruct (approved_paths (files w2) p) as [approved|]; [|done].
  by destruct (check_paths _ _ _ _ _ _) as [[[]|] w3].
Qed.


(** The files after the directories and the policy file were created. *)
Definition prepared (p : Policy) (fs : gmap string string) : gmap string string :=
  let fs1 := <[unwrap_or (path_parent (policy_path p)) "" +:+ "/" := ""]> fs in
  let fs2 := if bool_decide (is_Some (fs1 !! policy_path p)) then fs1
             else <[policy_path p := POLICY_TEMPLATE]> fs1 in
  <[policy_root p +:+ "/" := ""]> fs2.

Lemma prepared_policy p fs : is_Some (prepared p fs !! policy_path p).
Proof.
  unfold prepared. apply lookup_insert_is_Some'. right. case_bool_decide; [done|]. rewrite lookup_insert_eq. eauto.
Qed.

Lemma ok_prepare {A} p (k : string -> IO A) Q fs :
  (forall r, resolve (prepared p fs) (policy_root p) = Some r -> ok_wp (k r) Q (prepared p fs)) ->
  ok_wp (let! _ := policy_lock p in let! _ := init_locked p in let! r := canonical_root p in k r) Q fs.
Proof.
  intros HQ. unfold policy_lock, init_locked, canonical_root. apply ok_bind. ok_step.
  match goal with E : ok_or _ _ = Ok _ |- _ => rewrite ok_or_ok in E; rename E into Hp end.
  ok_step. apply ok_bind. ok_step. unfold prepared in HQ. rewrite Hp in HQ. cbn [unwrap_or] in HQ.
  case_bool_decide; ok_step; apply ok_bind; do 2 ok_step; apply ok_lift; intros r Hr%ok_or_ok; by apply HQ.
Qed.

Lemma ok_append q t e (Q : unit -> gmap string string -> Prop) fs :
  Q tt (<[q := unwrap_or (fs !! q) "" +:+ t]> fs) -> ok_wp (append_file q t e) Q fs.
Proof. intros HQ w r w' <- Hr. by apply (ok_put q _ e Q _ HQ w r w'). Qed.

Lemma reject_clean label s u : reject_record_field label s = Ok u -> clean_field s = true.
Proof.
  destruct u. intros Hg%guard_ok. unfold clean_field, clean. cbn [has_any existsb] in Hg. bool_hyps.
  destruct (has_char nl s), (has_char cr s), (has_char tab s); done.
Qed.

(** The list of approvals after a record was appended to a file that ends with
    a line break. *)
Lemma approved_append `{HN : !ResolverNames} fs p old now a requested c approved c' :
  fs !! policy_path p = Some (old +:+ newline) -> approved_paths fs p = Ok approved ->
  forallb clean_field (record_fields now a requested c) = true -> c <> "" ->
  has_char "#" (join tabs (record_fields now a requested c)) = false ->
  canonical_path fs c = Ok c' ->
  approved_paths (<[policy_path p := (old +:+ newline) +:+ approval_line now a requested c]> fs) p = Ok (approved ++ [c']).
Proof.
  intros Hf Ha Hc Hne Hh Hc'. unfold approved_paths in *. rewrite Hf in Ha. rewrite lookup_insert_eq.
  set (fs' := <[policy_path p := _]> fs).
  assert (dom fs' = dom fs) as Hd.
  { unfold fs'. apply dom_insert_lookup_L. eauto. }
  rewrite (canonical_all_names fs' fs) by done. rewrite str_app_assoc.
  change (newline +:+ ?x) with (String nl x). rewrite lines_app.
  change (old +:+ newline) with (old +:+ String nl "") in Ha.
  change (approval_line now a requested c) with (join tabs (record_fields now a requested c) +:+ String nl "").
  rewrite (lines_line (join tabs (record_fields now a requested c))) by (by apply (clean_fields_split (record_fields now a requested c))).
  rewrite omap_app, canonical_all_app, Ha. cbn [rbind]. cbn [omap list_omap lines].
  rewrite candidate_record by done. cbn [canonical_all]. by rewrite Hc'.
Qed.

(** A successful [policy approve] adds at most the approval that was asked
    for. Either the path was already below the root or on the list, and only
    the policy's own directories and template were created; or it was neither,
    it is not a broad path unless [--force] was given, and exactly one record is
    appended, with an actor, an assignment and a reason. After that the list of
    approvals is the old one with the recorded path at its end, provided the
    file ended with a line break and the record has no number sign. *)
Theorem approve_recorded `{HN : !ResolverNames} `{HC : !ClockClean} p args w w' :
  policy_approve p args w = (Ok tt, w') ->
  let fs := prepared p (files w) in
  exists requested a r c,
    hd_error args = Some requested /\ approve_options (mkApproval "" "" "" false) (tl args) = Ok a
    /\ actor a <> "" /\ assignment_id a <> "" /\ reason a <> ""
    /\ resolve fs (policy_root p) = Some r /\ canonical_path fs requested = Ok c
    /\ ((files w' = fs /\ inside c r = true)
        \/ exists approved, approved_paths fs p = Ok approved /\ inside c r = false
           /\ ((files w' = fs /\ exists b, b ∈ approved /\ components b = components c)
               \/ ((broad_approval c r = true -> force a = true)
                   /\ exists text now, fs !! policy_path p = Some text
                      /\ files w' = <[policy_path p := text +:+ approval_line now a requested c]> fs
                      /\ forall old c', text = old +:+ newline -> clean_field c = true -> c <> "" ->
                           has_char "#" (join tabs (record_fields now a requested c)) = false ->
                           canonical_path fs c = Ok c' ->
                           approved_paths (files w') p = Ok (approved ++ [c'])))).
Proof.
  intros Hrun fs. pattern (files w').
  match goal with |- ?Q _ => refine (ok_run (policy_approve p args) (fun _ => Q) w tt w' _ Hrun) end; clear Hrun; cbn beta.
  unfold policy_approve. ok_step. rename select (ok_or _ _ = Ok _) into Hreq. rewrite ok_or_ok in Hreq.
  ok_step. rename select (approve_options _ _ = Ok _) into Hopts. do 3 ok_step.
  rename select (negb (is_empty (actor _)) = true) into Hactor.
  rename select (negb (is_empty (assignment_id _)) = true) into Hassign.
  rename select (negb (is_empty (reason _)) = true) into Hreason.
  apply negb_true_iff, is_empty_false in Hactor, Hassign, Hreason.
  apply ok_prepare. intros r Hr. fold fs in Hr |- *. ok_step. ok_step.
  rename select (canonical_path _ _ = Ok _) into Hcan.
  destruct (inside _ r) eqn:Hin.
  { ok_step.
    do 4 eexists. split_and!; eauto. }
  ok_step. rename select (approved_paths _ _ = Ok _) into Happ.
  destruct (existsb _ _) eqn:Hex.
  { ok_step. apply existsb_exists in Hex as (b & Hb%list_elem_of_In & Hs%bool_decide_eq_true).
    do 4 eexists. split_and!; eauto. right. eexists. split_and!; eauto. }
  do 5 ok_step. apply ok_bind. ok_step. rename select (clean_field _ = true) into Hnow.
  apply ok_bind, ok_append. ok_step.
  do 4 eexists. split_and!; eauto. right. eexists. split_and!; eauto. right. split.
  { intros Hb. rewrite Hb in *. bool_hyps. by destruct (force _). }
  destruct (prepared_policy p (files w)) as [text Htext]. fold fs in Htext. rewrite Htext. cbn [unwrap_or].
  do 2 eexists. split_and!; eauto. intros old c' -> Hcc Hne Hh Hc'.
  eapply approved_append; eauto. cbn [record_fields forallb]. rewrite Hcc, Hnow.
  repeat match goal with E : reject_record_field _ _ = Ok _ |- _ => apply reject_clean in E; rewrite E end.
  by destruct (force _).
Qed.
End Commands.

(** ** A file system without links *)

Module PolicyWitness.

#[local] Instance platform : Platform :=
  toy_platform (fun k => if String.eqb k "MULTIAGENT_ROOT" then Some "/work" else None) 0.
#[local] Instance clock : ClockClean :=
  toy_clock_clean (fun k => if String.eqb k "MULTIAGENT_ROOT" then Some "/work" else None) 0.

Definition node_dir (fs : gmap string string) (p : string) : bool := String.eqb p "/" || is_dir fs p.
Fixpoint walk (fs : gmap string string) (stack cs : list PathComponent) : option string :=
  match cs with
  | [] => Some (render stack)
  | c :: rest =>
      if node_dir fs (render stack) then
        match c with
        | CurDir => walk fs stack rest
        | ParentDir => walk fs (pop stack) rest
        | Normal s =>
            let next := stack ++ [Normal s] in
            if node_dir fs (render next) || bool_decide (is_Some (fs !! render next)) then walk fs next rest else None
        end
      else None
  end.
#[local] Instance resolver : Resolver := fun fs p => if is_absolute p then walk fs [] (components p) else None.

#[local] Instance resolver_names : ResolverNames.
Proof.
  intros fs fs' p Hd. unfold resolve, resolver. destruct (is_absolute p); [|done]. generalize (@nil PathComponent).
  assert (forall q, node_dir fs q = node_dir fs' q) as Hn by (intros q; unfold node_dir; by rewrite (dom_same_prefix fs fs')).
  assert (forall q, is_Some (fs !! q) <-> is_Some (fs' !! q)) as Hs by (intros q; by rewrite <- !elem_of_dom, Hd).
  induction (components p) as [|c cs IH]; intros stack; cbn [walk]; [done|]. rewrite Hn.
  destruct (node_dir fs' (render stack)); [|done]. destruct c as [| |s]; [done..|]. rewrite Hn, (bool_decide_ext _ _ (Hs _)).
  by destruct (_ || _).
Qed.

Definition policy : Policy := mkPolicy "/work" "/work/docs/write-policy.paths".
Definition start : World := mkWorld {["/work/src/a.rs" := ""; "/data/set/x" := ""]} [] 0 [].


(** The two sides of that equivalence, and a sibling with a longer name. *)
Example check_verdicts :
  (policy_check policy ["/work/src/new/b.rs"; "/work"] start).1 = Ok tt
  /\ (policy_check policy ["/work2"] start).1 = Err "".
Proof. vm_compute. done. Qed.

Definition approve_args : list string := ["/data/set"; "--actor"; "o"; "--assignment-id"; "a1"; "--reason"; "r"].
Definition approved_world : World := Eval vm_compute in (policy_approve policy approve_args start).2.

Lemma approve_recorded_witness :
  exists requested a, hd_error approve_args = Some requested
    /\ approve_options (mkApproval "" "" "" false) (tl approve_args) = Ok a /\ reason a <> "".
Proof.
  assert (policy_approve policy approve_args start = (Ok tt, approved_world)) as Hrun by (vm_compute; reflexivity).
  destruct (approve_recorded policy approve_args start approved_world Hrun)
    as (req & a & r & c & Hreq & Ha & _ & _ & Hreason & _).
  exists req, a. split; [exact Hreq|split; [exact Ha|exact Hreason]].
Defined.
(** The approval is on the list and lets the check pass. *)
Example approval_listed :
  approved_paths (files approved_world) policy = Ok ["/data/set"]
  /\ (policy_check policy ["/data/set/x"] start).1 = Err ""
  /\ (policy_check policy ["/data/set/x"] approved_world).1 = Ok tt.
Proof. vm_compute. done. Qed.

Lemma missing_path_resolves_witness :
  exists ancestor rest q,
    components "/work/new/b.rs" = ancestor ++ rest /\ resolve (files start) (render ancestor) = Some q
    /\ canonical_path (files start) "/work/new/b.rs"
       = Ok (render (normalize_lexically (components q ++ map Normal (omap normal_name rest)))).
Proof. apply (missing_path_resolves (files start) "/work/new/b.rs"); vm_compute; reflexivity. Defined.

(** A number sign in the approved path. The record holds the whole path, but the
    reader takes the number sign for a comment and drops the rest of the line.
    Approved by its absolute name the path stays denied, and so it does when the
    approval is repeated; approved by a relative name it widens the policy to
    what precedes the sign, here to a directory that is refused without
    [--force]. *)
Definition comment_args (path : string) : list string :=
  [path; "--actor"; "o"; "--assignment-id"; "a1"; "--reason"; "r"].
Theorem number_sign_lost :
  let w := (policy_approve policy (comment_args "/data/set#1") start).2 in
  (policy_approve policy (comment_args "/data/set#1") start).1 = Ok tt
  /\ (policy_check policy ["/data/set#1"] w).1 = Err "".
Proof. vm_compute. done. Qed.

Definition in_tmp : Platform :=
  {| env_var := env_var; current_dir := Ok "/tmp#1"; getuid := getuid; rfc3339_secs := rfc3339_secs;
     sha256_hex := sha256_hex; geteuid := geteuid; os_error := os_error |}.
Theorem number_sign_widens :
  let w := (@policy_approve in_tmp _ policy (comment_args "job") start).2 in
  (@policy_approve in_tmp _ policy (comment_args "/tmp") start).1
    = Err "refusing broad outside approval without --force: /tmp"
  /\ (@policy_approve in_tmp _ policy (comment_args "job") start).1 = Ok tt
  /\ approved_paths (files w) policy = Ok ["/tmp"]
  /\ (policy_check policy ["/tmp/other"] w).1 = Ok tt.
Proof. vm_compute. done. Qed.

(** Parent components below a missing directory. The check allows the path as
    if it were below the root; once the directory exists the same path is
    outside and denied. *)
Theorem missing_parent_allowed :
  let w := (put_file "/work/new/" "" "" start).2 in
  (policy_check policy ["/work/new/../../outside"] start).1 = Ok tt
  /\ canonical_path (files start) "/work/new/../../outside" = Ok "/work/new/outside"
  /\ (policy_check policy ["/work/new/../../outside"] w).1 = Err ""
  /\ canonical_path (files w) "/work/new/../../outside" = Ok "/outside".
Proof. vm_compute. done. Qed.

End PolicyWitness.
