(* ===== verification/Safety.v ===== *)
(** * Safety: commands that keep a property of the files

    [safely P m Q fs]: when [P] holds of the files [fs], it holds whenever [m]
    stops, by an error or at its end, whatever writes fail; and at a successful
    end the value and the files satisfy [Q] as well. *)

From S2P Require Import Prelude Text State Json LogModel Config Execution Dag Lifecycle Snapshot Findings FindingsFacts.

Section Safely.
Context (P : gmap string string -> Prop).

Definition safely {A} (m : IO A) (Q : A -> gmap string string -> Prop) (fs : gmap string string) : Prop :=
  P fs -> wp m (fun r fs' => P fs' /\ forall a, r = Ok a -> Q a fs') fs.

Context {A : Type}.
Implicit Types (Q : A -> gmap string string -> Prop) (fs : gmap string string).

Lemma safely_bind {B} (m : IO B) (k : B -> IO A) Q fs :
  safely m (fun b fs' => safely (k b) Q fs') fs -> safely (bind m k) Q fs.
Proof.
  intros Hm HP. apply wp_bind. eapply wp_mono; [exact (Hm HP)|]. intros [b|e] fs' [HP' Hb]; [by apply Hb|done].
Qed.
Lemma safely_mono (m : IO A) Q Q' fs :
  safely m Q fs -> (forall a fs', P fs' -> Q a fs' -> Q' a fs') -> safely m Q' fs.
Proof.
  intros Hm HQ HP. eapply wp_mono; [exact (Hm HP)|]. intros r fs' [HP' Hr]. split; [done|]. intros a Ha.
  by apply HQ, Hr.
Qed.
Lemma safely_ret (a : A) Q fs : Q a fs -> safely (ret a) Q fs.
Proof. intros HQ HP. apply wp_ret. by split; [|intros b [= <-]]. Qed.
Lemma safely_fail e Q fs : safely (fail e) Q fs.
Proof. intros HP. by apply wp_fail. Qed.
Lemma safely_lift (c : result string A) Q fs : (forall a, c = Ok a -> Q a fs) -> safely (lift c) Q fs.
Proof. intros HQ HP. apply wp_lift; intros; (split; [done|]); [intros b [= <-]; by apply HQ|done]. Qed.
Lemma safely_reader (m : IO A) Q fs : reader m -> (forall a, eval m fs = Ok a -> Q a fs) -> safely m Q fs.
Proof. intros Hm HQ HP. by apply wp_reader. Qed.
Lemma safely_run (m : IO A) Q w r w' :
  P (files w) -> safely m Q (files w) -> m w = (r, w') -> P (files w') /\ forall a, r = Ok a -> Q a (files w').
Proof. intros HP Hm Hr. by apply (Hm HP w r w' eq_refl Hr). Qed.
End Safely.

Section Primitives.
Context (P : gmap string string -> Prop).
Implicit Types (fs : gmap string string).

Lemma safely_check b e Q fs : (b = true -> Q tt fs) -> safely P (check b e) Q fs.
Proof. intros HQ HP. apply wp_check; intros Hb; (split; [done|]); [by intros [] _; apply HQ|done]. Qed.
Lemma safely_get_files Q fs : Q fs fs -> safely P get_files Q fs.
Proof. intros HQ HP. apply wp_get_files. by split; [|intros a [= <-]]. Qed.
Lemma safely_is_file p Q fs : Q (bool_decide (is_Some (fs !! p))) fs -> safely P (is_file p) Q fs.
Proof. intros HQ HP. apply wp_is_file. by split; [|intros a [= <-]]. Qed.
Lemma safely_println s Q fs : Q tt fs -> safely P (println s) Q fs.
Proof. intros HQ HP. apply wp_println. by split; [|intros [] _]. Qed.
Lemma safely_timestamp `{Platform} `{HC : !ClockClean} Q fs :
  (forall now, clean_field now = true -> Q now fs) -> safely P timestamp Q fs.
Proof. intros HQ HP. apply wp_timestamp. intros now Hn. split; [done|]. intros a [= <-]. by apply HQ. Qed.
Lemma safely_put p t e Q fs :
  (P fs -> P (<[p := t]> fs)) -> Q tt (<[p := t]> fs) -> safely P (put_file p t e) Q fs.
Proof. intros HP' HQ HP. apply wp_put_file; [split; [auto|by intros [] _]|done]. Qed.
End Primitives.

(** One step; a write leaves that it keeps the property as its first goal. *)
Ltac safe_prim :=
  lazymatch goal with
  | |- safely _ (lift _) _ _ => apply safely_lift; intros ? ?
  | |- safely _ (check _ _) _ _ => apply safely_check; intros ?
  | |- safely _ get_files _ _ => apply safely_get_files
  | |- safely _ (is_file _) _ _ => apply safely_is_file
  | |- safely _ (println _) _ _ => apply safely_println
  | |- safely _ timestamp _ _ => refine (safely_timestamp _ _ _ _); intros ? ?
  | |- safely _ (put_file _ _ _) _ _ => apply safely_put
  | |- safely _ (atomic_write _ _) _ _ => apply safely_put
  | |- safely _ (write_json _ _) _ _ => apply safely_put
  | |- safely _ (create_dir_all _ _) _ _ => apply safely_put
  | |- safely _ (ret _) _ _ => apply safely_ret
  | |- safely _ (fail _) _ _ => apply safely_fail
  | |- safely _ _ _ _ => apply safely_reader; [solve [readers]|intros ? ?]
  end.
Ltac safe_step :=
  lazymatch goal with
  | |- safely _ (bind _ _) _ _ => apply safely_bind; safe_prim
  | _ => safe_prim
  end; cbn beta iota.

(** ** Commands that read and print

    A teller looks at the files only and changes none of them, but may print:
    its answer is [eval] of the files. *)
Definition teller {A} (m : IO A) : Prop := forall w, (m w).1 = eval m (files w) /\ files (m w).2 = files w.

Lemma teller_reader {A} (m : IO A) : reader m -> teller m.
Proof. intros Hm w. rewrite Hm. done. Qed.
Lemma teller_println s : teller (println s).
Proof. done. Qed.
Lemma teller_bind {A B} (m : IO A) (k : A -> IO B) : teller m -> (forall a, teller (k a)) -> teller (bind m k).
Proof.
  intros Hm Hk w. unfold eval, bind. destruct (Hm w) as [H1 H2]. destruct (Hm (mkWorld (files w) [] 0 [])) as [H3 H4].
  destruct (m w) as [r1 w1], (m (mkWorld (files w) [] 0 [])) as [r2 w2]. cbn [fst snd files] in *. subst r2.
  subst r1. destruct (eval m (files w)) as [a|e]; [|done]. destruct (Hk a w1) as [H5 H6], (Hk a w2) as [H7 H8].
  split; [|congruence]. rewrite H5, H7. congruence.
Qed.
Lemma teller_println_all l : teller (println_all l).
Proof. induction l as [|s l IH]; [done|]. by apply teller_bind; [apply teller_println|]. Qed.
Lemma eval_tell {A B} (m : IO A) (k : A -> IO B) fs :
  teller m -> (forall a, teller (k a)) -> eval (bind m k) fs = (let? a := eval m fs in eval (k a) fs).
Proof.
  intros Hm Hk. unfold eval at 1, bind. destruct (Hm (mkWorld fs [] 0 [])) as [H1 H2].
  destruct (m (mkWorld fs [] 0 [])) as [r1 w1]. cbn [fst snd files] in *. subst r1.
  destruct (eval m fs) as [a|e]; [|done]. cbn [rbind]. destruct (Hk a w1) as [H3 _]. rewrite H3. congruence.
Qed.
Lemma eval_println_all l fs : eval (println_all l) fs = Ok tt.
Proof. induction l as [|s l IH]; [done|]. cbn [println_all]. by rewrite eval_tell by auto using teller_println, teller_println_all. Qed.

Create HintDb tellers.
#[export] Hint Resolve teller_println teller_println_all : tellers.
Ltac tellers :=
  repeat first
    [ match goal with |- forall _, teller _ => intros ? end
    | progress (auto with tellers)
    | match goal with |- teller (bind _ _) => apply teller_bind; [|intros ?] end
    | apply teller_reader; solve [auto with readers]
    | case_goal ].

(** Following a teller that succeeded, and running one whose answers are known. *)
Lemma tell_ok {A B} (m : IO A) (k : A -> IO B) fs b :
  teller m -> (forall a, teller (k a)) ->
  eval (bind m k) fs = Ok b <-> exists a, eval m fs = Ok a /\ eval (k a) fs = Ok b.
Proof. intros Hm Hk. rewrite eval_tell by done. apply rbind_ok. Qed.
Lemma tell_check b e {A} (k : unit -> IO A) fs a :
  (forall u, teller (k u)) -> eval (bind (check b e) k) fs = Ok a <-> b = true /\ eval (k tt) fs = Ok a.
Proof.
  intros Hk. rewrite tell_ok by (auto; apply teller_reader; auto with readers). rewrite eval_check. destruct b; simpl; [|naive_solver].
  split; [intros ([] & _ & ?); eauto|intros [_ ?]; eauto].
Qed.
