(* ===== verification/Leases.v ===== *)
(** * Leases: validation leases of [runtime/src/subagent.rs]

    A lease names the target that a validation command works on; while a lease
    is planned or running no other lease for the target may be acquired.
    [validation_run] acquires a lease, runs the command and records its verdict. *)

From S2P Require Import Prelude Text State Json Config Execution Dag Lifecycle Snapshot Findings Policy.

Definition LEASE_STATES : list string :=
  ["planned"; "running"; "passed"; "failed"; "timed-out"; "stale"; "released"].
Definition LEASE_ORDER : list string :=
  ["lease_id"; "owner"; "target"; "command"; "resource_risk"; "created_at"; "updated_at"; "root"].

Definition validate_lease_state (state : string) : result string unit :=
  guard (mem state LEASE_STATES) ("invalid validation lease status: " +:+ state).
Definition blocks (state : string) : bool := mem state ["planned"; "running"].

Definition one_lease (command : string) (args : list string) : result string string :=
  match args with
  | [id] => let? _ := validate_name id in Ok id
  | _ => Err (command +:+ " requires LEASE_ID")
  end.

(** [str::replace] for a pattern that is not empty. *)
Fixpoint replace_from (fuel : nat) (pattern by_ s : string) : string :=
  match fuel with
  | O => s
  | S n =>
      match strip_prefix pattern s with
      | Some rest => by_ +:+ replace_from n pattern by_ rest
      | None => match s with
                | EmptyString => ""
                | String c s' => String c (replace_from n pattern by_ s')
                end
      end
  end.
Definition replace (pattern by_ s : string) : string := replace_from (S (String.length s)) pattern by_ s.

(** [byte_tail]: the last [maximum] bytes. *)
Definition byte_tail (bytes : string) (maximum : nat) : string :=
  let start := (String.length bytes - maximum)%nat in
  from_utf8_lossy (String.substring start (String.length bytes - start) bytes).

(** The run of a child process from its start to its end or its timeout:
    [status.code()], which is [None] when a signal ended it, whether the
    deadline passed, what it printed and the files it leaves. *)
Record Finished := mkFinished { code_of : option Z; timed_out : bool; child_stdout : string; child_stderr : string }.
Class Process := run_process :
  list string -> string -> Z -> gmap string string -> result string (Finished * gmap string string).

Section Leases.
Context `{Platform} `{JsonCodec} `{JsonPretty}.

Definition lease_text (metadata : gmap string string) : string :=
  unlines (map (fun key => key +:+ "=" +:+ state_value metadata key) LEASE_ORDER).
Definition write_lease_env (p : string) (metadata : gmap string string) : IO unit :=
  atomic_write p (lease_text metadata).

Definition write_validation_lease_json (dir : string) : IO unit :=
  let! metadata := read_env (path_join dir "lease.env") in
  let! state := read_or (path_join dir "status") "unknown" in
  let! text := read_or (path_join dir "result.json") "{}" in
  let! result := lift (parse_json text "invalid validation result JSON: ") in
  let value := state_value metadata in
  let updated := if is_empty (value "updated_at") then value "created_at" else value "updated_at" in
  write_json (path_join dir "lease.json")
    (VObj [("command", VStr (value "command")); ("created_at", VStr (value "created_at"));
           ("lease_id", VStr (value "lease_id")); ("owner", VStr (value "owner"));
           ("resource_risk", VStr (value "resource_risk")); ("result", result);
           ("state", VStr (trim state)); ("target", VStr (value "target")); ("updated_at", VStr updated)]).

Definition leases_dir (state : string) : string := path_join state "validation-leases".

Fixpoint check_conflicts (base id target : string) (names : list string) : IO unit :=
  match names with
  | [] => ret tt
  | existing :: rest =>
      if String.eqb existing id then check_conflicts base id target rest
      else
        let dir := path_join base existing in
        let! metadata := read_env (path_join dir "lease.env") in
        if negb (String.eqb (state_value metadata "target") target) then check_conflicts base id target rest
        else
          let! state := read_or (path_join dir "status") "unknown" in
          let! _ := check (negb (blocks (trim state)))
            ("validation lease conflict: target=" +:+ target +:+ " lease=" +:+ existing +:+ " owner="
             +:+ state_value metadata "owner" +:+ " state=" +:+ trim state) in
          check_conflicts base id target rest
  end.

(** [Path::exists] for a name below the existing directory [base]. *)
Definition entry_exists (fs : gmap string string) (base name : string) : bool :=
  mem name ["."; ".."] || is_dir fs (path_join base name) || bool_decide (is_Some (fs !! path_join base name)).

(** The files of a new lease. *)
Definition create_lease (dir id owner target command risk state : string) : IO unit :=
  let! _ := create_dir_all dir "create validation lease" in
  let! created := timestamp in
  let! updated := timestamp in
  let! r := lift root in
  let! _ := atomic_write (path_join dir "lease.env")
    (print_env [("lease_id", id); ("owner", owner); ("target", target); ("command", command);
                ("resource_risk", risk); ("created_at", created); ("updated_at", updated); ("root", r)]) in
  let! _ := atomic_write (path_join dir "result.json") ("{}" +:+ newline) in
  let! _ := atomic_write (path_join dir "status") (state +:+ newline) in
  write_validation_lease_json dir.

Definition validation_lease_acquire_impl (args : list string) (quiet : bool) : IO unit :=
  let! first := lift (first_arg args "validation-lease-acquire requires LEASE_ID") in
  let id := first.1 in
  let! _ := lift (validate_name id) in
  let! values := lift (repeated_options first.2 []) in
  let! owner := lift (option_required values "--owner" "validation-lease-acquire requires --owner NAME") in
  let! _ := lift (validate_name owner) in
  let! target := lift (option_required values "--target" "validation-lease-acquire requires --target TEXT") in
  let! command := lift (option_required values "--command" "validation-lease-acquire requires --command TEXT") in
  let state := let value := option_first values "--state" in if is_empty value then "running" else value in
  let risk := option_first values "--resource-risk" in
  let! _ := lift (all_no_newline [("--target", target); ("--command", command); ("--resource-risk", risk)]) in
  let! _ := lift (validate_lease_state state) in
  let! _ := check (blocks state) "validation-lease-acquire state must be planned or running" in
  let! dir := lift state_dir in
  let base := leases_dir dir in
  let! _ := create_dir_all base "create validation leases directory" in
  let! fs := get_files in
  let! _ := check_conflicts base id target (subdirectories fs base) in
  let dir := path_join base id in
  let! _ := check (negb (entry_exists fs base id)) ("validation lease already exists: " +:+ id) in
  let! _ := create_lease dir id owner target command risk state in
  if quiet then ret tt
  else println ("validation lease acquired" +:+ tabs +:+ id +:+ tabs +:+ owner +:+ tabs +:+ state).

Definition validation_lease_status_impl (args : list string) (quiet : bool) : IO unit :=
  match args with
  | id :: state :: rest =>
      let! _ := lift (validate_name id) in
      let! _ := lift (validate_lease_state state) in
      let! values := lift (repeated_options rest []) in
      let! dir := lift state_dir in
      let base := leases_dir dir in
      let! _ := create_dir_all base "create validation leases directory" in
      let dir := path_join base id in
      let! known := is_file (path_join dir "lease.env") in
      let! _ := check known ("no validation lease: " +:+ id) in
      let result := option_first values "--result-json" in
      let! _ := (if is_empty result then ret tt
                 else let! value := lift (parse_json result "invalid result JSON: ") in
                      atomic_write (path_join dir "result.json") (to_vec value +:+ newline)) in
      let! metadata := read_env (path_join dir "lease.env") in
      let! now := timestamp in
      let! _ := write_lease_env (path_join dir "lease.env") (<["updated_at" := now]> metadata) in
      let! _ := atomic_write (path_join dir "status") (state +:+ newline) in
      let! _ := write_validation_lease_json dir in
      if quiet then ret tt
      else println ("validation lease status" +:+ tabs +:+ id +:+ tabs +:+ state)
  | _ => fail "validation-lease-status requires LEASE_ID STATUS"
  end.

Definition validation_lease_acquire (args : list string) : IO unit := validation_lease_acquire_impl args false.
Definition validation_lease_status (args : list string) : IO unit := validation_lease_status_impl args false.

Definition validation_lease_show (args : list string) : IO unit :=
  let! id := lift (one_lease "validation-lease-show" args) in
  let! state := lift state_dir in
  let dir := path_join (leases_dir state) id in
  let! known := is_file (path_join dir "lease.json") in
  let! _ := check known ("no validation lease: " +:+ id) in
  let! _ := write_validation_lease_json dir in
  let! fs := get_files in
  let! text := lift (ok_or (fs !! path_join dir "lease.json") (io_error "read validation lease")) in
  println text.

Fixpoint list_leases (base filter : string) (names : list string) : IO unit :=
  match names with
  | [] => ret tt
  | name :: rest =>
      let dir := path_join base name in
      let! metadata := read_env (path_join dir "lease.env") in
      let! text := read_or (path_join dir "status") "unknown" in
      let state := trim text in
      if negb (is_empty filter) && negb (String.eqb filter state) then list_leases base filter rest
      else
        let! _ := println (join tabs [name; state; state_value metadata "owner"; state_value metadata "target";
                                      state_value metadata "command"]) in
        list_leases base filter rest
  end.

Definition validation_lease_list (args : list string) : IO unit :=
  let! values := lift (repeated_options args []) in
  let filter := option_first values "--state" in
  let! _ := lift (if is_empty filter then Ok tt else validate_lease_state filter) in
  let! state := lift state_dir in
  let! fs := get_files in
  list_leases (leases_dir state) filter (subdirectories fs (leases_dir state)).

(** ** Running a validation command *)

Context `{Resolver} `{Process}.

(** A step on the temporary directory, whose fresh name nothing else uses. *)
Definition temporary (context : string) : IO unit :=
  fun w =>
    match faults w with
    | true :: fl => (Err (io_error context), mkWorld (files w) fl (ticks w) (stdout w))
    | _ => (Ok tt, mkWorld (files w) (tail (faults w)) (ticks w) (stdout w))
    end.

Definition run_child (command : list string) (cwd : string) (timeout : Z) : IO Finished :=
  fun w =>
    match run_process command cwd timeout (files w) with
    | Ok (f, fs) => (Ok f, mkWorld fs (faults w) (ticks w) (stdout w))
    | Err e => (Err e, w)
    end.

Fixpoint split_separator (args : list string) : option (list string * list string) :=
  match args with
  | [] => None
  | a :: rest =>
      if String.eqb a "--" then Some ([], rest)
      else match split_separator rest with
           | Some (before, after) => Some (a :: before, after)
           | None => None
           end
  end.

Definition return_code (f : Finished) : Z := if timed_out f then 124 else unwrap_or (code_of f) 1.
Definition verdict_of (f : Finished) : string :=
  if timed_out f then "timed-out" else if return_code f =? 0 then "passed" else "failed".
Definition clamp (lo hi n : Z) : Z := Z.max lo (Z.min hi n).

Definition full_stderr (f : Finished) (timeout : Z) : string :=
  child_stderr f +:+
  (if timed_out f
   then newline +:+ "validation-run timed out after " +:+ u64_to_string timeout +:+ " seconds" +:+ newline else "").

Definition run_result (f : Finished) (command : list string) (cwd started finished : string) (timeout : Z) : Value :=
  VObj [("command", strings_value command); ("command_text", VStr (join " " command)); ("cwd", VStr cwd);
        ("finished_at", VStr finished); ("returncode", VNum (return_code f)); ("started_at", VStr started);
        ("stderr_tail", VStr (byte_tail (full_stderr f timeout) 4000));
        ("stdout_tail", VStr (byte_tail (child_stdout f) 4000));
        ("timed_out", VBool (timed_out f)); ("timeout_seconds", VNum timeout)].

Definition acquire_args (id owner target command risk : string) : list string :=
  [id; "--owner"; owner; "--target"; target; "--command"; command; "--state"; "running"; "--resource-risk"; risk].

(** The exit code of the process. *)
Definition validation_run (args : list string) : IO Z :=
  let! first := lift (first_arg args "validation-run requires LEASE_ID") in
  let id := first.1 in
  let! _ := lift (validate_name id) in
  let! parts := lift (ok_or (split_separator args) "validation-run requires COMMAND after --") in
  let! values := lift (map_err (replace "unknown argument" "unknown validation-run argument before --")
                         (repeated_options (tl parts.1) [])) in
  let command := parts.2 in
  let! _ := check (negb (bool_decide (command = []))) "validation-run requires COMMAND after --" in
  let! owner := lift (option_required values "--owner" "validation-run requires --owner NAME") in
  let! _ := lift (validate_name owner) in
  let! target := lift (option_required values "--target" "validation-run requires --target TEXT") in
  let risk := option_first values "--resource-risk" in
  let requested := option_first values "--timeout-seconds" in
  let timeout_text := if is_empty requested
                      then unwrap_or (env_var "MULTIAGENT_VALIDATION_TIMEOUT_SECONDS") "600" else requested in
  let! timeout := lift (match parse_u64 timeout_text with
                        | Some n => if 0 <? n then Ok n
                                    else Err "validation-run --timeout-seconds must be a positive integer"
                        | None => Err "validation-run --timeout-seconds must be a positive integer"
                        end) in
  let! fs := get_files in
  let! named := lift root in
  let! r := lift (ok_or (resolve fs named) ("validation-run root does not exist: " +:+ named)) in
  let! _ := check (path_is_dir fs r) ("validation-run root does not exist: " +:+ r) in
  let! _ := validation_lease_acquire_impl (acquire_args id owner target (join " " command) risk) true in
  let! _ := temporary "create validation temporary directory" in
  let! _ := temporary "create validation stdout" in
  let! _ := temporary "create validation stderr" in
  let! started := timestamp in
  let! f := run_child command r timeout in
  let! finished := timestamp in
  let! _ := println (child_stdout f) in
  let! _ := validation_lease_status_impl
    [id; verdict_of f; "--result-json"; to_vec (run_result f command r started finished timeout)] true in
  let! _ := temporary "remove validation temporary directory" in
  ret (clamp 0 255 (return_code f)).

End Leases.
