(* ===== verification/LeasesProps.v ===== *)
(** * LeasesProps: one active lease per target *)

From S2P Require Import Prelude Text State Json LogModel Config Execution Dag Lifecycle Snapshot Findings FinalGate.
From S2P Require Import FinalGateFacts FindingsFacts Policy Leases Safety Instances.

(** ** Entries of a directory *)

Lemma entry_inj base a b f g :
  has_char "/" a = false -> has_char "/" b = false -> has_char "/" f = false -> has_char "/" g = false ->
  path_join (path_join base a) f = path_join (path_join base b) g -> a = b /\ f = g.
Proof.
  intros Ha Hb Hf Hg Heq. unfold path_join in Heq.
  change ("/" +:+ f) with (String "/" f) in Heq. change ("/" +:+ g) with (String "/" g) in Heq.
  apply (f_equal (after_last "/")) in Heq. rewrite !after_last_app in Heq by done. injection Heq as Heq <-.
  change ("/" +:+ a) with (String "/" a) in Heq. change ("/" +:+ b) with (String "/" b) in Heq.
  apply (f_equal (after_last "/")) in Heq. rewrite !after_last_app in Heq by done. by injection Heq as <-.
Qed.

Lemma subdirectories_file fs base a f :
  has_char "/" a = false -> is_Some (fs !! path_join (path_join base a) f) -> a ∈ subdirectories fs base.
Proof.
  intros Ha [t Ht]. unfold subdirectories. rewrite btree_list_elem, elem_of_list_to_set, list_elem_of_omap.
  exists (path_join (path_join base a) f). split.
  - apply list_elem_of_fmap. exists (path_join (path_join base a) f, t). by rewrite elem_of_map_to_list.
  - assert (path_join (path_join base a) f = (base +:+ "/") +:+ (a +:+ String "/" f)) as ->.
    { unfold path_join. by rewrite !str_app_assoc. }
    rewrite strip_prefix_app. simpl. by rewrite split_once_app.
Qed.

Lemma is_dir_file fs d f : is_Some (fs !! path_join d f) -> is_dir fs d = true.
Proof.
  intros [t Ht]. unfold is_dir. apply existsb_exists. exists (path_join d f). split.
  - apply list_elem_of_In, list_elem_of_fmap. exists (path_join d f, t). by rewrite elem_of_map_to_list.
  - apply starts_with_spec. exists f. unfold path_join. by rewrite str_app_assoc.
Qed.

(** ** Leases in a store *)

Section Props.
Context `{Platform} `{JsonCodec} `{JsonPretty}.
Implicit Types (fs : gmap string string).

Definition lease_state fs (base id : string) : string :=
  trim (file_or fs (path_join (path_join base id) "status") "unknown").
Definition lease_metadata fs (base id : string) : option (gmap string string) :=
  parse_env <$> fs !! path_join (path_join base id) "lease.env".

(** The lease [id] keeps others from the target. *)
Definition holds fs (base id target : string) : Prop :=
  has_char "/" id = false /\ blocks (lease_state fs base id) = true
  /\ exists metadata, lease_metadata fs base id = Some metadata /\ state_value metadata "target" = target.

(** Two active leases never share a target. *)
Definition exclusive (base : string) fs : Prop :=
  forall a b target, holds fs base a target -> holds fs base b target -> a = b.

(** The files of [fs'] and [fs] that matter for leases other than [id]. *)
Definition same_but (base id : string) fs fs' : Prop :=
  forall a f, has_char "/" a = false -> has_char "/" f = false -> f <> "" -> a <> id ->
    fs' !! path_join (path_join base a) f = fs !! path_join (path_join base a) f.

Lemma same_but_refl base id fs : same_but base id fs fs.
Proof. by intros a f. Qed.
Lemma same_but_trans base id fs fs1 fs2 : same_but base id fs fs1 -> same_but base id fs1 fs2 -> same_but base id fs fs2.
Proof. intros Hs Ht a f Ha Hf Hne Hid. by rewrite Ht, Hs. Qed.
Lemma same_but_entry base id f t fs :
  has_char "/" id = false -> has_char "/" f = false -> same_but base id fs (<[path_join (path_join base id) f := t]> fs).
Proof. intros Hid Hf a g Ha Hg _ Hne. apply lookup_insert_ne. by intros [-> _]%entry_inj. Qed.
Lemma same_but_dir base id d t fs : same_but base id fs (<[d +:+ "/" := t]> fs).
Proof.
  intros a f Ha Hf Hne _. apply lookup_insert_ne. intros Heq. change (d +:+ "/") with (path_join d "") in Heq.
  by apply (path_join_ne d (path_join base a) "" f) in Heq.
Qed.

Lemma holds_same base id fs fs' a target :
  same_but base id fs fs' -> a <> id -> holds fs' base a target <-> holds fs base a target.
Proof.
  intros Hs Hne. unfold holds, lease_state, lease_metadata, file_or.
  destruct (has_char "/" a) eqn:Ha; [naive_solver|]. by rewrite !Hs.
Qed.

(** A change to one lease keeps the others apart when the lease is idle, or
    when no other lease holds its target. *)
Lemma exclusive_change base id fs fs' :
  same_but base id fs fs' ->
  (forall target, holds fs' base id target -> forall a, holds fs base a target -> a = id) ->
  exclusive base fs -> exclusive base fs'.
Proof.
  intros Hs Hid Hx a b target Ha Hb. destruct (decide (a = id)) as [->|Hna], (decide (b = id)) as [->|Hnb]; [done|..].
  - symmetry. eapply Hid; [exact Ha|]. by apply (holds_same base id fs fs').
  - eapply Hid; [exact Hb|]. by apply (holds_same base id fs fs').
  - apply (Hx a b target); by apply (holds_same base id fs fs').
Qed.

(** No target ends with a carriage return, which would be lost when the lease is
    written again. *)
Definition tidy (base : string) fs : Prop :=
  forall id metadata, has_char "/" id = false -> lease_metadata fs base id = Some metadata ->
    has_char cr (state_value metadata "target") = false.
Definition inv (base : string) fs : Prop := exclusive base fs /\ tidy base fs.

Lemma inv_change base id fs fs' :
  same_but base id fs fs' ->
  (forall target, holds fs' base id target -> forall a, holds fs base a target -> a = id) ->
  (forall metadata, lease_metadata fs' base id = Some metadata -> has_char cr (state_value metadata "target") = false) ->
  inv base fs -> inv base fs'.
Proof.
  intros Hs Hid Ht [Hx Hc]. split; [by apply (exclusive_change base id fs fs')|]. intros a m Ha Hm.
  destruct (decide (a = id)) as [->|Hne]; [by apply Ht|]. apply (Hc a m Ha). rewrite <- Hm.
  unfold lease_metadata. by rewrite Hs.
Qed.
Lemma inv_idle base id fs fs' :
  same_but base id fs fs' -> blocks (lease_state fs' base id) = false ->
  (forall metadata, lease_metadata fs' base id = Some metadata -> has_char cr (state_value metadata "target") = false) ->
  inv base fs -> inv base fs'.
Proof. intros Hs Hi. apply (inv_change base id); [done|]. intros target (_ & Hb & _). congruence. Qed.

Lemma holds_dir base d t fs a target : holds (<[d +:+ "/" := t]> fs) base a target <-> holds fs base a target.
Proof. apply (holds_same base (a +:+ "x")); [apply same_but_dir|]. intros Heq.
  apply (f_equal String.length) in Heq. rewrite str_length_app in Heq. simpl in Heq. lia.
Qed.
Lemma inv_dir base d t fs : inv base fs -> inv base (<[d +:+ "/" := t]> fs).
Proof.
  intros [Hx Hc]. split.
  - intros a b target Ha Hb. rewrite holds_dir in Ha, Hb. by apply (Hx a b target).
  - intros a m Ha Hm. apply (Hc a m Ha). rewrite <- Hm. unfold lease_metadata.
    change (d +:+ "/") with (path_join d ""). by rewrite lookup_insert_ne by other_file.
Qed.

(** Files other than the status and the metadata do not matter. *)
Lemma holds_other base id f t fs a target :
  f <> "status" -> f <> "lease.env" -> has_char "/" f = false ->
  holds (<[path_join (path_join base id) f := t]> fs) base a target <-> holds fs base a target.
Proof.
  intros Hs Hl Hf. unfold holds, lease_state, lease_metadata, file_or.
  by rewrite !lookup_insert_ne by (by apply path_join_ne).
Qed.
Lemma inv_other base id f t fs :
  f <> "status" -> f <> "lease.env" -> has_char "/" f = false ->
  inv base fs -> inv base (<[path_join (path_join base id) f := t]> fs).
Proof.
  intros Hs Hl Hf [Hx Hc]. split.
  - intros a b target Ha Hb. rewrite holds_other in Ha, Hb by done. by apply (Hx a b target).
  - intros a m Ha Hm. apply (Hc a m Ha). rewrite <- Hm. unfold lease_metadata.
    by rewrite lookup_insert_ne by (by apply path_join_ne).
Qed.
Lemma holds_unique fs base id t t' : holds fs base id t -> holds fs base id t' -> t = t'.
Proof. intros (_ & _ & m & Hm & <-) (_ & _ & m' & Hm' & <-). congruence. Qed.

Lemma lease_json_safe base id (Q : gmap string string -> Prop) fs :
  (forall t, Q (<[path_join (path_join base id) "lease.json" := t]> fs)) ->
  safely (inv base) (write_validation_lease_json (path_join base id)) (fun _ => Q) fs.
Proof.
  intros HQ. unfold write_validation_lease_json. do 4 safe_step. safe_step; [by apply inv_other|apply HQ].
Qed.

(** ** Acquiring a lease *)

Lemma reader_conflicts base id target names : reader (check_conflicts base id target names).
Proof. induction names as [|a names IH]; cbn [check_conflicts]; readers. Qed.

Lemma conflicts_none base id target names fs u :
  eval (check_conflicts base id target names) fs = Ok u ->
  forall a, a ∈ names -> a <> id -> ~ holds fs base a target.
Proof.
  induction names as [|b names IH]; cbn [check_conflicts]; [set_solver|]. intros Hev.
  assert ((b <> id -> ~ holds fs base b target) /\ eval (check_conflicts base id target names) fs = Ok u) as [Hb Hrest].
  { destruct (String.eqb_spec b id) as [|Hne]; [done|]. pose proof (reader_conflicts base id target names).
    rewrite eval_bind in Hev by readers. apply rbind_ok in Hev as (m & (t & Hm & ->)%eval_read_env & Hev).
    split; [intros _ (Hs & Hb & md & Hmd & Ht)|].
    - unfold lease_metadata in Hmd. rewrite Hm in Hmd. injection Hmd as <-. rewrite Ht, String.eqb_refl in Hev.
      cbn [negb] in Hev. rewrite eval_bind in Hev by readers. apply rbind_ok in Hev as (st & ->%eval_read_or & Hev).
      apply eval_check_then in Hev as [Hc _]. unfold lease_state in Hb. by rewrite Hb in Hc.
    - destruct (negb _); [done|]. rewrite eval_bind in Hev by readers.
      apply rbind_ok in Hev as (st & _ & Hev). by apply eval_check_then in Hev as [_ Hev]. }
  intros a [->|Ha]%elem_of_cons; [done|]. by apply IH.
Qed.

Lemma all_no_newline_ok l u : all_no_newline l = Ok u -> Forall (fun kv => has_char nl kv.2 = false) l.
Proof.
  induction l as [|[label v] l IH]; cbn [all_no_newline]; [constructor|]. intros Hl. apply rbind_ok in Hl as ([] & Hv & Hl).
  unfold no_newline in Hv. apply guard_ok, negb_true_iff in Hv. constructor; auto.
Qed.
Lemma first_arg_ok args message id rest : first_arg args message = Ok (id, rest) -> args = id :: rest /\ id <> "".
Proof.
  destruct args as [|a args]; cbn [first_arg]; [done|]. destruct (is_empty a) eqn:E; [done|]. intros [= -> ->].
  split; [done|]. by apply is_empty_false.
Qed.
Lemma option_required_ok values key message v :
  option_required values key message = Ok v -> v = option_first values key /\ v <> "".
Proof.
  unfold option_required. destruct (is_empty (option_first values key)) eqn:E; [done|]. intros [= <-].
  split; [done|]. by apply is_empty_false.
Qed.
Lemma clean_field_no_nl s : clean_field s = true -> has_char nl s = false.
Proof. unfold clean_field, clean. intros Hs. by bool_hyps. Qed.
Lemma name_no_slash name u : validate_name name = Ok u -> has_char "/" name = false.
Proof. intros [Hn _]%validate_name_ok. by apply (all_chars_no_char name_char). Qed.
Lemma name_no_nl name u : validate_name name = Ok u -> has_char nl name = false.
Proof. intros [Hn _]%validate_name_ok. by apply (all_chars_no_char name_char). Qed.

(** Readable lines from literal keys and values without line breaks. *)
Lemma env_weak_all kvs :
  forallb (fun k => clean k && negb (has_char "=" k)) kvs.*1 = true -> Forall (fun v => has_char nl v = false) kvs.*2 ->
  forallb env_weak kvs = true.
Proof.
  induction kvs as [|[k v] kvs IH]; [done|]. cbn [fmap list_fmap forallb fst snd].
  intros [Hk Hks]%andb_true_iff [Hv Hvs]%Forall_cons. unfold env_weak at 1. cbn [fst snd]. rewrite Hk, Hv. by apply IH.
Qed.

(** The option of the target without a carriage return: one at its end would
    be lost when the lease is read back. *)
Definition clean_target (args : list string) : Prop :=
  forall values, repeated_options (tl args) [] = Ok values -> has_char cr (option_first values "--target") = false.

Lemma blocks_text state : blocks state = true -> blocks (trim (state +:+ newline)) = true.
Proof.
  unfold blocks at 1, mem. cbn [existsb]. rewrite !orb_true_iff, !String.eqb_eq. intros [->|[->|?]]; [..|done]; reflexivity.
Qed.

Lemma create_lease_safe `{HC : !ClockClean} base r id owner target command risk state fs :
  root = Ok r -> has_char "/" id = false ->
  Forall (fun s => has_char nl s = false) [id; owner; target; command; risk; r] -> has_char cr target = false ->
  blocks state = true ->
  (forall f, has_char "/" f = false -> f <> "" -> fs !! path_join (path_join base id) f = None) ->
  (forall a, ~ holds fs base a target) ->
  safely (inv base) (create_lease (path_join base id) id owner target command risk state)
    (fun _ fs' => holds fs' base id target) fs.
Proof.
  intros Hroot Hslash Hlines Hcr Hblocks Hfresh Hnone. unfold create_lease.
  safe_step; [apply inv_dir|]. set (fs2 := <[_ := _]> fs).
  do 3 safe_step. rename select (root = _) into Hr'. rewrite Hroot in Hr'. injection Hr' as <-.
  set (kvs := [("lease_id", id); _; _; _; _; _; _; _]).
  assert (state_value (parse_env (print_env kvs)) "target" = target) as Htarget.
  { apply parse_env_weak_value; [|nodup_keys|set_solver|done].
    repeat match goal with Hl : Forall _ (_ :: _) |- _ => apply Forall_cons in Hl as [? Hl] end.
    apply env_weak_all; [reflexivity|]. repeat constructor; try done; by apply clean_field_no_nl. }
  set (env := path_join (path_join base id) "lease.env"). set (file := path_join (path_join base id) "status").
  assert (fs2 !! file = None) as Hidle.
  { unfold fs2, file. rewrite lookup_insert_ne; [by apply Hfresh|].
    change (path_join base id +:+ "/") with (path_join (path_join base id) ""). by apply path_join_ne. }
  safe_step.
  { apply (inv_idle base id); [by apply same_but_entry|unfold lease_state, file_or|unfold lease_metadata].
    - rewrite lookup_insert_ne by other_file. fold file. by rewrite Hidle.
    - fold env. rewrite lookup_insert_eq. intros m [= <-]. by rewrite Htarget. }
  safe_step; [by apply inv_other|]. set (fs3 := <[_ := _]> (<[env := _]> fs2)).
  assert (holds (<[file := state +:+ newline]> fs3) base id target) as Hnew.
  { split; [done|]. unfold lease_state, lease_metadata, file_or. fold env file. rewrite lookup_insert_eq. cbn [unwrap_or].
    split; [by apply blocks_text|]. rewrite lookup_insert_ne by other_file. unfold fs3.
    rewrite lookup_insert_ne by other_file. rewrite lookup_insert_eq. eauto. }
  safe_step.
  { apply (inv_change base id); [by apply same_but_entry| |].
    2: { intros m Hm. destruct Hnew as (_ & _ & m' & Hm' & <-). by simplify_eq. }
    intros t Ht a Ha. destruct (decide (a = id)) as [|Hne]; [done|]. destruct (Hnone a). rewrite <- (holds_unique _ _ _ _ _ Ht Hnew).
    apply (holds_same base id fs fs3); [unfold fs3|done|exact Ha].
    eapply same_but_trans; [|by apply same_but_entry]. eapply same_but_trans; [|by apply same_but_entry].
    apply same_but_dir. }
  apply lease_json_safe. intros t. by apply holds_other.
Qed.

Lemma acquire_safe `{HC : !ClockClean} dir r args quiet fs :
  state_dir = Ok dir -> root = Ok r -> has_char nl r = false -> clean_target args ->
  safely (inv (leases_dir dir)) (validation_lease_acquire_impl args quiet)
    (fun _ fs' => exists id values, hd_error args = Some id /\ repeated_options (tl args) [] = Ok values
       /\ holds fs' (leases_dir dir) id (option_first values "--target")) fs.
Proof.
  intros Hdir Hroot Hnl Hct. unfold validation_lease_acquire_impl. set (base := leases_dir dir).
  safe_step. destruct a as [id rest]. cbn [fst snd]. rename select (first_arg _ _ = _) into Hfirst.
  apply first_arg_ok in Hfirst as [-> Hid]. unfold clean_target in Hct. cbn [tl] in Hct |- *.
  safe_step. rename select (validate_name id = _) into Hname.
  safe_step. rename a0 into values. rename select (repeated_options _ _ = _) into Hopts. specialize (Hct values Hopts).
  safe_step. safe_step. rename select (validate_name _ = _) into Hown.
  safe_step. rename select (option_required _ "--target" _ = _) into Htarget.
  apply option_required_ok in Htarget as [-> _].
  safe_step. safe_step. rename select (all_no_newline _ = _) into Hlines. apply all_no_newline_ok in Hlines.
  safe_step. safe_step. rename select (blocks _ = true) into Hblocks.
  safe_step. rename select (state_dir = _) into Hd'. rewrite Hdir in Hd'. injection Hd' as <-. fold base.
  safe_step; [apply inv_dir|]. set (fs1 := <[base +:+ "/" := ""]> fs). safe_step.
  apply safely_bind, safely_reader; [apply reader_conflicts|]. intros u Hcon.
  safe_step. rename select (negb (entry_exists _ _ _) = true) into Hnew. apply negb_true_iff in Hnew.
  assert (forall f, has_char "/" f = false -> f <> "" -> fs1 !! path_join (path_join base id) f = None) as Hfresh.
  { intros f _ _. apply eq_None_not_Some. intros Hf%is_dir_file. unfold entry_exists in Hnew. rewrite Hf in Hnew.
    by rewrite orb_true_r in Hnew. }
  apply safely_bind. eapply safely_mono; [eapply (create_lease_safe base r)|]; try done.
  - by apply (name_no_slash _ _ Hname).
  - repeat match goal with Hl : Forall _ (_ :: _) |- _ => apply Forall_cons in Hl as [? Hl] end.
    repeat constructor; try done; by eapply name_no_nl.
  - intros b Hb. destruct (decide (b = id)) as [->|Hne].
    + destruct Hb as (Hs & _ & m & Hm & _). unfold lease_metadata in Hm. by rewrite Hfresh in Hm.
    + pose proof Hb as (Hs & _ & m & Hm & _). unfold lease_metadata in Hm. apply fmap_Some in Hm as (t & Ht & _).
      eapply conflicts_none; [exact Hcon| |exact Hne|exact Hb]. eapply subdirectories_file; [done|]. eauto.
  - intros ? fs' _ Hh. cbn beta in Hh. assert (exists id0 values0, hd_error (id :: rest) = Some id0
      /\ repeated_options rest [] = Ok values0 /\ holds fs' base id0 (option_first values0 "--target")) by eauto.
    destruct quiet; by safe_step.
Qed.

(** ** Changing the state of a lease *)

Lemma split_once_no c d s a b : split_once c s = Some (a, b) -> has_char d s = false -> has_char d b = false.
Proof.
  revert a. induction s as [|x s IH]; intros a; simpl; [done|]. destruct (Ascii.eqb x c).
  - intros [= <- <-]. by intros [_ Hs]%orb_false_iff.
  - destruct (split_once c s) as [[a' b']|]; [|done]. intros [= <- <-] [_ Hs]%orb_false_iff. by eapply IH.
Qed.

Lemma parse_env_no_nl text k : has_char nl (state_value (parse_env text) k) = false.
Proof.
  unfold parse_env, state_value. pose proof (lines_no_nl text) as Hl. revert Hl. generalize (lines text).
  assert (forall l (m : gmap string string), Forall (fun l => has_char nl l = false) l ->
            (forall k, has_char nl (unwrap_or (m !! k) "") = false) ->
            has_char nl (unwrap_or (foldl (fun m kv => <[kv.1 := kv.2]> m) m (omap (split_once "=") l) !! k) "") = false)
    as Hind.
  { induction l as [|x l IH]; intros m Hl Hm; [apply Hm|]. apply Forall_cons in Hl as [Hx Hl]. simpl.
    destruct (split_once "=" x) as [[a b]|] eqn:E; [|by apply IH]. apply IH; [done|]. intros k'. cbn [fst snd].
    destruct (decide (a = k')) as [<-|Hne]; [|by rewrite lookup_insert_ne]. rewrite lookup_insert_eq.
    by eapply split_once_no. }
  intros l Hl. by apply Hind.
Qed.

Lemma lease_text_target text now :
  has_char nl now = false -> has_char cr (state_value (parse_env text) "target") = false ->
  state_value (parse_env (lease_text (<["updated_at" := now]> (parse_env text)))) "target"
  = state_value (parse_env text) "target".
Proof.
  intros Hnow Hcr. set (md := <["updated_at" := now]> (parse_env text)).
  assert (lease_text md = print_env (map (fun k => (k, state_value md k)) LEASE_ORDER)) as -> by done.
  assert (forall k, has_char nl (state_value md k) = false) as Hnl.
  { intros k. unfold md. destruct (decide ("updated_at" = k)) as [<-|Hne]; [by rewrite state_value_insert|].
    rewrite state_value_insert_ne by done. apply parse_env_no_nl. }
  assert (state_value (parse_env text) "target" = state_value md "target") as Ht
    by (unfold md; by rewrite state_value_insert_ne).
  rewrite Ht in Hcr |- *. apply parse_env_weak_value; [|nodup_keys| |done].
  - unfold env_weak, LEASE_ORDER. cbn [map forallb fst snd]. by rewrite !Hnl.
  - unfold LEASE_ORDER. cbn [map]. set_solver.
Qed.

Lemma lease_state_text state u : validate_lease_state state = Ok u -> trim (state +:+ newline) = state.
Proof.
  destruct u. unfold validate_lease_state. intros Hs%guard_ok. unfold mem in Hs. apply existsb_exists in Hs as (s & Hin & Heq).
  apply String.eqb_eq in Heq as ->. cbn in Hin. repeat destruct Hin as [<-|Hin]; [vm_compute; reflexivity..|destruct Hin].
Qed.

(** Writing the metadata again keeps the target of a lease. *)
Lemma inv_touch base id text now fs :
  has_char "/" id = false -> has_char nl now = false ->
  fs !! path_join (path_join base id) "lease.env" = Some text ->
  inv base fs ->
  inv base (<[path_join (path_join base id) "lease.env" := lease_text (<["updated_at" := now]> (parse_env text))]> fs).
Proof.
  intros Hid Hnow Hfile Hinv. set (fs' := <[_ := _]> fs).
  assert (lease_metadata fs base id = Some (parse_env text)) as Hmd by (unfold lease_metadata; by rewrite Hfile).
  assert (lease_metadata fs' base id = Some (parse_env (lease_text (<["updated_at" := now]> (parse_env text))))) as Hmd'.
  { unfold lease_metadata, fs'. by rewrite lookup_insert_eq. }
  pose proof (lease_text_target text now Hnow (proj2 Hinv id _ Hid Hmd)) as Ht.
  apply (inv_change base id fs); [by apply same_but_entry|..|done].
  - intros target (_ & Hb & m & Hm & <-) a Ha. rewrite Hmd' in Hm. injection Hm as <-. rewrite Ht in Ha.
    apply (proj1 Hinv a id _ Ha). split; [done|]. split; [|by exists (parse_env text)].
    revert Hb. unfold lease_state, file_or, fs'. by rewrite lookup_insert_ne by other_file.
  - intros m Hm. rewrite Hmd' in Hm. injection Hm as <-. rewrite Ht. by apply (proj2 Hinv id).
Qed.

Lemma status_safe `{HC : !ClockClean} dir args quiet fs :
  state_dir = Ok dir -> (forall id state rest, args = id :: state :: rest -> blocks state = false) ->
  safely (inv (leases_dir dir)) (validation_lease_status_impl args quiet)
    (fun _ fs' => exists id state rest, args = id :: state :: rest
       /\ lease_state fs' (leases_dir dir) id = state) fs.
Proof.
  intros Hdir Hidle. unfold validation_lease_status_impl. set (base := leases_dir dir).
  destruct args as [|id [|state rest]]; [apply safely_fail..|]. specialize (Hidle id state rest eq_refl).
  safe_step. rename select (validate_name _ = _) into Hslash. apply name_no_slash in Hslash.
  safe_step. rename select (validate_lease_state _ = _) into Hstate. apply lease_state_text in Hstate.
  safe_step. safe_step. rename select (state_dir = _) into Hd'. rewrite Hdir in Hd'. injection Hd' as <-. fold base.
  safe_step; [apply inv_dir|]. safe_step. safe_step.
  apply safely_bind. eapply (safely_mono _ _ (fun _ _ => True)).
  { destruct (is_empty _); [by safe_step|]. safe_step. by safe_step; [apply inv_other|]. }
  intros ? fs1 Hinv _. safe_step. rename select (eval (read_env _) _ = _) into Hread.
  apply eval_read_env in Hread as (text & Hfile & ->). safe_step. rename select (clean_field _ = true) into Hnow.
  apply clean_field_no_nl in Hnow. unfold write_lease_env. safe_step; [by apply inv_touch|]. set (fs2 := <[_ := _]> fs1).
  safe_step.
  { intros Hinv2. apply (inv_idle base id fs2); [by apply same_but_entry|..|done].
    - unfold lease_state, file_or. rewrite lookup_insert_eq. cbn [unwrap_or]. by rewrite Hstate.
    - intros m Hm. apply (proj2 Hinv2 id); [done|]. rewrite <- Hm. unfold lease_metadata.
      by rewrite lookup_insert_ne by other_file. }
  set (fs3 := <[_ := _]> fs2). apply safely_bind, lease_json_safe. intros t.
  assert (lease_state (<[path_join (path_join base id) "lease.json" := t]> fs3) base id = state) as Hend.
  { unfold lease_state, file_or, fs3. rewrite lookup_insert_ne by other_file. by rewrite lookup_insert_eq. }
  destruct quiet; safe_step; eauto.
Qed.

(** ** Validation runs *)

Context `{Resolver} `{Process}.

(** Commands under validation leave the lease files alone, and exit codes are
    bytes. *)
Class ProcessLaws (base : string) : Prop := {
  process_frame : forall command cwd timeout fs f fs', run_process command cwd timeout fs = Ok (f, fs') ->
    forall a g, fs' !! path_join (path_join base a) g = fs !! path_join (path_join base a) g;
  process_code : forall command cwd timeout fs f fs' n, run_process command cwd timeout fs = Ok (f, fs') ->
    code_of f = Some n -> 0 <= n <= 255
}.

Lemma acquire_args_target id owner target command risk values :
  repeated_options (tl (acquire_args id owner target command risk)) [] = Ok values ->
  option_first values "--target" = target.
Proof. unfold repeated_options, acquire_args. cbn -[insert lookup empty]. by intros [= <-]. Qed.

Lemma leases_frame base fs fs' :
  (forall a g, fs' !! path_join (path_join base a) g = fs !! path_join (path_join base a) g) -> inv base fs -> inv base fs'.
Proof.
  intros Hs [Hx Hc]. split.
  - intros a b target Ha Hb. apply (Hx a b target); unfold holds, lease_state, lease_metadata, file_or in *;
      by rewrite !Hs in *.
  - intros a m Ha Hm. apply (Hc a m Ha). rewrite <- Hm. unfold lease_metadata. by rewrite Hs.
Qed.

Lemma safely_temporary P context Q fs : Q tt fs -> safely P (temporary context) Q fs.
Proof.
  intros HQ HP w r w' <-. unfold temporary. by destruct (faults w) as [|[] fl]; intros [= <- <-]; split; try done; intros [] _.
Qed.
Lemma safely_child base `{HL : !ProcessLaws base} command cwd timeout Q fs :
  (forall f fs', (forall n, code_of f = Some n -> 0 <= n <= 255) -> Q f fs') ->
  safely (inv base) (run_child command cwd timeout) Q fs.
Proof.
  intros HQ HP w r w' <-. unfold run_child. destruct (run_process command cwd timeout (files w)) as [[f fs']|e] eqn:E.
  - intros [= <- <-]. cbn [files]. split; [by eapply leases_frame; [eapply process_frame|]|]. intros a [= <-]. apply HQ.
    intros n Hn. by eapply process_code.
  - by intros [= <- <-].
Qed.

Definition clean_run (args : list string) : Prop :=
  forall parts values, split_separator args = Some parts -> repeated_options (tl parts.1) [] = Ok values ->
    has_char cr (option_first values "--target") = false.

(** The verdict that a run leaves in its lease. *)
Definition run_recorded (base : string) (args : list string) (code : Z) fs : Prop :=
  exists id f, hd_error args = Some id /\ code = return_code f /\ 0 <= code <= 255
    /\ lease_state fs base id = verdict_of f.

Lemma run_safe `{HC : !ClockClean} dir r args fs :
  ProcessLaws (leases_dir dir) -> state_dir = Ok dir -> root = Ok r -> has_char nl r = false -> clean_run args ->
  safely (inv (leases_dir dir)) (validation_run args) (run_recorded (leases_dir dir) args) fs.
Proof.
  intros HL Hdir Hroot Hnl Hct. unfold validation_run. safe_step. destruct a as [id rest]. cbn [fst snd].
  rename select (first_arg _ _ = _) into Hfirst. apply first_arg_ok in Hfirst as [Hargs Hid].
  safe_step. safe_step. rename select (ok_or _ _ = _) into Hparts. rewrite ok_or_ok in Hparts.
  safe_step. rename select (map_err _ _ = _) into Hopts. apply map_err_ok in Hopts.
  specialize (Hct _ _ Hparts Hopts). do 3 safe_step.
  safe_step. rename select (option_required _ "--target" _ = _) into Htarget.
  apply option_required_ok in Htarget as [-> _]. do 5 safe_step.
  apply safely_bind. eapply (safely_mono _ _ (fun _ _ => True)).
  { eapply safely_mono; [|done]. apply (acquire_safe dir r); try done. intros vs Hvs.
    by rewrite (acquire_args_target _ _ _ _ _ _ Hvs). }
  intros ? fs1 Hinv _. do 3 (apply safely_bind, safely_temporary). safe_step.
  apply safely_bind, safely_child; [done|]. intros f fs2 Hcode. safe_step. safe_step.
  apply safely_bind. eapply safely_mono.
  { apply (status_safe dir); [done|]. intros i s l [= <- <- <-]. unfold verdict_of. by repeat case_goal. }
  intros ? fs3 _ (i & s & l & [= <- <- <-] & Hs). apply safely_bind, safely_temporary. apply safely_ret.
  assert (0 <= return_code f <= 255) as Hrange.
  { unfold return_code. destruct (timed_out f); [lia|]. destruct (code_of f) as [n|] eqn:E; cbn [unwrap_or]; [by apply Hcode|lia]. }
  exists id, f. rewrite Hargs. unfold clamp. split_and!; [done|lia|lia|lia|exact Hs].
Qed.

(** ** Sequences of commands *)

Inductive LeaseOp :=
| Acquire (args : list string)
| SetStatus (args : list string)
| Run (args : list string)
| ShowLease (args : list string).

Definition run_lease_op (o : LeaseOp) (w : World) : World :=
  match o with
  | Acquire args => (validation_lease_acquire args w).2
  | SetStatus args => (validation_lease_status args w).2
  | Run args => (validation_run args w).2
  | ShowLease args => (validation_lease_show args w).2
  end.

(** Targets without a carriage return, and no lease that is set back to an
    active state. *)
Definition orderly (o : LeaseOp) : Prop :=
  match o with
  | Acquire args => clean_target args
  | SetStatus args => forall id state rest, args = id :: state :: rest -> blocks state = false
  | Run args => clean_run args
  | ShowLease _ => True
  end.

Lemma show_safe dir args fs :
  state_dir = Ok dir -> safely (inv (leases_dir dir)) (validation_lease_show args) (fun _ _ => True) fs.
Proof.
  intros Hdir. unfold validation_lease_show. safe_step. safe_step.
  rename select (state_dir = _) into Hd'. rewrite Hdir in Hd'. injection Hd' as <-. safe_step. safe_step.
  apply safely_bind, lease_json_safe. intros t. by do 3 safe_step.
Qed.

Lemma lease_op_safe `{HC : !ClockClean} dir r o w :
  ProcessLaws (leases_dir dir) -> state_dir = Ok dir -> root = Ok r -> has_char nl r = false -> orderly o ->
  inv (leases_dir dir) (files w) -> inv (leases_dir dir) (files (run_lease_op o w)).
Proof.
  intros HL Hdir Hroot Hnl Ho Hinv.
  assert (forall A (m : IO A) Q, safely (inv (leases_dir dir)) m Q (files w) -> inv (leases_dir dir) (files (m w).2)) as Hrun.
  { intros A m Q Hm. destruct (m w) as [res w'] eqn:E. by destruct (safely_run _ _ _ _ _ _ Hinv Hm E). }
  destruct o as [args|args|args|args]; cbn [run_lease_op orderly] in Ho |- *; eapply Hrun.
  - by apply (acquire_safe dir r).
  - by apply (status_safe dir).
  - by apply (run_safe dir r).
  - by apply show_safe.
Qed.


(** The verdict of a validation run. When the command returns, its exit code
    is that of the validated command, 124 after a timeout and 1 after a signal,
    always a byte; the lease has ended with the verdict, and the verdict is
    passed exactly when the exit code is zero. *)
Theorem validation_run_verdict `{HC : !ClockClean} dir r args code w w' :
  ProcessLaws (leases_dir dir) -> state_dir = Ok dir -> root = Ok r -> has_char nl r = false -> clean_run args ->
  inv (leases_dir dir) (files w) -> validation_run args w = (Ok code, w') ->
  exists id f, hd_error args = Some id /\ code = return_code f /\ 0 <= code <= 255
    /\ lease_state (files w') (leases_dir dir) id = verdict_of f
    /\ (lease_state (files w') (leases_dir dir) id = "passed" <-> code = 0).
Proof.
  intros HL Hdir Hroot Hnl Hct Hinv E.
  destruct (safely_run _ _ _ _ _ _ Hinv (run_safe dir r args (files w) HL Hdir Hroot Hnl Hct) E) as [_ Hq].
  destruct (Hq code eq_refl) as (id & f & Hid & Hcode & Hrange & Hs). exists id, f. do 4 (split; [done|]).
  rewrite Hs, Hcode. unfold verdict_of, return_code. destruct (timed_out f); [done|].
  destruct (unwrap_or (code_of f) 1 =? 0) eqn:Ez; split; try done; intros; lia.
Qed.

(** Deciding the conditions on concrete arguments. *)
Definition clean_option (options : result string (gmap string (list string))) : bool :=
  match options with Ok values => negb (has_char cr (option_first values "--target")) | Err _ => true end.
Lemma clean_target_dec args : clean_option (repeated_options (tl args) []) = true -> clean_target args.
Proof. intros Hc values Hv. rewrite Hv in Hc. by apply negb_true_iff. Qed.
Lemma clean_run_dec args parts :
  split_separator args = Some parts -> clean_option (repeated_options (tl parts.1) []) = true -> clean_run args.
Proof. intros Hp Hc parts' values Hp' Hv. simplify_eq. rewrite Hv in Hc. by apply negb_true_iff. Qed.
Lemma holds_dec fs base id target :
  negb (has_char "/" id) && blocks (lease_state fs base id)
  && bool_decide ((fun m => state_value m "target") <$> lease_metadata fs base id = Some target) = true ->
  holds fs base id target.
Proof.
  rewrite !andb_true_iff, negb_true_iff, bool_decide_eq_true. intros [[Hs Hb] (m & Hm & Ht)%fmap_Some].
  split; [done|]. eauto.
Qed.

End Props.

(** ** Concrete runs *)

Module LeasesWitness.

#[local] Instance platform : Platform := toy_platform (fun _ => None) 0.
#[local] Instance clock : ClockClean := toy_clock_clean (fun _ => None) 0.
#[local] Instance resolver : Resolver := fun _ p => if is_absolute p then Some p else None.

(** A process that knows one program. *)
#[local] Instance shell : Process := fun command _ _ fs =>
  match command with
  | "true" :: _ => Ok (mkFinished (Some 0) false "" "", fs)
  | "false" :: _ => Ok (mkFinished (Some 1) false "" "", fs)
  | _ => Err (io_error "start validation command")
  end.
Definition dir : string := "/work/.multiagent".
#[local] Instance shell_laws : ProcessLaws (leases_dir dir).
Proof.
  split.
  - intros command cwd timeout fs f fs' Hr. unfold run_process, shell in Hr. repeat case_match; by simplify_eq.
  - intros command cwd timeout fs f fs' n Hr Hn. unfold run_process, shell in Hr. repeat case_match; simplify_eq; simpl in *; simplify_eq; lia.
Qed.

Definition empty_store : World := mkWorld {["/work/src/a.rs" := ""]} [] 0 [].
Lemma empty_inv : inv (leases_dir dir) (files empty_store).
Proof.
  split.
  - intros a b target (_ & _ & m & Hm & _). exfalso. revert Hm. unfold lease_metadata. cbn [files empty_store].
    rewrite lookup_singleton_ne; [done|]. unfold path_join, leases_dir, dir. done.
  - intros a m _ Hm. exfalso. revert Hm. unfold lease_metadata. cbn [files empty_store].
    rewrite lookup_singleton_ne; [done|]. unfold path_join, leases_dir, dir. done.
Qed.

Definition lease_args (id : string) : list string := [id; "--owner"; "w"; "--target"; "db"; "--command"; "cargo test"].
Definition run_args (id program : string) : list string := [id; "--owner"; "w"; "--target"; "db"; "--"; program].

(** The second acquisition of that sequence is refused, the run succeeds. *)
Example lease_conflict :
  let w1 := (validation_lease_acquire (lease_args "l1") empty_store).2 in
  let w2 := (validation_lease_status ["l1"; "released"] w1).2 in
  (validation_lease_acquire (lease_args "l2") w1).1
    = Err "validation lease conflict: target=db lease=l1 owner=w state=running"
  /\ (validation_run (run_args "l3" "true") w2).1 = Ok 0.
Proof. vm_compute. done. Qed.

Definition run_world : World := Eval vm_compute in (validation_run (run_args "l3" "false") empty_store).2.
Lemma validation_run_verdict_witness :
  exists id f, hd_error (run_args "l3" "false") = Some id /\ 1 = return_code f /\ 0 <= 1 <= 255
    /\ lease_state (files run_world) (leases_dir dir) id = verdict_of f
    /\ (lease_state (files run_world) (leases_dir dir) id = "passed" <-> 1 = 0).
Proof.
  apply (validation_run_verdict dir "/work" (run_args "l3" "false") 1 empty_store run_world);
    [exact shell_laws|vm_compute; reflexivity..| |exact empty_inv|vm_compute; reflexivity].
  eapply clean_run_dec; [reflexivity|]. vm_compute. reflexivity.
Defined.

(** A status update can set an ended lease back to running although another
    lease holds the target by then. *)
Theorem lease_reactivated :
  let w1 := (validation_lease_acquire (lease_args "l1") empty_store).2 in
  let w2 := (validation_lease_status ["l1"; "released"] w1).2 in
  let w3 := (validation_lease_acquire (lease_args "l2") w2).2 in
  let out := validation_lease_status ["l1"; "running"] w3 in
  out.1 = Ok tt /\ ~ exclusive (leases_dir dir) (files out.2).
Proof.
  split; [vm_compute; reflexivity|]. intros Hx. assert ("l1" = "l2") as Heq; [|discriminate Heq].
  apply (Hx "l1" "l2" "db"); apply holds_dec; vm_compute; reflexivity.
Qed.

(** A run whose program cannot be started stops with its lease running; the
    target stays blocked although nothing works on it. *)
Theorem run_leaves_lease :
  let w := (validation_run (run_args "l1" "missing") empty_store).2 in
  (validation_run (run_args "l1" "missing") empty_store).1 = Err "start validation command: I/O error"
  /\ lease_state (files w) (leases_dir dir) "l1" = "running"
  /\ (validation_run (run_args "l2" "true") w).1
     = Err "validation lease conflict: target=db lease=l1 owner=w state=running".
Proof. vm_compute. done. Qed.

End LeasesWitness.
