(* ===== verification/Assignments.v ===== *)
(** * Assignments: assignments and checkpoints of [runtime/src/subagent.rs]

    An assignment gives a subagent the paths it may write. Active assignments
    of writing roles own disjoint parts of the repository; verifiers and scouts
    only read and are exempt. *)

From S2P Require Import Prelude Text State Json LogModel Config Execution Dag Lifecycle Snapshot Findings Policy.

Definition ASSIGNMENT_ROLES : list string :=
  ["exploitation"; "exploration"; "reflection"; "architecture"; "qa"; "verifier"; "scout"].
Definition TERMINAL_STATUSES : list string :=
  ["done"; "completed"; "closed"; "cancelled"; "canceled"; "failed"; "released"; "skipped"].

(** ** Arguments *)

Record AssignmentOptions := mkAssignmentOptions {
  name : string;
  assignment : string;      (* [assignment_id] *)
  branch : string;
  owned : list string;
  status : string;
  start_commit : string;
  role : string;
  decision_id : string;
  plan_id : string;
  workflow : string;        (* [workflow_id] *)
  node_id : string;
  depends : string          (* [depends_on] *)
}.

Definition ASSIGNMENT_KEYS : list string :=
  ["--assignment-id"; "--branch"; "--status"; "--start-commit"; "--role"; "--decision-id"; "--plan-id";
   "--workflow-id"; "--node-id"; "--depends-on"].

Fixpoint assignment_options (values : gmap string string) (owned : list string) (args : list string)
  : result string (gmap string string * list string) :=
  match args with
  | [] => Ok (values, owned)
  | key :: rest =>
      match rest with
      | [] => Err ("unknown assignment-create argument: " +:+ key)
      | value :: rest' =>
          if String.eqb key "--owned" then assignment_options values (owned ++ [value]) rest'
          else if mem key ASSIGNMENT_KEYS then assignment_options (<[key := value]> values) owned rest'
          else Err ("unknown assignment-create argument: " +:+ key)
      end
  end.

Definition parse_assignment (args : list string) : result string AssignmentOptions :=
  let? first := first_arg args "assignment-create requires NAME" in
  let? parsed := assignment_options ∅ [] first.2 in
  let values := parsed.1 in
  let value key default := unwrap_or (values !! key) default in
  let required key message := let v := value key "" in if is_empty v then Err message else Ok v in
  let? assignment_id := required "--assignment-id" "assignment-create requires --assignment-id ID" in
  let? branch := required "--branch" "assignment-create requires --branch BRANCH" in
  Ok (mkAssignmentOptions first.1 assignment_id branch parsed.2 (value "--status" "assigned")
        (value "--start-commit" "") (value "--role" "exploitation") (value "--decision-id" "")
        (value "--plan-id" "") (value "--workflow-id" "") (value "--node-id" "") (value "--depends-on" "")).

Definition one_agent (command : string) (args : list string) : result string string :=
  match args with
  | [agent] => let? _ := validate_name agent in Ok agent
  | _ => Err (command +:+ " requires NAME")
  end.

(** ** Paths *)

(** [path.strip_prefix(base).is_some_and(|suffix| suffix.starts_with('/'))]. *)
Definition below (path base : string) : bool :=
  match strip_prefix base path with Some suffix => starts_with "/" suffix | None => false end.
Definition paths_overlap (left right : string) : bool :=
  String.eqb left right || below left right || below right left.

Fixpoint trim_slashes (fuel : nat) (s : string) : string :=
  match fuel with
  | O => s
  | S n => match strip_suffix "/" s with Some s' => trim_slashes n s' | None => s end
  end.

Section Assignments.
Context `{Platform} `{Git} `{Resolver}.

(** As [find_ancestor] of the policy, but every dropped component must have a
    name: a parent component below a missing directory is refused. *)
Fixpoint named_ancestor (fuel : nat) (fs : gmap string string) (ancestor : list PathComponent)
    (missing : list string) : option (list PathComponent * list string) :=
  if path_exists fs (render ancestor) then Some (ancestor, missing)
  else match fuel with
  | O => None
  | S n =>
      match file_name ancestor with
      | None => None
      | Some name => named_ancestor n fs (pop ancestor) (missing ++ [name])
      end
  end.

Definition canonicalize_missing (fs : gmap string string) (path : string) : result string string :=
  if path_exists fs path then ok_or (resolve fs path) (io_error "canonicalize assigned path")
  else
    let cs := components path in
    let? found := ok_or (named_ancestor (length cs) fs cs []) ("cannot resolve assigned path: " +:+ path) in
    let? resolved := ok_or (resolve fs (render found.1)) (io_error "canonicalize assigned path") in
    Ok (render (normalize_lexically (components resolved ++ map Normal (reverse found.2)))).

Definition normalize_repo_path (fs : gmap string string) (r requested : string) : result string string :=
  let absolute := if is_absolute requested then requested else push_path r requested in
  let? canonical := canonicalize_missing fs absolute in
  let? _ := guard (inside canonical r) ("assigned path is outside MULTIAGENT_ROOT: " +:+ requested) in
  let? relative := ok_or (path_strip_prefix r canonical) "assigned path is outside MULTIAGENT_ROOT" in
  let? _ := guard (negb (is_empty relative)) "assigned path may not be the whole repo root" in
  Ok (trim_slashes (String.length relative) relative).

(** The owned paths of all [--owned] groups, as a [BTreeSet]. *)
Definition owned_values (groups : list string) : list string :=
  List.filter (fun v => negb (is_empty v)) (map trim (concat (map (split ",") groups))).
Fixpoint normalize_all (fs : gmap string string) (r : string) (values : list string)
  : result string (gset string) :=
  match values with
  | [] => Ok ∅
  | v :: rest =>
      let? p := normalize_repo_path fs r v in
      let? ps := normalize_all fs r rest in
      Ok ({[p]} ∪ ps)
  end.

(** ** Git *)

Definition git_output (r : string) (args : list string) (fs : gmap string string) : result string string :=
  let? output := map_err (fun e => "run git: " +:+ e) (git (["-C"; r] ++ args) fs) in
  let? _ := guard (success output)
              ("git " +:+ join " " args +:+ " failed: " +:+ trim (from_utf8_lossy (err_bytes output))) in
  Ok (trim (from_utf8_lossy (out_bytes output))).

Definition resolve_commit (r requested : string) (fs : gmap string string) : result string string :=
  let revision := if is_empty requested then "HEAD" else requested +:+ "^{commit}" in
  let? output := map_err (fun e => "run git rev-parse: " +:+ e) (git ["-C"; r; "rev-parse"; revision] fs) in
  let? _ := guard (success output)
              (if is_empty requested then "cannot resolve HEAD" else "invalid start commit: " +:+ requested) in
  Ok (trim (from_utf8_lossy (out_bytes output))).

Definition resolve_named_commit (r requested label : string) (fs : gmap string string) : result string string :=
  if is_empty requested then git_output r ["rev-parse"; "HEAD"] fs
  else map_err (fun _ => "invalid " +:+ label +:+ " commit: " +:+ requested)
         (git_output r ["rev-parse"; requested +:+ "^{commit}"] fs).

(** [fs::canonicalize(config::root()?)]. *)
Definition canonical_repo_root : IO string :=
  let! named := lift root in
  let! fs := get_files in
  lift (ok_or (resolve fs named) (io_error "canonicalize MULTIAGENT_ROOT")).

(** ** The store *)

Definition assignments_dir (state : string) : string := path_join state "assignments".
Definition assignment_dir (agent : string) : result string string :=
  let? _ := validate_name agent in
  let? state := state_dir in
  Ok (path_join (assignments_dir state) agent).
Definition require_assignment (agent : string) : IO string :=
  let! dir := lift (assignment_dir agent) in
  let! known := is_file (path_join dir "assignment.env") in
  let! _ := check known ("no assignment for agent: " +:+ agent) in
  ret dir.

Definition read_only_role (r : string) : bool := mem r ["verifier"; "scout"].
Definition terminal (status : string) : bool := mem status TERMINAL_STATUSES.

(** The first pair of overlapping paths, new paths outermost. *)
Definition overlap (new existing : list string) : option (string * string) :=
  hd_error (concat (map (fun path => map (pair path) (List.filter (paths_overlap path) existing)) new)).

(** The walk over the other assignments; the order of [read_dir] is the file
    system's and only decides which of several errors is reported. *)
Fixpoint reject_overlap_in (base new_name : string) (new_owned : list string) (names : list string) : IO unit :=
  match names with
  | [] => ret tt
  | existing :: rest =>
      if String.eqb existing new_name then reject_overlap_in base new_name new_owned rest
      else
        let dir := path_join base existing in
        let! status := read_or (path_join dir "status") "unknown" in
        if terminal (trim status) then reject_overlap_in base new_name new_owned rest
        else
          let! metadata := read_env (path_join dir "assignment.env") in
          if read_only_role (state_value metadata "role") then reject_overlap_in base new_name new_owned rest
          else
            let! text := read_or (path_join dir "owned-paths") "" in
            match overlap new_owned (nonempty_lines text) with
            | Some (new_path, old_path) =>
                fail ("active assignment owned-path overlap: new=" +:+ new_name +:+ " path=" +:+ new_path +:+ " existing="
                      +:+ existing +:+ " status=" +:+ trim status +:+ " existing_path=" +:+ old_path)
            | None => reject_overlap_in base new_name new_owned rest
            end
  end.
Definition reject_overlap (base new_name new_role : string) (new_owned : list string) : IO unit :=
  if read_only_role new_role then ret tt
  else let! fs := get_files in reject_overlap_in base new_name new_owned (subdirectories fs base).

(** ** Commands *)

(** [workflow::assignment_context]: the state of the workflow after the gate. *)
Definition assignment_context (workflow_id : string) : IO (gmap string string) :=
  implementation_gate_state workflow_id "" false.

Definition ASSIGNMENT_CONTEXT : list string :=
  ["iteration"; "iteration_plan_sha256"; "implementation_context"; "implementation_context_sha256"].

Definition assignment_metadata (o : AssignmentOptions) (r start now workflow_id : string)
    (context : option (gmap string string)) : list (string * string) :=
  let worker_cli := unwrap_or (env_var "WORKER_CLI") "claude" in
  let from_context key := match context with Some st => state_value st key | None => "" end in
  [("agent_name", name o); ("assignment_id", assignment o); ("branch", branch o); ("start_commit", start);
   ("created_at", now); ("root", r); ("worker_cli", worker_cli);
   ("subagent_cli", unwrap_or (env_var "SUBAGENT_CLI") worker_cli);
   ("verifier_cli", unwrap_or (env_var "VERIFIER_CLI") "codex");
   ("role", role o); ("decision_id", decision_id o); ("plan_id", plan_id o)]
  ++ map (fun key => (key, from_context key)) ASSIGNMENT_CONTEXT
  ++ [("workflow_id", workflow_id); ("node_id", node_id o); ("depends_on", depends o)].

(** The three files of an assignment. *)
Definition write_assignment (dir metadata paths status : string) : IO unit :=
  let! _ := atomic_write (path_join dir "assignment.env") metadata in
  let! _ := atomic_write (path_join dir "owned-paths") paths in
  atomic_write (path_join dir "status") (status +:+ newline).

Definition assignment_create (args : list string) : IO unit :=
  let! o := lift (parse_assignment args) in
  let! _ := lift (validate_name (name o)) in
  let! _ := check (mem (role o) ASSIGNMENT_ROLES)
    ("invalid role '" +:+ role o
     +:+ "' (expected exploitation|exploration|reflection|architecture|qa|verifier|scout)") in
  let! r := canonical_repo_root in
  let! state := lift state_dir in
  let base := assignments_dir state in
  let! _ := create_dir_all base "create assignments directory" in
  let! fs := get_files in
  let! owned := lift (normalize_all fs r (owned_values (owned o))) in
  let! _ := check (negb (bool_decide (owned = ∅))) "assignment must own at least one path" in
  let! _ := reject_overlap base (name o) (role o) (btree_list owned) in
  let! start := lift (resolve_commit r (start_commit o) fs) in
  let gated := lifecycle_enforced && String.eqb (role o) "exploitation" in
  let workflow_id := if gated && is_empty (workflow o)
                     then unwrap_or (env_var "MULTIAGENT_WORKFLOW_ID") "" else workflow o in
  let! context :=
    (if gated then
       let! _ := check (negb (is_empty workflow_id))
         "lifecycle enforcement requires --workflow-id for exploitation assignments" in
       let! st := lift (map_err (fun _ => "workflow implementation gate rejected assignment for workflow " +:+ workflow_id)
                          (eval (assignment_context workflow_id) fs)) in
       ret (Some st)
     else ret None) in
  let dir := path_join base (name o) in
  let! _ := create_dir_all dir "create assignment directory" in
  let! now := timestamp in
  let! _ := write_assignment dir (print_env (assignment_metadata o r start now workflow_id context))
              (unlines (btree_list owned)) (status o) in
  println ("assignment created" +:+ tabs +:+ name o +:+ tabs +:+ assignment o +:+ tabs +:+ branch o).

Definition assignment_status (args : list string) : IO unit :=
  match args with
  | [agent; status] =>
      let! _ := lift (no_newline "status" status) in
      let! dir := require_assignment agent in
      let! _ := atomic_write (path_join dir "status") (status +:+ newline) in
      println ("assignment status" +:+ tabs +:+ agent +:+ tabs +:+ status)
  | _ => fail "assignment-status requires NAME STATUS"
  end.

Definition assignment_show (args : list string) : IO unit :=
  let! agent := lift (one_agent "assignment-show" args) in
  let! dir := require_assignment agent in
  let! fs := get_files in
  let! text := lift (ok_or (fs !! path_join dir "assignment.env") (io_error "read assignment")) in
  let! _ := println text in
  let! status := read_or (path_join dir "status") ("unknown" +:+ newline) in
  let! _ := println ("status=" +:+ trim_end status) in
  let! _ := (match fs !! path_join dir "checkpoint.env" with
             | Some checkpoint =>
                 let! _ := println "checkpoint=" in println_all (map (fun l => "  " +:+ l) (lines checkpoint))
             | None => ret tt
             end) in
  let! _ := println "owned_paths=" in
  let! paths := lift (ok_or (fs !! path_join dir "owned-paths") (io_error "read owned paths")) in
  println_all (map (fun l => "  " +:+ l) (lines paths)).

(** *** Checking what a subagent changed *)

Definition CHANGE_QUERIES (start : string) : list (list string) :=
  [["diff"; "--name-only"; start +:+ "..HEAD"]; ["diff"; "--name-only"]; ["diff"; "--name-only"; "--cached"];
   ["ls-files"; "--others"; "--exclude-standard"]].
Fixpoint changed_by (r : string) (queries : list (list string)) (fs : gmap string string)
  : result string (gset string) :=
  match queries with
  | [] => Ok ∅
  | query :: rest =>
      let? text := git_output r query fs in
      let? others := changed_by r rest fs in
      Ok (list_to_set (nonempty_lines text) ∪ others)
  end.

Definition owns_path (owned : list string) (path : string) : bool :=
  existsb (fun base => String.eqb path base || below path base) owned.

Definition assignment_check (args : list string) : IO unit :=
  let! agent := lift (one_agent "assignment-check" args) in
  let! dir := require_assignment agent in
  let! metadata := read_env (path_join dir "assignment.env") in
  let! r := canonical_repo_root in
  let! fs := get_files in
  let! current := lift (git_output r ["rev-parse"; "--abbrev-ref"; "HEAD"] fs) in
  let expected := state_value metadata "branch" in
  let! _ := println ("assignment" +:+ tabs +:+ agent +:+ tabs +:+ state_value metadata "assignment_id") in
  let! _ := println ("branch" +:+ tabs +:+ expected +:+ tabs +:+ current) in
  let! _ := (if String.eqb current expected then ret tt
             else println ("reject" +:+ tabs +:+ "branch-mismatch" +:+ tabs +:+ "expected=" +:+ expected +:+ tabs
                           +:+ "actual=" +:+ current)) in
  let! changed := lift (changed_by r (CHANGE_QUERIES (state_value metadata "start_commit")) fs) in
  let! text := lift (ok_or (fs !! path_join dir "owned-paths") (io_error "read owned paths")) in
  let owned := nonempty_lines text in
  let! _ := (if bool_decide (changed = ∅) then println ("ok" +:+ tabs +:+ "no-changes")
             else println_all (map (fun path => if owns_path owned path then "ok" +:+ tabs +:+ path
                                                else "reject" +:+ tabs +:+ "outside-owned-path" +:+ tabs +:+ path)
                                 (btree_list changed))) in
  let! _ := check (String.eqb current expected && forallb (owns_path owned) (btree_list changed)) "" in
  println ("accepted" +:+ tabs +:+ agent).

(** *** Checkpoints *)

Definition checkpoint_text (agent dir last_commit step blocker idempotency status now : string)
    (metadata : gmap string string) : string :=
  let value := state_value metadata in
  let role := if is_empty (value "role") then "exploitation" else value "role" in
  print_env [("agent_name", agent); ("assignment_id", value "assignment_id"); ("branch", value "branch");
             ("owned_paths_file", path_join dir "owned-paths"); ("last_commit", last_commit);
             ("completed_step", step); ("blocker", blocker); ("idempotency", idempotency); ("status", status);
             ("role", role); ("decision_id", value "decision_id"); ("plan_id", value "plan_id");
             ("workflow_id", value "workflow_id"); ("node_id", value "node_id");
             ("depends_on", value "depends_on"); ("updated_at", now)].

Definition checkpoint_update (args : list string) : IO unit :=
  let! first := lift (first_arg args "checkpoint-update requires NAME") in
  let agent := first.1 in
  let! dir := require_assignment agent in
  let! values := lift (repeated_options first.2 []) in
  let! step := lift (option_required values "--step" "checkpoint-update requires --step TEXT") in
  let blocker := option_first values "--blocker" in
  let idempotency := option_first values "--idempotency" in
  let! r := canonical_repo_root in
  let! fs := get_files in
  let! last_commit := lift (resolve_named_commit r (option_first values "--last-commit") "last" fs) in
  let! persisted := read_or (path_join dir "status") "unknown" in
  let requested := option_first values "--status" in
  let status := if negb (is_empty requested) then requested
                else if negb (is_empty blocker) then "blocked" else trim persisted in
  let! _ := lift (all_no_newline [("--step", step); ("--blocker", blocker); ("--idempotency", idempotency);
                                  ("--status", status)]) in
  let! metadata := read_env (path_join dir "assignment.env") in
  let! now := timestamp in
  let! _ := atomic_write (path_join dir "checkpoint.env")
    (checkpoint_text agent dir last_commit step blocker idempotency status now metadata) in
  let! _ := atomic_write (path_join dir "status") (status +:+ newline) in
  let! _ :=
    (if uid_authority_child then ret tt
     else let! state := lift state_dir in
          let subagent := path_join (path_join state "subagents") agent in
          let! _ := create_dir_all subagent "create subagent state" in
          atomic_write (path_join subagent "status") (status +:+ newline)) in
  println ("checkpoint updated" +:+ tabs +:+ agent +:+ tabs +:+ status).

Definition checkpoint_show (args : list string) : IO unit :=
  let! agent := lift (one_agent "checkpoint-show" args) in
  let! dir := lift (assignment_dir agent) in
  let! fs := get_files in
  match fs !! path_join dir "checkpoint.env" with
  | Some text => println text
  | None => fail ("no checkpoint for agent: " +:+ agent)
  end.

End Assignments.
