(* ===== verification/Workflow.v ===== *)
(** * Workflow: [runtime/src/workflow.rs], the commands of the lifecycle

    Initialisation and resumption, the contract, the sealed iteration plan, the
    approved context, the phase transitions, TODOs, reviews and obligations, and
    the completion by the supervisor. *)

From S2P Require Import Prelude Text State Json Config Dag Lifecycle.

(** What the lifecycle asks of other code: [fs::canonicalize], which depends on
    the file system, the two completion gates of the subagents, and the diff of
    the repository that [git] computes. *)
Class Environment := {
  canonicalize : gmap string string -> string -> option string;
  completion_gate_check : IO unit;
  external_completion_gate_check : IO unit;
  canonical_diff : string -> string -> gmap string string -> result string string
}.

Definition insert_all (kvs : list (string * string)) (st : gmap string string) : gmap string string :=
  foldl (fun m kv => <[kv.1 := kv.2]> m) st kvs.

Definition starts_absolute (p : string) : bool := starts_with "/" p.

(** ** Contract headers *)

Definition CONTRACT_HEADER : string := "contract-artifact: version=1".

(** A heading prefix before the contract header is ignored. *)
Definition normalize_contract_header (text : string) : string :=
  join newline
    (map (fun line =>
            let trimmed := trim_start line in
            let plain := trim_start (strip_all (strip_prefix "#") (String.length trimmed) trimmed) in
            if String.eqb plain CONTRACT_HEADER then CONTRACT_HEADER else line)
       (lines text)).

Section Workflow.
Context `{Platform} `{Environment}.

(** ** Initialisation *)

Definition init_tables (p : Paths) : IO unit :=
  let! _ := init_table (todos p) TODO_HEADER in
  let! _ := init_table (reviews p) REVIEW_HEADER in
  init_table (review_obligations p) REVIEW_OBLIGATION_HEADER.

(** The bindings of a new lifecycle. *)
Definition initial_state (id task task_sha256 stamp : string) : gmap string string :=
  insert_all
    [("workflow_id", id); ("phase", "pre-implementation"); ("iteration", "1");
     ("original_task", task); ("original_task_sha256", task_sha256); ("contract_scout", "");
     ("contract_artifact", ""); ("contract_artifact_sha256", "");
     ("preimplementation_gate", "pending"); ("implementation_context", "");
     ("implementation_context_sha256", ""); ("alignment_review_id", "");
     ("iteration_plan_sha256", ""); ("iteration_worker_count", ""); ("candidate_diff_hash", "");
     ("reviewed_diff_hash", ""); ("terminal_outcome", ""); ("human_review_status", "");
     ("human_review_request", ""); ("human_review_request_sha256", "");
     ("human_review_reviewer", ""); ("human_review_reason", ""); ("resume_count", "0");
     ("created_at", stamp); ("updated_at", stamp)] ∅.

(** The original task, copied next to the lifecycle and bound by its digest. *)
Definition copy_original_task (p : Paths) : IO (string * string) :=
  match env_nonempty "MULTIAGENT_ORIGINAL_TASK_FILE" with
  | Some source =>
      let! fs := get_files in
      match fs !! source with
      | None => fail ("original task artifact not found: " +:+ source)
      | Some bytes =>
          let destination := path_join (base p) "original-task.md" in
          let! _ := atomic_write destination bytes in
          ret (destination, sha256_hex bytes)
      end
  | None => ret ("", "")
  end.

Definition initialize_id (id : string) (resume : bool) : IO unit :=
  let! p := lift (paths id) in
  let! known := is_file (state p) in
  if known then
    let! st := read_state (state p) id in
    let! _ := check resume ("workflow already exists: " +:+ id +:+ "; use resume mode") in
    let phase := state_value st "phase" in
    let! _ := check (mem phase PHASES) ("persisted workflow has invalid phase: " +:+ phase) in
    let count := u64_add (unwrap_or (resumed ← st !! "resume_count"; parse_u64 resumed) 0) 1 in
    let! now := timestamp in
    let! _ := write_env (state p)
                (insert_all [("resume_count", u64_to_string count); ("updated_at", now)] st) in
    let! _ := init_tables p in
    let! _ := event (events p) "workflow_resumed" ("phase=" +:+ phase) in
    println ("workflow resumed" +:+ tabs +:+ id +:+ tabs +:+ phase)
  else
    let! stamp := timestamp in
    let! task := copy_original_task p in
    let! _ := write_env (state p) (initial_state id task.1 task.2 stamp) in
    let! _ := init_tables p in
    let! _ := event (events p) "workflow_initialized"
                ("resume_requested=" +:+ (if resume then "1" else "0")) in
    println ("workflow initialized" +:+ tabs +:+ id +:+ tabs +:+ "pre-implementation").

Definition initialize (args : list string) (fixed_resume : bool) : IO unit :=
  match args with
  | [id] => initialize_id id fixed_resume
  | _ => fail "init requires WORKFLOW_ID"
  end.

Definition init_or_resume (args : list string) : IO unit :=
  match args with
  | [] => fail "init-or-resume requires WORKFLOW_ID"
  | id :: rest =>
      let! o := lift (options rest) in
      let! resume := lift (required o "--resume") in
      let! _ := check (mem resume ["0"; "1"]) "argument --resume: invalid choice" in
      initialize_id id (String.eqb resume "1")
  end.

(** ** Contract and plan *)

Definition register_contract (args : list string) : IO unit :=
  match args with
  | [] => fail "contract-register requires WORKFLOW_ID"
  | id :: rest =>
      let! o := lift (options rest) in
      let! scout := lift (required o "--scout") in
      let! _ := lift (valid_id "scout name" scout) in
      let! root := lift state_dir in
      let! p := lift (paths id) in
      let! st := read_state (state p) id in
      let! _ := check (String.eqb (state_value st "phase") "pre-implementation")
                  "contract-register requires phase=pre-implementation" in
      let directory := path_join (path_join root (if secure_reviewer_evidence then "contract-evidence"
                                                  else "subagents")) scout in
      let! metadata := read_env_optional (path_join directory evidence_file) in
      let! _ := check (String.eqb (state_value metadata "role") "scout"
                       && String.eqb (state_value metadata access_key) "read-only")
                  ("contract artifact must come from a read-only scout role: " +:+ scout) in
      let! fs := get_files in
      let! _ :=
        if secure_reviewer_evidence then
          check (String.eqb (state_value metadata "state") "completed"
                 && String.eqb (state_value metadata "workflow_id") id)
            ("contract scout evidence is not sealed for workflow " +:+ id +:+ ": " +:+ scout)
        else check (finalized fs directory) ("contract scout is not finalized: " +:+ scout) in
      let artifact := path_join directory "last-message.txt" in
      let! text := lift (ok_or (fs !! artifact)
                           ("contract scout final message is missing: " +:+ scout)) in
      let! original_task := read_optional_artifact (state_value st "original_task") in
      let! _ := lift (validate_contract_schema text original_task) in
      let digest := sha256_hex text in
      let! now := timestamp in
      let! _ := write_env (state p)
                  (insert_all [("contract_scout", scout); ("contract_artifact", artifact);
                               ("contract_artifact_sha256", digest); ("updated_at", now)] st) in
      let! _ := event (events p) "contract_registered"
                  ("scout=" +:+ scout +:+ tabs +:+ "artifact_sha256=" +:+ digest) in
      println ("contract registered" +:+ tabs +:+ id +:+ tabs +:+ scout +:+ tabs +:+ digest)
  end.

Definition seal_iteration (args : list string) : IO unit :=
  match args with
  | [] => fail "seal-iteration requires WORKFLOW_ID"
  | id :: rest =>
      let! o := lift (options rest) in
      let! digest := lift (required o "--plan-sha256") in
      let! count := lift (required o "--worker-count") in
      let! _ := check ((len digest =? 64) && all_chars is_ascii_hexdigit digest)
                  "seal-iteration --plan-sha256 must be a 64-character SHA-256" in
      let! worker_count :=
        lift (match parse_usize count with
              | Some n => if (1 <=? n) && (n <=? 32) then Ok n
                          else Err "seal-iteration --worker-count must be between 1 and 32"
              | None => Err "seal-iteration --worker-count must be between 1 and 32"
              end) in
      let! p := lift (paths id) in
      let! st := read_state (state p) id in
      let! _ := check (String.eqb (state_value st "phase") "pre-implementation")
                  "seal-iteration requires phase=pre-implementation" in
      let existing := state_value st "iteration_plan_sha256" in
      let! _ := check (is_empty existing || String.eqb existing digest)
                  "current iteration already has a different sealed plan" in
      let! now := timestamp in
      let st' := insert_all [("iteration_plan_sha256", to_ascii_lowercase digest);
                             ("iteration_worker_count", u64_to_string worker_count);
                             ("updated_at", now)] st in
      let! _ := write_env (state p) st' in
      let! _ := event (events p) "iteration_plan_sealed"
                  ("iteration=" +:+ state_value st' "iteration" +:+ tabs +:+ "plan_sha256="
                   +:+ to_ascii_lowercase digest +:+ tabs +:+ "worker_count="
                   +:+ u64_to_string worker_count) in
      println ("iteration plan sealed" +:+ tabs +:+ id +:+ tabs +:+ to_ascii_lowercase digest)
  end.

(** The approved context must quote the registered contract and its digest. *)
Definition check_contract_quoted (st : gmap string string) (context : string) : IO unit :=
  let contract_path := state_value st "contract_artifact" in
  if is_empty contract_path then ret tt
  else
    let! fs := get_files in
    let! contract := lift (ok_or (fs !! contract_path) (io_error "read registered contract artifact")) in
    let! approved := lift (ok_or (fs !! context) (io_error "read approved implementation context")) in
    let! _ := check (contains (normalize_contract_header contract) (normalize_contract_header approved))
                "approved implementation context must contain the registered contract artifact; a Markdown heading prefix on the canonical header is ignored" in
    let binding := "contract-artifact-sha256=" +:+ state_value st "contract_artifact_sha256" in
    check (existsb (fun line => String.eqb (trim line) binding) (lines approved))
      ("approved implementation context is missing contract binding: " +:+ binding).

Definition absolute_path (p : string) : result string string :=
  if starts_absolute p then Ok p
  else let? dir := map_err (fun error => "determine current directory: " +:+ error) current_dir in
       Ok (path_join dir p).

Definition aligned_review (review_id : string) (r : Row) : bool :=
  String.eqb (get 0 r) review_id && String.eqb (get 1 r) "plan-alignment" && String.eqb (get 2 r) "pass".

Definition prepare (args : list string) : IO unit :=
  match args with
  | [] => fail "prepare-implementation requires WORKFLOW_ID"
  | id :: rest =>
      let! o := lift (options rest) in
      let! plan_sha256 := lift (required o "--plan-sha256") in
      let! context_arg := lift (required o "--implementation-context") in
      let! alignment_review := lift (required o "--alignment-review") in
      let! _ := lift (valid_id "review ID" alignment_review) in
      let! p := lift (paths id) in
      let! st := read_state (state p) id in
      let! _ := check (String.eqb (state_value st "phase") "pre-implementation")
                  "prepare-implementation requires phase=pre-implementation" in
      let! rows := read_reviews (reviews p) in
      let! alignment := lift (ok_or (List.find (aligned_review alignment_review) rows)
                                "prepare-implementation requires an aligned plan review") in
      let! _ := check (String.eqb (state_value st "iteration_plan_sha256") plan_sha256)
                  "prepare-implementation plan digest does not match the sealed iteration plan" in
      let! _ := if secure_reviewer_evidence
                then validate_plan_alignment_evidence id (get 7 alignment) plan_sha256
                else ret tt in
      let! todo_rows := read_todos (todos p) in
      let blockers := map (get 0) (List.filter blocking_todo todo_rows) in
      let! _ := check (bool_decide (blockers = []))
                  ("pre-implementation blocked by active evidence/decision TODOs: "
                   +:+ join "," blockers) in
      let! requested := lift (absolute_path context_arg) in
      let! fs := get_files in
      let! context := lift (ok_or (canonicalize fs context_arg)
                              ("approved implementation context not found: " +:+ requested)) in
      let! ok := is_file context in
      let! _ := check ok ("approved implementation context not found: " +:+ context) in
      let! _ := validate_original_task st in
      let! _ := validate_contract st in
      let! _ := check_contract_quoted st context in
      let! digest := sha256 context in
      let! now := timestamp in
      let! _ := write_env (state p)
                  (insert_all [("preimplementation_gate", "passed");
                               ("implementation_context", context);
                               ("implementation_context_sha256", digest);
                               ("alignment_review_id", alignment_review); ("updated_at", now)] st) in
      let! _ := event (events p) "implementation_prepared"
                  ("plan_sha256=" +:+ plan_sha256 +:+ tabs +:+ "review_id=" +:+ alignment_review) in
      println ("implementation prepared" +:+ tabs +:+ id +:+ tabs +:+ plan_sha256)
  end.

(** ** Obligations *)

Definition same_obligation (kind trigger digest reason iteration : string) (r : Row) : bool :=
  String.eqb (get 1 r) kind && String.eqb (get 2 r) trigger && String.eqb (get 3 r) digest
  && String.eqb (get 4 r) reason && String.eqb (get 5 r) iteration.

Definition ensure_review_obligation (rows : list Row)
  (obligation_id kind trigger digest reason iteration : string) : IO (list Row) :=
  match List.find (fun r => String.eqb (get 0 r) obligation_id) rows with
  | Some existing =>
      if same_obligation kind trigger digest reason iteration existing then ret rows
      else fail ("conflicting review obligation: " +:+ obligation_id)
  | None =>
      let! now := timestamp in
      ret (rows ++ [[obligation_id; kind; trigger; digest; reason; iteration; "pending"; ""; now]])
  end.

(** ** Transitions *)

Definition allowed_transition (current target : string) : bool :=
  (String.eqb current "pre-implementation" && String.eqb target "implementation")
  || (String.eqb current "implementation" && String.eqb target "post-implementation")
  || (String.eqb current "post-implementation" && String.eqb target "pre-implementation").

(** The obligations a new candidate creates. *)
Definition candidate_obligations (p : Paths) (iteration diff : string) : IO unit :=
  let! rows := read_review_obligations (review_obligations p) in
  let! rows := ensure_review_obligation rows ("auto-" +:+ iteration +:+ "-technical") "technical"
                 "candidate-diff" diff "source diff requires independent technical validation"
                 iteration in
  let! rows :=
    if 1 <? unwrap_or (parse_u64 iteration) 1 then
      ensure_review_obligation rows ("auto-" +:+ iteration +:+ "-reflection") "reflection"
        "repair-iteration" diff
        "repair iterations require comparison of expected and actual outcomes" iteration
    else ret rows in
  write_review_obligations (review_obligations p) rows.

Definition transition_state (p : Paths) (id current target diff : string) (st : gmap string string)
  : IO (gmap string string) :=
  if String.eqb current "pre-implementation" then
    let! _ := implementation_gate_state id "" true in
    ret (<["phase" := "implementation"]> st)
  else if String.eqb current "implementation" then
    let! _ := check (negb (is_empty diff))
                "implementation -> post-implementation requires --diff-hash" in
    let! _ := candidate_obligations p (state_value st "iteration") diff in
    ret (insert_all [("phase", "post-implementation"); ("candidate_diff_hash", diff);
                     ("reviewed_diff_hash", "")] st)
  else if String.eqb target "pre-implementation" then
    let! rows := read_todos (todos p) in
    let! _ := check (existsb (fun r => active (get 4 r)) rows)
                "post-implementation -> pre-implementation requires an active TODO" in
    let iteration := u64_add (unwrap_or (parse_u64 (state_value st "iteration")) 1) 1 in
    ret (insert_all [("implementation_context", ""); ("implementation_context_sha256", "");
                     ("alignment_review_id", ""); ("iteration_plan_sha256", "");
                     ("iteration_worker_count", ""); ("candidate_diff_hash", "");
                     ("reviewed_diff_hash", ""); ("phase", "pre-implementation");
                     ("iteration", u64_to_string iteration); ("preimplementation_gate", "pending")] st)
  else ret st.

Definition transition (args : list string) : IO unit :=
  match args with
  | id :: target :: rest =>
      let! _ := check (mem target PHASES) ("invalid phase: " +:+ target) in
      let! _ := check (negb (String.eqb target "complete"))
                  "complete is supervisor-owned; request it with `multiagent orchestrator complete`" in
      let! o := lift (options rest) in
      let diff := opt o "--diff-hash" in
      let! p := lift (paths id) in
      let! st := read_state (state p) id in
      let current := state_value st "phase" in
      let! _ := check (allowed_transition current target)
                  ("invalid lifecycle transition: " +:+ current +:+ " -> " +:+ target) in
      let! st := transition_state p id current target diff st in
      let! now := timestamp in
      let st := <["updated_at" := now]> st in
      let! _ := write_env (state p) st in
      let! _ := event (events p) "phase_transitioned"
                  ("from=" +:+ current +:+ tabs +:+ "to=" +:+ target +:+ tabs +:+ "iteration="
                   +:+ state_value st "iteration") in
      println ("workflow transitioned" +:+ tabs +:+ id +:+ tabs +:+ current +:+ tabs +:+ target)
  | _ => fail "transition requires WORKFLOW_ID PHASE"
  end.

(** ** TODOs *)

Definition add_todo (args : list string) : IO unit :=
  match args with
  | id :: todo_id :: rest =>
      let! _ := lift (valid_id "TODO ID" todo_id) in
      let! o := lift (options rest) in
      let! kind := lift (required o "--kind") in
      let! summary := lift (required o "--summary") in
      let origin := unwrap_or (o !! "--origin") "orchestrator" in
      let! _ := check (mem kind TODO_KINDS) ("invalid TODO kind: " +:+ kind) in
      let! p := lift (paths id) in
      let! st := read_state (state p) id in
      let! rows := read_todos (todos p) in
      let! _ := check (negb (existsb (fun r => String.eqb (get 0 r) todo_id) rows))
                  ("TODO already exists: " +:+ todo_id) in
      let! now := timestamp in
      let! _ := write_todos (todos p)
                  (rows ++ [[todo_id; kind; summary; origin; "open"; ""; ""; ""; ""; ""; ""; ""; "";
                             state_value st "iteration"; now]]) in
      let! _ := event (events p) "todo_added"
                  ("todo_id=" +:+ todo_id +:+ tabs +:+ "kind=" +:+ kind) in
      println ("TODO added" +:+ tabs +:+ id +:+ tabs +:+ todo_id +:+ tabs +:+ kind)
  | _ => fail "add-todo requires WORKFLOW_ID TODO_ID"
  end.

Definition is_row (key : string) (r : Row) : bool := String.eqb (get 0 r) key.

Definition todo_status (args : list string) : IO unit :=
  match args with
  | id :: todo_id :: status :: rest =>
      let! _ := check (mem status ACTIVE) ("invalid active TODO status: " +:+ status) in
      let! o := lift (options rest) in
      let assignment := opt o "--assignment-id" in
      let! _ := check (negb (mem status ["assigned"; "in-progress"] && is_empty assignment))
                  ("TODO status " +:+ status +:+ " requires --assignment-id") in
      let! p := lift (paths id) in
      let! _ := read_state (state p) id in
      let! rows := read_todos (todos p) in
      let! row := lift (ok_or (List.find (is_row todo_id) rows) ("TODO does not exist: " +:+ todo_id)) in
      let! _ := check (active (get 4 row))
                  ("cannot reactivate resolved TODO without a new TODO: " +:+ todo_id) in
      let! now := timestamp in
      let! _ := write_todos (todos p)
                  (update_first (is_row todo_id)
                     (fun r => set 14 now (set 5 assignment (set 4 status r))) rows) in
      let! _ := event (events p) "todo_status_changed"
                  ("todo_id=" +:+ todo_id +:+ tabs +:+ "status=" +:+ status) in
      println ("TODO status" +:+ tabs +:+ id +:+ tabs +:+ todo_id +:+ tabs +:+ status)
  | _ => fail "todo-status requires WORKFLOW_ID TODO_ID STATUS"
  end.

Definition resolve_todo (args : list string) : IO unit :=
  match args with
  | id :: todo_id :: rest =>
      let! o := lift (options rest) in
      let! resolution := lift (required o "--resolution") in
      let! evidence := lift (required o "--evidence") in
      let! _ := check (mem resolution ["completed"; "skipped"])
                  ("invalid TODO resolution: " +:+ resolution) in
      let reason_code := opt o "--reason-code" in
      let reason := opt o "--reason" in
      let authority := opt o "--authority" in
      let destination := opt o "--destination" in
      let resume := opt o "--resume-condition" in
      let! _ :=
        if String.eqb resolution "skipped" then
          let! _ := check (mem reason_code ["out-of-scope"; "unavailable-now"])
                      "skipped TODO requires --reason-code out-of-scope|unavailable-now" in
          let! _ := check (negb (is_empty reason) && mem authority ["orchestrator"; "user"])
                      "skipped TODO requires --reason and --authority orchestrator|user" in
          check (negb (String.eqb reason_code "unavailable-now" && is_empty destination
                       && is_empty resume))
            "unavailable-now skip requires --destination or --resume-condition"
        else ret tt in
      let! p := lift (paths id) in
      let! _ := read_state (state p) id in
      let! rows := read_todos (todos p) in
      let! row := lift (ok_or (List.find (is_row todo_id) rows) ("TODO does not exist: " +:+ todo_id)) in
      let! _ := check (active (get 4 row)) ("TODO is already resolved: " +:+ todo_id) in
      let! now := timestamp in
      let! _ := write_todos (todos p)
                  (update_first (is_row todo_id)
                     (fun r => foldl (fun r iv => set iv.1 iv.2 r) r
                        [(4%nat, resolution); (6%nat, resolution); (7%nat, reason_code);
                         (8%nat, reason); (9%nat, evidence); (10%nat, authority);
                         (11%nat, destination); (12%nat, resume); (14%nat, now)]) rows) in
      let! _ := event (events p) "todo_resolved"
                  ("todo_id=" +:+ todo_id +:+ tabs +:+ "resolution=" +:+ resolution +:+ tabs
                   +:+ "reason_code=" +:+ reason_code) in
      println ("TODO resolved" +:+ tabs +:+ id +:+ tabs +:+ todo_id +:+ tabs +:+ resolution)
  | _ => fail "resolve-todo requires WORKFLOW_ID TODO_ID"
  end.

(** ** Reviews *)

Definition satisfies (kind diff iteration : string) (r : Row) : bool :=
  String.eqb (get 1 r) kind && String.eqb (get 3 r) diff && String.eqb (get 5 r) iteration
  && String.eqb (get 6 r) "pending".

(** The pending obligations a passing review satisfies; one timestamp each. *)
Fixpoint satisfy_obligations (kind diff iteration review_id : string) (rows : list Row)
  : IO (bool * list Row) :=
  match rows with
  | [] => ret (false, [])
  | r :: rows' =>
      if satisfies kind diff iteration r then
        let! now := timestamp in
        let! rest := satisfy_obligations kind diff iteration review_id rows' in
        ret (true, set 8 now (set 7 review_id (set 6 "satisfied" r)) :: rest.2)
      else
        let! rest := satisfy_obligations kind diff iteration review_id rows' in
        ret (rest.1, r :: rest.2)
  end.

Definition record_review (args : list string) : IO unit :=
  match args with
  | id :: review_id :: rest =>
      let! _ := lift (valid_id "review ID" review_id) in
      let! o := lift (options rest) in
      let! kind := lift (required o "--type") in
      let! verdict := lift (required o "--verdict") in
      let! evidence := lift (required o "--evidence") in
      let reviewer := opt o "--reviewer" in
      let requested_diff := opt o "--diff-hash" in
      let! _ := check (mem kind REVIEW_TYPES) ("invalid review type: " +:+ kind) in
      let! _ := check (mem verdict ["pass"; "findings"]) ("invalid review verdict: " +:+ verdict) in
      let! p := lift (paths id) in
      let! st := read_state (state p) id in
      let iteration := state_value st "iteration" in
      let! diff :=
        if String.eqb kind "plan-alignment" then
          let! _ := check (String.eqb (state_value st "phase") "pre-implementation")
                      "plan-alignment review requires phase=pre-implementation" in
          ret "-"
        else
          let! _ := check (String.eqb (state_value st "phase") "post-implementation")
                      (kind +:+ " review requires phase=post-implementation") in
          let! _ := check (String.eqb requested_diff (state_value st "candidate_diff_hash"))
                      "post-implementation review diff hash does not match candidate diff" in
          ret requested_diff in
      let! _ :=
        if reviewer_evidence_required then
          let! _ := check (negb (is_empty reviewer))
                      "reviewer-backed lifecycle requires --reviewer NAME" in
          validate_reviewer_evidence id reviewer kind verdict diff
        else ret tt in
      let! rows := read_reviews (reviews p) in
      let! _ := check (negb (existsb (is_row review_id) rows)) ("review already exists: " +:+ review_id) in
      let! now := timestamp in
      let! _ := write_reviews (reviews p)
                  (rows ++ [[review_id; kind; verdict; diff; evidence; iteration; now; reviewer]]) in
      let! _ :=
        if String.eqb verdict "pass" && negb (String.eqb kind "plan-alignment") then
          let! obligations := read_review_obligations (review_obligations p) in
          let! changed := satisfy_obligations kind diff iteration review_id obligations in
          if changed.1 then write_review_obligations (review_obligations p) changed.2 else ret tt
        else ret tt in
      let! _ := event (events p) "review_recorded"
                  ("review_id=" +:+ review_id +:+ tabs +:+ "type=" +:+ kind +:+ tabs +:+ "verdict="
                   +:+ verdict +:+ tabs +:+ "diff_hash=" +:+ diff) in
      println ("review recorded" +:+ tabs +:+ id +:+ tabs +:+ review_id +:+ tabs +:+ kind +:+ tabs
               +:+ verdict)
  | _ => fail "record-review requires WORKFLOW_ID REVIEW_ID"
  end.

Definition single_line (name v : string) : result string unit :=
  guard (negb (is_empty v) && clean_field v) (name +:+ " must be a non-empty single-line value").

Definition require_review (args : list string) : IO unit :=
  match args with
  | id :: obligation_id :: rest =>
      let! _ := lift (valid_id "review obligation ID" obligation_id) in
      let! o := lift (options rest) in
      let! kind := lift (required o "--type") in
      let! trigger := lift (required o "--trigger") in
      let! digest := lift (required o "--artifact-digest") in
      let! reason := lift (required o "--reason") in
      let! _ := check (mem kind POST_REVIEWS) ("invalid post-implementation review type: " +:+ kind) in
      let! _ := lift (single_line "trigger" trigger) in
      let! _ := lift (single_line "artifact digest" digest) in
      let! _ := lift (single_line "reason" reason) in
      let! p := lift (paths id) in
      let! st := read_state (state p) id in
      let! _ := check (negb (String.eqb (state_value st "phase") "complete"))
                  "cannot add a review obligation to a completed workflow" in
      let! rows := read_review_obligations (review_obligations p) in
      let! rows := ensure_review_obligation rows obligation_id kind trigger digest reason
                     (state_value st "iteration") in
      let! _ := write_review_obligations (review_obligations p) rows in
      let! _ := event (events p) "review_required"
                  ("obligation_id=" +:+ obligation_id +:+ tabs +:+ "type=" +:+ kind +:+ tabs
                   +:+ "artifact_digest=" +:+ digest) in
      println ("review required" +:+ tabs +:+ id +:+ tabs +:+ obligation_id +:+ tabs +:+ kind)
  | _ => fail "require-review requires WORKFLOW_ID OBLIGATION_ID"
  end.

(** ** Completion *)

Definition supervisor_complete (id : string) : IO string :=
  let! _ := check (negb (lifecycle_enforced && bool_decide (env_var "MULTIAGENT_UID_SANDBOX" = Some "1")
                         && negb (bool_decide (env_var "MULTIAGENT_AUTHORITY_SERVER_CHILD" = Some "1"))))
              "lifecycle completion must execute inside the authority supervisor" in
  let! p := lift (paths id) in
  let! before := read_state (state p) id in
  let! _ := check (String.eqb (state_value before "phase") "post-implementation")
              ("supervisor completion requires phase=post-implementation, got "
               +:+ state_value before "phase") in
  let! st := completion_state id in
  let! _ := completion_gate_check in
  let diff := state_value st "candidate_diff_hash" in
  let! now := timestamp in
  let st' := insert_all [("phase", "complete"); ("reviewed_diff_hash", diff);
                         ("terminal_outcome", "succeeded"); ("updated_at", now)] st in
  let! _ := write_env (state p) st' in
  let! _ := event (events p) "phase_transitioned"
              ("from=post-implementation" +:+ tabs +:+ "to=complete" +:+ tabs +:+ "iteration="
               +:+ state_value st' "iteration" +:+ tabs +:+ "authority=supervisor") in
  ret diff.

Definition gate (args : list string) : IO unit :=
  match args with
  | id :: which :: rest =>
      let! o := lift (options rest) in
      let! _ := lift state_dir in
      if String.eqb which "implementation" then
        let! st := implementation_gate_state id (opt o "--plan-sha256") false in
        println ("gate passed" +:+ tabs +:+ id +:+ tabs +:+ "implementation" +:+ tabs
                 +:+ state_value st "iteration_plan_sha256" +:+ tabs
                 +:+ state_value st "implementation_context_sha256")
      else if String.eqb which "completion" then
        let! st := completion_state id in
        println ("gate passed" +:+ tabs +:+ id +:+ tabs +:+ "completion" +:+ tabs
                 +:+ state_value st "candidate_diff_hash")
      else fail ("invalid gate: " +:+ which)
  | _ => fail "gate requires WORKFLOW_ID implementation|completion"
  end.

End Workflow.
