(* ===== verification/Completion.v ===== *)
(** * Completion: [runtime/src/workflow.rs], the other ways to end a workflow

    Besides the reviewed source route of [Workflow], the supervisor ends a
    workflow without a source change: after external operations, after a direct
    response, after an observation or a read-only investigation; or it hands the
    workflow back to a human, by a repair proposal or on the request of a
    reviewer. *)

From S2P Require Import Prelude Text State Json Config Execution Dag Lifecycle Workflow.

(** ** Questions *)

(** The fullwidth question mark of UTF-8. *)
Definition wide_mark : string :=
  String.string_of_list_ascii (map (fun z => ascii_of_N (Z.to_N z)) [239; 188; 159]).

Fixpoint count_str (fuel : nat) (p s : string) : nat :=
  match fuel with
  | O => 0
  | S n => match strip_prefix p s with
           | Some r => S (count_str n p r)
           | None => match s with EmptyString => 0 | String _ s' => count_str n p s' end
           end
  end.
Definition question_marks (s : string) : nat :=
  (count_str (S (String.length s)) "?" s + count_str (S (String.length s)) wide_mark s)%nat.
Definition ends_with_mark (s : string) : bool := ends_with "?" s || ends_with wide_mark s.

(** [trim_end_matches] of white space and closing punctuation. *)
Definition question_tail (s : string) : string :=
  strip_all (fun s => first_some (fun w => strip_suffix w s)
                        (whitespace ++ ["*"; "_"; "`"; String dquote ""; "'"; ")"; "]"]))
    (String.length s) s.

Definition validate_bounded_question (question : string) : result string unit :=
  let count := question_marks question in
  guard (negb (is_empty question || (2000 <? len question)
               || negb ((1 <=? count)%nat && (count <=? 3)%nat)
               || negb (ends_with_mark (question_tail question))))
    "repair review requires one bounded question ending with a question mark".

(** [parse_human_review_request]. *)
Definition trimmed_lines (report : string) : list string :=
  List.filter (fun l => negb (is_empty l)) (map trim (lines report)).

Definition strip_label (label line : string) : option string :=
  if eq_ignore_ascii_case (String.substring 0 (String.length label) line) label
  then Some (trim (String.substring (String.length label) (String.length line - String.length label) line))
  else None.

Definition parse_human_review_request (report : string) : result string (option (string * string)) :=
  let ls := trimmed_lines report in
  let first := unwrap_or (head ls) "" in
  let reason := if eq_ignore_ascii_case first "Verdict: HUMAN_REVIEW_REQUIRED" then Some "ops-verification"
                else if eq_ignore_ascii_case first "alignment: misaligned" then Some "plan-alignment"
                else None in
  match reason with
  | None => Ok None
  | Some reason =>
      let label := if String.eqb reason "ops-verification" then "Human-review-question:"
                   else "user-question:" in
      let values := omap (strip_label label) ls in
      let is_none v := eq_ignore_ascii_case v "none" in
      if String.eqb reason "plan-alignment"
         && match values with [v] => is_none v | _ => false end
      then Ok None
      else
        match List.filter (fun v => negb (is_empty v) && negb (is_none v)) values with
        | [question] =>
            let punctuation := question_marks question in
            if (2000 <? len question) || (punctuation =? 0)%nat || (3 <? punctuation)%nat
               || negb (ends_with_mark question)
            then Err "human-review question must be bounded and end with a question mark"
            else Ok (Some (question, reason))
        | _ => Err "human-review evidence requires exactly one bounded question"
        end
  end.

(** ** Repair paths *)

Definition repair_path (value : string) : bool :=
  negb (is_empty value || (512 <? len value) || is_absolute value
        || existsb (fun part => match part with Normal _ => false | _ => true end) (components value)).

Definition normalize_repair_paths (paths : list string) (reviewed_ops : bool) : result string (list string) :=
  let? _ := guard (negb ((32 <? length paths)%nat || (bool_decide (paths = []) && negb reviewed_ops)))
              "repair review requires an exact repository path or reviewed operations" in
  let? _ := guard (forallb repair_path paths)
              "repair-review paths must be exact relative repository paths" in
  let normalized : gset string := list_to_set (map (replace_char backslash "/") paths) in
  let? _ := guard (size normalized =? length paths)%nat "repair-review paths must be unique" in
  Ok (btree_list normalized).

(** ** JSON pointers *)

(** [Value::pointer] with names for tokens; a name does not index an array. *)
Fixpoint pointer (path : list string) (v : Value) : option Value :=
  match path with
  | [] => Some v
  | key :: rest =>
      match v with
      | VObj kvs => (kv ← List.find (fun kv => String.eqb kv.1 key) kvs; pointer rest kv.2)
      | _ => None
      end
  end.

Definition source_fields : list string :=
  ["contract_scout"; "contract_artifact"; "contract_artifact_sha256"; "implementation_context";
   "implementation_context_sha256"; "alignment_review_id"; "iteration_plan_sha256";
   "iteration_worker_count"; "candidate_diff_hash"; "reviewed_diff_hash"].

Definition source_implementation_started (st : gmap string string) : bool :=
  negb (mem (state_value st "preimplementation_gate") [""; "pending"])
  || existsb (fun key => negb (is_empty (state_value st key))) source_fields.

(** ** Launches *)

Definition Launch : Type := string * gmap string string.

Fixpoint validate_observation_launches (launches : list Launch) : result string unit :=
  match launches with
  | [] => Ok tt
  | (name, launch) :: rest =>
      let? _ := guard (String.eqb (state_value launch "access") "read-only")
                  ("read-only completion found non-read-only launch: " +:+ name) in
      let? _ := guard (String.eqb (state_value launch "state") "completed")
                  ("read-only completion found unfinished launch: " +:+ name) in
      validate_observation_launches rest
  end.

(** The readers among the launches, and whether the reviewer is one of them. *)
Fixpoint count_roles (reviewer : option string) (launches : list Launch) (readers : nat) (found : bool)
  : result string (nat * bool) :=
  match launches with
  | [] => Ok (readers, found)
  | (name, launch) :: rest =>
      let role := state_value launch "role" in
      if String.eqb role "reader" then count_roles reviewer rest (S readers) found
      else if String.eqb role "reviewer"
      then count_roles reviewer rest readers (found || bool_decide (Some name = reviewer))
      else Err ("read-only completion found unsupported role " +:+ role +:+ ": " +:+ name)
  end.

Definition validate_read_only_launches (launches : list Launch) (reviewer : option string)
  : result string unit :=
  let? _ := validate_observation_launches launches in
  let? counted := count_roles reviewer launches 0 false in
  let? _ := guard (negb (counted.1 =? 0)%nat)
              "read-only completion requires at least one completed reader" in
  match reviewer with
  | Some name => guard counted.2 ("read-only completion requires completed reviewer launch: " +:+ name)
  | None => Ok tt
  end.

Section Completion.
Context `{Platform} `{Environment} `{JsonCodec} `{JsonPretty}.

Definition require_supervisor_completion_authority : result string unit :=
  guard (negb (lifecycle_enforced && bool_decide (env_var "MULTIAGENT_UID_SANDBOX" = Some "1")
               && negb (bool_decide (env_var "MULTIAGENT_AUTHORITY_SERVER_CHILD" = Some "1"))))
    "lifecycle completion must execute inside the authority supervisor".

Definition require_observe_authority : IO unit :=
  let! execution := configured in
  check (is_read_only execution) "observe completion requires the current Execution to remain read-only".

(** ** Receipts of external operations *)

Inductive Disposition := Succeeded | Failed | Blocked.

Definition receipt_disposition (path text : string) : result string Disposition :=
  let? receipt := ok_or (from_slice text)
                    ("decode external operation receipt " +:+ path +:+ ": " +:+ os_error) in
  let structured := unwrap_or (pointer ["result"; "structuredContent"] receipt) VNull in
  let? _ := guard (match pointer ["outcome"; "terminal"] structured with Some (VBool true) => true | _ => false end)
              ("external-only completion requires terminal receipts; " +:+ path +:+ " is not terminal") in
  match pointer ["outcome"; "disposition"] structured with
  | Some (VStr d) =>
      if String.eqb d "succeeded" then Ok Succeeded
      else if String.eqb d "failed" then Ok Failed
      else if String.eqb d "blocked" then Ok Blocked
      else Err ("external-only completion requires outcome.disposition=succeeded, failed, or blocked; " +:+ path
                +:+ " has no recognized terminal disposition")
  | _ => Err ("external-only completion requires outcome.disposition=succeeded, failed, or blocked; " +:+ path
              +:+ " has no recognized terminal disposition")
  end.

(** The receipts below [operations]: path and text. *)
Definition receipts (fs : gmap string string) (dir : string) : list (string * string) :=
  let root := path_join dir "operations" in
  omap (fun name => let path := path_join (path_join root name) "receipt.json" in
                    (fun text => (path, text)) <$> fs !! path)
    (subdirectories fs root).

Fixpoint dispositions (l : list (string * string)) : result string (list Disposition) :=
  match l with
  | [] => Ok []
  | (path, text) :: l' =>
      let? d := receipt_disposition path text in
      let? ds := dispositions l' in
      Ok (d :: ds)
  end.

Definition succeeded (d : Disposition) : bool := match d with Succeeded => true | _ => false end.

Definition supervisor_complete_external (id : string) : IO string :=
  let! _ := lift require_supervisor_completion_authority in
  let! dir := lift state_dir in
  let! p := lift (paths id) in
  let! st := read_state (state p) id in
  let! _ := check (String.eqb (state_value st "phase") "pre-implementation")
              ("external-only completion requires phase=pre-implementation, got "
               +:+ state_value st "phase") in
  let! _ := check (negb (source_implementation_started st))
              "external-only completion cannot bypass a started source implementation lifecycle" in
  let! _ := validate_original_task st in
  let! rows := read_todos (todos p) in
  let active_rows := map (get 0) (List.filter (fun r => active (get 4 r)) rows) in
  let! _ := check (bool_decide (active_rows = []))
              ("external-only completion blocked by active TODOs: " +:+ join "," active_rows) in
  let! fs := get_files in
  let! ds := lift (dispositions (receipts fs dir)) in
  let! _ := check (negb (length ds =? 0)%nat)
              "external-only completion requires at least one terminal reviewed operation receipt" in
  let! _ := external_completion_gate_check in
  let good_ones := List.filter succeeded ds in
  let failed := List.filter (fun d => match d with Failed => true | _ => false end) ds in
  let blocked := List.filter (fun d => match d with Blocked => true | _ => false end) ds in
  let count l := u64_to_string (Z.of_nat (length (l : list Disposition))) in
  let result := "external-only:" +:+ count good_ones in
  let terminal_outcome := if (0 <? length failed + length blocked)%nat then "failed" else "succeeded" in
  let! now := timestamp in
  let st' := insert_all [("phase", "complete"); ("candidate_diff_hash", result);
                         ("reviewed_diff_hash", result); ("terminal_outcome", terminal_outcome);
                         ("updated_at", now)] st in
  let! _ := write_env (state p) st' in
  let! _ := event (events p) "phase_transitioned"
              ("from=pre-implementation" +:+ tabs +:+ "to=complete" +:+ tabs +:+ "iteration="
               +:+ state_value st' "iteration" +:+ tabs +:+ "authority=supervisor" +:+ tabs
               +:+ "route=external-only" +:+ tabs +:+ "terminal_outcome=" +:+ terminal_outcome +:+ tabs
               +:+ "operations=" +:+ count good_ones +:+ tabs +:+ "failed_operations=" +:+ count failed
               +:+ tabs +:+ "blocked_operations=" +:+ count blocked) in
  ret result.

(** ** Shortcuts *)

Definition workflow_launches (fs : gmap string string) (dir id : string) : list Launch :=
  let root := path_join dir "launch-authorizations" in
  omap (fun name =>
          let metadata := parse_env (unwrap_or (fs !! path_join (path_join root name) "launch.env") "") in
          if String.eqb (state_value metadata "workflow_id") id then Some (name, metadata) else None)
    (subdirectories fs root).

Definition reviewed_operation_receipt_exists (fs : gmap string string) (dir : string) : bool :=
  negb (bool_decide (receipts fs dir = [])).

(** Whether the directory [root] holds a file, at any depth. *)
Definition has_entries (fs : gmap string string) (root : string) : bool :=
  existsb (fun p => starts_with (root +:+ "/") p) (map_to_list fs).*1.

Definition shortcut_completion_state (dir : string) (p : Paths) (id : string) : IO (gmap string string) :=
  let! st := read_state (state p) id in
  let! _ := check (String.eqb (state_value st "phase") "pre-implementation")
              ("shortcut completion requires phase=pre-implementation, got " +:+ state_value st "phase") in
  let! _ := check (negb (source_implementation_started st))
              "shortcut completion cannot bypass a started source lifecycle" in
  let! _ := validate_original_task st in
  let! rows := read_todos (todos p) in
  let active_rows := map (get 0) (List.filter (fun r => active (get 4 r)) rows) in
  let! _ := check (bool_decide (active_rows = []))
              ("shortcut completion blocked by active TODOs: " +:+ join "," active_rows) in
  let! r := lift root in
  let! fs := get_files in
  let! diff := lift (canonical_diff r "HEAD" fs) in
  let! _ := check (is_empty diff) "shortcut completion requires an unchanged repository diff" in
  let! _ := check (negb (reviewed_operation_receipt_exists fs dir))
              "shortcut completion forbids external operation receipts" in
  let! _ := check (negb (has_entries fs (path_join dir "operations/requests")))
              "shortcut completion forbids reviewed operation requests" in
  let! _ := external_completion_gate_check in
  ret st.

Definition shortcut_result_hash (dir : string) : IO string :=
  let result := path_join dir "orchestrator-result.md" in
  let! ok := is_file result in
  let! _ := check ok "shortcut completion requires the persisted orchestrator result" in
  sha256 result.

Definition complete_shortcut (p : Paths) (st : gmap string string) (route result : string) : IO unit :=
  let! now := timestamp in
  let st' := insert_all [("phase", "complete"); ("candidate_diff_hash", result);
                         ("reviewed_diff_hash", result); ("terminal_outcome", "succeeded");
                         ("updated_at", now)] st in
  let! _ := write_env (state p) st' in
  event (events p) "phase_transitioned"
    ("from=pre-implementation" +:+ tabs +:+ "to=complete" +:+ tabs +:+ "iteration="
     +:+ state_value st' "iteration" +:+ tabs +:+ "authority=supervisor" +:+ tabs +:+ "route=" +:+ route).

Definition supervisor_complete_direct (id : string) : IO string :=
  let! _ := lift require_supervisor_completion_authority in
  let! dir := lift state_dir in
  let! p := lift (paths id) in
  let! st := shortcut_completion_state dir p id in
  let! fs := get_files in
  let! _ := check (bool_decide (map fst (workflow_launches fs dir id) = []))
              "direct-response completion forbids role launches" in
  let! hash := shortcut_result_hash dir in
  let result := "direct-response:" +:+ hash in
  let! _ := complete_shortcut p st "direct-response" result in
  ret result.

Definition supervisor_complete_observe (id : string) : IO string :=
  let! _ := lift require_supervisor_completion_authority in
  let! _ := require_observe_authority in
  let! dir := lift state_dir in
  let! p := lift (paths id) in
  let! st := shortcut_completion_state dir p id in
  let! fs := get_files in
  let! _ := lift (validate_observation_launches (workflow_launches fs dir id)) in
  let! hash := shortcut_result_hash dir in
  let result := "observe:" +:+ hash in
  let! _ := complete_shortcut p st "observe" result in
  ret result.

(** The sealed evidence of a semantic reviewer of a read-only investigation;
    its review is recorded once. *)
Definition record_integrity (dir : string) (p : Paths) (id : string) (st : gmap string string)
    (reviewer : string) : IO unit :=
  let! r := lift root in
  let! fs := get_files in
  let! diff := lift (canonical_diff r "HEAD" fs) in
  let diff_hash := sha256_hex diff in
  let evidence_dir := path_join (path_join dir "reviewer-evidence") reviewer in
  let! evidence := read_env_optional (path_join evidence_dir "evidence.env") in
  let! _ := check (String.eqb (state_value evidence "role") "reviewer"
                   && String.eqb (state_value evidence "access") "read-only"
                   && String.eqb (state_value evidence "workflow_id") id
                   && String.eqb (state_value evidence "state") "completed")
              "read-only reviewer evidence is not supervisor-sealed for this workflow" in
  let! report := lift (ok_or (fs !! path_join evidence_dir "last-message.txt")
                         (io_error "read read-only reviewer evidence")) in
  let! _ := check (String.eqb (sha256_hex report) (state_value evidence "output_sha256"))
              "read-only reviewer evidence failed its supervisor output seal" in
  let marked verdict := length (List.filter (fun line =>
        review_marker_matches line (review_marker "read-only-integrity" verdict diff_hash)) (lines report)) in
  let! _ := check ((marked "pass" =? 1)%nat && (marked "findings" =? 0)%nat)
              "read-only reviewer evidence requires exactly one passing integrity marker and no findings marker" in
  let iteration := state_value st "iteration" in
  let review_id := "read-only-integrity-" +:+ iteration in
  let! rows := read_reviews (reviews p) in
  if existsb (is_row review_id) rows then ret tt
  else
    let! now := timestamp in
    let! _ := write_reviews (reviews p)
                (rows ++ [[review_id; "read-only-integrity"; "pass"; diff_hash; evidence_dir; iteration;
                           now; reviewer]]) in
    event (events p) "review_recorded"
      ("review_id=" +:+ review_id +:+ tabs +:+ "type=read-only-integrity" +:+ tabs +:+ "verdict=pass"
       +:+ tabs +:+ "diff_hash=" +:+ diff_hash).

Definition supervisor_complete_read_only (id : string) (reviewer : option string) : IO string :=
  let! _ := lift require_supervisor_completion_authority in
  let! _ := lift (match reviewer with Some name => valid_id "read-only reviewer" name | None => Ok tt end) in
  let! dir := lift state_dir in
  let! p := lift (paths id) in
  let! st := shortcut_completion_state dir p id in
  let! fs := get_files in
  let launches := workflow_launches fs dir id in
  let! _ := check (negb (bool_decide (map fst launches = [])))
              "read-only completion requires at least one reader launch" in
  let! _ := lift (validate_read_only_launches launches reviewer) in
  let! _ := match reviewer with
            | Some name => record_integrity dir p id st name
            | None => ret tt
            end in
  let! hash := shortcut_result_hash dir in
  let result := "read-only:" +:+ hash in
  let! _ := complete_shortcut p st "read-only" result in
  ret result.

(** ** Back to a human *)

Definition observe_completion_state (p : Paths) (id : string) : IO (gmap string string) :=
  let! st := read_state (state p) id in
  let! _ := check (String.eqb (state_value st "phase") "pre-implementation")
              "observe execution is already terminal or entered a mutation lifecycle" in
  let! _ := validate_original_task st in
  ret st.

Definition supervisor_request_review (id : string) (repair_paths : list string) (reviewed_ops : bool)
  : IO string :=
  let! _ := lift require_supervisor_completion_authority in
  let! _ := require_observe_authority in
  let! dir := lift state_dir in
  let! p := lift (paths id) in
  let! st := observe_completion_state p id in
  let! fs := get_files in
  let! text := lift (ok_or (fs !! path_join dir "orchestrator-result.md")
                       (io_error "read persisted repair-review question")) in
  let question := trim text in
  let! _ := lift (validate_bounded_question question) in
  let! normalized := lift (normalize_repair_paths repair_paths reviewed_ops) in
  let effects := (if bool_decide (normalized = []) then [] else ["source-write"])
                 ++ (if reviewed_ops then ["reviewed-ops"] else []) in
  let request_path := path_join (base p) "human-review-request.md" in
  let paths_path := path_join (base p) "human-review-repair-paths.json" in
  let effects_path := path_join (base p) "human-review-effects.json" in
  let! _ := atomic_write request_path (question +:+ newline) in
  let! _ := atomic_write paths_path (to_vec (strings_value normalized) +:+ newline) in
  let! _ := atomic_write effects_path (to_vec (strings_value effects) +:+ newline) in
  let! digest := sha256 request_path in
  let! paths_digest := sha256 paths_path in
  let! effects_digest := sha256 effects_path in
  let result := "request-review:" +:+ digest in
  let! now := timestamp in
  let st' := insert_all [("phase", "complete"); ("candidate_diff_hash", result);
                         ("reviewed_diff_hash", result); ("terminal_outcome", "review_requested");
                         ("human_review_status", "pending"); ("human_review_request", request_path);
                         ("human_review_request_sha256", digest);
                         ("human_review_repair_paths", paths_path);
                         ("human_review_repair_paths_sha256", paths_digest);
                         ("human_review_reviewer", "session-self-review");
                         ("human_review_reason", "source-repair"); ("updated_at", now)] st in
  let! _ := write_env (state p) st' in
  let! _ := event (events p) "human_review_required"
              ("from=pre-implementation" +:+ tabs +:+ "to=complete" +:+ tabs +:+ "iteration="
               +:+ state_value st' "iteration" +:+ tabs +:+ "authority=supervisor" +:+ tabs
               +:+ "reason=repair" +:+ tabs +:+ "request_sha256=" +:+ digest +:+ tabs
               +:+ "repair_paths_sha256=" +:+ paths_digest +:+ tabs +:+ "effects_sha256="
               +:+ effects_digest) in
  ret result.

Definition reviewer_human_review_question (id reviewer : string) : IO (option (string * string)) :=
  let! _ := lift (valid_id "human-review reviewer" reviewer) in
  let! dir := lift state_dir in
  let evidence_dir := path_join (path_join dir "reviewer-evidence") reviewer in
  let! metadata := read_env_optional (path_join evidence_dir "evidence.env") in
  let! _ := check (String.eqb (state_value metadata "role") "reviewer"
                   && String.eqb (state_value metadata "access") "read-only"
                   && String.eqb (state_value metadata "workflow_id") id
                   && String.eqb (state_value metadata "state") "completed")
              "human review requires supervisor-sealed reviewer evidence for this workflow" in
  let! fs := get_files in
  let! report := lift (ok_or (fs !! path_join evidence_dir "last-message.txt")
                         (io_error "read human-review evidence")) in
  let! _ := check (eq_ignore_ascii_case (sha256_hex report) (state_value metadata "output_sha256"))
              "human-review evidence failed its supervisor output seal" in
  lift (parse_human_review_request report).

Definition supervisor_complete_human_review (id reviewer : string) : IO string :=
  let! _ := lift require_supervisor_completion_authority in
  let! asked := reviewer_human_review_question id reviewer in
  let! asked := lift (ok_or asked "reviewer evidence does not request human review") in
  let question := asked.1 in
  let reason := asked.2 in
  let! dir := lift state_dir in
  let! p := lift (paths id) in
  let! st := read_state (state p) id in
  let phase := state_value st "phase" in
  let! _ := check (negb (String.eqb phase "complete"))
              "human-review completion requires an active workflow" in
  let! fs := get_files in
  let! persisted := lift (ok_or (fs !! path_join dir "orchestrator-result.md")
                            (io_error "read persisted human-review question")) in
  let! _ := check (String.eqb (trim persisted) question)
              "persisted orchestrator result does not match the sealed human-review question" in
  let request_path := path_join (base p) "human-review-request.md" in
  let! _ := atomic_write request_path (question +:+ newline) in
  let! digest := sha256 request_path in
  let result := "human-review:" +:+ digest in
  let! now := timestamp in
  let st' := insert_all [("phase", "complete"); ("candidate_diff_hash", result);
                         ("reviewed_diff_hash", result); ("terminal_outcome", "review_requested");
                         ("human_review_status", "pending"); ("human_review_request", request_path);
                         ("human_review_request_sha256", digest); ("human_review_reviewer", reviewer);
                         ("human_review_reason", reason); ("updated_at", now)] st in
  let! _ := write_env (state p) st' in
  let! _ := event (events p) "human_review_required"
              ("from=" +:+ phase +:+ tabs +:+ "to=complete" +:+ tabs +:+ "iteration="
               +:+ state_value st' "iteration" +:+ tabs +:+ "authority=supervisor" +:+ tabs
               +:+ "reviewer=" +:+ reviewer +:+ tabs +:+ "reason=" +:+ reason +:+ tabs
               +:+ "request_sha256=" +:+ digest) in
  ret result.

End Completion.
