(* ===== verification/LifecycleFacts.v ===== *)
(** * LifecycleFacts: the files of a lifecycle

    Reading back [lifecycle.env] and the tables, the paths of different
    workflows, and the invariant of the files of one workflow. *)

From S2P Require Import Prelude Text State Json Config Dag Lifecycle Workflow.

(** ** [lifecycle.env] *)

Definition env_kvs (st : gmap string string) : list (string * string) :=
  map (fun k => (k, state_value st k)) ENV_ORDER.

Lemma env_text_print st : env_text st = print_env (env_kvs st).
Proof.
  unfold env_text, print_env, unlines, env_kvs. rewrite !map_map. apply f_equal. apply map_ext. intros k.
  unfold env_line, newline. cbn [fst snd]. rewrite !str_app_assoc. reflexivity.
Qed.

(** All the fields of a lifecycle are single lines. *)
Definition state_clean (st : gmap string string) : Prop :=
  forall k, k ∈ ENV_ORDER -> clean (state_value st k) = true.

Lemma env_keys_clean k : k ∈ ENV_ORDER -> clean k = true /\ has_char "=" k = false.
Proof.
  intros Hk. assert (forallb (fun k => clean k && negb (has_char "=" k)) ENV_ORDER = true) as Hall
    by (vm_compute; reflexivity).
  rewrite forallb_forall in Hall. apply list_elem_of_In in Hk.
  specialize (Hall _ Hk). by apply andb_true_iff in Hall as [? ?%negb_true_iff].
Qed.

Lemma env_kvs_clean st : state_clean st -> forallb env_clean (env_kvs st) = true.
Proof.
  intros Hst. apply forallb_forall. intros kv (k & <- & Hk)%in_map_iff.
  apply list_elem_of_In in Hk. destruct (env_keys_clean _ Hk) as [Hc He].
  unfold env_clean. simpl. by rewrite Hc, He, (Hst _ Hk).
Qed.

Lemma NoDup_ENV_ORDER : NoDup ENV_ORDER.
Proof. apply (bool_decide_unpack _). vm_compute. exact I. Qed.

Lemma env_kvs_keys st : (env_kvs st).*1 = ENV_ORDER.
Proof. reflexivity. Qed.

(** Writing the fields and reading them back. *)
Lemma env_text_value st k :
  state_clean st -> k ∈ ENV_ORDER -> state_value (parse_env (env_text st)) k = state_value st k.
Proof.
  intros Hst Hk. unfold state_value at 1. rewrite env_text_print.
  rewrite (parse_env_print_lookup _ k (state_value st k)); [done|by apply env_kvs_clean|..].
  - rewrite env_kvs_keys. apply NoDup_ENV_ORDER.
  - unfold env_kvs. apply list_elem_of_In, in_map_iff. exists k. split; [done|].
    by apply list_elem_of_In.
Qed.

Lemma insert_all_value kvs st k :
  state_value (insert_all kvs st) k = unwrap_or ((list_to_map (reverse kvs) : gmap string string) !! k) (state_value st k).
Proof.
  unfold insert_all. induction kvs as [|[k' v] kvs IH] using rev_ind; [done|].
  rewrite foldl_app, reverse_snoc. simpl. destruct (decide (k = k')) as [->|Hne].
  - by rewrite state_value_insert, lookup_insert_eq.
  - by rewrite state_value_insert_ne, lookup_insert_ne, IH.
Qed.

Lemma insert_all_clean kvs st :
  forallb (fun kv => clean kv.2) kvs = true -> state_clean st -> state_clean (insert_all kvs st).
Proof.
  unfold insert_all. revert st. induction kvs as [|[k v] kvs IH]; intros st; simpl; [done|].
  intros [Hv Hkvs]%andb_true_iff Hst. apply IH; [done|]. intros k' Hk'.
  destruct (decide (k = k')) as [->|]; [by rewrite state_value_insert|].
  rewrite state_value_insert_ne by done. by apply Hst.
Qed.

Lemma insert_clean k v st : clean v = true -> state_clean st -> state_clean (<[k := v]> st).
Proof. intros Hv. apply (insert_all_clean [(k, v)]). simpl. by rewrite Hv. Qed.

(** ** Tables *)

(** The fields of a row that was read: none holds a tab or a line break. *)
Definition row_ok (n : nat) (r : Row) : Prop :=
  length r = n /\ Forall (fun f => has_char tab f = false /\ has_char nl f = false) r.

Lemma resize_length n l : length (resize n l) = n.
Proof. unfold resize. rewrite length_app, length_take, repeat_length. lia. Qed.

Lemma split_fields c s : Forall (fun f => has_char c f = false) (split c s).
Proof.
  induction s as [|a s IH]; simpl; [by constructor|].
  destruct (Ascii.eqb a c) eqn:E; [by constructor|].
  destruct (split c s) as [|x l]; inversion IH; subst; constructor; simpl; auto; by rewrite E.
Qed.

Lemma split_keeps_no c d s : has_char d s = false -> Forall (fun f => has_char d f = false) (split c s).
Proof.
  induction s as [|a s IH]; simpl; [by constructor|].
  intros [Ha Hs]%orb_false_iff. specialize (IH Hs). destruct (Ascii.eqb a c); [by constructor|].
  destruct (split c s) as [|x l]; inversion IH; subst; constructor; simpl; auto; by rewrite Ha.
Qed.

Lemma parse_fields_ok n line : has_char nl line = false -> row_ok n (parse_fields n line).
Proof.
  intros Hl. split; [apply resize_length|]. unfold parse_fields, resize. apply Forall_app. split.
  - apply Forall_take. pose proof (split_fields tab line) as H1.
    pose proof (split_keeps_no tab nl line Hl) as H2. apply Forall_and. auto.
  - apply Forall_forall. by intros f ->%list_elem_of_In%repeat_spec.
Qed.

Lemma strip_cr_tab a b : strip_cr (a +:+ String tab b) = a +:+ String tab (strip_cr b).
Proof.
  assert (strip_suffix (String cr "") (a +:+ String tab b) =
          (fun r => a +:+ String tab r) <$> strip_suffix (String cr "") b) as Heq.
  { induction a as [|c a IH]; simpl.
    - by destruct (strip_suffix _ b).
    - rewrite IH. destruct (String.eqb_spec (String c (a +:+ String tab b)) (String cr "")) as [[= _ Ha]|_].
      + by destruct a.
      + by destruct (strip_suffix _ b). }
  unfold strip_cr. rewrite Heq. by destruct (strip_suffix _ b).
Qed.

Lemma join_snoc sep l x : l <> [] -> join sep (l ++ [x]) = join sep l +:+ sep +:+ x.
Proof.
  induction l as [|a [|b l] IH]; [done|done|]. intros _.
  change ((a :: b :: l) ++ [x]) with (a :: (b :: l) ++ [x]).
  change (join sep (a :: b :: l)) with (a +:+ sep +:+ join sep (b :: l)).
  rewrite !str_app_assoc, <- IH by done. reflexivity.
Qed.

(** Encoding a row and reading it back changes at most the end of its last
    field. *)
Definition agree (r r' : Row) : Prop := forall i, (i < 6)%nat -> get i r' = get i r.

Lemma agree_refl r : agree r r.
Proof. done. Qed.

Lemma encode_parse n r :
  (8 <= n)%nat -> row_ok n r -> agree r (parse_fields n (strip_cr (encode_fields r))).
Proof.
  intros Hn [Hlen Hf]. destruct (exists_last (l := r)) as (init & x & ->); [by destruct r; simpl in *; try lia|].
  rewrite length_app in Hlen. simpl in Hlen.
  assert (init <> []) as Hne by (intros ->; simpl in Hlen; lia).
  unfold encode_fields. rewrite join_snoc by done. unfold tabs. cbn [String.append].
  rewrite strip_cr_tab. apply Forall_app in Hf as [Hf Hx].
  apply Forall_singleton in Hx as [Hxt Hxn].
  assert (has_char tab (strip_cr x) = false) as Hx'.
  { unfold strip_cr. destruct (strip_suffix _ x) as [y|] eqn:E; [|done].
    apply strip_suffix_some in E as ->. rewrite has_char_app in Hxt. by apply orb_false_iff in Hxt as [? _]. }
  change (String tab (strip_cr x)) with (String tab "" +:+ strip_cr x).
  rewrite <- join_snoc by done. unfold parse_fields. rewrite split_join.
  - intros i Hi. unfold get, resize. rewrite firstn_all2 by (rewrite length_app; simpl; lia).
    rewrite !app_nth1; [done|try (rewrite length_app; simpl); lia..].
  - by destruct init.
  - rewrite forallb_app. simpl. rewrite Hx', andb_true_r. apply forallb_forall.
    intros f Hin%list_elem_of_In. rewrite Forall_forall in Hf. by destruct (Hf _ Hin) as [-> _].
Qed.

Definition rows_of (n : nat) (fs : gmap string string) (p : string) : list Row :=
  match fs !! p with
  | None => []
  | Some text => map (parse_fields n) (table_lines text)
  end.

Lemma wp_read_rows n p Q fs : Q (Ok (rows_of n fs p)) fs -> wp (read_rows n p) Q fs.
Proof.
  intros HQ w r w' <-. unfold read_rows, bind, get_files. unfold rows_of in HQ.
  by destruct (files w !! p); intros [= <- <-].
Qed.

Lemma rows_of_ok n fs p : Forall (row_ok n) (rows_of n fs p).
Proof.
  unfold rows_of. destruct (fs !! p) as [text|]; [|constructor]. apply Forall_map.
  unfold table_lines. pose proof (lines_no_nl text) as Hl. apply Forall_tail in Hl.
  apply Forall_forall. intros l [Hin _]%list_elem_of_In%filter_In. apply parse_fields_ok.
  rewrite Forall_forall in Hl. by apply Hl, list_elem_of_In.
Qed.

(** The rows that were written are read back, whatever comes after them. *)
Definition grows (R R' : list Row) : Prop := forall r, r ∈ R -> exists r', r' ∈ R' /\ agree r r'.

Lemma grows_refl R : grows R R.
Proof. intros r Hr. exists r. auto using agree_refl. Qed.
Lemma grows_trans R1 R2 R3 : grows R1 R2 -> grows R2 R3 -> grows R1 R3.
Proof.
  intros H12 H23 r (r' & Hr' & Ha)%H12. apply H23 in Hr' as (r'' & Hr'' & Ha').
  exists r''. split; [done|]. intros i Hi. by rewrite Ha', Ha.
Qed.

Lemma encode_nonempty n r : (8 <= n)%nat -> row_ok n r -> is_empty (strip_cr (encode_fields r)) = false.
Proof.
  intros Hn [Hlen _]. destruct r as [|x [|y r]]; simpl in Hlen; try lia.
  unfold encode_fields. change (join tabs (x :: y :: r)) with (x +:+ String tab (join tabs (y :: r))).
  rewrite strip_cr_tab. by destruct x.
Qed.

Lemma encode_no_nl n r : row_ok n r -> has_char nl (encode_fields r) = false.
Proof.
  intros [_ Hf]. unfold encode_fields. clear n. induction Hf as [|x l [_ Hx] Hf IH]; [done|].
  destruct l as [|y l]; [done|].
  change (join tabs (x :: y :: l)) with (x +:+ String tab (join tabs (y :: l))).
  rewrite has_char_app, Hx. simpl in *. exact IH.
Qed.

Lemma rows_written n header rows extra p fs :
  (8 <= n)%nat -> has_char nl header = false -> Forall (row_ok n) rows ->
  grows rows (rows_of n (<[p := unlines (header :: map encode_fields (rows ++ extra))]> fs) p).
Proof.
  intros Hn Hh Hrows r Hr. unfold rows_of. rewrite lookup_insert_eq.
  rewrite map_app, app_comm_cons, unlines_app. unfold table_lines. rewrite lines_unlines_weak.
  2:{ constructor; [done|]. apply Forall_map. eapply Forall_impl; [exact Hrows|].
      intros x Hx. by eapply encode_no_nl. }
  assert (row_ok n r) as Hok by (by eapply Forall_forall in Hrows).
  exists (parse_fields n (strip_cr (encode_fields r))). split; [|by apply encode_parse].
  apply list_elem_of_In, in_map, filter_In. split.
  - simpl. apply in_app_iff. left. apply in_map, in_map. by apply list_elem_of_In.
  - by rewrite (encode_nonempty n).
Qed.

(** A row of clean fields that was written is read back as it is. *)
Lemma row_written n header rows row p fs :
  (8 <= n)%nat -> has_char nl header = false -> Forall (row_ok n) rows -> row_ok n row ->
  exists r', r' ∈ rows_of n (<[p := unlines (header :: map encode_fields (rows ++ [row]))]> fs) p /\ agree row r'.
Proof.
  intros Hn Hh Hrows Hrow.
  destruct (rows_written n header (rows ++ [row]) [] p fs Hn Hh) with (r := row) as (r' & Hr' & Ha).
  - apply Forall_app. auto.
  - set_solver.
  - rewrite app_nil_r in Hr'. eauto.
Qed.

(** ** Paths *)

Definition id_ok (id : string) : bool := negb (is_empty id) && all_chars id_char id.

Lemma valid_id_ok label id u : valid_id label id = Ok u -> id_ok id = true.
Proof. unfold valid_id. destruct u. intros H%guard_ok. exact H. Qed.

Lemma id_ok_no_char id c : id_ok id = true -> id_char c = false -> has_char c id = false.
Proof. unfold id_ok. intros [_ Ha]%andb_true_iff Hc. by eapply all_chars_no_char. Qed.

Lemma id_ok_field id : id_ok id = true -> clean_field id = true.
Proof.
  intros Hid. unfold clean_field, clean. by rewrite !(id_ok_no_char id) by done.
Qed.

(** A file in the lifecycle directory of a workflow. *)
Definition lfile (dir id f : string) : string :=
  path_join (path_join (path_join (path_join dir "workflows") id) "lifecycle") f.

Lemma lfile_inj dir id f id' f' :
  id_ok id = true -> id_ok id' = true -> lfile dir id f = lfile dir id' f' -> id = id' /\ f = f'.
Proof.
  intros Hid Hid'. unfold lfile, path_join. rewrite !str_app_assoc. intros He.
  do 4 apply str_app_inj_l in He. cbn [String.append] in He.
  pose proof (id_ok_no_char _ "/" Hid eq_refl) as Hs. pose proof (id_ok_no_char _ "/" Hid' eq_refl) as Hs'.
  pose proof (split_once_app "/" id ("lifecycle/" +:+ f) Hs) as H1.
  pose proof (split_once_app "/" id' ("lifecycle/" +:+ f') Hs') as H2.
  cbn [String.append] in H1, H2. rewrite He, H2 in H1. by injection H1 as -> ->.
Qed.

(** ** The invariant of one lifecycle *)

(** The review types a candidate of this iteration always needs. *)
Definition auto_kinds (iteration : string) : list string :=
  "technical" :: (if 1 <? unwrap_or (parse_u64 iteration) 1 then ["reflection"] else []).

(** [R] holds a passing review of this type for the candidate. *)
Definition reviewed (R : list Row) (kind diff iteration : string) : Prop :=
  exists r, r ∈ R /\ get 1 r = kind /\ get 2 r = "pass" /\ get 3 r = diff /\ get 5 r = iteration.
(** [O] holds an obligation of this type for the candidate. *)
Definition obliged (O : list Row) (kind diff iteration : string) : Prop :=
  exists r, r ∈ O /\ get 1 r = kind /\ get 3 r = diff /\ get 5 r = iteration.
(** [R] holds the passing plan-alignment review [review_id]. *)
Definition aligned (R : list Row) (review_id : string) : Prop :=
  exists r, r ∈ R /\ get 0 r = review_id /\ get 1 r = "plan-alignment" /\ get 2 r = "pass".

(** How a complete workflow has ended: it was handed back to a human, it never
    entered the source lifecycle, or its candidate has the reviews it needs. *)
Definition ended (R : list Row) (st : gmap string string) : Prop :=
  state_value st "terminal_outcome" = "review_requested"
  \/ (state_value st "preimplementation_gate" <> "passed"
      /\ state_value st "iteration_plan_sha256" = "" /\ state_value st "implementation_context" = ""
      /\ state_value st "alignment_review_id" = "")
  \/ (state_value st "preimplementation_gate" = "passed"
      /\ state_value st "candidate_diff_hash" <> ""
      /\ state_value st "reviewed_diff_hash" = state_value st "candidate_diff_hash"
      /\ forall kind, kind ∈ auto_kinds (state_value st "iteration") ->
           reviewed R kind (state_value st "candidate_diff_hash") (state_value st "iteration")).

(** What the reviews [R], the obligations [O] and the fields [st] of a
    lifecycle have to do with each other. *)
Record good (R O : list Row) (st : gmap string string) : Prop := {
  good_clean : state_clean st;
  good_iteration : clean_field (state_value st "iteration") = true;
  good_phase : mem (state_value st "phase") PHASES = true;
  good_approved : state_value st "preimplementation_gate" = "passed" ->
    aligned R (state_value st "alignment_review_id")
    /\ state_value st "iteration_plan_sha256" <> ""
    /\ state_value st "implementation_context" <> "";
  good_started :
    state_value st "phase" = "implementation" \/ state_value st "phase" = "post-implementation" ->
    state_value st "preimplementation_gate" = "passed";
  good_candidate : state_value st "phase" = "post-implementation" ->
    state_value st "candidate_diff_hash" <> ""
    /\ clean_field (state_value st "candidate_diff_hash") = true
    /\ forall kind, kind ∈ auto_kinds (state_value st "iteration") ->
         obliged O kind (state_value st "candidate_diff_hash") (state_value st "iteration");
  good_complete : state_value st "phase" = "complete" -> ended R st
}.

Lemma ended_grows R R' st : grows R R' -> ended R st -> ended R' st.
Proof.
  intros HR [He|[He|(Hg & Hne & Hd & Ho)]]; [by left|by right; left|right; right]. split_and!; auto.
  intros kind Hk. destruct (Ho _ Hk) as (r & Hr & H1 & H2 & H3 & H5).
  apply HR in Hr as (r' & Hr' & Hag). exists r'. rewrite !Hag by lia. auto.
Qed.

Lemma good_grows R O R' O' st : grows R R' -> grows O O' -> good R O st -> good R' O' st.
Proof.
  intros HR HO [Hc Hi Hp Ha Hs Hd Hf]. split; auto.
  - intros Hg. destruct (Ha Hg) as ((r & Hr & H0 & H1 & H2) & Hrest). split; [|done].
    apply HR in Hr as (r' & Hr' & Hag). exists r'. rewrite !Hag by lia. auto.
  - intros Hph. destruct (Hd Hph) as (? & ? & Ho). split_and!; auto.
    intros kind Hk. destruct (Ho _ Hk) as (r & Hr & H1 & H3 & H5).
    apply HO in Hr as (r' & Hr' & Hag). exists r'. rewrite !Hag by lia. auto.
  - intros Hph. by eapply ended_grows, Hf.
Qed.

Ltac env_key := by apply (bool_decide_unpack _); vm_compute.

Lemma good_ext R O st st' :
  (forall k, k ∈ ENV_ORDER -> state_value st' k = state_value st k) -> good R O st -> good R O st'.
Proof.
  intros He Hg. destruct Hg as [Hc Hi Hp Ha Hs Hd Hf].
  assert (state_clean st') by (intros k Hk; rewrite He by done; by apply Hc).
  unfold ended in *. split; [done|..]; unfold ended; rewrite ?(He "terminal_outcome"), ?(He "phase"), ?(He "iteration"), ?(He "preimplementation_gate"),
    ?(He "alignment_review_id"), ?(He "iteration_plan_sha256"), ?(He "implementation_context"),
    ?(He "candidate_diff_hash"), ?(He "reviewed_diff_hash") by env_key; assumption.
Qed.

(** ** The invariant of the store *)

Definition reviews_in (dir : string) (fs : gmap string string) (id : string) : list Row :=
  rows_of 8 fs (lfile dir id "reviews.tsv").
Definition obligations_in (dir : string) (fs : gmap string string) (id : string) : list Row :=
  rows_of 9 fs (lfile dir id "review-obligations.tsv").
Definition state_in (dir : string) (fs : gmap string string) (id : string)
  : option (gmap string string) :=
  parse_env <$> fs !! lfile dir id "lifecycle.env".

Definition inv (dir : string) (fs : gmap string string) : Prop :=
  forall id st, id_ok id = true -> state_in dir fs id = Some st ->
    good (reviews_in dir fs id) (obligations_in dir fs id) st.

(** The three files of a lifecycle the invariant reads. *)
Definition tracked (f : string) : bool :=
  mem f ["lifecycle.env"; "reviews.tsv"; "review-obligations.tsv"].

Lemma inv_frame dir fs fs' :
  (forall id f, id_ok id = true -> tracked f = true -> fs' !! lfile dir id f = fs !! lfile dir id f) ->
  inv dir fs -> inv dir fs'.
Proof.
  intros Heq Hinv id st Hid. unfold state_in, reviews_in, obligations_in, rows_of.
  rewrite !Heq by done. by apply Hinv.
Qed.

Lemma rows_of_insert_ne n fs p q t : p <> q -> rows_of n (<[p := t]> fs) q = rows_of n fs q.
Proof. intros. unfold rows_of. by rewrite lookup_insert_ne. Qed.

Lemma lfile_ne dir id f id' f' :
  id_ok id = true -> id_ok id' = true -> f <> f' \/ id <> id' -> lfile dir id f <> lfile dir id' f'.
Proof. intros H1 H2 Hne He. destruct (lfile_inj _ _ _ _ _ H1 H2 He); naive_solver. Qed.

Lemma inv_insert_untracked dir id f t fs :
  id_ok id = true -> tracked f = false -> inv dir fs -> inv dir (<[lfile dir id f := t]> fs).
Proof.
  intros Hid Hf. apply inv_frame. intros id' f' Hid' Hf'. apply lookup_insert_ne, lfile_ne; [done..|].
  left. intros ->. congruence.
Qed.

(** Replacing the fields. *)
Lemma inv_write_env dir id st fs :
  id_ok id = true -> good (reviews_in dir fs id) (obligations_in dir fs id) st -> inv dir fs ->
  inv dir (<[lfile dir id "lifecycle.env" := env_text st]> fs).
Proof.
  intros Hid Hg Hinv id' st' Hid'. unfold state_in, reviews_in, obligations_in.
  rewrite !rows_of_insert_ne by (apply lfile_ne; [done..|by left]).
  destruct (decide (id = id')) as [<-|Hne].
  - rewrite lookup_insert_eq. intros [= <-]. eapply good_ext; [|exact Hg].
    intros k Hk. apply env_text_value; [apply Hg|done].
  - rewrite lookup_insert_ne by (apply lfile_ne; [done..|by right]). by apply Hinv.
Qed.

(** Replacing a table whose rows are still there. *)
Lemma inv_write_reviews dir id t fs :
  id_ok id = true ->
  grows (reviews_in dir fs id) (reviews_in dir (<[lfile dir id "reviews.tsv" := t]> fs) id) ->
  inv dir fs -> inv dir (<[lfile dir id "reviews.tsv" := t]> fs).
Proof.
  intros Hid Hg Hinv id' st' Hid'. unfold state_in, obligations_in.
  rewrite rows_of_insert_ne by (apply lfile_ne; [done..|by left]).
  rewrite lookup_insert_ne by (apply lfile_ne; [done..|by left]). intros Hst.
  destruct (decide (id = id')) as [<-|Hne].
  - eapply good_grows; [exact Hg|apply grows_refl|by apply Hinv].
  - unfold reviews_in. rewrite rows_of_insert_ne by (apply lfile_ne; [done..|by right]). by apply Hinv.
Qed.

Lemma inv_write_obligations dir id t fs :
  id_ok id = true ->
  grows (obligations_in dir fs id)
    (obligations_in dir (<[lfile dir id "review-obligations.tsv" := t]> fs) id) ->
  inv dir fs -> inv dir (<[lfile dir id "review-obligations.tsv" := t]> fs).
Proof.
  intros Hid Hg Hinv id' st' Hid'. unfold state_in, reviews_in.
  rewrite rows_of_insert_ne by (apply lfile_ne; [done..|by left]).
  rewrite lookup_insert_ne by (apply lfile_ne; [done..|by left]). intros Hst.
  destruct (decide (id = id')) as [<-|Hne].
  - eapply good_grows; [apply grows_refl|exact Hg|by apply Hinv].
  - unfold obligations_in. rewrite rows_of_insert_ne by (apply lfile_ne; [done..|by right]). by apply Hinv.
Qed.
