(* ===== verification/LifecycleGates.v ===== *)
(** * LifecycleGates: what the gates decide

    The gates only read the files. Here is what it takes to pass them, stated
    without the order of the checks, the intermediate tables and the loops. *)

From S2P Require Import Prelude Text State Json Config Dag Lifecycle Workflow LifecycleFacts.

(** ** Reads *)

Section Reads.
Context `{Platform}.

Lemma reader_read_state p id : reader (read_state p id).
Proof. unfold read_state. readers. Qed.
Lemma reader_read_rows n p : reader (read_rows n p).
Proof. unfold read_rows. readers. Qed.
Lemma reader_sha256 p : reader (sha256 p).
Proof. unfold sha256. readers. Qed.
#[local] Hint Resolve reader_read_state reader_read_rows reader_sha256 : readers.
Lemma reader_binding label path expected : reader (validate_artifact_binding label path expected).
Proof. unfold validate_artifact_binding. readers. Qed.
#[local] Hint Resolve reader_binding : readers.
Lemma reader_original_task st : reader (validate_original_task st).
Proof. apply reader_binding. Qed.
Lemma reader_contract st : reader (validate_contract st).
Proof. apply reader_binding. Qed.
#[local] Hint Resolve reader_original_task reader_contract : readers.
Lemma reader_context st : reader (validate_context st).
Proof. unfold validate_context. readers. Qed.
Lemma reader_optional_artifact p : reader (read_optional_artifact p).
Proof. unfold read_optional_artifact. readers. Qed.
Lemma reader_reviewer_evidence id reviewer kind verdict diff :
  reader (validate_reviewer_evidence id reviewer kind verdict diff).
Proof. unfold validate_reviewer_evidence, check_marker. readers. Qed.
Lemma reader_alignment_evidence id reviewer plan :
  reader (validate_plan_alignment_evidence id reviewer plan).
Proof. unfold validate_plan_alignment_evidence. readers. Qed.
Lemma reader_unrecorded id diff rows : reader (unrecorded_reviewer_findings id diff rows).
Proof. unfold unrecorded_reviewer_findings. readers. Qed.
Lemma reader_active_reviewers : reader active_reviewers.
Proof. unfold active_reviewers. readers. Qed.
#[local] Hint Resolve reader_context reader_optional_artifact reader_reviewer_evidence
  reader_alignment_evidence reader_unrecorded reader_active_reviewers : readers.
Lemma reader_passing id diff rows : reader (validate_passing id diff rows).
Proof. induction rows; simpl; readers. Qed.
#[local] Hint Resolve reader_passing : readers.
Lemma reader_implementation_gate id plan allow : reader (implementation_gate_state id plan allow).
Proof. unfold implementation_gate_state, read_todos. readers. Qed.
Lemma reader_completion_state id : reader (completion_state id).
Proof. unfold completion_state, read_todos, read_reviews, read_review_obligations. readers. Qed.
Lemma reader_contract_quoted st context : reader (check_contract_quoted st context).
Proof. unfold check_contract_quoted. readers. Qed.
Lemma keeps_ensure rows oid kind trigger digest reason iteration :
  keeps_files (ensure_review_obligation rows oid kind trigger digest reason iteration).
Proof. unfold ensure_review_obligation. keeps. Qed.
Lemma keeps_satisfy kind diff iteration rid rows :
  keeps_files (satisfy_obligations kind diff iteration rid rows).
Proof. induction rows; simpl; keeps. Qed.

End Reads.

#[export] Hint Resolve reader_read_state reader_read_rows reader_sha256 reader_binding
  reader_original_task reader_contract reader_context reader_optional_artifact
  reader_reviewer_evidence reader_alignment_evidence reader_unrecorded reader_active_reviewers
  reader_passing reader_implementation_gate reader_completion_state reader_contract_quoted : readers.
#[export] Hint Resolve keeps_ensure keeps_satisfy : keeps.

Section Gates.
Context `{Platform} (dir : string) (Hdir : state_dir = Ok dir).

Lemma paths_ok id p : paths id = Ok p <-> id_ok id = true /\ p = lifecycle_paths dir id.
Proof.
  unfold paths. rewrite Hdir. simpl. unfold valid_id. fold (id_ok id).
  destruct (id_ok id); simpl; naive_solver.
Qed.

Lemma eval_read_state id st fs :
  eval (read_state (lfile dir id "lifecycle.env") id) fs = Ok st <-> state_in dir fs id = Some st.
Proof.
  unfold read_state, state_in, read_env_optional, is_file, eval, bind, get_files, ret, check. simpl.
  destruct (fs !! lfile dir id "lifecycle.env") as [t|] eqn:E; simpl; rewrite ?E; simpl; split; by intros [= <-].
Qed.

Lemma eval_read_rows n p fs : eval (read_rows n p) fs = Ok (rows_of n fs p).
Proof. unfold read_rows, eval, bind, get_files, rows_of. simpl. by destruct (fs !! p). Qed.

(** ** Artifacts *)

Definition digest_of (fs : gmap string string) (path : string) : option string := sha256_hex <$> fs !! path.

(** A file bound to its digest; both are empty while nothing is bound. *)
Definition bound (fs : gmap string string) (path expected : string) : Prop :=
  (path = "" /\ expected = "")
  \/ (path <> "" /\ expected <> "" /\ digest_of fs path = Some expected).

Lemma eval_sha256 p fs d : eval (sha256 p) fs = Ok d <-> digest_of fs p = Some d.
Proof. unfold sha256, eval, bind, get_files, digest_of. simpl. destruct (fs !! p); naive_solver. Qed.

Lemma eval_is_file p fs : eval (is_file p) fs = Ok (bool_decide (is_Some (fs !! p))).
Proof. done. Qed.


(** The check that a file is there with a given digest. *)
Lemma eval_file_digest p e1 e2 expected fs u :
  eval (let! ok := is_file p in
        let! _ := check ok e1 in
        let! digest := sha256 p in
        check (String.eqb digest expected) e2) fs = Ok u <-> digest_of fs p = Some expected.
Proof.
  rewrite eval_bind, eval_is_file by readers. simpl. rewrite eval_check_then, eval_bind by readers.
  unfold digest_of. destruct (fs !! p) as [t|] eqn:E; simpl.
  - assert (eval (sha256 p) fs = Ok (sha256_hex t)) as -> by (apply eval_sha256; unfold digest_of; by rewrite E).
    simpl. rewrite eval_check. destruct u. rewrite guard_ok, String.eqb_eq.
    split; [by intros [_ ->]|by intros [= ->]].
  - split; [intros [[=] _]|intros [=]].
Qed.

Lemma eval_binding label path expected fs u :
  eval (validate_artifact_binding label path expected) fs = Ok u <-> bound fs path expected.
Proof.
  unfold validate_artifact_binding, bound.
  destruct (is_empty path) eqn:E1, (is_empty expected) eqn:E2; simpl;
    rewrite ?is_empty_true, ?is_empty_false in E1; rewrite ?is_empty_true, ?is_empty_false in E2.
  - destruct u. unfold eval. simpl. naive_solver.
  - split; [done|]. naive_solver.
  - split; [done|]. naive_solver.
  - rewrite eval_file_digest. naive_solver.
Qed.

(** The task, the contract and the approved context are what they were. *)
Definition context_bound (fs : gmap string string) (st : gmap string string) : Prop :=
  bound fs (state_value st "original_task") (state_value st "original_task_sha256")
  /\ bound fs (state_value st "contract_artifact") (state_value st "contract_artifact_sha256")
  /\ state_value st "implementation_context" <> ""
  /\ digest_of fs (state_value st "implementation_context")
     = Some (state_value st "implementation_context_sha256").

Lemma eval_context st fs u : eval (validate_context st) fs = Ok u <-> context_bound fs st.
Proof.
  unfold validate_context, context_bound, validate_original_task, validate_contract.
  rewrite eval_then, eval_binding by readers. rewrite eval_then, eval_binding by readers.
  by rewrite eval_check_then, eval_file_digest, negb_true_iff, is_empty_false.
Qed.

(** ** Reviews *)

(** The last review of a type for this candidate and iteration. *)
Definition last_review (R : list Row) (iteration diff kind : string) : option Row :=
  last (List.filter (fun r => String.eqb (get 1 r) kind && String.eqb (get 3 r) diff
                              && String.eqb (get 5 r) iteration) R).

Lemma latest_reviews_lookup R iteration diff kind :
  latest_reviews R iteration diff !! kind = last_review R iteration diff kind.
Proof.
  unfold latest_reviews, last_review. induction R as [|r R IH] using rev_ind; [done|].
  rewrite !List.filter_app. simpl.
  destruct (String.eqb_spec (get 5 r) iteration), (String.eqb_spec (get 3 r) diff); simpl;
    rewrite ?andb_false_r, ?andb_true_r, ?app_nil_r; try done.
  rewrite foldl_app. simpl. destruct (String.eqb_spec (get 1 r) kind) as [<-|Hne].
  - by rewrite lookup_insert_eq, last_snoc.
  - by rewrite lookup_insert_ne, app_nil_r.
Qed.

Lemma last_review_in R iteration diff kind r :
  last_review R iteration diff kind = Some r ->
  r ∈ R /\ get 1 r = kind /\ get 3 r = diff /\ get 5 r = iteration.
Proof.
  unfold last_review. intros Hl%last_Some_elem_of. apply list_elem_of_In, filter_In in Hl as [Hin Hb].
  bool_hyps. split_and!; [by apply list_elem_of_In|done..].
Qed.
Lemma btree_values_spec (m : gmap string Row) r : r ∈ btree_values m <-> exists k, m !! k = Some r.
Proof.
  unfold btree_values. rewrite list_elem_of_omap. setoid_rewrite btree_list_elem.
  split; [naive_solver|]. intros [k Hk]. exists k. split; [|done]. by apply elem_of_dom_2 in Hk.
Qed.

Lemma with_verdict_spec R iteration diff verdict kind :
  kind ∈ with_verdict verdict (latest_reviews R iteration diff) <->
  exists r, last_review R iteration diff kind = Some r /\ get 2 r = verdict.
Proof.
  unfold with_verdict. rewrite elem_of_list_to_set, list_elem_of_In, in_map_iff.
  setoid_rewrite filter_In. setoid_rewrite <- list_elem_of_In. setoid_rewrite btree_values_spec.
  setoid_rewrite latest_reviews_lookup. setoid_rewrite String.eqb_eq. split.
  - intros (r & <- & (k & Hk) & Hv). exists r. split; [|done].
    by destruct (last_review_in _ _ _ _ _ Hk) as (_ & -> & _).
  - intros (r & Hk & Hv). destruct (last_review_in _ _ _ _ _ Hk) as (_ & H1 & _). eauto.
Qed.

(** A type of review the candidate needs: the types of its obligations, or the
    three standard ones when it has none. *)
Definition needs_review (O : list Row) (iteration diff kind : string) : Prop :=
  obliged O kind diff iteration
  \/ kind ∈ POST_REVIEWS /\ forall k, ~ obliged O k diff iteration.

Lemma current_obligations_spec O iteration diff r :
  r ∈ current_obligations O iteration diff <-> r ∈ O /\ get 3 r = diff /\ get 5 r = iteration.
Proof.
  unfold current_obligations. rewrite list_elem_of_In, filter_In, <- list_elem_of_In, andb_true_iff.
  by rewrite !String.eqb_eq.
Qed.

Lemma required_types_spec O iteration diff kind :
  kind ∈ required_types (current_obligations O iteration diff) <-> needs_review O iteration diff kind.
Proof.
  assert (forall k, obliged O k diff iteration <->
            exists r, r ∈ current_obligations O iteration diff /\ get 1 r = k) as Ho.
  { intros k. setoid_rewrite current_obligations_spec. unfold obliged. naive_solver. }
  unfold needs_review. setoid_rewrite Ho. clear Ho. unfold required_types.
  destruct (current_obligations O iteration diff) as [|r l] eqn:E.
  - rewrite elem_of_list_to_set. split; [|by intros [(r & Hr%elem_of_nil & _)|[? _]]].
    intros Hk. right. split; [done|]. by intros k (r & Hr%elem_of_nil & _).
  - rewrite elem_of_list_to_set, list_elem_of_In, in_map_iff. setoid_rewrite <- list_elem_of_In.
    split; [naive_solver|]. intros [|[_ Hno]]; [naive_solver|]. destruct (Hno (get 1 r)).
    exists r. split; [by left|done].
Qed.

Lemma eval_passing id diff rows fs u :
  eval (validate_passing id diff rows) fs = Ok u <->
  forall r, r ∈ rows -> get 7 r <> "" /\
    eval (validate_reviewer_evidence id (get 7 r) (get 1 r) "pass" diff) fs = Ok tt.
Proof.
  induction rows as [|r rows IH]; cbn [validate_passing].
  - destruct u. split; [by intros _ r ?%elem_of_nil|done].
  - rewrite eval_check_then, eval_then, IH, negb_true_iff, is_empty_false by readers.
    setoid_rewrite elem_of_cons. naive_solver.
Qed.

(** ** The completion gate *)

Definition todos_in (fs : gmap string string) (id : string) : list Row :=
  rows_of 15 fs (lfile dir id "todos.tsv").

(** The evidence an enforced lifecycle needs: no finding of a finished reviewer
    is missing from the table, no reviewer is at work, and every needed passing
    review is backed by the sealed message of its reviewer. *)
Definition evidence_complete (fs : gmap string string) (id iteration diff : string) : Prop :=
  eval (unrecorded_reviewer_findings id diff (reviews_in dir fs id)) fs = Ok []
  /\ eval active_reviewers fs = Ok []
  /\ forall kind r, needs_review (obligations_in dir fs id) iteration diff kind ->
       last_review (reviews_in dir fs id) iteration diff kind = Some r -> get 2 r = "pass" ->
       get 7 r <> "" /\ eval (validate_reviewer_evidence id (get 7 r) kind "pass" diff) fs = Ok tt.

Record completable (fs : gmap string string) (id : string) (st : gmap string string) : Prop := {
  c_id : id_ok id = true;
  c_state : state_in dir fs id = Some st;
  c_phase : state_value st "phase" = "post-implementation" \/ state_value st "phase" = "complete";
  c_todos : forall r, r ∈ todos_in fs id -> active (get 4 r) = false;
  c_diff : state_value st "candidate_diff_hash" <> "";
  c_findings : forall kind r,
    last_review (reviews_in dir fs id) (state_value st "iteration")
      (state_value st "candidate_diff_hash") kind = Some r -> get 2 r <> "findings";
  c_obligations : forall r, r ∈ obligations_in dir fs id ->
    get 3 r = state_value st "candidate_diff_hash" -> get 5 r = state_value st "iteration" ->
    get 6 r = "satisfied";
  c_passed : forall kind,
    needs_review (obligations_in dir fs id) (state_value st "iteration")
      (state_value st "candidate_diff_hash") kind ->
    exists r, last_review (reviews_in dir fs id) (state_value st "iteration")
                (state_value st "candidate_diff_hash") kind = Some r /\ get 2 r = "pass";
  c_evidence : reviewer_evidence_required = true ->
    evidence_complete fs id (state_value st "iteration") (state_value st "candidate_diff_hash");
  c_context : context_bound fs st
}.

Lemma filter_nil (f : Row -> string) (p : Row -> bool) (l : list Row) :
  bool_decide (map f (List.filter p l) = []) = true <-> forall r, r ∈ l -> p r = false.
Proof.
  rewrite bool_decide_eq_true. split.
  - intros He%map_eq_nil r Hr%list_elem_of_In. destruct (p r) eqn:Hp; [|done].
    destruct (in_nil (a := r)). rewrite <- He. by apply filter_In.
  - intros Hall. induction l as [|r l IH]; [done|]. simpl. rewrite Hall by (by left).
    apply IH. intros r' Hr'. apply Hall. by right.
Qed.

Lemma btree_nil (s : gset string) : bool_decide (btree_list s = []) = true <-> forall x, x ∉ s.
Proof.
  rewrite bool_decide_eq_true. setoid_rewrite <- btree_list_elem. split.
  - intros -> x. apply not_elem_of_nil.
  - intros Hno. destruct (btree_list s) as [|x l]; [done|]. destruct (Hno x). by left.
Qed.

Lemma missing_nil types (passed : gset string) :
  bool_decide (List.filter (fun kind => negb (bool_decide (kind ∈ passed))) (btree_list types) = []) = true
  <-> forall kind, kind ∈ types -> kind ∈ passed.
Proof.
  rewrite bool_decide_eq_true. setoid_rewrite <- (btree_list_elem types).
  induction (btree_list types) as [|k l IH]; simpl.
  - split; [by intros _ k ?%elem_of_nil|done].
  - setoid_rewrite elem_of_cons. case_bool_decide as Hk; simpl; [naive_solver|]. naive_solver.
Qed.

(** The evidence block of the gate. *)
Lemma eval_evidence id iteration diff fs :
  let R := reviews_in dir fs id in
  let types := required_types (current_obligations (obligations_in dir fs id) iteration diff) in
  eval (let! unrecorded := unrecorded_reviewer_findings id diff R in
        let! _ := check (bool_decide (unrecorded = []))
                    ("completion blocked by unrecorded reviewer findings: " +:+ join "," unrecorded) in
        let! unfinished := active_reviewers in
        let! _ := check (bool_decide (unfinished = []))
                    ("completion blocked by active reviewers: " +:+ join "," unfinished) in
        validate_passing id diff
          (List.filter (fun r => String.eqb (get 2 r) "pass" && bool_decide (get 1 r ∈ types))
             (btree_values (latest_reviews R iteration diff)))) fs = Ok tt
  <-> evidence_complete fs id iteration diff.
Proof.
  intros R types. unfold evidence_complete. fold R.
  rewrite eval_bind, rbind_ok by readers. setoid_rewrite eval_check_then.
  assert (forall a, eval (let! unfinished := active_reviewers in
        let! _ := check (bool_decide (unfinished = []))
                    ("completion blocked by active reviewers: " +:+ join "," unfinished) in a) fs = Ok tt
    <-> eval active_reviewers fs = Ok [] /\ eval a fs = Ok tt) as Hact.
  { intros a. rewrite eval_bind, rbind_ok by readers. setoid_rewrite eval_check_then.
    setoid_rewrite bool_decide_eq_true. naive_solver. }
  setoid_rewrite Hact. clear Hact. setoid_rewrite bool_decide_eq_true. setoid_rewrite eval_passing.
  assert (forall r, r ∈ List.filter (fun r => String.eqb (get 2 r) "pass" && bool_decide (get 1 r ∈ types))
             (btree_values (latest_reviews R iteration diff)) <->
          exists kind, needs_review (obligations_in dir fs id) iteration diff kind
            /\ last_review R iteration diff kind = Some r /\ get 2 r = "pass" /\ get 1 r = kind) as Hin.
  { intros r. rewrite list_elem_of_In, filter_In, <- list_elem_of_In, btree_values_spec.
    setoid_rewrite latest_reviews_lookup. rewrite andb_true_iff, String.eqb_eq, bool_decide_eq_true.
    unfold types. rewrite required_types_spec. split.
    - intros ((k & Hk) & Hp & Hn). destruct (last_review_in _ _ _ _ _ Hk) as (_ & H1 & _). subst. eauto.
    - intros (k & Hn & Hk & Hp & <-). eauto. }
  setoid_rewrite Hin. split.
  - intros (a & Ha & -> & Hact & Hall). split_and!; [done..|]. intros kind r Hn Hl Hp.
    destruct (last_review_in _ _ _ _ _ Hl) as (_ & H1 & _).
    destruct (Hall r) as [H7 He]; [by exists kind|]. by rewrite H1 in He.
  - intros (Hu & Hact & Hall). exists []. split_and!; [done..|].
    intros r (kind & Hn & Hl & Hp & <-). by apply (Hall (get 1 r)).
Qed.

(** Two unconditional reads at the head of a gate. *)
Lemma eval_rows_then {A} n p (k : list Row -> IO A) fs a :
  eval (bind (read_rows n p) k) fs = Ok a <-> eval (k (rows_of n fs p)) fs = Ok a.
Proof. rewrite eval_bind by readers. by rewrite eval_read_rows. Qed.

Lemma eval_open {A} id (k : Paths -> gmap string string -> IO A) fs a :
  eval (let! p := lift (paths id) in let! st := read_state (state p) id in k p st) fs = Ok a <->
  id_ok id = true /\ exists st, state_in dir fs id = Some st /\
    eval (k (lifecycle_paths dir id) st) fs = Ok a.
Proof.
  rewrite eval_bind, rbind_ok by readers. change (eval (lift (paths id)) fs) with (paths id).
  setoid_rewrite paths_ok. split.
  - intros (p & [Hid ->] & Hk). split; [done|].
    rewrite eval_bind, rbind_ok in Hk by readers. destruct Hk as (st & Hst & Hk).
    apply eval_read_state in Hst. eauto.
  - intros (Hid & st & Hst & Hk). eexists. split; [done|].
    rewrite eval_bind, rbind_ok by readers. exists st. split; [|done]. by apply eval_read_state.
Qed.

Lemma eval_final (b : bool) (m : IO unit) (s a : gmap string string) fs :
  reader m ->
  eval (let! _ := (if b then m else ret tt) in let! _ := validate_context s in ret s) fs = Ok a <->
  (b = true -> eval m fs = Ok tt) /\ context_bound fs s /\ s = a.
Proof.
  intros Hm. rewrite eval_then, eval_then, eval_context by (readers).
  unfold eval at 2. simpl. destruct b; simpl; naive_solver.
Qed.

Lemma eval_completion_state id fs st :
  eval (completion_state id) fs = Ok st <-> completable fs id st.
Proof.
  unfold completion_state. rewrite eval_open.
  setoid_rewrite eval_check_then. unfold read_todos, read_reviews, read_review_obligations.
  setoid_rewrite eval_rows_then. setoid_rewrite eval_check_then. setoid_rewrite eval_check_then.
  setoid_rewrite eval_rows_then. setoid_rewrite eval_check_then. setoid_rewrite eval_rows_then.
  setoid_rewrite eval_check_then. setoid_rewrite eval_check_then.
  setoid_rewrite eval_final; [|readers].
  change (todos (lifecycle_paths dir id)) with (lfile dir id "todos.tsv").
  change (reviews (lifecycle_paths dir id)) with (lfile dir id "reviews.tsv").
  change (review_obligations (lifecycle_paths dir id)) with (lfile dir id "review-obligations.tsv").
  fold (todos_in fs id) (reviews_in dir fs id) (obligations_in dir fs id).
  setoid_rewrite eval_evidence. setoid_rewrite filter_nil.
  setoid_rewrite btree_nil. setoid_rewrite missing_nil. setoid_rewrite with_verdict_spec.
  setoid_rewrite required_types_spec.
  setoid_rewrite current_obligations_spec. setoid_rewrite negb_true_iff. setoid_rewrite negb_false_iff.
  setoid_rewrite is_empty_false.
  split.
  - intros (Hid & s & Hs & Hp & Ht & Hd & Hf & Ho & Hr & He & Hc & <-). split; try assumption.
    + apply orb_true_iff in Hp. by rewrite !String.eqb_eq in Hp.
    + intros kind r Hl H2. apply (Hf kind). by exists r.
    + intros r Hin H3 H5. apply String.eqb_eq. by apply Ho.
  - intros [Hid Hs Hp Ht Hd Hf Ho Hr He Hc]. split; [done|]. exists st. split_and!; try assumption; [..|done].
    + apply orb_true_iff. by rewrite !String.eqb_eq.
    + intros kind (r & Hl & H2). by apply (Hf kind r).
    + intros r (Hin & H3 & H5). apply String.eqb_eq. by apply Ho.
Qed.

(** ** The implementation gate *)

Record implementable (allow_pre : bool) (plan : string) (fs : gmap string string) (id : string)
  (st : gmap string string) : Prop := {
  i_id : id_ok id = true;
  i_state : state_in dir fs id = Some st;
  i_phase : state_value st "phase" = "implementation"
            \/ allow_pre = true /\ state_value st "phase" = "pre-implementation";
  i_passed : state_value st "preimplementation_gate" = "passed";
  i_context : context_bound fs st;
  i_todos : forall r, r ∈ todos_in fs id -> active (get 4 r) = true ->
    get 1 r <> "evidence" /\ get 1 r <> "decision";
  i_plan : plan = "" \/ plan = state_value st "iteration_plan_sha256"
}.

Lemma blocking_todo_false r :
  blocking_todo r = false <-> (active (get 4 r) = true -> get 1 r <> "evidence" /\ get 1 r <> "decision").
Proof.
  unfold blocking_todo. destruct (active (get 4 r)); [|split; done]. simpl.
  destruct (String.eqb_spec (get 1 r) "evidence"), (String.eqb_spec (get 1 r) "decision"); simpl; naive_solver.
Qed.

Lemma eval_implementation_gate id plan allow_pre fs st :
  eval (implementation_gate_state id plan allow_pre) fs = Ok st <-> implementable allow_pre plan fs id st.
Proof.
  unfold implementation_gate_state. rewrite eval_open. setoid_rewrite eval_check_then.
  setoid_rewrite eval_check_then. setoid_rewrite eval_then; [|readers]. setoid_rewrite eval_context.
  unfold read_todos. setoid_rewrite eval_rows_then. setoid_rewrite eval_check_then.
  setoid_rewrite eval_check_then. change (todos (lifecycle_paths dir id)) with (lfile dir id "todos.tsv").
  fold (todos_in fs id). setoid_rewrite filter_nil. setoid_rewrite blocking_todo_false. split.
  - intros (Hid & s & Hs & Hp & Hg & Hc & Ht & Hpl & [= <-]).
    rewrite orb_true_iff, andb_true_iff, !String.eqb_eq in Hp. apply String.eqb_eq in Hg.
    rewrite orb_true_iff, is_empty_true, String.eqb_eq in Hpl. by split.
  - intros [Hid Hs Hp Hg Hc Ht Hpl]. split; [done|]. exists st.
    rewrite !orb_true_iff, andb_true_iff, is_empty_true, !String.eqb_eq. done.
Qed.

(** ** Reviewer evidence *)

(** The sealed message of a read-only reviewer that carries the marker of this
    verdict. In a secure installation the evidence is sealed for the workflow;
    otherwise the reviewer has been finalized. *)
Definition sealed_verdict (fs : gmap string string) (id reviewer kind verdict diff : string) : Prop :=
  let d := path_join (path_join dir (if secure_reviewer_evidence then "reviewer-evidence"
                                     else "subagents")) reviewer in
  let metadata := unwrap_or (parse_env <$> fs !! path_join d evidence_file) ∅ in
  id_ok reviewer = true
  /\ state_value metadata "role" = "reviewer"
  /\ state_value metadata access_key = "read-only"
  /\ (if secure_reviewer_evidence
      then state_value metadata "state" = "completed" /\ state_value metadata "workflow_id" = id
      else finalized fs d = true)
  /\ exists message line, fs !! path_join d "last-message.txt" = Some message
     /\ In line (lines message) /\ review_marker_matches line (review_marker kind verdict diff) = true.

Lemma eval_read_env_optional p fs :
  eval (read_env_optional p) fs = Ok (unwrap_or (parse_env <$> fs !! p) ∅).
Proof. unfold read_env_optional, eval, bind, get_files. simpl. by destruct (fs !! p). Qed.

Lemma evidence_sound fs id reviewer kind verdict diff u :
  eval (validate_reviewer_evidence id reviewer kind verdict diff) fs = Ok u ->
  sealed_verdict fs id reviewer kind verdict diff.
Proof.
  unfold validate_reviewer_evidence, check_marker. rewrite Hdir. intros Hev. unfold sealed_verdict.
  rewrite eval_bind in Hev by readers. simpl in Hev.
  rewrite eval_bind in Hev by readers. apply rbind_ok in Hev as (v & Hid%valid_id_ok & Hev).
  rewrite eval_bind, eval_read_env_optional in Hev by readers. simpl in Hev.
  apply eval_check_then in Hev as [Hrole Hev]. apply andb_true_iff in Hrole as [Hr Ha].
  apply String.eqb_eq in Hr, Ha.
  rewrite eval_bind in Hev by readers. change (eval get_files fs) with (@Ok string _ fs) in Hev. simpl in Hev.
  apply eval_then in Hev as [Hseal Hev]; [|readers].
  rewrite eval_bind in Hev by readers. apply rbind_ok in Hev as (message & Hm & Hev).
  apply eval_check_then in Hev as [Hmark _].
  split_and!; try done.
  - destruct secure_reviewer_evidence.
    + rewrite eval_check, guard_ok, andb_true_iff, !String.eqb_eq in Hseal. done.
    + apply eval_check_then in Hseal as [_ Hfin]. by rewrite eval_check, guard_ok in Hfin.
  - apply existsb_exists in Hmark as (line & Hin & Hmatch). exists message, line. split_and!; try done.
    by apply ok_or_ok in Hm.
Qed.

End Gates.
