(* ===== verification/AssignmentsProps.v ===== *)
(** * AssignmentsProps: active assignments own disjoint paths *)

From S2P Require Import Prelude Text State Json LogModel Config Execution Dag Lifecycle Snapshot Findings FinalGate.
From S2P Require Import FinalGateFacts FindingsFacts Policy PolicyProps Safety Leases LeasesProps Assignments Instances.
From S2P Require Import LifecycleFacts LifecycleGates.

(** ** Overlap by components *)

Lemma split_ne c s : split c s <> [].
Proof. destruct s as [|a s]; cbn [split]; [done|]. destruct (Ascii.eqb a c); [done|]. by destruct (split c s). Qed.
Lemma join_split c s : join (String c "") (split c s) = s.
Proof.
  induction s as [|a s IH]; [done|]. cbn [split]. destruct (Ascii.eqb a c) eqn:E.
  - apply Ascii.eqb_eq in E as ->. pose proof (split_ne c s). destruct (split c s) as [|x l]; [done|].
    change (join (String c "") ("" :: x :: l)) with ("" +:+ String c "" +:+ join (String c "") (x :: l)). by rewrite IH.
  - pose proof (split_ne c s). destruct (split c s) as [|x l]; [done|]. destruct l; simpl in *; by rewrite <- IH.
Qed.

Lemma split_concat c s r : split c (s +:+ String c r) = split c s ++ split c r.
Proof.
  induction s as [|a s IH]; cbn [String.append split]; [by rewrite Ascii.eqb_refl|]. destruct (Ascii.eqb a c); [by rewrite IH|].
  rewrite IH. pose proof (split_ne c s). by destruct (split c s).
Qed.
Lemma join_concat sep l k : l <> [] -> k <> [] -> join sep (l ++ k) = join sep l +:+ sep +:+ join sep k.
Proof.
  intros Hl Hk. induction l as [|x l IH]; [done|]. destruct l as [|y l].
  - by destruct k.
  - cbn [app] in *. change (join sep (x :: y :: l ++ k)) with (x +:+ sep +:+ join sep (y :: l ++ k)).
    change (join sep (x :: y :: l)) with (x +:+ sep +:+ join sep (y :: l)). rewrite IH by done. by rewrite !str_app_assoc.
Qed.

(** The components of one path are the first components of the other. *)
Definition overlapping (p q : string) : Prop :=
  split "/" p `prefix_of` split "/" q \/ split "/" q `prefix_of` split "/" p.

Lemma below_iff path base :
  String.eqb path base || below path base = true <-> split "/" base `prefix_of` split "/" path.
Proof.
  rewrite orb_true_iff, String.eqb_eq. unfold below. split.
  - intros [->|Hb]; [done|]. destruct (strip_prefix base path) as [suffix|] eqn:E; [|done].
    apply strip_prefix_some in E as ->. apply starts_with_spec in Hb as [rest ->]. exists (split "/" rest). apply split_concat.
  - intros [rest Hrest]. destruct rest as [|x rest].
    + left. rewrite app_nil_r in Hrest. rewrite <- (join_split "/" path), <- (join_split "/" base). by rewrite Hrest.
    + right. assert (path = base +:+ String "/" (join "/" (x :: rest))) as ->.
      { rewrite <- (join_split "/" path), Hrest. rewrite <- (join_split "/" base) at 2.
        apply join_concat; [apply split_ne|done]. }
      rewrite strip_prefix_app. by apply starts_with_spec; eexists.
Qed.

Lemma paths_overlap_iff p q : paths_overlap p q = true <-> overlapping p q.
Proof.
  unfold overlapping. rewrite <- !below_iff. unfold paths_overlap. rewrite (String.eqb_sym q p).
  destruct (String.eqb p q), (below p q), (below q p); simpl; naive_solver.
Qed.

Section Props.
Context `{Platform} `{Git} `{Resolver}.
Implicit Types (fs : gmap string string).

(** ** Who owns what *)

(** The active assignment of [agent], of a writing role, owns [path]. *)
Definition owns fs (base agent path : string) : Prop :=
  has_char "/" agent = false
  /\ terminal (trim (file_or fs (path_join (path_join base agent) "status") "unknown")) = false
  /\ (exists text, fs !! path_join (path_join base agent) "assignment.env" = Some text
        /\ read_only_role (state_value (parse_env text) "role") = false)
  /\ path ∈ nonempty_lines (file_or fs (path_join (path_join base agent) "owned-paths") "").

(** Two agents never own paths of which one contains the other. *)
Definition disjoint (base : string) fs : Prop :=
  forall a b p q, owns fs base a p -> owns fs base b q -> overlapping p q -> a = b.

Lemma owns_same base id fs fs' a p : same_but base id fs fs' -> a <> id -> owns fs' base a p <-> owns fs base a p.
Proof.
  intros Hs Hne. unfold owns, file_or. destruct (has_char "/" a) eqn:Ha; [naive_solver|]. by rewrite !Hs.
Qed.

(** ** The check for overlaps *)

Lemma overlap_none new existing p q :
  overlap new existing = None -> p ∈ new -> q ∈ existing -> ~ overlapping p q.
Proof.
  intros Hn Hp Hq Ho%paths_overlap_iff. unfold overlap in Hn.
  assert ((p, q) ∈ concat (map (fun path => map (pair path) (List.filter (paths_overlap path) existing)) new)) as Hin.
  { apply list_elem_of_In, in_concat. exists (map (pair p) (List.filter (paths_overlap p) existing)).
    split; [apply in_map_iff; exists p; split; [done|by apply list_elem_of_In]|].
    apply in_map, filter_In. split; [by apply list_elem_of_In|done]. }
  by destruct (concat _); [apply not_elem_of_nil in Hin|].
Qed.

Lemma reader_overlap base agent new names : reader (reject_overlap_in base agent new names).
Proof. induction names as [|a names IH]; cbn [reject_overlap_in]; readers. Qed.

Lemma overlap_rejected base agent new names fs u :
  eval (reject_overlap_in base agent new names) fs = Ok u ->
  forall a p q, a ∈ names -> a <> agent -> p ∈ new -> owns fs base a q -> ~ overlapping p q.
Proof.
  induction names as [|b names IH]; cbn [reject_overlap_in]; [set_solver|]. intros Hev.
  pose proof (reader_overlap base agent new names) as Hr.
  assert ((b <> agent -> forall p q, p ∈ new -> owns fs base b q -> ~ overlapping p q)
          /\ eval (reject_overlap_in base agent new names) fs = Ok u) as [Hb Hrest].
  { destruct (String.eqb_spec b agent) as [|Hne]; [done|].
    rewrite eval_bind in Hev by readers. apply rbind_ok in Hev as (st & ->%eval_read_or & Hev).
    destruct (terminal (trim _)) eqn:Et; [split; [intros _ p q _ (_ & Ht & _); congruence|done]|].
    rewrite eval_bind in Hev by readers. apply rbind_ok in Hev as (m & (t & Hm & ->)%eval_read_env & Hev).
    destruct (read_only_role _) eqn:Er.
    { split; [intros _ p q _ (_ & _ & (t' & Ht' & Hro) & _); congruence|done]. }
    rewrite eval_bind in Hev by readers. apply rbind_ok in Hev as (txt & ->%eval_read_or & Hev).
    destruct (overlap _ _) as [[l r]|] eqn:Eo; [done|]. split; [|done].
    intros _ p q Hp (_ & _ & _ & Hq). by eapply overlap_none. }
  intros a p q [->|Ha]%elem_of_cons; [by intros; eapply Hb|]. by apply IH.
Qed.

Lemma nonempty_unlines l p : forallb clean l = true -> p ∈ nonempty_lines (unlines l) -> p ∈ l.
Proof.
  intros Hc Hp. unfold nonempty_lines in Hp. rewrite lines_unlines in Hp by done.
  by apply list_elem_of_In, filter_In in Hp as [Hp%list_elem_of_In _].
Qed.

(** Writing an assignment whose paths no other assignment overlaps. *)
Lemma write_assignment_disjoint base agent metadata paths status fs :
  has_char "/" agent = false -> forallb clean paths = true ->
  (read_only_role (state_value (parse_env metadata) "role") = false ->
     forall a p q, a <> agent -> p ∈ paths -> owns fs base a q -> ~ overlapping p q) ->
  disjoint base fs ->
  ok_wp (write_assignment (path_join base agent) metadata (unlines paths) status) (fun _ fs' => disjoint base fs') fs.
Proof.
  intros Hid Hclean Hnone Hd. unfold write_assignment. do 3 ok_step. set (fs' := <[_ := _]> _).
  assert (same_but base agent fs fs') as Hs.
  { unfold fs'. do 2 (eapply same_but_trans; [|by apply same_but_entry]). by apply same_but_entry. }
  assert (forall p, owns fs' base agent p -> read_only_role (state_value (parse_env metadata) "role") = false /\ p ∈ paths)
    as Hown.
  { intros p (_ & _ & (t & Ht & Hro) & Hp). unfold fs', file_or in Ht, Hp.
    rewrite !lookup_insert_ne, lookup_insert_eq in Ht by other_file. injection Ht as <-.
    rewrite lookup_insert_ne, lookup_insert_eq in Hp by other_file. split; [done|]. by eapply nonempty_unlines. }
  intros a b p q Ha Hb Ho. destruct (decide (a = agent)) as [->|Hna], (decide (b = agent)) as [->|Hnb]; [done|..].
  - destruct (Hown p Ha) as [Hro Hp]. rewrite (owns_same base agent fs fs') in Hb by done.
    by destruct (Hnone Hro b p q Hnb Hp Hb).
  - destruct (Hown q Hb) as [Hro Hq]. rewrite (owns_same base agent fs fs') in Ha by done.
    destruct (Hnone Hro a q p Hna Hq Ha). unfold overlapping in *. tauto.
  - rewrite (owns_same base agent fs fs') in Ha, Hb by done. by apply (Hd a b p q).
Qed.

(** ** Creating an assignment *)

Definition one_line (s : string) : bool := negb (has_char nl s).
Definition on_ok {A} (r : result string A) (f : A -> bool) : bool := match r with Ok a => f a | Err _ => true end.

(** Arguments, the environment and the answers of the system without line
    breaks: the fields of [assignment.env] and the owned paths are written one
    to a line and the command does not look for breaks in them. *)
Definition plain (dir : string) (args : list string) fs : bool :=
  let fs1 := <[assignments_dir dir +:+ "/" := ""]> fs in
  forallb one_line args
  && forallb (fun k => one_line (unwrap_or (env_var k) ""))
       ["WORKER_CLI"; "SUBAGENT_CLI"; "VERIFIER_CLI"; "MULTIAGENT_WORKFLOW_ID"]
  && on_ok root (fun named => on_ok (ok_or (resolve fs named) "") (fun r => one_line r
       && on_ok (parse_assignment args) (fun o =>
            on_ok (resolve_commit r (start_commit o) fs1) one_line
            && on_ok (normalize_all fs1 r (owned_values (owned o))) (fun ps => forallb clean (btree_list ps))))).

Lemma assignment_options_lines values owned args values' owned' :
  assignment_options values owned args = Ok (values', owned') ->
  forallb one_line args = true -> (forall k, one_line (unwrap_or (values !! k) "") = true) ->
  forall k, one_line (unwrap_or (values' !! k) "") = true.
Proof.
  remember (length args) as n eqn:Hn. assert (length args <= n)%nat as Hle by lia. clear Hn. revert args values owned Hle.
  induction n as [|n IH]; intros [|key [|value rest]] values owned Hle; cbn [assignment_options length] in *;
    try lia; try done; [by intros [= <- <-]..|].
  cbn [forallb]. rewrite !andb_true_iff. intros Hp (Hk & Hv & Hr) Hm.
  destruct (String.eqb key "--owned"); [eapply IH; [|exact Hp|done|done]; lia|].
  destruct (mem key ASSIGNMENT_KEYS); [|done]. eapply IH; [|exact Hp|done|]; [lia|]. intros k.
  destruct (decide (key = k)) as [<-|Hne]; [by rewrite lookup_insert_eq|by rewrite lookup_insert_ne].
Qed.

(** The fields that go to the file. *)
Definition option_fields (o : AssignmentOptions) : list string :=
  [name o; assignment o; branch o; decision_id o; plan_id o; workflow o; node_id o; depends o].
Lemma parse_assignment_lines args o :
  parse_assignment args = Ok o -> forallb one_line args = true -> forallb one_line (option_fields o) = true.
Proof.
  unfold parse_assignment. intros Hp Ha. apply rbind_ok in Hp as ([id rest] & Hfirst & Hp). cbn [fst snd] in Hp.
  apply first_arg_ok in Hfirst as [-> _]. apply rbind_ok in Hp as ([values groups] & Hv & Hp). cbn [fst snd] in Hp.
  cbn [forallb] in Ha. apply andb_true_iff in Ha as [Hid Ha].
  pose proof (assignment_options_lines _ _ _ _ _ Hv Ha ltac:(intros k; by rewrite lookup_empty)) as Hall.
  apply rbind_ok in Hp as (aid & Haid & Hp). apply rbind_ok in Hp as (br & Hbr & Hp). injection Hp as <-.
  destruct (is_empty (unwrap_or (values !! "--assignment-id") "")); [done|]. injection Haid as <-.
  destruct (is_empty (unwrap_or (values !! "--branch") "")); [done|]. injection Hbr as <-.
  unfold option_fields. cbn [forallb name assignment branch decision_id plan_id workflow node_id depends].
  by rewrite Hid, !Hall.
Qed.

Lemma metadata_role o r start now workflow_id context :
  forallb one_line (option_fields o) = true ->
  forallb (fun k => one_line (unwrap_or (env_var k) "")) ["WORKER_CLI"; "SUBAGENT_CLI"; "VERIFIER_CLI"] = true ->
  one_line r = true -> one_line start = true -> one_line now = true -> one_line workflow_id = true ->
  (forall st, context = Some st -> exists text, st = parse_env text) ->
  mem (role o) ASSIGNMENT_ROLES = true ->
  state_value (parse_env (print_env (assignment_metadata o r start now workflow_id context))) "role" = role o.
Proof.
  intros Ho He Hr Hs Hn Hw Hc Hrole.
  assert (has_char nl (role o) = false /\ has_char cr (role o) = false) as [Hrn Hrc].
  { unfold mem in Hrole. apply existsb_exists in Hrole as (x & Hin & Heq). apply String.eqb_eq in Heq as ->.
    cbn in Hin. repeat destruct Hin as [<-|Hin]; [by split..|destruct Hin]. }
  assert (forall key, has_char nl (match context with Some st => state_value st key | None => "" end) = false) as Hctx.
  { intros key. destruct context as [st|]; [|done]. destruct (Hc st eq_refl) as [text ->]. apply parse_env_no_nl. }
  assert (forall k d, k ∈ ["WORKER_CLI"; "SUBAGENT_CLI"; "VERIFIER_CLI"] -> has_char nl d = false ->
            has_char nl (unwrap_or (env_var k) d) = false) as Henv.
  { intros k d Hk Hd. rewrite forallb_forall in He. apply list_elem_of_In, He in Hk. unfold one_line in Hk.
    destruct (env_var k); [by apply negb_true_iff|done]. }
  apply parse_env_weak_value; [|nodup_keys| |done].
  - unfold option_fields, one_line in *. cbn [forallb] in Ho. bool_hyps. apply env_weak_all; [reflexivity|].
    repeat constructor; cbn [snd]; try done; repeat (apply Henv; [set_solver|]); done.
  - unfold assignment_metadata. apply elem_of_app. left. set_solver.
Qed.

Lemma owns_dir base d t fs a p : owns (<[d +:+ "/" := t]> fs) base a p <-> owns fs base a p.
Proof.
  apply (owns_same base (a +:+ "x")); [apply same_but_dir|]. intros Heq. apply (f_equal String.length) in Heq.
  rewrite str_length_app in Heq. simpl in Heq. lia.
Qed.
Lemma disjoint_dir base d t fs : disjoint base fs -> disjoint base (<[d +:+ "/" := t]> fs).
Proof. intros Hd a b p q Ha Hb. rewrite owns_dir in Ha, Hb. by apply (Hd a b p q). Qed.

Lemma context_parsed dir id fs st :
  state_dir = Ok dir -> eval (assignment_context id) fs = Ok st -> exists text, st = parse_env text.
Proof.
  intros Hdir Hev. apply (eval_implementation_gate dir Hdir) in Hev as [_ Hs _ _ _ _ _]. unfold state_in in Hs.
  apply fmap_Some in Hs as (text & _ & ->). eauto.
Qed.

Lemma plain_facts dir args fs named r o ps :
  let fs1 := <[assignments_dir dir +:+ "/" := ""]> fs in
  plain dir args fs = true -> root = Ok named -> resolve fs named = Some r -> parse_assignment args = Ok o ->
  normalize_all fs1 r (owned_values (owned o)) = Ok ps ->
  forallb one_line (option_fields o) = true
  /\ forallb (fun k => one_line (unwrap_or (env_var k) "")) ["WORKER_CLI"; "SUBAGENT_CLI"; "VERIFIER_CLI"] = true
  /\ one_line (unwrap_or (env_var "MULTIAGENT_WORKFLOW_ID") "") = true /\ one_line r = true
  /\ (forall c, resolve_commit r (start_commit o) fs1 = Ok c -> one_line c = true)
  /\ forallb clean (btree_list ps) = true.
Proof.
  intros fs1 Hplain Hroot Hr Hparse Howned. unfold plain in Hplain. fold fs1 in Hplain.
  rewrite Hroot in Hplain. cbn [on_ok] in Hplain. rewrite Hr, Hparse in Hplain. cbn [ok_or on_ok] in Hplain.
  rewrite Howned in Hplain. cbn [on_ok] in Hplain.
  apply andb_true_iff in Hplain as [[Hargs Henv]%andb_true_iff [Hl [Hc Hps]%andb_true_iff]%andb_true_iff].
  split; [by eapply parse_assignment_lines|]. cbn [forallb] in Henv |- *.
  repeat (let He := fresh "He" in apply andb_true_iff in Henv as [He Henv]; rewrite He).
  split_and!; [done..| |done]. intros c Hres. by rewrite Hres in Hc.
Qed.

(** Passing the check for overlaps. *)
Lemma ok_reject_overlap base agent new_role new fs (Q : unit -> gmap string string -> Prop) :
  ((read_only_role new_role = false ->
      forall a p q, a <> agent -> p ∈ new -> owns fs base a q -> ~ overlapping p q) -> Q tt fs) ->
  ok_wp (reject_overlap base agent new_role new) Q fs.
Proof.
  intros HQ. unfold reject_overlap. destruct (read_only_role new_role); [by apply ok_ret, HQ|].
  ok_step. apply ok_reader; [apply reader_overlap|]. intros [] Hev. apply HQ. intros _ a p q Hne Hp Ho.
  eapply overlap_rejected; [exact Hev| |done..|exact Ho]. destruct Ho as (Hs & _ & (t & Ht & _) & _).
  eapply subdirectories_file; [done|]. eauto.
Qed.


(** ** Checking an assignment *)

Lemma owns_path_iff owned path :
  owns_path owned path = true <-> exists base, base ∈ owned /\ split "/" base `prefix_of` split "/" path.
Proof.
  unfold owns_path. rewrite existsb_exists. setoid_rewrite below_iff. by setoid_rewrite list_elem_of_In.
Qed.

(** What the check accepts in the files [fs]. *)
Definition accepted (args : list string) fs : Prop :=
  exists agent dir text named r current changed paths,
    one_agent "assignment-check" args = Ok agent /\ assignment_dir agent = Ok dir
    /\ fs !! path_join dir "assignment.env" = Some text /\ root = Ok named /\ resolve fs named = Some r
    /\ git_output r ["rev-parse"; "--abbrev-ref"; "HEAD"] fs = Ok current
    /\ changed_by r (CHANGE_QUERIES (state_value (parse_env text) "start_commit")) fs = Ok changed
    /\ fs !! path_join dir "owned-paths" = Some paths
    /\ current = state_value (parse_env text) "branch"
    /\ forall path, path ∈ changed ->
         exists base, base ∈ nonempty_lines paths /\ split "/" base `prefix_of` split "/" path.

Lemma teller_check args : teller (assignment_check args).
Proof. unfold assignment_check, require_assignment, canonical_repo_root. tellers. Qed.

Lemma require_assignment_ok agent fs dir :
  eval (require_assignment agent) fs = Ok dir <->
  assignment_dir agent = Ok dir /\ is_Some (fs !! path_join dir "assignment.env").
Proof.
  unfold require_assignment. rewrite tell_ok by tellers. change (eval (lift ?r) _) with r. split.
  - intros (d & Hd & Hev). apply tell_ok in Hev as (known & [= <-] & Hev); [|tellers..].
    apply tell_check in Hev as [Hk [= <-]]; [|tellers]. by apply bool_decide_eq_true in Hk.
  - intros [Hd Hk]. exists dir. split; [done|]. apply tell_ok; [tellers..|]. eexists. split; [reflexivity|].
    apply tell_check; [tellers|]. split; [by apply bool_decide_eq_true|done].
Qed.
Lemma canonical_repo_root_ok fs r :
  eval canonical_repo_root fs = Ok r <-> exists named, root = Ok named /\ resolve fs named = Some r.
Proof.
  unfold canonical_repo_root. rewrite tell_ok by tellers. change (eval (lift ?r) _) with r.
  split; intros (named & Hn & Hr); exists named; (split; [done|]).
  - apply tell_ok in Hr as (fs' & [= <-] & Hr); [|tellers..]. by apply ok_or_ok in Hr.
  - apply tell_ok; [tellers..|]. exists fs. split; [done|]. by apply ok_or_ok.
Qed.

Lemma teller_require agent : teller (require_assignment agent).
Proof. unfold require_assignment. tellers. Qed.
Lemma teller_root : teller canonical_repo_root.
Proof. unfold canonical_repo_root. tellers. Qed.
#[local] Hint Resolve teller_require teller_root : tellers.

(** The assignment check decides the assignment. It succeeds exactly when
    the branch is the assigned one and every path changed since the start
    commit, staged, unstaged or untracked, is an owned path or lies below one by
    components; it never changes a file. *)
Theorem assignment_check_exact args w :
  ((assignment_check args w).1 = Ok tt <-> accepted args (files w))
  /\ files (assignment_check args w).2 = files w.
Proof.
  destruct (teller_check args w) as [-> Hf]. split; [|exact Hf]. clear Hf. generalize (files w). intros fs.
  unfold assignment_check. split.
  - intros Hev. apply tell_ok in Hev as (agent & Hagent & Hev); [|tellers..].
    apply tell_ok in Hev as (dir & [Hdir _]%require_assignment_ok & Hev); [|tellers..].
    apply tell_ok in Hev as (m & (text & Htext & ->)%eval_read_env & Hev); [|tellers..].
    apply tell_ok in Hev as (r & (named & Hnamed & Hr)%canonical_repo_root_ok & Hev); [|tellers..].
    apply tell_ok in Hev as (fs' & [= <-] & Hev); [|tellers..]. apply tell_ok in Hev as (current & Hcur & Hev); [|tellers..].
    do 3 (apply tell_ok in Hev as (? & _ & Hev); [|tellers..]).
    apply tell_ok in Hev as (changed & Hchanged & Hev); [|tellers..].
    apply tell_ok in Hev as (paths & Hpaths & Hev); [|tellers..]. apply ok_or_ok in Hpaths.
    apply tell_ok in Hev as (? & _ & Hev); [|tellers..]. apply tell_check in Hev as [Hc _]; [|tellers].
    apply andb_true_iff in Hc as [Hb%String.eqb_eq Hall]. rewrite forallb_forall in Hall.
    exists agent, dir, text, named, r, current, changed, paths. do 9 (split; [done|]). intros path Hpath.
    apply owns_path_iff, Hall, list_elem_of_In. by apply btree_list_elem.
  - intros (agent & dir & text & named & r & current & changed & paths & Hagent & Hdir & Htext & Hnamed & Hr & Hcur
      & Hchanged & Hpaths & Hb & Hall).
    apply tell_ok; [tellers..|]. exists agent. split; [exact Hagent|].
    apply tell_ok; [tellers..|]. exists dir. split; [apply require_assignment_ok; eauto|].
    apply tell_ok; [tellers..|]. exists (parse_env text). split; [apply eval_read_env; eauto|].
    apply tell_ok; [tellers..|]. exists r. split; [apply canonical_repo_root_ok; eauto|].
    apply tell_ok; [tellers..|]. exists fs. split; [done|]. apply tell_ok; [tellers..|]. exists current. split; [done|].
    do 2 (apply tell_ok; [tellers..|]; exists tt; split; [done|]). apply tell_ok; [tellers..|]. exists tt.
    split; [by destruct (String.eqb _ _)|].
    apply tell_ok; [tellers..|]. exists changed. split; [done|].
    apply tell_ok; [tellers..|]. exists paths. split; [by apply ok_or_ok|].
    apply tell_ok; [tellers..|]. exists tt. split; [case_bool_decide; [done|apply eval_println_all]|].
    apply tell_check; [tellers|]. split; [|done]. rewrite Hb, String.eqb_refl. apply forallb_forall.
    intros path Hpath. apply owns_path_iff, Hall, btree_list_elem. by apply list_elem_of_In.
Qed.

End Props.

(** ** Concrete stores *)

Module AssignmentsWitness.

#[local] Instance platform : Platform := toy_platform (fun _ => None) 0.
#[local] Instance clock : ClockClean := toy_clock_clean (fun _ => None) 0.
#[local] Instance resolver : Resolver := PolicyWitness.resolver.
#[local] Instance repository : Git := fun args _ =>
  Ok (mkOutput (Some 0) (if mem "--abbrev-ref" args then "main" +:+ newline else "") "").

Definition dir : string := "/work/.multiagent".
Definition base : string := assignments_dir dir.
Definition start : World := mkWorld {["/work/src/a.rs" := ""]} [] 0 [].
Definition create_args (agent owned : string) (more : list string) : list string :=
  [agent; "--assignment-id"; "a1"; "--branch"; "main"; "--owned"; owned] ++ more.

Lemma start_disjoint : disjoint base (files start).
Proof.
  intros a b p q (_ & _ & (t & Ht & _) & _). exfalso. revert Ht. cbn [files start].
  rewrite lookup_singleton_ne; [done|]. unfold path_join, base, assignments_dir, dir. done.
Qed.

Definition owned_src : World := Eval vm_compute in (assignment_create (create_args "w1" "src/a.rs" []) start).2.
(** A second writer of the directory is refused, a scout is not. *)
Example overlap_refused :
  (assignment_create (create_args "w2" "src" []) owned_src).1
    = Err "active assignment owned-path overlap: new=w2 path=src existing=w1 status=assigned existing_path=src/a.rs"
  /\ (assignment_create (create_args "w2" "src" ["--role"; "scout"]) owned_src).1 = Ok tt
  /\ (assignment_create (create_args "w2" "src/a.rs2" []) owned_src).1 = Ok tt
  /\ (assignment_check ["w1"] owned_src).1 = Ok tt.
Proof. vm_compute. done. Qed.

Lemma owns_dec fs agent path :
  negb (has_char "/" agent)
  && negb (terminal (trim (file_or fs (path_join (path_join base agent) "status") "unknown")))
  && bool_decide ((fun text => read_only_role (state_value (parse_env text) "role"))
                    <$> fs !! path_join (path_join base agent) "assignment.env" = Some false)
  && mem path (nonempty_lines (file_or fs (path_join (path_join base agent) "owned-paths") "")) = true ->
  owns fs base agent path.
Proof.
  rewrite !andb_true_iff, !negb_true_iff, bool_decide_eq_true. intros [[[Hs Ht] (t & Hf & Hr)%fmap_Some] Hm].
  split; [done|]. split; [done|]. split; [eauto|]. unfold mem in Hm. apply existsb_exists in Hm as (x & Hx & Heq).
  apply String.eqb_eq in Heq as ->. by apply list_elem_of_In.
Qed.

Ltac not_disjoint a p b q :=
  intros Hd; assert (a = b) as Heq; [|discriminate Heq];
  apply (Hd a b p q); [apply owns_dec; vm_compute; reflexivity..|apply paths_overlap_iff; vm_compute; reflexivity].

(** A line break in an owned path: the path is compared as a whole but written
    as two, and the second overlaps an active assignment. *)
Theorem owned_line_break :
  let out := assignment_create (create_args "w2" ("docs/x" +:+ newline +:+ "src/a.rs") []) owned_src in
  out.1 = Ok tt /\ ~ disjoint base (files out.2).
Proof. split; [vm_compute; reflexivity|not_disjoint "w1" "src/a.rs" "w2" "src/a.rs"]. Qed.

(** A line break in another field: an assignment for a writer reads back as one
    of a scout, and later assignments are not compared with it. *)
Theorem role_line_break :
  let w1 := (assignment_create (create_args "w1" "src/a.rs" ["--decision-id"; "d" +:+ newline +:+ "role=scout"]) start).2 in
  let out := assignment_create (create_args "w2" "src" []) w1 in
  (assignment_create (create_args "w1" "src/a.rs" ["--decision-id"; "d" +:+ newline +:+ "role=scout"]) start).1 = Ok tt
  /\ out.1 = Ok tt.
Proof. vm_compute. done. Qed.

(** An assignment that ended can be made active again without a check. *)
Theorem assignment_reactivated :
  let w1 := (assignment_status ["w1"; "done"] owned_src).2 in
  let w2 := (assignment_create (create_args "w2" "src" []) w1).2 in
  let out := assignment_status ["w1"; "assigned"] w2 in
  out.1 = Ok tt /\ ~ disjoint base (files out.2).
Proof. split; [vm_compute; reflexivity|not_disjoint "w1" "src/a.rs" "w2" "src"]. Qed.

(** A creation that stops after its directory was made blocks every later one:
    the directory has no metadata to read. *)
Theorem assignment_torn :
  let w1 := (assignment_create (create_args "w1" "src/a.rs" []) (mkWorld (files start) [false; false; true] 0 [])).2 in
  (assignment_create (create_args "w2" "docs" []) w1).1
    = Err "read state /work/.multiagent/assignments/w1/assignment.env: I/O error".
Proof. vm_compute. done. Qed.

End AssignmentsWitness.
