(* ===== verification/WorkflowFacts.v ===== *)
(** * WorkflowFacts: every command keeps the invariant of the lifecycles

    The commands are taken through one by one with the weakest preconditions of
    [State]: whatever write fails, the files a command leaves satisfy the
    invariant of [LifecycleFacts]. *)

From S2P Require Import Prelude Text State Json Config Dag Lifecycle Workflow LifecycleFacts LifecycleGates.

(** [canonicalize] returns an absolute path; no file of the installation has a
    line break in its path. *)
Class CleanPaths `{Environment} : Prop :=
  canonicalize_clean : forall fs p q,
    canonicalize fs p = Some q -> starts_with "/" q = true /\ clean q = true.

(** The completion gates of the subagents change files of the subagents only,
    and a sound disk stays sound. *)
Definition is_gate `{Environment} (m : IO unit) : Prop :=
  m = completion_gate_check \/ m = external_completion_gate_check.
Class GateFrame `{Platform} `{Environment} : Prop := {
  gate_frame : forall m dir w r w' p, is_gate m -> state_dir = Ok dir -> m w = (r, w') ->
    starts_with (path_join dir "subagents/") p = false -> files w' !! p = files w !! p;
  gate_faults : forall m w r w', is_gate m -> m w = (r, w') -> faults w = [] -> faults w' = []
}.

Lemma required_nonempty o key v : required o key = Ok v -> v <> "".
Proof.
  unfold required. destruct (o !! key) as [x|]; [|done]. destruct (is_empty x) eqn:E; [done|].
  intros [= <-]. by apply is_empty_false.
Qed.

Lemma mem_in x l : mem x l = true <-> x ∈ l.
Proof. unfold mem. rewrite existsb_exists, list_elem_of_In. setoid_rewrite String.eqb_eq. naive_solver. Qed.

Lemma mem_forallb (p : string -> bool) x l : mem x l = true -> forallb p l = true -> p x = true.
Proof.
  unfold mem. intros (y & Hy & ->%String.eqb_eq)%existsb_exists Hl. rewrite forallb_forall in Hl. auto.
Qed.

(** ** Rows *)

Lemma clean_field_ok f : clean_field f = true -> has_char tab f = false /\ has_char nl f = false.
Proof. unfold clean_field, clean. intros H. bool_hyps. done. Qed.

Lemma row_ok_fields n r : length r = n -> forallb clean_field r = true -> row_ok n r.
Proof.
  intros Hl Hf. split; [done|]. apply Forall_forall. intros f Hin. apply clean_field_ok.
  rewrite forallb_forall in Hf. by apply Hf, list_elem_of_In.
Qed.

Lemma row_ok_set n i v r : clean_field v = true -> row_ok n r -> row_ok n (set i v r).
Proof.
  intros Hv%clean_field_ok [Hl Hf]. split; [unfold set, Row in *; by rewrite length_insert|]. by apply Forall_insert.
Qed.

Lemma nth_insert_ne i j (v : string) r : i <> j -> nth j (<[i := v]> r) "" = nth j r "".
Proof.
  revert i j. induction r as [|x r IH]; intros [|i] [|j] Hne; simpl; try done. apply IH. lia.
Qed.

Lemma agree_set i v r : (6 <= i)%nat -> agree r (set i v r).
Proof. intros Hi j Hj. unfold get, set. apply nth_insert_ne. lia. Qed.

Lemma agree_trans r1 r2 r3 : agree r1 r2 -> agree r2 r3 -> agree r1 r3.
Proof. intros H12 H23 i Hi. by rewrite H23, H12. Qed.

Lemma grows_app R R' : grows R (R ++ R').
Proof. intros r Hr. exists r. split; [set_solver|apply agree_refl]. Qed.
Lemma grows_cons r r' R R' : agree r r' -> grows R R' -> grows (r :: R) (r' :: R').
Proof.
  intros Hr HR x [->|Hx]%elem_of_cons.
  - exists r'. split; [by left|done].
  - destruct (HR _ Hx) as (x' & Hx' & Ha). exists x'. split; [by right|done].
Qed.

(** ** Fields *)

Lemma id_ok_field_chars s : all_chars id_char s = true -> clean_field s = true.
Proof.
  intros Hs. unfold clean_field, clean. by rewrite !(all_chars_no_char id_char) by done.
Qed.

Lemma insert_all_other kvs st k :
  forallb (fun kv => negb (String.eqb kv.1 k)) kvs = true ->
  state_value (insert_all kvs st) k = state_value st k.
Proof.
  unfold insert_all. revert st. induction kvs as [|[k' v] kvs IH]; intros st; simpl; [done|].
  intros [Hk%negb_true_iff%String.eqb_neq Hkvs]%andb_true_iff. rewrite IH by done.
  by apply state_value_insert_ne.
Qed.

(** The fields the invariant speaks about. *)
Definition critical : list string :=
  ["phase"; "iteration"; "preimplementation_gate"; "alignment_review_id"; "iteration_plan_sha256";
   "implementation_context"; "candidate_diff_hash"; "reviewed_diff_hash"; "terminal_outcome"].

Lemma good_untouched R O kvs st :
  forallb (fun kv => clean kv.2 && negb (mem kv.1 critical)) kvs = true ->
  good R O st -> good R O (insert_all kvs st).
Proof.
  intros Hkvs Hg.
  assert (forall k, mem k critical = true -> state_value (insert_all kvs st) k = state_value st k) as He.
  { intros k Hk. apply insert_all_other. revert Hkvs. apply forallb_impl. intros kv [_ Hm]%andb_true_iff.
    destruct (String.eqb_spec kv.1 k) as [Heq|]; [|done]. by rewrite Heq, Hk in Hm. }
  destruct Hg as [Hc Hi Hp Ha Hs Hd Hf]. split.
  { apply insert_all_clean; [|done]. revert Hkvs. apply forallb_impl. by intros kv [? _]%andb_true_iff. }
  all: unfold ended in *; rewrite ?(He "terminal_outcome"), ?(He "phase"), ?(He "iteration"), ?(He "preimplementation_gate"),
    ?(He "alignment_review_id"), ?(He "iteration_plan_sha256"), ?(He "implementation_context"),
    ?(He "candidate_diff_hash"), ?(He "reviewed_diff_hash") by reflexivity; assumption.
Qed.

(** Reads a field of an updated state. *)
Ltac field_values :=
  unfold insert_all; cbn [foldl fst snd];
  repeat first [rewrite state_value_insert | rewrite state_value_insert_ne by discriminate].

Lemma good_initial R O id task digest stamp :
  clean id = true -> clean task = true -> clean digest = true -> clean stamp = true ->
  good R O (initial_state id task digest stamp).
Proof.
  intros H1 H2 H3 H4. unfold initial_state. split.
  - apply insert_all_clean; [|by intros k _]. cbn [forallb snd]. by rewrite H1, H2, H3, H4.
  - by field_values.
  - by field_values.
  - by field_values.
  - field_values. by intros [?|?].
  - by field_values.
  - by field_values.
Qed.

(** Changing some of the fields, one command at a time. *)
Lemma good_seal R O st digest count now :
  state_value st "phase" = "pre-implementation" ->
  clean digest = true -> digest <> "" -> clean count = true -> clean now = true -> good R O st ->
  good R O (insert_all [("iteration_plan_sha256", digest); ("iteration_worker_count", count);
                        ("updated_at", now)] st).
Proof.
  intros Hph H1 H2 H3 H4 [Hc Hi Hp Ha Hs Hd Hf]. split; [|field_values; try assumption..].
  - apply insert_all_clean; [|done]. cbn [forallb snd]. by rewrite H1, H3, H4.
  - intros Hg. destruct (Ha Hg) as (? & _ & ?). done.
  - by rewrite Hph.
Qed.

Lemma good_prepare R O st context digest review now :
  state_value st "phase" = "pre-implementation" -> state_value st "iteration_plan_sha256" <> "" ->
  clean context = true -> context <> "" -> clean digest = true -> clean review = true -> clean now = true ->
  aligned R review -> good R O st ->
  good R O (insert_all [("preimplementation_gate", "passed"); ("implementation_context", context);
                        ("implementation_context_sha256", digest); ("alignment_review_id", review);
                        ("updated_at", now)] st).
Proof.
  intros Hph Hpl H1 H2 H3 H4 H5 Hal [Hc Hi Hp Ha Hs Hd Hf]. split; [|field_values; try assumption..].
  - apply insert_all_clean; [|done]. cbn [forallb snd]. by rewrite H1, H3, H4, H5.
  - done.
  - done.
  - by rewrite Hph.
Qed.

Lemma lower_hex_clean s : all_chars is_ascii_hexdigit s = true -> clean (to_ascii_lowercase s) = true.
Proof.
  intros Hs. apply clean_field_clean, id_ok_field_chars.
  induction s as [|c s IH]; simpl in *; [done|]. apply andb_true_iff in Hs as [Hc Hs].
  rewrite IH, andb_true_r by done. clear -Hc. destruct c as [[] [] [] [] [] [] [] []]; by vm_compute in *.
Qed.

Lemma good_implementation R O st :
  state_value st "preimplementation_gate" = "passed" -> good R O st ->
  good R O (<["phase" := "implementation"]> st).
Proof.
  intros Hg [Hc Hi Hp Ha Hs Hd Hf].
  split; [by apply insert_clean|field_values; try assumption..]; done.
Qed.

Lemma good_post R O st diff :
  state_value st "phase" = "implementation" -> diff <> "" -> clean_field diff = true ->
  (forall kind, kind ∈ auto_kinds (state_value st "iteration") ->
     obliged O kind diff (state_value st "iteration")) ->
  good R O st ->
  good R O (insert_all [("phase", "post-implementation"); ("candidate_diff_hash", diff);
                        ("reviewed_diff_hash", "")] st).
Proof.
  intros Hph Hne Hdiff Ho [Hc Hi Hp Ha Hs Hd Hf]. split; [|field_values; try assumption..].
  - apply insert_all_clean; [|done]. cbn [forallb snd]. by rewrite (clean_field_clean _ Hdiff).
  - done.
  - intros _. apply Hs. by left.
  - done.
  - done.
Qed.

Lemma good_reset R O st n :
  0 <= n -> good R O st ->
  good R O (insert_all [("implementation_context", ""); ("implementation_context_sha256", "");
                        ("alignment_review_id", ""); ("iteration_plan_sha256", "");
                        ("iteration_worker_count", ""); ("candidate_diff_hash", "");
                        ("reviewed_diff_hash", ""); ("phase", "pre-implementation");
                        ("iteration", u64_to_string n); ("preimplementation_gate", "pending")] st).
Proof.
  intros Hn [Hc Hi Hp Ha Hs Hd Hf]. split; [|field_values; try assumption..].
  - apply insert_all_clean; [|done]. cbn [forallb snd].
    by rewrite (clean_field_clean (u64_to_string n)) by (by apply u64_to_string_clean).
  - by apply u64_to_string_clean.
  - done.
  - done.
  - by intros [?|?].
  - done.
  - done.
Qed.

Lemma good_completed R O st now :
  state_value st "phase" = "post-implementation" -> clean now = true ->
  (forall kind, kind ∈ auto_kinds (state_value st "iteration") ->
     reviewed R kind (state_value st "candidate_diff_hash") (state_value st "iteration")) ->
  good R O st ->
  good R O (insert_all [("phase", "complete"); ("reviewed_diff_hash", state_value st "candidate_diff_hash");
                        ("terminal_outcome", "succeeded"); ("updated_at", now)] st).
Proof.
  intros Hph Hnow Hr [Hc Hi Hp Ha Hs Hd Hf]. destruct (Hd Hph) as (Hd1 & Hd2 & Hd3).
  split; [|field_values; try assumption..].
  - apply insert_all_clean; [|done]. cbn [forallb snd]. by rewrite (clean_field_clean _ Hd2), Hnow.
  - done.
  - by intros [?|?].
  - done.
  - intros _. right. right. field_values. auto.
Qed.

(** ** Walking through a command *)

Ltac wp_prim :=
  lazymatch goal with
  | |- wp (ret _) _ _ => apply wp_ret
  | |- wp (fail _) _ _ => apply wp_fail; assumption
  | |- wp (lift _) _ _ => apply wp_lift; [intros ? ?|intros ? _; assumption]
  | |- wp (check _ _) _ _ => apply wp_check; [intros ?|intros _; assumption]
  | |- wp timestamp _ _ => apply wp_timestamp; intros ? ?
  | |- wp (println _) _ _ => apply wp_println
  | |- wp get_files _ _ => apply wp_get_files
  | |- wp (is_file _) _ _ => apply wp_is_file
  | |- wp (read_rows _ _) _ _ => apply wp_read_rows
  | |- wp (read_todos _) _ _ => apply wp_read_rows
  | |- wp (read_reviews _) _ _ => apply wp_read_rows
  | |- wp (read_review_obligations _) _ _ => apply wp_read_rows
  | |- wp (read_env_optional _) _ _ => apply wp_read_env_optional
  | |- wp ?m _ ?fs =>
      apply wp_reader; [solve [readers]|];
      let E := fresh "Heval" in
      destruct (eval m fs) eqn:E; [|assumption]
  end.
Ltac wp_step :=
  lazymatch goal with
  | |- wp (bind _ _) _ _ => apply wp_bind; wp_prim
  | _ => wp_prim
  end; lazy beta iota.

Lemma hex_clean `{Platform} `{HS : !HashShape} s : clean (sha256_hex s) = true.
Proof.
  apply clean_field_clean, id_ok_field_chars. eapply all_chars_impl; [|apply sha256_hex_digits].
  intros c. unfold lower_hex. destruct c as [[] [] [] [] [] [] [] []]; by vm_compute.
Qed.

(** Solves that the values of new fields are single lines. *)
Ltac cleans :=
  cbn [forallb fst snd]; rewrite ?andb_true_iff; split_and!;
  try first [reflexivity | apply hex_clean | by apply clean_field_clean].

Section Commands.
Context `{Platform} `{Environment} `{HC : !ClockClean} `{HS : !HashShape} `{HP : !CleanPaths}
  `{HG : !GateFrame}.
Context (dir : string) (Hdir : state_dir = Ok dir) (Hclean : clean dir = true).

(** What a command does to the phases is tracked by two predicates that depend
    on the [lifecycle.env] files only: [S] holds until the command writes one,
    [T] from then on. [phi] are the changes of a phase that lead from [S] to
    [T]. *)
Definition phase_in (fs : gmap string string) (id : string) : option string :=
  (fun st => state_value st "phase") <$> state_in dir fs id.
Definition of_phases (P : gmap string string -> Prop) : Prop :=
  forall fs fs', (forall id, id_ok id = true -> phase_in fs' id = phase_in fs id) -> P fs -> P fs'.

Context (S T : gmap string string -> Prop) (phi : option string -> option string -> Prop).
Context (HS_phases : of_phases S) (HT_phases : of_phases T) (HST : forall fs, S fs -> T fs).
Context (Hphi : forall fs fs' id, id_ok id = true -> S fs ->
  (forall id', id_ok id' = true -> id' <> id -> phase_in fs' id' = phase_in fs id') ->
  phi (phase_in fs id) (phase_in fs' id) -> T fs').
Context (Hrefl : forall a, phi a a).

Definition pre (fs : gmap string string) : Prop := inv dir fs /\ S fs.
Definition post (fs : gmap string string) : Prop := inv dir fs /\ T fs.

(** [safe m fs]: run on the files [fs], [m] leaves files with the invariant and [T]. *)
Definition safe {A} (m : IO A) (fs : gmap string string) : Prop := wp m (fun _ fs' => post fs') fs.

Lemma pre_post fs : pre fs -> post fs.
Proof. intros [Hi HS']. split; auto. Qed.

Lemma phase_in_insert_ne id f t fs id' :
  id_ok id = true -> id_ok id' = true -> f <> "lifecycle.env" ->
  phase_in (<[lfile dir id f := t]> fs) id' = phase_in fs id'.
Proof.
  intros H1 H2 Hf. unfold phase_in, state_in. by rewrite lookup_insert_ne by (apply lfile_ne; [done..|by left]).
Qed.

Lemma pre_insert id f t fs :
  id_ok id = true -> f <> "lifecycle.env" -> inv dir (<[lfile dir id f := t]> fs) -> pre fs ->
  pre (<[lfile dir id f := t]> fs).
Proof.
  intros Hid Hf Hi' [Hi HS']. split; [done|]. eapply HS_phases; [|exact HS']. intros. by apply phase_in_insert_ne.
Qed.
Lemma post_insert id f t fs :
  id_ok id = true -> f <> "lifecycle.env" -> inv dir (<[lfile dir id f := t]> fs) -> post fs ->
  post (<[lfile dir id f := t]> fs).
Proof.
  intros Hid Hf Hi' [Hi HT']. split; [done|]. eapply HT_phases; [|exact HT']. intros. by apply phase_in_insert_ne.
Qed.

Lemma post_untracked id f t fs :
  id_ok id = true -> tracked f = false -> post fs -> post (<[lfile dir id f := t]> fs).
Proof.
  intros Hid Hf Hp. apply post_insert; [done|by intros ->| |done]. apply inv_insert_untracked; [done..|apply Hp].
Qed.

Lemma pre_frame fs fs' :
  (forall id f, fs' !! lfile dir id f = fs !! lfile dir id f) -> pre fs -> pre fs'.
Proof.
  intros Hframe Hpre. split; [apply (inv_frame dir fs); [by intros; apply Hframe|apply Hpre]|].
  eapply HS_phases; [|apply Hpre]. intros id' _. unfold phase_in, state_in. by rewrite Hframe.
Qed.

(** Writing the fields of a lifecycle. *)
Lemma post_env id st fs :
  id_ok id = true -> good (reviews_in dir fs id) (obligations_in dir fs id) st -> pre fs ->
  phi (phase_in fs id) (Some (state_value st "phase")) ->
  post (<[lfile dir id "lifecycle.env" := env_text st]> fs).
Proof.
  intros Hid Hg [Hi HS'] Hp. split; [by apply inv_write_env|]. eapply Hphi; [exact Hid|exact HS'|..].
  - intros id' Hid' Hne. unfold phase_in, state_in.
    rewrite lookup_insert_ne; [done|]. apply lfile_ne; [done..|]. right. congruence.
  - unfold phase_in at 2, state_in. rewrite lookup_insert_eq. simpl.
    rewrite env_text_value; [done|apply Hg|env_key].
Qed.

Ltac start :=
  let Hpre := fresh "Hpre" in intros Hpre; pose proof (proj1 Hpre) as Hi; pose proof (pre_post _ Hpre) as Hpost.

Lemma wp_open {A} id (k : Paths -> gmap string string -> IO A) Q fs :
  (forall e, Q (Err e) fs) ->
  (forall st, id_ok id = true -> state_in dir fs id = Some st ->
     wp (k (lifecycle_paths dir id) st) Q fs) ->
  wp (let! p := lift (paths id) in let! st := read_state (state p) id in k p st) Q fs.
Proof.
  intros He Hk. apply wp_bind, wp_lift; [|by intros e _].
  intros p [Hid ->]%(paths_ok dir Hdir). apply wp_bind, wp_reader; [readers|].
  change (state (lifecycle_paths dir id)) with (lfile dir id "lifecycle.env").
  destruct (eval (read_state (lfile dir id "lifecycle.env") id) fs) as [st|e] eqn:E; [|done].
  apply (eval_read_state dir) in E. auto.
Qed.

(** *** Writes *)

Lemma safe_println s fs : post fs -> safe (println s) fs.
Proof. intros Hp. by apply wp_println. Qed.

Lemma safe_event {A} id name detail (k : unit -> IO A) fs :
  id_ok id = true -> post fs -> (forall u fs', post fs' -> safe (k u) fs') ->
  safe (let! u := event (lfile dir id "events.log") name detail in k u) fs.
Proof.
  intros Hid Hp Hk. apply wp_bind. unfold event. wp_step. apply wp_append_file; [|done].
  intros t. apply Hk. by apply post_untracked.
Qed.

Lemma safe_env {A} id st (k : unit -> IO A) fs :
  id_ok id = true -> good (reviews_in dir fs id) (obligations_in dir fs id) st -> pre fs ->
  phi (phase_in fs id) (Some (state_value st "phase")) ->
  (forall u fs', post fs' -> safe (k u) fs') ->
  safe (let! u := write_env (lfile dir id "lifecycle.env") st in k u) fs.
Proof.
  intros Hid Hg Hpre Hp Hk. apply wp_bind, wp_put_file; [|by apply pre_post]. apply Hk. by apply post_env.
Qed.

(** The fields are written, the event logged and the result printed. *)
Lemma safe_env_tail id st name detail s fs :
  id_ok id = true -> good (reviews_in dir fs id) (obligations_in dir fs id) st -> pre fs ->
  phi (phase_in fs id) (Some (state_value st "phase")) ->
  safe (let! _ := write_env (lfile dir id "lifecycle.env") st in
        let! _ := event (lfile dir id "events.log") name detail in println s) fs.
Proof.
  intros Hid Hg Hpre Hp. apply safe_env; [done..|]. intros _ fs' Hi'. apply safe_event; [done..|].
  intros _ fs'' Hi''. by apply safe_println.
Qed.

(** The fields are written with the phase they had. *)
Lemma safe_env_tail_same id st st' name detail s fs :
  id_ok id = true -> state_in dir fs id = Some st -> state_value st' "phase" = state_value st "phase" ->
  good (reviews_in dir fs id) (obligations_in dir fs id) st' -> pre fs ->
  safe (let! _ := write_env (lfile dir id "lifecycle.env") st' in
        let! _ := event (lfile dir id "events.log") name detail in println s) fs.
Proof.
  intros Hid Hst Hph Hg Hpre. apply safe_env_tail; [done..|]. unfold phase_in. rewrite Hst, Hph. apply Hrefl.
Qed.

Lemma safe_untracked {A} id f t e (k : unit -> IO A) fs :
  id_ok id = true -> tracked f = false -> post fs -> (forall u fs', post fs' -> safe (k u) fs') ->
  safe (let! u := put_file (lfile dir id f) t e in k u) fs.
Proof.
  intros Hid Hf Hp Hk. apply wp_bind, wp_put_file; [|done]. apply Hk. by apply post_untracked.
Qed.

(** *** Plan, contract and context *)

Lemma seal_iteration_safe args fs : pre fs -> safe (seal_iteration args) fs.
Proof.
  start. unfold safe, seal_iteration. destruct args as [|id rest]; [by apply wp_fail|].
  do 5 wp_step. apply wp_open; [done|]. intros st Hid Hst. do 3 wp_step. apply (safe_env_tail_same _ st); [done|done|by field_values| |done].
  match goal with
  | Hd : _ && all_chars is_ascii_hexdigit ?d = true, Hw : match parse_usize _ with _ => _ end = Ok ?n |- _ =>
      apply andb_true_iff in Hd as [Hlen Hhex]; rename d into digest, n into count, Hw into Hcount
  end.
  assert (0 <= count).
  { destruct (parse_usize _) eqn:E in Hcount; [|done]. case_hyp Hcount; inv_ok. by eapply parse_u64_bounds. }
  match goal with Hp : String.eqb _ "pre-implementation" = true |- _ => apply String.eqb_eq in Hp end.
  apply good_seal; auto with multiagent.
  - by apply lower_hex_clean.
  - by destruct digest.
  - by apply clean_field_clean, u64_to_string_clean.
Qed.

Lemma path_clean id f : id_ok id = true -> clean f = true -> clean (lfile dir id f) = true.
Proof.
  intros Hid Hf. unfold lfile, path_join. rewrite !clean_app, Hclean, Hf.
  by rewrite (clean_field_clean id) by (by apply id_ok_field).
Qed.

Lemma register_contract_safe args fs : pre fs -> safe (register_contract args) fs.
Proof.
  start. unfold safe, register_contract. destruct args as [|id rest]; [by apply wp_fail|].
  do 2 wp_step. wp_step. rewrite Hdir. apply wp_bind. apply wp_lift; [|done]. intros root [= <-].
  apply wp_open; [done|]. intros st Hid Hst. do 9 wp_step. apply (safe_env_tail_same _ st); [done|done|by field_values| |done].
  apply good_untouched; [|by apply Hi].
  match goal with Hs : valid_id _ ?s = Ok _ |- _ =>
    apply valid_id_ok, id_ok_field, clean_field_clean in Hs as Hscout end.
  cleans. unfold path_join. rewrite !clean_app, Hclean, Hscout. by destruct secure_reviewer_evidence.
Qed.

Lemma prepare_safe args fs : pre fs -> safe (prepare args) fs.
Proof.
  start. unfold safe, prepare. destruct args as [|id rest]; [by apply wp_fail|].
  do 5 wp_step. apply wp_open; [done|]. intros st Hid Hst.
  do 17 wp_step. apply (safe_env_tail_same _ st); [done|done|by field_values| |done].
  match goal with
  | Hf : ok_or (List.find _ _) _ = Ok _, Hv : valid_id _ ?r = Ok _, Hc : ok_or (canonicalize _ _) _ = Ok ?q,
    Hs : eval (sha256 ?q) _ = Ok _, Hp : String.eqb _ "pre-implementation" = true,
    Hplan : String.eqb (state_value st "iteration_plan_sha256") ?plan = true,
    Hreq : required _ "--plan-sha256" = Ok ?plan |- _ =>
      apply ok_or_ok, find_some in Hf as [Hin Hal]; apply valid_id_ok, id_ok_field in Hv;
      apply ok_or_ok, canonicalize_clean in Hc as [Habs Hq]; apply eval_sha256 in Hs;
      apply String.eqb_eq in Hp, Hplan; apply required_nonempty in Hreq
  end.
  apply good_prepare; auto with multiagent.
  - congruence.
  - intros ->. done.
  - unfold digest_of in *. destruct (fs !! _); simplify_eq/=. apply hex_clean.
  - unfold aligned_review in Hal. bool_hyps. eexists. split; [by apply list_elem_of_In|done].
Qed.

(** *** TODOs *)

Lemma safe_todos_tail id rows name detail s fs :
  id_ok id = true -> post fs ->
  safe (let! _ := write_todos (lfile dir id "todos.tsv") rows in
        let! _ := event (lfile dir id "events.log") name detail in println s) fs.
Proof.
  intros Hid Hi. apply safe_untracked; [done..|]. intros _ fs' Hi'. apply safe_event; [done..|].
  intros _ fs'' Hi''. by apply safe_println.
Qed.

Lemma add_todo_safe args fs : pre fs -> safe (add_todo args) fs.
Proof.
  start. unfold safe, add_todo. destruct args as [|id [|tid rest]]; try by apply wp_fail.
  do 5 wp_step. apply wp_open; [done|]. intros st Hid Hst. do 3 wp_step. by apply safe_todos_tail.
Qed.

Lemma todo_status_safe args fs : pre fs -> safe (todo_status args) fs.
Proof.
  start. unfold safe, todo_status. destruct args as [|id [|tid [|st rest]]]; try by apply wp_fail.
  do 3 wp_step. apply wp_open; [done|]. intros s Hid Hst. do 4 wp_step. by apply safe_todos_tail.
Qed.

Lemma resolve_todo_safe args fs : pre fs -> safe (resolve_todo args) fs.
Proof.
  start. unfold safe, resolve_todo. destruct args as [|id [|tid rest]]; try by apply wp_fail.
  do 5 wp_step. apply wp_open; [done|]. intros s Hid Hst. do 4 wp_step. by apply safe_todos_tail.
Qed.

(** *** Obligations *)

(** A row of obligations is found or added. *)
Lemma wp_ensure rows oid kind trigger digest reason iteration Q fs :
  Forall (row_ok 9) rows ->
  forallb clean_field [oid; kind; trigger; digest; reason; iteration] = true ->
  (forall e, Q (Err e) fs) ->
  (forall rows', Forall (row_ok 9) rows' -> grows rows rows' -> obliged rows' kind digest iteration ->
     Q (Ok rows') fs) ->
  wp (ensure_review_obligation rows oid kind trigger digest reason iteration) Q fs.
Proof.
  intros Hrows Hf He HQ. unfold ensure_review_obligation.
  destruct (List.find _ rows) as [r|] eqn:Hfind.
  - apply find_some in Hfind as [Hin _]. destruct (same_obligation _ _ _ _ _ r) eqn:Hs; [|by apply wp_fail].
    apply wp_ret, HQ; [done|apply grows_refl|]. unfold same_obligation in Hs. bool_hyps.
    exists r. split_and!; [by apply list_elem_of_In|done..].
  - apply wp_bind, wp_timestamp. intros now Hnow. apply wp_ret, HQ.
    + apply Forall_app. split; [done|]. apply Forall_singleton, row_ok_fields; [done|].
      cbn [forallb] in *. rewrite !andb_true_iff in *. naive_solver.
    + apply grows_app.
    + eexists. split; [apply elem_of_app; right; by left|done].
Qed.

Lemma obliged_grows O O' kind diff iteration : grows O O' -> obliged O kind diff iteration -> obliged O' kind diff iteration.
Proof.
  intros Hg (r & Hr & H1 & H3 & H5). destruct (Hg _ Hr) as (r' & Hr' & Ha).
  exists r'. rewrite !Ha by lia. done.
Qed.

(** Writing obligations that contain the old ones. *)
Lemma obligations_written id rows fs :
  id_ok id = true -> inv dir fs -> Forall (row_ok 9) rows -> grows (obligations_in dir fs id) rows ->
  let fs' := <[lfile dir id "review-obligations.tsv" :=
               unlines (REVIEW_OBLIGATION_HEADER :: map encode_fields rows)]> fs in
  inv dir fs' /\ grows rows (obligations_in dir fs' id)
  /\ state_in dir fs' id = state_in dir fs id /\ reviews_in dir fs' id = reviews_in dir fs id.
Proof.
  intros Hid Hi Hrows Hg fs'.
  pose proof (rows_written 9 REVIEW_OBLIGATION_HEADER rows [] (lfile dir id "review-obligations.tsv") fs) as Hw.
  rewrite app_nil_r in Hw. specialize (Hw ltac:(lia) eq_refl Hrows). split_and!.
  - apply inv_write_obligations; [done|by eapply grows_trans|done].
  - done.
  - unfold state_in, fs'. by rewrite lookup_insert_ne by (apply lfile_ne; [done..|by left]).
  - apply rows_of_insert_ne, lfile_ne; [done..|by left].
Qed.

Lemma obligations_ok id fs : Forall (row_ok 9) (obligations_in dir fs id).
Proof. apply rows_of_ok. Qed.

Lemma require_review_safe args fs : pre fs -> safe (require_review args) fs.
Proof.
  start. unfold safe, require_review. destruct args as [|id [|oid rest]]; try by apply wp_fail.
  do 10 wp_step. apply wp_open; [done|]. intros st Hid Hst. do 2 wp_step.
  apply wp_bind, wp_ensure; [apply obligations_ok| |done|].
  - match goal with
    | Hv : valid_id _ oid = Ok _, Hk : mem _ POST_REVIEWS = true |- _ =>
        apply valid_id_ok, id_ok_field in Hv; rename Hv into Hoid, Hk into Hkind end.
    cbn [forallb]. rewrite Hoid, (good_iteration _ _ _ (Hi _ _ Hid Hst)).
    repeat match goal with Hs : single_line _ _ = Ok ?u |- _ =>
      unfold single_line in Hs; destruct u; apply guard_ok, andb_true_iff in Hs as [_ ->] end.
    rewrite (mem_forallb clean_field _ POST_REVIEWS) by done. done.
  - intros rows Hok Hg _. apply wp_bind, wp_put_file; [|done].
    destruct (obligations_written id rows fs) as (Hi' & _); [done..|].
    apply safe_event; [done|by apply post_insert|]. intros _ fs'' Hi''. by apply safe_println.
Qed.

(** *** Reviews *)

Lemma safe_bind {A B} (m : IO A) (k : A -> IO B) fs :
  safe m fs -> (forall a fs', post fs' -> safe (k a) fs') -> safe (bind m k) fs.
Proof.
  intros Hm Hk. apply wp_bind. eapply wp_mono; [exact Hm|]. intros [a|e] fs' Hi; [by apply Hk|done].
Qed.

Lemma wp_satisfy kind diff iteration rid rows Q fs :
  id_ok rid = true -> Forall (row_ok 9) rows ->
  (forall b rows', Forall (row_ok 9) rows' -> grows rows rows' -> Q (Ok (b, rows')) fs) ->
  wp (satisfy_obligations kind diff iteration rid rows) Q fs.
Proof.
  intros Hid Hrows. revert Q. induction Hrows as [|r rows Hr Hrows IH]; intros Q HQ; cbn [satisfy_obligations].
  - apply wp_ret, HQ; [constructor|apply grows_refl].
  - destruct (satisfies _ _ _ r).
    + apply wp_bind, wp_timestamp. intros now Hnow. apply wp_bind, IH. intros b rows' Hok Hg.
      apply wp_ret, HQ; cbn [snd].
      * constructor; [|done]. by repeat (apply row_ok_set; [first [done | by apply id_ok_field]|]).
      * apply grows_cons; [|done]. repeat (eapply agree_trans; [|apply agree_set; lia]). apply agree_refl.
    + apply wp_bind, IH. intros b rows' Hok Hg. apply wp_ret, HQ; cbn [fst snd]; [by constructor|].
      by apply grows_cons; [apply agree_refl|].
Qed.

Lemma inv_append_review id extra fs :
  id_ok id = true -> inv dir fs ->
  inv dir (<[lfile dir id "reviews.tsv" :=
             unlines (REVIEW_HEADER :: map encode_fields (reviews_in dir fs id ++ extra))]> fs).
Proof.
  intros Hid Hi. apply inv_write_reviews; [done| |done].
  apply rows_written; [lia|done|apply rows_of_ok].
Qed.

Lemma record_review_safe args fs : pre fs -> safe (record_review args) fs.
Proof.
  start. unfold safe, record_review. destruct args as [|id [|rid rest]]; try by apply wp_fail.
  do 7 wp_step. apply wp_open; [done|]. intros st Hid Hst. do 5 wp_step.
  match goal with Hv : valid_id _ rid = Ok _ |- _ => apply valid_id_ok in Hv; rename Hv into Hrid end.
  apply wp_bind, wp_put_file; [|done].
  match goal with |- wp _ _ (<[_ := unlines (_ :: map encode_fields (_ ++ ?l))]> _) =>
    pose proof (inv_append_review id l fs Hid Hi) as Hi' end.
  match goal with |- wp _ _ ?fs' => assert (post fs') as Hpost' by (by apply post_insert) end.
  apply safe_bind.
  - match goal with |- safe (if ?b then _ else _) _ => destruct b end; [|by apply wp_ret].
    unfold safe. wp_step. apply wp_bind, wp_satisfy; [done|apply rows_of_ok|].
    intros b rows' Hok Hg. cbn [fst snd]. destruct b; [|by apply wp_ret].
    apply wp_put_file; [|done]. apply post_insert; [done..| |done]. by apply obligations_written.
  - intros _ fs' Hi2. apply safe_event; [done..|]. intros _ fs'' Hi3. by apply safe_println.
Qed.

(** *** Transitions *)

Lemma auto_kind_clean kind iteration : kind ∈ auto_kinds iteration -> clean_field kind = true.
Proof.
  unfold auto_kinds. intros [->|Hk]%elem_of_cons; [done|]. case_match; set_solver.
Qed.

Lemma wp_candidate_obligations id iteration diff Q fs :
  id_ok id = true -> pre fs -> clean_field iteration = true -> clean_field diff = true ->
  (forall e, Q (Err e) fs) ->
  (forall fs', pre fs' -> state_in dir fs' id = state_in dir fs id ->
     reviews_in dir fs' id = reviews_in dir fs id -> grows (obligations_in dir fs id) (obligations_in dir fs' id) ->
     (forall kind, kind ∈ auto_kinds iteration -> obliged (obligations_in dir fs' id) kind diff iteration) ->
     Q (Ok tt) fs') ->
  wp (candidate_obligations (lifecycle_paths dir id) iteration diff) Q fs.
Proof.
  intros Hid Hpre Hit Hdiff He HQ. unfold candidate_obligations. apply wp_bind, wp_read_rows.
  assert (forall k, clean_field ("auto-" +:+ iteration +:+ k) = clean_field k) as Hname
    by (intros k; by rewrite !clean_field_app, Hit).
  apply wp_bind, wp_ensure; [apply obligations_ok| |done|].
  { cbn [forallb]. by rewrite (Hname "-technical"), Hit, Hdiff. }
  intros rows Hok Hg Htech.
  assert (forall rows', Forall (row_ok 9) rows' -> grows rows rows' ->
    (forall kind, kind ∈ auto_kinds iteration -> obliged rows' kind diff iteration) ->
    wp (write_review_obligations (lfile dir id "review-obligations.tsv") rows') Q fs) as Hwrite.
  { intros rows' Hok' Hg' Hall. apply wp_put_file; [|done].
    destruct (obligations_written id rows' fs) as (Hi' & Hgr & Hst & Hrv); [done|apply Hpre|done|by eapply grows_trans|].
    apply HQ; [by apply pre_insert|done..|by eapply grows_trans, grows_trans|]. intros kind Hk. by eapply obliged_grows, Hall. }
  apply wp_bind. unfold auto_kinds in *.
  destruct (1 <? unwrap_or (parse_u64 iteration) 1).
  - apply wp_ensure; [done| |done|].
    { cbn [forallb]. by rewrite (Hname "-reflection"), Hit, Hdiff. }
    intros rows' Hok' Hg' Href. apply Hwrite; [done..|].
    intros kind [->|[->|[]%elem_of_nil]%elem_of_cons]%elem_of_cons; [by eapply obliged_grows|done].
  - apply wp_ret, Hwrite; [done|apply grows_refl|]. by intros kind ->%list_elem_of_singleton.
Qed.

Lemma wp_transition_state id current target diff st fs :
  (forall a b, allowed_transition a b = true -> phi (Some a) (Some b)) ->
  id_ok id = true -> pre fs -> state_in dir fs id = Some st -> state_value st "phase" = current ->
  allowed_transition current target = true -> clean_field diff = true ->
  wp (transition_state (lifecycle_paths dir id) id current target diff st)
    (fun r fs' => pre fs' /\
       forall st', r = Ok st' -> good (reviews_in dir fs' id) (obligations_in dir fs' id) st'
         /\ phi (phase_in fs' id) (Some (state_value st' "phase"))) fs.
Proof.
  intros Hedge Hid Hpre Hst Hph Hall Hdiff. pose proof (proj1 Hpre _ _ Hid Hst) as Hgood.
  assert (phase_in fs id = Some current) as Hcur by (unfold phase_in; rewrite Hst; by simplify_eq/=).
  unfold transition_state.
  destruct (String.eqb_spec current "pre-implementation") as [->|Hn1];
    [|destruct (String.eqb_spec current "implementation") as [->|Hn2]; [|destruct (String.eqb_spec target "pre-implementation") as [->|_]]].
  - apply wp_bind, wp_reader; [readers|]. destruct (eval _ fs) as [s|e] eqn:E; [|done].
    apply (eval_implementation_gate dir Hdir) in E as [_ Hs _ Hp _ _ _]. apply wp_ret. split; [done|].
    intros st' [= <-]. rewrite Hst in Hs. injection Hs as <-. split; [by apply good_implementation|].
    rewrite Hcur. field_values. by apply Hedge.
  - apply wp_bind, wp_check; [|done]. intros Hne%negb_true_iff%is_empty_false.
    apply wp_bind, wp_candidate_obligations; [done..|apply Hgood|done|done|].
    intros fs' Hpre' Hst' Hrv Hgr Hob. apply wp_ret. split; [done|]. intros st' [= <-]. split.
    + apply good_post; [done..|]. apply Hpre'; [done|congruence].
    + unfold phase_in. rewrite Hst', Hst. field_values. simpl. rewrite Hph. by apply Hedge.
  - apply wp_bind, wp_read_rows. apply wp_bind, wp_check; [|done]. intros _. apply wp_ret.
    split; [done|]. intros st' [= <-]. split.
    + apply good_reset; [|done]. unfold u64_add. apply Z.mod_pos_bound. lia.
    + rewrite Hcur. field_values. by apply Hedge.
  - apply wp_ret. split; [done|]. intros st' [= <-]. split; [done|]. rewrite Hcur, Hph. apply Hrefl.
Qed.

(** The value of [--diff-hash] is one field. *)
Definition diff_clean (args : list string) : bool :=
  match args with
  | _ :: _ :: rest => match options rest with Ok o => clean_field (opt o "--diff-hash") | Err _ => true end
  | _ => true
  end.

Lemma transition_safe args fs :
  (forall a b, allowed_transition a b = true -> phi (Some a) (Some b)) ->
  diff_clean args = true -> pre fs -> safe (transition args) fs.
Proof.
  intros Hedge Hdiff. start. unfold safe, transition. destruct args as [|id [|target rest]]; try by apply wp_fail.
  do 3 wp_step. apply wp_open; [done|]. intros st Hid Hst. wp_step.
  match goal with Ho : options rest = Ok ?o |- _ =>
    assert (clean_field (opt o "--diff-hash") = true) as Hd by (cbn [diff_clean] in Hdiff; by rewrite Ho in Hdiff)
  end.
  apply wp_bind. eapply wp_mono; [by apply wp_transition_state|].
  intros [st'|e] fs' [Hpre' Hgood]; [|by apply pre_post]. destruct (Hgood _ eq_refl) as [Hg Hp].
  pose proof (pre_post _ Hpre') as Hpost'. wp_step.
  apply safe_env_tail; [done| |done|by field_values].
  match goal with |- good _ _ (<["updated_at" := ?now]> _) =>
    apply (good_untouched _ _ [("updated_at", now)]); [by cleans|done] end.
Qed.

(** *** Initialisation *)

Lemma init_table_safe id f header fs :
  id_ok id = true -> f <> "lifecycle.env" -> post fs ->
  safe (init_table (lfile dir id f) header) fs.
Proof.
  intros Hid Hf Hpost. pose proof (proj1 Hpost) as Hi. unfold safe, init_table. apply wp_bind, wp_is_file. lazy beta iota.
  case_bool_decide as Hex; [by apply wp_ret|]. apply wp_put_file; [|done].
  apply eq_None_not_Some in Hex. apply post_insert; [done..| |done].
  destruct (decide (f = "reviews.tsv")) as [->|H1].
  { apply inv_write_reviews; [done| |done]. unfold reviews_in at 1, rows_of. rewrite Hex.
    by intros r ?%elem_of_nil. }
  destruct (decide (f = "review-obligations.tsv")) as [->|H2].
  { apply inv_write_obligations; [done| |done]. unfold obligations_in at 1, rows_of. rewrite Hex.
    by intros r ?%elem_of_nil. }
  apply inv_insert_untracked; [done| |done]. unfold tracked, mem. simpl.
  by rewrite !(proj2 (String.eqb_neq _ _)) by done.
Qed.

Lemma init_tables_safe id fs : id_ok id = true -> post fs -> safe (init_tables (lifecycle_paths dir id)) fs.
Proof.
  intros Hid Hi. apply safe_bind; [by apply init_table_safe|]. intros _ fs1 Hi1.
  apply safe_bind; [by apply init_table_safe|]. intros _ fs2 Hi2. by apply init_table_safe.
Qed.

Lemma wp_copy_original_task id fs :
  id_ok id = true -> pre fs ->
  wp (copy_original_task (lifecycle_paths dir id))
    (fun r fs' => pre fs' /\ phase_in fs' id = phase_in fs id /\ forall task, r = Ok task -> clean task.1 = true /\ clean task.2 = true) fs.
Proof.
  intros Hid Hpre. unfold copy_original_task. destruct (env_nonempty _) as [source|].
  - apply wp_bind, wp_get_files. destruct (fs !! source) as [bytes|]; [|by apply wp_fail].
    apply wp_bind, wp_put_file; [|done]. apply wp_ret. split_and!.
    + apply (pre_insert id "original-task.md"); [done..| |done].
      apply inv_insert_untracked; [done..|apply Hpre].
    + by apply (phase_in_insert_ne id "original-task.md").
    + intros task [= <-]. split; [by apply (path_clean id "original-task.md")|apply hex_clean].
  - apply wp_ret. split_and!; [done..|]. by intros task [= <-].
Qed.

Lemma initialize_id_safe id resume fs :
  phi None (Some "pre-implementation") -> pre fs -> safe (initialize_id id resume) fs.
Proof.
  intros Hnew. start. unfold safe, initialize_id. apply wp_bind, wp_lift; [|done].
  intros p [Hid ->]%(paths_ok dir Hdir). apply wp_bind, wp_is_file. lazy beta iota.
  case_bool_decide as Hex.
  - apply wp_bind, wp_reader; [readers|].
    destruct (eval _ fs) as [st|e] eqn:E; [|done]. apply (eval_read_state dir) in E. do 3 wp_step.
    apply safe_env; [done| |done|unfold phase_in; rewrite E; field_values; apply Hrefl|].
    + apply good_untouched; [|by apply Hi]. cleans. apply clean_field_clean, u64_to_string_clean.
      unfold u64_add. apply Z.mod_pos_bound. lia.
    + intros _ fs1 Hi1. apply safe_bind; [by apply init_tables_safe|]. intros _ fs2 Hi2.
      apply safe_event; [done..|]. intros _ fs3 Hi3. by apply safe_println.
  - wp_step. apply wp_bind. eapply wp_mono; [by apply wp_copy_original_task|].
    intros [task|e] fs1 (Hpre1 & Hph & Htask); [|by apply pre_post]. destruct (Htask task) as [Ht1 Ht2]; [done|].
    apply safe_env; [done| |done|..].
    + apply good_initial; auto with multiagent. by apply clean_field_clean, id_ok_field.
    + apply eq_None_not_Some in Hex. rewrite Hph. unfold phase_in, state_in. change (state (lifecycle_paths dir id)) with (lfile dir id "lifecycle.env") in Hex. rewrite Hex.
      unfold initial_state. field_values. exact Hnew.
    + intros _ fs2 Hi2. apply safe_bind; [by apply init_tables_safe|]. intros _ fs3 Hi3.
      apply safe_event; [done..|]. intros _ fs4 Hi4. by apply safe_println.
Qed.

(** *** Completion *)

Lemma lfile_not_subagent id f : starts_with (path_join dir "subagents/") (lfile dir id f) = false.
Proof.
  destruct (starts_with _ _) eqn:E; [|done]. apply starts_with_spec in E as [r He].
  unfold lfile, path_join in He. rewrite !str_app_assoc in He. do 2 apply str_app_inj_l in He. done.
Qed.

Lemma wp_gate_check m Q fs :
  is_gate m ->
  (forall r fs', (forall id f, fs' !! lfile dir id f = fs !! lfile dir id f) -> Q r fs') ->
  wp m Q fs.
Proof.
  intros Hm HQ w r w' <- Hw. apply HQ. intros id f.
  eapply gate_frame; [exact Hm|exact Hdir|exact Hw|apply lfile_not_subagent].
Qed.

Lemma completable_reviewed fs id st kind :
  completable dir fs id st -> state_value st "phase" = "post-implementation" ->
  good (reviews_in dir fs id) (obligations_in dir fs id) st -> kind ∈ auto_kinds (state_value st "iteration") ->
  reviewed (reviews_in dir fs id) kind (state_value st "candidate_diff_hash") (state_value st "iteration").
Proof.
  intros Hc Hph Hg Hk. destruct (good_candidate _ _ _ Hg Hph) as (_ & _ & Ho).
  destruct (c_passed _ _ _ _ Hc kind) as (r & Hl & Hp); [left; by apply Ho|].
  apply last_review_in in Hl as (Hin & H1 & H3 & H5). by exists r.
Qed.

Lemma supervisor_complete_safe id fs :
  phi (Some "post-implementation") (Some "complete") -> pre fs -> safe (supervisor_complete id) fs.
Proof.
  intros Hdone. start. unfold safe, supervisor_complete. wp_step. apply wp_open; [done|]. intros before Hid Hst.
  wp_step. apply wp_bind, wp_reader; [readers|]. destruct (eval _ fs) as [st|e] eqn:E; [|done].
  apply (eval_completion_state dir Hdir) in E. pose proof (c_state _ _ _ _ E) as Hst'.
  rewrite Hst in Hst'. injection Hst' as <-. apply wp_bind, wp_gate_check; [by left|]. intros r fs' Hframe.
  assert (pre fs') as Hpre' by (by eapply pre_frame).
  pose proof (pre_post _ Hpre') as Hpost'. destruct r as [u|e]; [|done]. wp_step.
  match goal with Hp : String.eqb _ "post-implementation" = true |- _ => apply String.eqb_eq in Hp as Hph end.
  assert (reviews_in dir fs' id = reviews_in dir fs id) as Hrv
    by (unfold reviews_in, rows_of; by rewrite Hframe).
  assert (obligations_in dir fs' id = obligations_in dir fs id) as Hob
    by (unfold obligations_in, rows_of; by rewrite Hframe).
  apply safe_env; [done| |done|..].
  - rewrite Hrv, Hob. apply good_completed; auto with multiagent.
    intros kind Hk. apply completable_reviewed; auto.
  - unfold phase_in, state_in. rewrite Hframe. fold (state_in dir fs id). rewrite Hst. field_values.
    simpl. by rewrite Hph.
  - intros _ fs1 Hi1. apply safe_event; [done..|]. intros _ fs2 Hi2. by apply wp_ret.
Qed.
End Commands.
