(* ===== verification/CompletionFacts.v ===== *)
(** * CompletionFacts: the other ways to end a workflow keep the invariant *)

From S2P Require Import Prelude Text State Json Config Execution Dag Lifecycle Workflow Completion.
From S2P Require Import LifecycleFacts LifecycleGates WorkflowFacts.

(** ** Fields *)

Lemma not_started st :
  source_implementation_started st = false ->
  state_value st "preimplementation_gate" <> "passed"
  /\ forall k, k ∈ source_fields -> state_value st k = "".
Proof.
  unfold source_implementation_started. intros [Hg Hf]%orb_false_iff. split.
  - intros He. rewrite He in Hg. done.
  - intros k Hk. apply is_empty_true. rewrite existsb_false in Hf.
    apply list_elem_of_In in Hk. specialize (Hf _ Hk). by apply negb_false_iff in Hf.
Qed.

Lemma good_shortcut R O st result outcome now :
  source_implementation_started st = false -> clean result = true -> clean outcome = true ->
  clean now = true -> good R O st ->
  good R O (insert_all [("phase", "complete"); ("candidate_diff_hash", result);
                        ("reviewed_diff_hash", result); ("terminal_outcome", outcome);
                        ("updated_at", now)] st).
Proof.
  intros [Hg Hsrc]%not_started H1 H2 H3 [Hc Hi Hp Ha Hs Hd Hf]. split; [|field_values; try assumption..].
  - apply insert_all_clean; [|done]. cbn [forallb snd]. by rewrite H1, H2, H3.
  - done.
  - by intros [?|?].
  - done.
  - intros _. right. left. field_values. split_and!; [done|apply Hsrc; env_key..].
Qed.

(** Handing a workflow back to a human, with the request and its digest. *)
Lemma good_handed R O st result kvs :
  clean result = true ->
  forallb (fun kv => clean kv.2 && negb (mem kv.1 critical)) kvs = true -> good R O st ->
  good R O (insert_all ([("phase", "complete"); ("candidate_diff_hash", result);
                         ("reviewed_diff_hash", result); ("terminal_outcome", "review_requested")] ++ kvs) st).
Proof.
  intros H1 Hk [Hc Hi Hp Ha Hs Hd Hf]. unfold insert_all. rewrite foldl_app. fold insert_all.
  apply good_untouched; [done|]. split; [|field_values; try assumption..].
  - apply insert_clean; [done|]. apply insert_clean; [done|]. apply insert_clean; [done|].
    by apply insert_clean.
  - done.
  - by intros [?|?].
  - done.
  - intros _. left. by field_values.
Qed.

Lemma parse_request_reason report question reason :
  parse_human_review_request report = Ok (Some (question, reason)) -> clean reason = true.
Proof.
  unfold parse_human_review_request. intros Hr. repeat case_match; simplify_eq/=; done.
Qed.

Section Routes.
Context `{Platform} `{Environment} `{HC : !ClockClean} `{HS : !HashShape} `{HP : !CleanPaths}
  `{HG : !GateFrame} `{JsonCodec} `{JsonPretty}.
Context (dir : string) (Hdir : state_dir = Ok dir) (Hclean : clean dir = true).
Context (S T : gmap string string -> Prop) (phi : option string -> option string -> Prop).
Context (HS_phases : of_phases dir S) (HT_phases : of_phases dir T) (HST : forall fs, S fs -> T fs).
Context (Hphi : forall fs fs' id, id_ok id = true -> S fs ->
  (forall id', id_ok id' = true -> id' <> id -> phase_in dir fs' id' = phase_in dir fs id') ->
  phi (phase_in dir fs id) (phase_in dir fs' id) -> T fs').
Context (Hshort : phi (Some "pre-implementation") (Some "complete")).
Context (Hend : forall a, a <> "complete" -> phi (Some a) (Some "complete")).

Lemma reader_configured : reader configured.
Proof. unfold configured, read_to_string. readers. Qed.
Lemma reader_observe_authority : reader require_observe_authority.
Proof. unfold require_observe_authority. pose proof reader_configured. readers. Qed.
Lemma reader_result_hash d : reader (shortcut_result_hash d).
Proof. unfold shortcut_result_hash. readers. Qed.
Lemma reader_question id reviewer : reader (reviewer_human_review_question id reviewer).
Proof. unfold reviewer_human_review_question. readers. Qed.
#[local] Hint Resolve reader_observe_authority reader_result_hash reader_question : readers.

Lemma eval_sha256_clean p fs d : eval (sha256 p) fs = Ok d -> clean d = true.
Proof.
  intros Hd%eval_sha256. unfold digest_of in Hd. destruct (fs !! p); simplify_eq/=. apply hex_clean.
Qed.
Lemma result_hash_clean d fs h : eval (shortcut_result_hash d) fs = Ok h -> clean h = true.
Proof.
  unfold shortcut_result_hash. rewrite eval_bind by readers. simpl. intros Hh.
  apply eval_check_then in Hh as [_ Hh]. by eapply eval_sha256_clean.
Qed.

Lemma question_facts id reviewer fs question reason :
  eval (reviewer_human_review_question id reviewer) fs = Ok (Some (question, reason)) ->
  clean reviewer = true /\ clean reason = true.
Proof.
  unfold reviewer_human_review_question. rewrite Hdir. intros Hq.
  rewrite eval_bind in Hq by readers. apply rbind_ok in Hq as (u & Hv & Hq).
  change (valid_id "human-review reviewer" reviewer = Ok u) in Hv.
  apply valid_id_ok, id_ok_field, clean_field_clean in Hv.
  rewrite eval_bind in Hq by readers. simpl in Hq. rewrite eval_bind in Hq by readers.
  apply rbind_ok in Hq as (metadata & _ & Hq). apply eval_check_then in Hq as [_ Hq].
  rewrite eval_bind in Hq by readers. simpl in Hq. rewrite eval_bind in Hq by readers.
  apply rbind_ok in Hq as (report & _ & Hq). apply eval_check_then in Hq as [_ Hq].
  split; [done|]. exact (parse_request_reason _ _ _ Hq).
Qed.

(** The last write of a route that ends the workflow. *)
Lemma safe_end {A} id st st' name detail (a : A) fs :
  id_ok id = true -> state_in dir fs id = Some st -> phi (Some (state_value st "phase")) (Some "complete") ->
  state_value st' "phase" = "complete" ->
  good (reviews_in dir fs id) (obligations_in dir fs id) st' -> pre dir S fs ->
  safe dir T (let! _ := write_env (lfile dir id "lifecycle.env") st' in
        let! _ := event (lfile dir id "events.log") name detail in ret a) fs.
Proof.
  intros Hid Hst Hph Hph' Hg Hpre. eapply safe_env; eauto.
  - unfold phase_in. rewrite Hst. simpl. by rewrite Hph'.
  - intros _ fs' Hp. eapply safe_event; eauto. intros _ fs'' Hp'. by apply wp_ret.
Qed.

Notation pre' := (pre dir S).
Notation post' := (post dir T).
Notation safe' := (safe dir T).

Lemma post_of_pre fs : pre' fs -> post' fs.
Proof. intros [Hi Hs]. split; auto. Qed.

Lemma frame_state id fs fs' :
  (forall id f, fs' !! lfile dir id f = fs !! lfile dir id f) -> state_in dir fs' id = state_in dir fs id.
Proof. intros He. unfold state_in. by rewrite He. Qed.

Lemma wp_shortcut_state id Q fs :
  id_ok id = true -> pre' fs -> (forall e fs', post' fs' -> Q (Err e) fs') ->
  (forall st fs', pre' fs' -> state_in dir fs' id = Some st -> state_value st "phase" = "pre-implementation" ->
     source_implementation_started st = false -> Q (Ok st) fs') ->
  wp (shortcut_completion_state dir (lifecycle_paths dir id) id) Q fs.
Proof.
  intros Hid Hpre He HQ. pose proof (post_of_pre _ Hpre) as Hpost. unfold shortcut_completion_state.
  apply wp_bind, wp_reader; [readers|].
  change (state (lifecycle_paths dir id)) with (lfile dir id "lifecycle.env").
  destruct (eval _ fs) as [st|e] eqn:E; [|auto]. apply eval_read_state in E.
  apply wp_bind, wp_check; [|auto]. intros Hph%String.eqb_eq.
  apply wp_bind, wp_check; [|auto]. intros Hns%negb_true_iff.
  apply wp_bind, wp_reader; [readers|]. destruct (eval _ fs); [|auto].
  apply wp_bind, wp_read_rows. apply wp_bind, wp_check; [intros _|auto].
  apply wp_bind, wp_lift; [intros r _|auto]. apply wp_bind, wp_get_files.
  apply wp_bind, wp_lift; [intros diff _|auto]. do 3 (apply wp_bind, wp_check; [intros _|auto]).
  apply wp_bind. eapply wp_gate_check; eauto; [by right|]. intros r' fs' Hframe.
  assert (pre' fs') as Hpre1 by (eapply pre_frame; eauto). destruct r' as [u|e]; [|by apply He, post_of_pre].
  apply wp_ret, HQ; auto. by rewrite (frame_state id fs fs').
Qed.

Lemma complete_shortcut_safe id st route result fs :
  id_ok id = true -> pre' fs -> state_in dir fs id = Some st ->
  state_value st "phase" = "pre-implementation" -> source_implementation_started st = false ->
  clean result = true -> safe' (complete_shortcut (lifecycle_paths dir id) st route result) fs.
Proof.
  intros Hid Hpre Hst Hph Hns Hr. pose proof (post_of_pre _ Hpre) as Hpost. unfold safe, complete_shortcut.
  apply wp_bind, wp_timestamp. intros now Hnow. eapply safe_env; eauto.
  - apply good_shortcut; auto with multiagent. by apply (proj1 Hpre).
  - unfold phase_in. rewrite Hst. field_values. simpl. by rewrite Hph.
  - intros _ fs' Hp. unfold event. apply wp_bind, wp_timestamp. intros now' _. apply wp_append_file; [|done].
    intros t. by eapply post_untracked.
Qed.

(** A shortcut ends with the hash of the persisted result. *)
Lemma safe_shortcut_end id st route prefix fs :
  id_ok id = true -> pre' fs -> state_in dir fs id = Some st ->
  state_value st "phase" = "pre-implementation" -> source_implementation_started st = false ->
  clean prefix = true ->
  safe' (let! hash := shortcut_result_hash dir in
         let! _ := complete_shortcut (lifecycle_paths dir id) st route (prefix +:+ hash) in
         ret (prefix +:+ hash)) fs.
Proof.
  intros Hid Hpre Hst Hph Hns Hp. pose proof (post_of_pre _ Hpre) as Hpost. unfold safe.
  apply wp_bind, wp_reader; [readers|]. destruct (eval _ fs) as [h|e] eqn:E; [|done].
  eapply safe_bind; [apply complete_shortcut_safe; eauto|intros _ fs' Hp'; by apply wp_ret].
  rewrite clean_app, Hp. by eapply result_hash_clean.
Qed.

Ltac begin :=
  let Hpre := fresh "Hpre" in
  intros Hpre; pose proof (post_of_pre _ Hpre) as Hpost; unfold safe;
  apply wp_bind, wp_lift; [intros ? _|done].

(** [state_dir] and the paths. *)
Lemma wp_paths {A} id (k : string -> Paths -> IO A) Q fs :
  (forall e, Q (Err e) fs) -> (id_ok id = true -> wp (k dir (lifecycle_paths dir id)) Q fs) ->
  wp (let! d := lift state_dir in let! p := lift (paths id) in k d p) Q fs.
Proof.
  intros He Hk. rewrite Hdir. apply wp_bind, wp_lift; [|done]. intros d [= <-].
  apply wp_bind, wp_lift; [|auto]. intros p [Hid ->]%(paths_ok dir Hdir). auto.
Qed.

Lemma complete_direct_safe id fs : pre' fs -> safe' (supervisor_complete_direct id) fs.
Proof.
  unfold supervisor_complete_direct. begin. apply wp_paths; [done|]. intros Hid.
  apply wp_bind, wp_shortcut_state; [done..|]. intros st fs' Hpre' Hst Hph Hns.
  pose proof (post_of_pre _ Hpre') as Hpost'. do 2 wp_step. by apply safe_shortcut_end.
Qed.

Lemma complete_observe_safe id fs : pre' fs -> safe' (supervisor_complete_observe id) fs.
Proof.
  unfold supervisor_complete_observe. begin. wp_step. apply wp_paths; [done|]. intros Hid.
  apply wp_bind, wp_shortcut_state; [done..|]. intros st fs' Hpre' Hst Hph Hns.
  pose proof (post_of_pre _ Hpre') as Hpost'. do 2 wp_step. by apply safe_shortcut_end.
Qed.

(** Recording the integrity review keeps everything but the tables. *)
Lemma wp_record_integrity id st reviewer fs :
  id_ok id = true -> pre' fs ->
  wp (record_integrity dir (lifecycle_paths dir id) id st reviewer)
    (fun _ fs' => pre' fs' /\ state_in dir fs' id = state_in dir fs id) fs.
Proof.
  intros Hid Hpre. unfold record_integrity.
  assert (pre' fs /\ state_in dir fs id = state_in dir fs id) as Hok by done.
  do 9 wp_step. destruct (existsb _ _); [by apply wp_ret|]. wp_step.
  assert (forall f t, f <> "lifecycle.env" -> forall fs1, state_in dir (<[lfile dir id f := t]> fs1) id = state_in dir fs1 id) as Hne.
  { intros f t Hf fs1. unfold state_in. by rewrite lookup_insert_ne by (apply lfile_ne; [done..|by left]). }
  apply wp_bind, wp_put_file; [|done].
  match goal with |- wp _ _ (<[_ := unlines (_ :: map encode_fields (_ ++ ?l))]> _) =>
    pose proof (inv_append_review dir id l fs Hid (proj1 Hpre)) as Hi' end.
  match goal with |- wp _ _ ?fs' => assert (pre' fs') as Hpre' by (by eapply pre_insert) end.
  unfold event. apply wp_bind, wp_timestamp. intros now' _. apply wp_append_file; [|split; [done|by apply Hne]].
  intros t. split; [|etransitivity; by apply Hne]. eapply pre_insert; eauto. by apply inv_insert_untracked; [..|apply Hpre'].
Qed.

Lemma complete_read_only_safe id reviewer fs : pre' fs -> safe' (supervisor_complete_read_only id reviewer) fs.
Proof.
  unfold supervisor_complete_read_only. begin. wp_step. apply wp_paths; [done|]. intros Hid.
  apply wp_bind, wp_shortcut_state; [done..|]. intros st fs' Hpre' Hst Hph Hns.
  pose proof (post_of_pre _ Hpre') as Hpost'. do 3 wp_step. apply wp_bind.
  destruct reviewer as [name|]; [|apply wp_ret; by apply safe_shortcut_end].
  eapply wp_mono; [by apply wp_record_integrity|]. intros [u|e] fs1 [Hpre1 Hst1]; [|by apply post_of_pre].
  apply safe_shortcut_end; first [done | by rewrite Hst1].
Qed.

Lemma complete_external_safe id fs : pre' fs -> safe' (supervisor_complete_external id) fs.
Proof.
  unfold supervisor_complete_external. begin. apply wp_paths; [done|]. intros Hid.
  apply wp_bind, wp_reader; [readers|].
  change (state (lifecycle_paths dir id)) with (lfile dir id "lifecycle.env").
  destruct (eval _ fs) as [st|e] eqn:E; [|done]. apply eval_read_state in E.
  apply wp_bind, wp_check; [|done]. intros Hph%String.eqb_eq.
  apply wp_bind, wp_check; [|done]. intros Hns%negb_true_iff. do 6 wp_step.
  apply wp_bind. eapply wp_gate_check; eauto; [by right|]. intros r' fs' Hframe.
  assert (pre' fs') as Hpre1 by (eapply pre_frame; eauto). pose proof (post_of_pre _ Hpre1) as Hpost1.
  destruct r' as [u|e]; [|done]. wp_step.
  eapply safe_end; eauto; [by rewrite (frame_state id fs fs')|by rewrite Hph|by field_values|].
  apply good_shortcut; auto with multiagent.
  - rewrite clean_app. by rewrite (clean_field_clean (u64_to_string _)) by (apply u64_to_string_clean; lia).
  - by destruct (0 <? _)%nat.
  - apply (proj1 Hpre1); [done|by rewrite (frame_state id fs fs')].
Qed.

(** Writing the artifacts of a request next to the lifecycle. *)
Lemma wp_artifact {A} id f t e st (k : unit -> IO A) Q fs :
  id_ok id = true -> tracked f = false -> pre' fs -> state_in dir fs id = Some st ->
  (forall e', Q (Err e') fs) ->
  (forall fs', pre' fs' -> state_in dir fs' id = Some st -> fs' !! lfile dir id f = Some t -> wp (k tt) Q fs') ->
  wp (let! u := put_file (lfile dir id f) t e in k u) Q fs.
Proof.
  intros Hid Hf Hpre Hst He Hk. apply wp_bind, wp_put_file; [|done]. apply Hk.
  - eapply pre_insert; eauto; [by intros ->|]. by apply inv_insert_untracked; [..|apply Hpre].
  - unfold state_in in *. rewrite lookup_insert_ne; [done|]. apply lfile_ne; [done..|]. left. by intros ->.
  - apply lookup_insert_eq.
Qed.

Lemma request_review_safe id paths ops fs : pre' fs -> safe' (supervisor_request_review id paths ops) fs.
Proof.
  unfold supervisor_request_review. begin. wp_step. apply wp_paths; [done|]. intros Hid.
  unfold observe_completion_state. apply wp_bind, wp_bind, wp_reader; [readers|].
  change (state (lifecycle_paths dir id)) with (lfile dir id "lifecycle.env").
  destruct (eval (read_state _ _) fs) as [st|e] eqn:E; [|done]. apply eval_read_state in E.
  apply wp_bind, wp_check; [|done]. intros Hph%String.eqb_eq. apply wp_bind, wp_reader; [readers|].
  destruct (eval (validate_original_task _) fs); [|done]. apply wp_ret. do 4 wp_step.
  change (base (lifecycle_paths dir id)) with (path_join (path_join (path_join dir "workflows") id) "lifecycle").
  eapply (wp_artifact id "human-review-request.md"); eauto. intros fs1 Hpre1 Hst1 _.
  pose proof (post_of_pre _ Hpre1) as Hpost1.
  eapply (wp_artifact id "human-review-repair-paths.json"); eauto. intros fs2 Hpre2 Hst2 _.
  pose proof (post_of_pre _ Hpre2) as Hpost2.
  eapply (wp_artifact id "human-review-effects.json"); eauto. intros fs3 Hpre3 Hst3 _.
  pose proof (post_of_pre _ Hpre3) as Hpost3. do 4 wp_step.
  repeat match goal with Hs : eval (sha256 _) _ = Ok _ |- _ => apply eval_sha256_clean in Hs end.
  eapply safe_end; eauto; [by rewrite Hph|by field_values|].
  match goal with |- good _ _ (insert_all (?a :: ?b :: ?c :: ?d :: ?l) _) =>
    apply (good_handed _ _ st _ l) end.
  - by rewrite clean_app.
  - cbn [forallb fst snd]. rewrite !andb_true_iff. split_and!; try done; try (by apply clean_field_clean).
    all: by apply (path_clean dir Hclean id).
  - by apply (proj1 Hpre3).
Qed.

Lemma human_review_safe id reviewer fs : pre' fs -> safe' (supervisor_complete_human_review id reviewer) fs.
Proof.
  unfold supervisor_complete_human_review. begin.
  apply wp_bind, wp_reader; [readers|]. destruct (eval _ fs) as [asked|e] eqn:Eq; [|done]. wp_step.
  apply wp_paths; [done|]. intros Hid. apply wp_bind, wp_reader; [readers|].
  change (state (lifecycle_paths dir id)) with (lfile dir id "lifecycle.env").
  destruct (eval (read_state _ _) fs) as [st|e] eqn:E; [|done]. apply eval_read_state in E.
  apply wp_bind, wp_check; [|done]. intros Hph%negb_true_iff%String.eqb_neq. do 3 wp_step.
  change (base (lifecycle_paths dir id)) with (path_join (path_join (path_join dir "workflows") id) "lifecycle").
  eapply (wp_artifact id "human-review-request.md"); eauto. intros fs1 Hpre1 Hst1 _.
  pose proof (post_of_pre _ Hpre1) as Hpost1. do 2 wp_step.
  match goal with Hs : eval (sha256 _) _ = Ok _ |- _ => apply eval_sha256_clean in Hs end.
  match goal with Ha : ok_or asked _ = Ok ?q |- _ => apply ok_or_ok in Ha as ->; destruct q as [question reason] end.
  destruct (question_facts _ _ _ _ _ Eq) as [Hrev Hreason].
  eapply safe_end; eauto; [by field_values|].
  match goal with |- good _ _ (insert_all (?a :: ?b :: ?c :: ?d :: ?l) _) =>
    apply (good_handed _ _ st _ l) end.
  - by rewrite clean_app.
  - cbn [forallb fst snd]. rewrite !andb_true_iff. split_and!; try done; try (by apply clean_field_clean).
    by apply (path_clean dir Hclean id).
  - by apply (proj1 Hpre1).
Qed.
End Routes.
