(* ===== verification/WorkflowRuns.v ===== *)
(** * WorkflowRuns: the commands on the lifecycles, and what they do when they fail

    One type of commands for [runtime/src/workflow.rs], the changes of a phase
    each may make, the runs of a system of processes, and that a refused
    command leaves the lifecycles as they were. *)

From S2P Require Import Prelude Text State Json Config Execution Dag Lifecycle Workflow Completion.
From S2P Require Import LifecycleFacts LifecycleGates WorkflowFacts CompletionFacts.

(** ** Commands and runs *)

Inductive Op :=
| Initialize (args : list string)
| InitOrResume (args : list string)
| RegisterContract (args : list string)
| SealIteration (args : list string)
| Prepare (args : list string)
| Transition (args : list string)
| AddTodo (args : list string)
| TodoStatus (args : list string)
| ResolveTodo (args : list string)
| RequireReview (args : list string)
| RecordReview (args : list string)
| Gate (args : list string)
| Complete (id : string)
| CompleteExternal (id : string)
| CompleteDirect (id : string)
| CompleteObserve (id : string)
| CompleteReadOnly (id : string) (reviewer : option string)
| RequestHumanReview (id : string) (repair_paths : list string) (reviewed_ops : bool)
| CompleteHumanReview (id reviewer : string).

Section Runs.
Context `{Platform} `{Environment} `{JsonCodec} `{JsonPretty}.

Definition run_op (op : Op) : IO unit :=
  match op with
  | Initialize args => initialize args false
  | InitOrResume args => init_or_resume args
  | RegisterContract args => register_contract args
  | SealIteration args => seal_iteration args
  | Prepare args => prepare args
  | Transition args => transition args
  | AddTodo args => add_todo args
  | TodoStatus args => todo_status args
  | ResolveTodo args => resolve_todo args
  | RequireReview args => require_review args
  | RecordReview args => record_review args
  | Gate args => gate args
  | Complete id => let! _ := supervisor_complete id in ret tt
  | CompleteExternal id => let! _ := supervisor_complete_external id in ret tt
  | CompleteDirect id => let! _ := supervisor_complete_direct id in ret tt
  | CompleteObserve id => let! _ := supervisor_complete_observe id in ret tt
  | CompleteReadOnly id reviewer => let! _ := supervisor_complete_read_only id reviewer in ret tt
  | RequestHumanReview id repair_paths reviewed_ops =>
      let! _ := supervisor_request_review id repair_paths reviewed_ops in ret tt
  | CompleteHumanReview id reviewer => let! _ := supervisor_complete_human_review id reviewer in ret tt
  end.

(** The diff hash of a transition is one line without tabs. *)
Definition op_clean (op : Op) : bool :=
  match op with Transition args => diff_clean args | _ => true end.

(** The commands that end a workflow without a source change. *)
Definition shortcut (op : Op) : bool :=
  match op with
  | CompleteExternal _ | CompleteDirect _ | CompleteObserve _ | CompleteReadOnly _ _
  | RequestHumanReview _ _ _ => true
  | _ => false
  end.

(** The changes of a phase a command may make. *)
Inductive phase_step : Op -> option string -> option string -> Prop :=
| phase_same op a : phase_step op a a
| phase_initialize args : phase_step (Initialize args) None (Some "pre-implementation")
| phase_init_or_resume args : phase_step (InitOrResume args) None (Some "pre-implementation")
| phase_implement args :
    phase_step (Transition args) (Some "pre-implementation") (Some "implementation")
| phase_freeze args :
    phase_step (Transition args) (Some "implementation") (Some "post-implementation")
| phase_repair args :
    phase_step (Transition args) (Some "post-implementation") (Some "pre-implementation")
| phase_complete id : phase_step (Complete id) (Some "post-implementation") (Some "complete")
| phase_shortcut op :
    shortcut op = true -> phase_step op (Some "pre-implementation") (Some "complete")
| phase_human id reviewer a :
    a <> "complete" -> phase_step (CompleteHumanReview id reviewer) (Some a) (Some "complete").

(** One step of a system of processes around the lifecycles: a command, with
    any faults of the disk, or a change of files outside the lifecycles. *)
Inductive lifecycle_step (dir : string) : gmap string string -> gmap string string -> Prop :=
| step_op op w r w' : op_clean op = true -> run_op op w = (r, w') -> lifecycle_step dir (files w) (files w')
| step_other fs fs' :
    (forall id f, id_ok id = true -> fs' !! lfile dir id f = fs !! lfile dir id f) ->
    lifecycle_step dir fs fs'.

Definition reachable (dir : string) (fs : gmap string string) : Prop :=
  exists fs0, (forall id f, id_ok id = true -> fs0 !! lfile dir id f = None) /\ rtc (lifecycle_step dir) fs0 fs.

End Runs.

Lemma allowed_transition_step args a b :
  allowed_transition a b = true -> phase_step (Transition args) (Some a) (Some b).
Proof.
  unfold allowed_transition. intros Ha. repeat (apply orb_true_iff in Ha as [Ha|Ha]);
    apply andb_true_iff in Ha as [->%String.eqb_eq ->%String.eqb_eq]; constructor.
Qed.

(** ** Refused commands *)

Section Refusals.
Context `{Platform} `{Environment} `{JsonCodec} `{JsonPretty}.

Ltac keeps_reads :=
  repeat first
    [ match goal with |- keeps_files (bind _ _) => apply keeps_bind; [|intros ?] end
    | progress (auto with keeps)
    | apply reader_keeps; solve [readers]
    | case_goal ].

(** Checks and reads up to the first write. *)
Ltac refuses :=
  repeat first
    [ apply rejects_no_fail; solve [no_fail]
    | match goal with |- rejects (bind _ _) => apply rejects_bind; [solve [keeps_reads]|intros ?] end
    | apply rejects_keeps; solve [keeps_reads]
    | case_goal ].

Lemma no_fail_event p name detail : no_fail (event p name detail).
Proof. unfold event. no_fail. Qed.
Lemma no_fail_write_env p st : no_fail (write_env p st).
Proof. apply no_fail_atomic_write. Qed.
Lemma no_fail_write_rows p h rows : no_fail (write_rows p h rows).
Proof. apply no_fail_atomic_write. Qed.
Lemma no_fail_read_rows n p : no_fail (read_rows n p).
Proof.
  intros w r w' Hf. unfold read_rows, bind, get_files. destruct (files w !! p); intros [= <- <-]; eauto.
Qed.
Lemma no_fail_satisfy kind diff iteration rid rows : no_fail (satisfy_obligations kind diff iteration rid rows).
Proof. induction rows; cbn [satisfy_obligations]; no_fail. Qed.
Lemma no_fail_init_table p h : no_fail (init_table p h).
Proof.
  unfold init_table. apply no_fail_bind; [|intros []; no_fail].
  intros w r w' Hf [= <- <-]. eauto.
Qed.
#[local] Hint Resolve no_fail_event no_fail_write_env no_fail_write_rows no_fail_read_rows no_fail_satisfy
  no_fail_init_table : rejects.

Lemma rejects_candidate p iteration diff : rejects (candidate_obligations p iteration diff).
Proof.
  unfold candidate_obligations, read_review_obligations, write_review_obligations. refuses.
Qed.
Ltac sounds :=
  repeat first
    [ apply sound_keeps; solve [keeps_reads]
    | apply sound_no_fail; solve [no_fail]
    | match goal with |- sound (bind _ _) => apply sound_bind; [|intros ?] end
    | case_goal ].

Lemma rejects_copy_task p : rejects (copy_original_task p) /\ sound (copy_original_task p).
Proof. unfold copy_original_task. split; [refuses|sounds]. Qed.

Lemma rejects_initialize id resume : rejects (initialize_id id resume).
Proof.
  unfold initialize_id, init_tables. do 2 (apply rejects_bind; [solve [keeps_reads]|intros ?]).
  case_goal; [refuses|]. apply rejects_bind; [keeps_reads|intros stamp].
  destruct (rejects_copy_task a). apply rejects_then; [done..|]. intros task. no_fail.
Qed.

Lemma rejects_transition_state p id current target diff st :
  rejects (transition_state p id current target diff st) /\ sound (transition_state p id current target diff st).
Proof.
  assert (forall iteration, sound (candidate_obligations p iteration diff)) as Hs.
  { intros. unfold candidate_obligations, read_review_obligations, write_review_obligations. sounds. }
  unfold transition_state, read_todos. split.
  - case_goal; [refuses|]. case_goal; [|refuses]. apply rejects_bind; [keeps_reads|intros _].
    apply rejects_then; [apply rejects_candidate|apply Hs|intros _; no_fail].
  - case_goal; [sounds|]. case_goal; [|sounds]. apply sound_bind; [sounds|intros _].
    apply sound_bind; [apply Hs|intros _; sounds].
Qed.

Lemma rejects_transition args : rejects (transition args).
Proof.
  unfold transition. destruct args as [|id [|target rest]]; [refuses..|].
  do 6 (apply rejects_bind; [solve [keeps_reads]|intros ?]).
  destruct (rejects_transition_state a2 id (state_value a3 "phase") target (opt a1 "--diff-hash") a3).
  apply rejects_then; [done..|]. intros st. no_fail.
Qed.

(** The commands of the lifecycle itself; the others end a workflow. *)
Definition manages (op : Op) : bool :=
  match op with
  | Complete _ | CompleteExternal _ | CompleteDirect _ | CompleteObserve _ | CompleteReadOnly _ _
  | RequestHumanReview _ _ _ | CompleteHumanReview _ _ => false
  | _ => true
  end.

Lemma run_op_rejects op : manages op = true -> rejects (run_op op).
Proof.
  destruct op; intros Hc; try done; clear Hc; cbn [run_op].
  - unfold initialize. destruct args as [|id [|]]; [refuses|apply rejects_initialize|refuses].
  - unfold init_or_resume. destruct args as [|id rest]; [refuses|].
    do 3 (apply rejects_bind; [solve [keeps_reads]|intros ?]). apply rejects_initialize.
  - unfold register_contract. refuses.
  - unfold seal_iteration. refuses.
  - unfold prepare, read_reviews, read_todos. refuses.
  - apply rejects_transition.
  - unfold add_todo, read_todos, write_todos. refuses.
  - unfold todo_status, read_todos, write_todos. refuses.
  - unfold resolve_todo, read_todos, write_todos. refuses.
  - unfold require_review, read_review_obligations, write_review_obligations. refuses.
  - unfold record_review, read_reviews, write_reviews, read_review_obligations, write_review_obligations. refuses.
  - unfold gate. refuses.
Qed.
End Refusals.

(** ** Refused completions *)

Section Completions.
Context `{Platform} `{Environment} `{JsonCodec} `{JsonPretty} `{HG : !GateFrame}.
Context (dir : string) (Hdir : state_dir = Ok dir).

(** [spares m]: when [m] fails on a sound disk, the lifecycles are as before. *)
Definition spares {A} (m : IO A) : Prop :=
  forall w e w', faults w = [] -> m w = (Err e, w') ->
    forall id f, files w' !! lfile dir id f = files w !! lfile dir id f.

Lemma spares_bind {A B} (m : IO A) (k : A -> IO B) :
  keeps_files m -> (forall a, spares (k a)) -> spares (bind m k).
Proof.
  intros Hm Hk w e w' Hf. unfold bind. destruct (m w) as [[a|e1] w1] eqn:E; intros Hr id f;
    destruct (Hm _ _ _ E) as [Hfs Hfa].
  - rewrite <- Hfs. eapply Hk; [|exact Hr]. congruence.
  - injection Hr as _ <-. by rewrite Hfs.
Qed.

Lemma spares_gate {A} (m : IO unit) (k : unit -> IO A) :
  is_gate m -> (forall u, spares (k u)) -> spares (bind m k).
Proof.
  intros Hm Hk w e w' Hf. unfold bind. destruct (m w) as [r w1] eqn:E.
  assert (forall id f, files w1 !! lfile dir id f = files w !! lfile dir id f) as Hframe.
  { intros id f. eapply gate_frame; [exact Hm|exact Hdir|exact E|by apply lfile_not_subagent]. }
  destruct r as [u|e1]; intros Hr id f.
  - rewrite <- Hframe. eapply Hk; [|exact Hr]. by eapply gate_faults.
  - injection Hr as _ <-. apply Hframe.
Qed.

Lemma spares_no_fail {A} (m : IO A) : no_fail m -> spares m.
Proof. intros Hm w e w' Hf Hw. by destruct (Hm _ _ _ Hf Hw) as [[a ?] _]. Qed.
Lemma spares_keeps {A} (m : IO A) : keeps_files m -> spares m.
Proof. intros Hm w e w' Hf Hw id f. by destruct (Hm _ _ _ Hw) as [-> _]. Qed.
Lemma spares_assoc {A B C} (m : IO A) (k : A -> IO B) (h : B -> IO C) :
  spares (let! a := m in let! b := k a in h b) -> spares (let! b := (let! a := m in k a) in h b).
Proof.
  intros Hs w e w' Hf Hw id f. apply (Hs w e w' Hf). revert Hw. unfold bind.
  by destruct (m w) as [[a|e1] w1].
Qed.

(** [total m fs]: on a sound disk with the files [fs] the command succeeds. *)
Definition total {A} (m : IO A) (fs : gmap string string) : Prop :=
  forall w, files w = fs -> faults w = [] -> exists a w', m w = (Ok a, w').

Lemma total_put {A} p t e (k : unit -> IO A) fs :
  total (k tt) (<[p := t]> fs) -> total (bind (put_file p t e) k) fs.
Proof.
  intros Hk w <- Hf. unfold bind, put_file. rewrite Hf. by apply Hk.
Qed.
Lemma total_sha256 {A} p (k : string -> IO A) fs :
  is_Some (fs !! p) -> (forall d, total (k d) fs) -> total (bind (sha256 p) k) fs.
Proof.
  intros [t Ht] Hk w <- Hf. unfold bind, sha256, get_files, bind. simpl. rewrite Ht. by apply Hk.
Qed.
Lemma total_no_fail {A} (m : IO A) fs : no_fail m -> total m fs.
Proof. intros Hm w _ Hf. destruct (m w) as [r w'] eqn:E. destruct (Hm _ _ _ Hf E) as [[a ->] _]. eauto. Qed.
Lemma spares_total {A} (m : IO A) : (forall fs, total m fs) -> spares m.
Proof. intros Hm w e w' Hf Hw. destruct (Hm _ w eq_refl Hf) as (a & w1 & Hw1). congruence. Qed.

Ltac spare :=
  repeat first
    [ apply spares_no_fail; solve [unfold complete_shortcut, event, write_env; no_fail]
    | match goal with |- spares (bind (bind _ _) _) => apply spares_assoc end
    | match goal with |- spares (bind ?m _) => apply (spares_gate m); [first [by left|by right]|intros ?] end
    | match goal with |- spares (bind _ _) =>
        apply spares_bind; [solve [keeps | apply reader_keeps; readers]|intros ?] end ].

Lemma complete_spares wid : spares (supervisor_complete wid).
Proof.
  unfold supervisor_complete. spare.
Qed.


Lemma shortcut_spares wid :
  spares (supervisor_complete_external wid) /\ spares (supervisor_complete_direct wid)
  /\ spares (supervisor_complete_observe wid) /\ spares (supervisor_complete_read_only wid None).
Proof.
  unfold supervisor_complete_external, supervisor_complete_direct, supervisor_complete_observe,
    supervisor_complete_read_only, shortcut_completion_state, shortcut_result_hash, require_observe_authority,
    configured, read_todos, read_to_string.
  split_and!; spare.
Qed.

Lemma human_spares wid repair_paths reviewed_ops reviewer :
  spares (supervisor_request_review wid repair_paths reviewed_ops)
  /\ spares (supervisor_complete_human_review wid reviewer).
Proof.
  unfold supervisor_request_review, supervisor_complete_human_review, observe_completion_state,
    reviewer_human_review_question, require_observe_authority, configured, read_to_string.
  split; spare; apply spares_total; intros fs; unfold atomic_write;
    repeat (apply total_put || (apply total_sha256; [rewrite ?lookup_insert_is_Some'; naive_solver|intros ?]));
    apply total_no_fail; unfold event, write_env; no_fail.
Qed.

Lemma run_op_spares op :
  match op with CompleteReadOnly _ (Some _) => False | _ => True end -> spares (run_op op).
Proof.
  intros Hop. destruct (manages op) eqn:Hm.
  { intros w e w' Hf Hrun id f. by rewrite (run_op_rejects op Hm w e w' Hf Hrun). }
  assert (forall A (m : IO A), spares m -> spares (let! _ := m in ret tt)) as Hret.
  { intros A m Hs w e w' Hf [Hrun|(d & w1 & _ & [=])]%bind_err. by eapply Hs. }
  destruct op as [| | | | | | | | | | | |wid|wid|wid|wid|wid reviewer|wid repair_paths ops|wid reviewer];
    try discriminate Hm; cbn [run_op]; apply Hret.
  - apply complete_spares.
  - apply (proj1 (shortcut_spares wid)).
  - apply (proj1 (proj2 (shortcut_spares wid))).
  - apply (proj1 (proj2 (proj2 (shortcut_spares wid)))).
  - destruct reviewer; [done|]. apply (proj2 (proj2 (proj2 (shortcut_spares wid)))).
  - apply (proj1 (human_spares wid repair_paths ops "")).
  - apply (proj2 (human_spares wid [] false reviewer)).
Qed.
End Completions.
