(* ===== verification/FindingsProps.v ===== *)
(** * FindingsProps: from a resolution to a closed TODO

    What a worker resolves and a verifier closes passes the audit of the final
    gate: the writers and the auditor agree on the files between them. *)

From S2P Require Import Prelude Text State Json LogModel Config Execution Dag Lifecycle Snapshot Findings FinalGate.
From S2P Require Import FinalGateFacts FindingsFacts Instances.

Tactic Notation "lift_as" simple_intropattern(x) simple_intropattern(H) :=
  apply ok_bind, ok_lift; intros x H; cbn beta iota.
Tactic Notation "check_as" simple_intropattern(H) := apply ok_bind, ok_check; intros H; cbn beta iota.
Tactic Notation "read_as" simple_intropattern(x) simple_intropattern(H) :=
  apply ok_bind, ok_reader; [solve [readers]|intros x H]; cbn beta iota.

(** [fs'] is [fs] after the TODO below [dir] was set to [status] and files with
    the given names were written. *)
Definition todo_moved (dir : string) (names : list string) (status : string) (fs fs' : gmap string string) : Prop :=
  fs' !! path_join dir "status" = Some (status +:+ newline)
  /\ (exists text now, clean_field now = true /\ fs !! path_join dir "todo.env" = Some text
        /\ fs' !! path_join dir "todo.env" = Some (todo_text (assign None now (parse_env text))))
  /\ forall d f, f ∉ names ++ ["status"; "todo.env"; "todo.json"] -> has_char "/" f = false ->
       fs' !! path_join d f = fs !! path_join d f.

(** What the resolution of a worker leaves for the verifier. *)
Definition resolved_backed `{JsonCodec} (fs : gmap string string) (dir id : string) : Prop :=
  exists text resolution,
    fs !! path_join dir "resolution.json" = Some text /\ from_slice text = Some resolution
    /\ member_str "todo_id" resolution = Some id /\ member_str "status" resolution = Some "resolved"
    /\ forall command, command ∈ nonempty_lines (file_or fs (path_join dir "required-commands") "") ->
         words command ∈ successful_commands resolution.

Lemma first_arg_cons id rest message fa : first_arg (id :: rest) message = Ok fa -> fa = (id, rest).
Proof. unfold first_arg. by destruct (is_empty id); intros [= <-]. Qed.

Lemma validation_array status v u : validate_resolution status v = Ok u -> exists items, v = VArr items.
Proof. unfold validate_resolution. destruct v; try done. eauto. Qed.

Lemma strings_distinct l : distinct_keys (strings_value l) = true.
Proof. unfold strings_value. simpl. by induction l. Qed.

Lemma name_line s : all_chars name_char s = true -> clean s = true.
Proof.
  intros Hs. unfold clean. rewrite !(all_chars_no_char name_char) by done. done.
Qed.

(** The fields of [resolution.env] read back. *)
Definition resolution_env (id worker why now : string) : list (string * string) :=
  [("todo_id", id); ("status", "resolved"); ("worker", worker); ("why_resolved", why); ("created_at", now)].
Lemma resolution_env_value id worker why now k v :
  all_chars name_char id = true -> all_chars name_char worker = true -> has_char nl why = false ->
  clean_field now = true -> (k, v) ∈ [("todo_id", id); ("status", "resolved")] ->
  state_value (parse_env (print_env (resolution_env id worker why now))) k = v.
Proof.
  intros Hid%name_line Hw%name_line Hwhy Hnow%clean_field_clean Hin. unfold clean in Hid, Hw, Hnow. bool_hyps.
  apply parse_env_weak_value.
  - unfold resolution_env, env_weak. cbn [forallb fst snd].
    repeat match goal with Hc : has_char nl _ = false |- _ => rewrite Hc; clear Hc end. reflexivity.
  - cbn. repeat constructor; set_solver.
  - unfold resolution_env. rewrite !elem_of_cons. rewrite !elem_of_cons, elem_of_nil in Hin. tauto.
  - rewrite !elem_of_cons, elem_of_nil in Hin. by destruct Hin as [[= -> ->]|[[= -> ->]|[]]].
Qed.

Section Resolve.
Context `{Platform} `{Git} `{JsonCodec} `{JsonPretty} `{HC : !ClockClean} `{HP : !JsonPrettyLaw} `{HF : !JsonFileLaws}.
Context (dir : string) (Hdir : state_dir = Ok dir).
Definition todo_dir (id : string) : string := path_join (path_join dir "todos") id.

Lemma moved_write d f t names status fs fs' :
  has_char "/" f = false -> f <> "todo.env" ->
  todo_moved d names status (<[path_join d f := t]> fs) fs' -> todo_moved d (f :: names) status fs fs'.
Proof.
  intros Hf Hne (G1 & (text & now & Hn & G2 & G3) & G4). split_and!; [done|..].
  - exists text, now. split_and!; [done| |done]. rewrite lookup_insert_ne in G2; [done|].
    by apply path_join_ne.
  - intros d' g Hg Hs. cbn [app] in Hg. apply not_elem_of_cons in Hg as [Hfg Hg]. rewrite G4 by done.
    apply lookup_insert_ne. by apply path_join_ne.
Qed.

Lemma ok_resolution id rest values fs :
  is_Some (fs !! path_join (todo_dir id) "todo.env") ->
  repeated_options rest [] = Ok values -> option_first values "--status" = "resolved" ->
  ok_wp (resolution_create (id :: rest))
    (fun _ fs' => resolved_backed fs' (todo_dir id) id
       /\ todo_moved (todo_dir id) ["resolution.env"; "validation.json"; "changed-paths"; "resolution.json"]
            "resolved" fs fs') fs.
Proof.
  intros Hk Hv Hst. unfold resolution_create. lift_as fa Hf. apply first_arg_cons in Hf as ->. cbn [fst snd].
  check_as _Hdash. lift_as u1 Hid. apply validate_name_ok in Hid as [Hid Hne]. lift_as vs Hvs. rewrite Hv in Hvs.
  injection Hvs as <-. lift_as worker Hw. lift_as u2 Hwn. apply validate_name_ok in Hwn as [Hwn _].
  lift_as status Hs. unfold option_required in Hs. rewrite Hst in Hs. injection Hs as <-. check_as _H.
  lift_as raw _Hraw. lift_as why _Hwhy. rewrite Hdir. lift_as d Hd. injection Hd as <-. fold (todo_dir id).
  apply ok_bind, ok_is_file. cbn beta iota. rewrite bool_decide_eq_true_2 by done. cbn [negb andb].
  apply ok_bind, ok_ret. apply ok_bind, ok_is_file. cbn beta iota. check_as _H1. lift_as u3 Hwhy.
  lift_as validation Hval. lift_as u4 Hres. rewrite String.eqb_refl. read_as u5 Hreq. rewrite eval_required in Hreq.
  apply ok_bind, ok_timestamp. intros now Hnow. cbn beta iota. do 3 ok_step. unfold write_resolution_json.
  set (fs1 := <[path_join (todo_dir id) "changed-paths" := _]> _).
  apply ok_bind. read_as md Hmd. apply eval_read_env in Hmd as (text & Ht & ->).
  read_as validation' Hval'. apply eval_read_json in Hval' as (text' & Ht' & Hp'). read_as changed _Hc.
  assert (text = print_env (resolution_env id worker why now)) as ->.
  { unfold fs1 in Ht. rewrite !lookup_insert_ne in Ht by other_file. rewrite lookup_insert_eq in Ht. by injection Ht. }
  assert (text' = to_vec validation +:+ newline) as ->.
  { unfold fs1 in Ht'. rewrite lookup_insert_ne in Ht' by other_file. rewrite lookup_insert_eq in Ht'. by injection Ht'. }
  apply ok_or_ok, from_slice_distinct in Hval. rewrite from_slice_line in Hp' by done. injection Hp' as <-.
  apply validation_array in Hres as [items ->]. unfold no_newline in Hwhy. apply guard_iff, negb_true_iff in Hwhy.
  rewrite (resolution_env_value id worker why now "status" "resolved"),
    (resolution_env_value id worker why now "todo_id" id) by (done || (rewrite !elem_of_cons; tauto)).
  ok_step. set (v := VObj _). apply ok_bind. eapply ok_mono; [apply ok_update_todo|]. intros u6 fs' Hup. cbn beta in Hup.
  ok_step.
  assert (todo_moved (todo_dir id) ["resolution.env"; "validation.json"; "changed-paths"; "resolution.json"]
    "resolved" fs fs') as Hmoved by (do 4 (eapply moved_write; [done|done|]); exact Hup).
  split; [|done]. destruct Hup as (_ & _ & Hframe).
  exists (to_string_pretty v +:+ newline), v. split_and!; [|apply from_slice_pretty|done..|].
  - rewrite Hframe by set_solver. apply lookup_insert_eq.
  - unfold v. cbn [distinct_keys forallb snd fst]. rewrite strings_distinct. cbn [distinct_keys] in Hval.
    cbn [andb]. rewrite Hval. done.
  - intros command Hin. apply (Hreq command). unfold file_or in *. destruct Hmoved as (_ & _ & Hf).
    by rewrite Hf in Hin by set_solver.
Qed.

(** The metadata of a TODO are single lines. *)
Definition clean_todo (fs : gmap string string) (id : string) : Prop :=
  forall text k, fs !! path_join (todo_dir id) "todo.env" = Some text -> k ∈ TODO_ORDER ->
    clean (state_value (parse_env text) k) = true.

Lemma moved_text names status fs fs' id :
  clean_todo fs id -> todo_moved (todo_dir id) names status fs fs' ->
  exists text text', fs !! path_join (todo_dir id) "todo.env" = Some text
    /\ fs' !! path_join (todo_dir id) "todo.env" = Some text'
    /\ (forall k, k ∈ TODO_ORDER -> k <> "updated_at" ->
         state_value (parse_env text') k = state_value (parse_env text) k)
    /\ clean_todo fs' id.
Proof.
  intros Hc (_ & (text & now & Hnow & Ht & Ht') & _). exists text. eexists. split_and!; [done..| |].
  all: assert (forall k, k ∈ TODO_ORDER -> clean (state_value (assign None now (parse_env text)) k) = true) as Hcl
    by (intros k Hk; unfold assign; destruct (decide (k = "updated_at")) as [->|Hne];
        [rewrite state_value_insert; by apply clean_field_clean
        |rewrite state_value_insert_ne by done; by eapply Hc]).
  - intros k Hk Hne. rewrite todo_text_value by done. unfold assign. by rewrite state_value_insert_ne.
  - intros text' k Hl Hk. rewrite Ht' in Hl. injection Hl as <-. rewrite todo_text_value by done. by apply Hcl.
Qed.

(** The finding of a TODO stays bound to it. *)
Lemma moved_bound names status fs fs' id source hash :
  clean_todo fs id -> todo_moved (todo_dir id) names status fs fs' -> "finding.json" ∉ names ->
  bound_finding fs dir (todo_dir id) source hash -> bound_finding fs' dir (todo_dir id) source hash.
Proof.
  intros Hc Hm Hn (metadata & finding & B1 & B2 & B3 & B4 & B5 & B6 & B7).
  destruct (moved_text _ _ _ _ _ Hc Hm) as (text & text' & Ht & Ht' & Hv & _). rewrite B1 in Ht. injection Ht as <-.
  exists text', finding. destruct Hm as (_ & _ & Hf).
  rewrite (Hf (path_push (path_join dir "findings") source) "finding.json") by (done || (rewrite elem_of_app; intros [?|?]; [by apply Hn|set_solver])).
  split_and!; try done.
  - rewrite Hv; [done|apply list_elem_of_In; cbn; tauto|done].
  - rewrite Hv; [done|apply list_elem_of_In; cbn; tauto|done].
Qed.

Lemma ok_close id rest fs source hash h :
  bound_finding fs dir (todo_dir id) source hash -> all_chars name_char source = true ->
  resolved_backed fs (todo_dir id) id -> clean_todo fs id -> eval current_final_diff_sha256 fs = Ok h ->
  ok_wp (todo_close (id :: rest)) (fun _ fs' => todo_settled fs' dir h id) fs.
Proof.
  intros Hb Hsrc (rtext & resolution & R1 & R2 & R3 & R4 & R5) Hc Hh. unfold todo_close.
  lift_as fa Hf. apply first_arg_cons in Hf as ->. cbn [fst snd]. lift_as u1 Hid.
  apply validate_name_ok in Hid as [Hid Hne]. lift_as values Hvs. lift_as verified Hver. lift_as u2 Hvn.
  lift_as raw Hraw. lift_as u3 Hnotes. rewrite Hdir. lift_as d Hd. injection Hd as <-. fold (todo_dir id).
  apply ok_bind, ok_is_file. cbn beta iota. check_as _. read_as st Hst. check_as _. apply ok_bind, ok_is_file.
  cbn beta iota. check_as _. lift_as recheck Hrecheck. apply ok_or_ok in Hrecheck.
  pose proof (from_slice_distinct _ _ Hrecheck) as Hdist. lift_as u4 Hclosure. read_as u5 Hreq.
  rewrite eval_required in Hreq. apply ok_bind. apply ok_reader.
  { case_goal; [apply reader_verifier_evidence|readers]. }
  intros found _. read_as final Hfinal. rewrite Hh in Hfinal. injection Hfinal as <-. check_as Hrep. check_as Hev.
  read_as md Hmd. apply eval_read_env in Hmd as (text & Ht & ->).
  destruct Hb as (metadata & finding & B1 & B2 & B3 & B4 & B5 & B6 & B7). rewrite B1 in Ht. injection Ht as <-.
  rewrite <- B2, <- B3. read_as resolution' Hres. apply eval_read_json in Hres as (t & Ht & Hres).
  rewrite R1 in Ht. injection Ht as <-. rewrite R2 in Hres. injection Hres as <-. lift_as u6 Hmatch.
  apply ok_bind, ok_timestamp. intros now Hnow. cbn beta iota. do 3 ok_step. set (v := VObj _).
  apply ok_bind. eapply ok_mono; [apply ok_update_todo|]. intros u7 fs' Hup. cbn beta in Hup. ok_step.
  assert (todo_moved (todo_dir id) ["closure.env"; "recheck.json"; "closure.json"] "closed" fs fs') as Hm
    by (do 3 (eapply moved_write; [done|done|]); exact Hup).
  unfold todo_settled. fold (todo_dir id). right.
  split; [unfold todo_state, status_of, file_or; fold (todo_dir id); rewrite (proj1 Hm); reflexivity|].
  assert (fs' !! path_join (todo_dir id) "closure.json" = Some (to_string_pretty v +:+ newline)) as Hcl.
  { destruct Hup as (_ & _ & Hframe). rewrite Hframe by set_solver. apply lookup_insert_eq. }
  assert (bound_finding fs' dir (todo_dir id) source hash) as Hb'
    by (eapply moved_bound; [exact Hc|exact Hm|set_solver|exists metadata, finding; by split_and!]).
  destruct Hm as (_ & _ & Hframe). unfold validate_closure_matches in Hmatch. inv_ok. bool_hyps.
  exists source, hash, rtext, resolution, (to_string_pretty v +:+ newline), v, recheck.
  split_and!; try done.
  - by rewrite Hframe by set_solver.
  - apply from_slice_pretty. unfold v, nullable. cbn [distinct_keys forallb snd fst]. rewrite Hdist.
    by destruct (is_empty hash).
  - unfold validate_closure in Hclosure. by inv_ok.
  - unfold v, nullable. apply is_empty_false in B5. by rewrite B5.
  - apply unless_empty. done.
  - by apply names_exact.
  - by apply missing_commands_nil.
  - intros command Hin. unfold file_or in Hin. rewrite Hframe in Hin by set_solver. apply elem_of_intersection.
    split; [by apply R5|by apply Hreq].
Qed.
End Resolve.

Section Claims.
Context `{Platform} `{Git} `{JsonCodec} `{JsonPretty} `{HC : !ClockClean} `{HP : !JsonPrettyLaw} `{HF : !JsonFileLaws}.

(** C16: what is resolved and closed passes the gate. When a worker records a
    resolution of a queued TODO and a verifier then closes it, whatever
    arguments, JSON documents and faults of the disk were involved, the TODO is
    settled: the files the two commands wrote satisfy everything the final gate
    audits of a closed TODO, for the diff the verifier was bound to. *)
Theorem resolve_close_settled dir id rest rest' values w w1 w2 source hash h :
  state_dir = Ok dir ->
  bound_finding (files w) dir (todo_dir dir id) source hash -> all_chars name_char source = true ->
  clean_todo dir (files w) id ->
  repeated_options rest [] = Ok values -> option_first values "--status" = "resolved" ->
  resolution_create (id :: rest) w = (Ok tt, w1) ->
  eval current_final_diff_sha256 (files w1) = Ok h ->
  todo_close (id :: rest') w1 = (Ok tt, w2) ->
  todo_settled (files w2) dir h id.
Proof.
  intros Hdir Hb Hs Hc Hv Hst Hr Hh Hcl.
  assert (is_Some (files w !! path_join (todo_dir dir id) "todo.env")) as Hk
    by (destruct Hb as (metadata & finding & B1 & _); eauto).
  destruct (ok_run _ _ _ _ _ (ok_resolution dir Hdir id rest values (files w) Hk Hv Hst) Hr) as [Hrb Hm].
  eapply (ok_run _ _ _ _ _ (ok_close dir Hdir id rest' (files w1) source hash h _ Hs Hrb _ Hh) Hcl).
  Unshelve.
  - eapply moved_bound; [exact Hdir|exact Hc|exact Hm|set_solver|exact Hb].
  - by destruct (moved_text dir _ _ _ _ _ Hc Hm) as (text & text' & _ & _ & _ & ?).
Qed.
End Claims.

(** ** Witnesses, and two commands whose result the gate never accepts *)

Module FindingsWitness.

#[local] Instance platform : Platform := toy_platform (fun _ => None) 0.
#[local] Instance clock : ClockClean := toy_clock_clean (fun _ => None) 0.
#[local] Instance no_git : Git := fun _ _ => Ok (mkOutput (Some 0) "" "").
#[local] Instance no_times : Modified := fun _ _ => 0.

Definition dir : string := "/work/.multiagent".
Lemma findings_dir_ok : state_dir = Ok dir.
Proof. vm_compute. reflexivity. Qed.

Definition evidence : string := to_vec (VObj [("evidence", VStr "missing check")]).
Definition blank : World :=
  mkWorld {[path_join (subagent_dir dir "verifier-1") "last-message.txt" := "ACCEPTED, the finding was wrong"]} [] 0 [].
Definition found : World := Eval vm_compute in
  (finding_create ["f1"; "--severity"; "blocking"; "--type"; "bug"; "--summary"; "s"; "--evidence-json"; evidence;
                   "--required-resolution"; "fix"] blank).2.
Definition queued : World := Eval vm_compute in
  (todo_create ["t1"; "--source-finding-id"; "f1"; "--task"; "fix it"; "--done-criteria"; "run cargo test"] found).2.

Definition command : Value := VObj [("cmd", VStr "cargo  test"); ("rc", VNum 0)].
Definition resolution_args : list string :=
  ["--worker"; "w1"; "--status"; "resolved"; "--validation-json"; to_vec (VArr [command]); "--why"; "fixed"].
Definition close_args : list string :=
  ["--verified-by"; "v1"; "--recheck-json";
   to_vec (VObj [("accepted", VBool true); ("finding_rechecked", VStr "f1"); ("commands", VArr [command])])].
Definition resolved : World := Eval vm_compute in (resolution_create ("t1" :: resolution_args) queued).2.
Definition closed : World := Eval vm_compute in (todo_close ("t1" :: close_args) resolved).2.

Lemma queued_bound :
  bound_finding (files queued) dir (todo_dir dir "t1") "f1"
    (sha256_hex (file_or (files queued) (path_join (path_join (path_join dir "findings") "f1") "finding.json") "")).
Proof.
  eexists _, _. split; [vm_compute; reflexivity|]. split; [vm_compute; reflexivity|].
  split; [vm_compute; reflexivity|]. split; [discriminate|]. split; [vm_compute; discriminate|].
  split; [vm_compute; reflexivity|]. vm_compute. reflexivity.
Qed.
Lemma queued_clean : clean_todo dir (files queued) "t1".
Proof.
  intros text k Ht Hk. vm_compute in Ht. injection Ht as <-.
  apply list_elem_of_In in Hk. cbn in Hk. repeat destruct Hk as [<-|Hk]; [vm_compute; reflexivity..|destruct Hk].
Qed.

Lemma resolve_close_settled_witness : todo_settled (files closed) dir "" "t1".
Proof.
  eapply (resolve_close_settled dir "t1" resolution_args close_args _ queued resolved closed "f1" _ "" findings_dir_ok
    queued_bound eq_refl queued_clean); vm_compute; reflexivity.
Defined.

(** A verifier that accepts with a remark. *)
Definition dismissal_args : list string :=
  ["f1"; "--verified-by"; "verifier-1"; "--recheck-json";
   to_vec (VObj [("accepted", VBool true); ("finding_rechecked", VStr "f1"); ("disposition", VStr "invalid");
                 ("evidence", VStr "no such path")])].
Definition remark : World := Eval vm_compute in
  (put_file (path_join (subagent_dir dir "verifier-1") "last-message.txt") "Verdict: accepted, the finding was wrong" ""
     found).2.
Definition dismissed : World := Eval vm_compute in (finding_dismiss dismissal_args remark).2.

(** A dismissal that can neither pass nor be repeated. The command that
    dismisses a finding takes every verdict that starts with [accepted]; the
    gate that audits the dismissal only the bare word or the word with digests.
    So a dismissal on the remark above succeeds, the gate rejects it, and a
    second dismissal is refused because there is one already. *)
Theorem dismissal_never_settles :
  (finding_dismiss dismissal_args remark).1 = Ok tt
  /\ (FinalGate.completion_gate_check dismissed).1 = Err ""
  /\ (finding_dismiss dismissal_args dismissed).1 = Err "finding already dismissed: f1".
Proof. split_and!; vm_compute; reflexivity. Qed.

(** A refused TODO stays behind. [todo-create] looks at the extra commands
    after it has written the TODO; an empty one is refused, the TODO without a
    status remains, the gate rejects it, and it cannot be created again. *)
Definition torn_args : list string :=
  ["t2"; "--source-finding-id"; "f1"; "--task"; "fix it"; "--done-criteria"; "done"; "--required-command"; ""].
Theorem todo_create_torn :
  (todo_create torn_args found).1 = Err "todo-create --required-command may not be empty"
  /\ is_Some (files (todo_create torn_args found).2 !! path_join (todo_dir dir "t2") "todo.env")
  /\ (todo_create ["t2"; "--source-finding-id"; "f1"; "--task"; "fix it"; "--done-criteria"; "done"]
        (todo_create torn_args found).2).1 = Err "todo already exists: t2".
Proof. split_and!; [vm_compute; reflexivity|vm_compute; eauto|vm_compute; reflexivity]. Qed.

End FindingsWitness.
