(* ===== verification/WorkflowProps.v ===== *)
(** * WorkflowProps: the lifecycle of a workflow

    What the phases, the reviews and the gates guarantee, for every sequence of
    commands, every failing write and every interference outside the lifecycle
    directories. *)

From S2P Require Import Prelude Text State Json Config Execution Dag Lifecycle Workflow Completion.
From S2P Require Import LifecycleFacts LifecycleGates WorkflowFacts CompletionFacts WorkflowRuns Instances.

Section Invariant.
Context `{Platform} `{Environment} `{HC : !ClockClean} `{HS : !HashShape} `{HP : !CleanPaths}
  `{HG : !GateFrame} `{JsonCodec} `{JsonPretty}.
Context (dir : string) (Hdir : state_dir = Ok dir) (Hclean : clean dir = true).

(** Before and after the one write of a [lifecycle.env] file. *)
Definition unmoved (fs0 fs : gmap string string) : Prop :=
  forall id, id_ok id = true -> phase_in dir fs id = phase_in dir fs0 id.
Definition moved (op : Op) (fs0 fs : gmap string string) : Prop :=
  exists id, id_ok id = true /\ phase_step op (phase_in dir fs0 id) (phase_in dir fs id)
    /\ forall id', id_ok id' = true -> id' <> id -> phase_in dir fs id' = phase_in dir fs0 id'.

Lemma unmoved_phases fs0 : of_phases dir (unmoved fs0).
Proof. intros fs fs' He Hu id Hid. by rewrite He, Hu. Qed.
Lemma moved_phases op fs0 : of_phases dir (moved op fs0).
Proof.
  intros fs fs' He (id & Hid & Hs & Ho). exists id. rewrite He by done. split_and!; [done..|].
  intros id' Hid' Hne. by rewrite He, Ho.
Qed.
Lemma unmoved_moved op fs0 fs : unmoved fs0 fs -> moved op fs0 fs.
Proof.
  intros Hu. exists "x". split_and!; [done|rewrite Hu by done; constructor|]. intros id Hid _. by apply Hu.
Qed.
Lemma move op fs0 fs fs' id :
  id_ok id = true -> unmoved fs0 fs ->
  (forall id', id_ok id' = true -> id' <> id -> phase_in dir fs' id' = phase_in dir fs id') ->
  phase_step op (phase_in dir fs id) (phase_in dir fs' id) -> moved op fs0 fs'.
Proof.
  intros Hid Hu Ho Hs. exists id. rewrite Hu in Hs by done. split_and!; [done..|].
  intros id' Hid' Hne. by rewrite Ho, Hu.
Qed.

#[local] Hint Resolve unmoved_phases moved_phases unmoved_moved move phase_same : phases.
#[local] Hint Constructors phase_step : phases.

Ltac by_safe L :=
  match goal with Hpost : post _ (moved ?op ?fs) _ |- _ =>
    first [eapply L with (S := unmoved fs) (phi := phase_step op) | eapply L with (S := unmoved fs)];
    eauto with phases
  end.

Lemma safe_discard {A} T (m : IO A) fs : safe dir T m fs -> safe dir T (let! _ := m in ret tt) fs.
Proof.
  intros Hm. apply wp_bind. eapply wp_mono; [exact Hm|]. intros [a|e] fs' Hp; [by apply wp_ret|done].
Qed.

(** Every command keeps the invariant and changes at most the phase of one
    workflow, along an edge of its own. *)
Lemma run_op_safe op fs :
  op_clean op = true -> inv dir fs -> safe dir (moved op fs) (run_op op) fs.
Proof.
  intros Hop Hinv. assert (pre dir (unmoved fs) fs) as Hpre by (by split).
  assert (post dir (moved op fs) fs) as Hpost by (split; [done|by apply unmoved_moved]).
  destruct op; cbn [run_op].
  - unfold initialize. destruct args as [|id [|]]; [by apply wp_fail| |by apply wp_fail].
    by_safe initialize_id_safe.
  - unfold init_or_resume. destruct args as [|id rest]; [by apply wp_fail|]. unfold safe.
    do 3 wp_step. by_safe initialize_id_safe.
  - by_safe register_contract_safe.
  - by_safe seal_iteration_safe.
  - by_safe prepare_safe.
  - by_safe transition_safe. apply allowed_transition_step.
  - by_safe add_todo_safe.
  - by_safe todo_status_safe.
  - by_safe resolve_todo_safe.
  - by_safe require_review_safe.
  - by_safe record_review_safe.
  - unfold gate. destruct args as [|id [|which rest]]; try by apply wp_fail. unfold safe.
    do 2 wp_step. destruct (String.eqb which "implementation"); [wp_step; by apply wp_println|].
    destruct (String.eqb which "completion"); [wp_step; by apply wp_println|by apply wp_fail].
  - apply safe_discard. by_safe supervisor_complete_safe.
  - apply safe_discard. by_safe complete_external_safe.
  - apply safe_discard. by_safe complete_direct_safe.
  - apply safe_discard. by_safe complete_observe_safe.
  - apply safe_discard. by_safe complete_read_only_safe.
  - apply safe_discard. by_safe request_review_safe.
  - apply safe_discard. by_safe human_review_safe.
Qed.

Lemma reachable_inv fs : reachable dir fs -> inv dir fs.
Proof.
  intros (fs0 & Hnone & Hrun).
  assert (inv dir fs0) as Hinv.
  { intros id st Hid. unfold state_in. by rewrite Hnone. }
  clear Hnone. induction Hrun as [|fs1 fs2 fs3 Hstep _ IH]; [done|]. apply IH. clear IH.
  destruct Hstep as [op w r w' Hop Hr|fs fs' Heq].
  - by apply (run_op_safe op (files w) Hop Hinv w r w').
  - eapply inv_frame; [|exact Hinv]. intros id f Hid _. by apply Heq.
Qed.




(** C10: the completion gate decides its specification. [completion_state] only
    reads, and it succeeds exactly when the phase allows it, no TODO is active,
    the last review of every type for this candidate has no findings, every
    obligation of the candidate is satisfied, every needed review has passed,
    the evidence is complete where the lifecycle is enforced, and the task, the
    contract and the context are unchanged. *)
Theorem completion_exact id w :
  (completion_state id w).2 = w
  /\ forall st, (completion_state id w).1 = Ok st <-> completable dir (files w) id st.
Proof.
  rewrite (reader_completion_state id w). split; [done|]. intros st. by apply eval_completion_state.
Qed.

(** C13: a refused command changes nothing. On a sound disk, whenever a command
    returns an error, for whatever arguments and whatever the files hold, every
    file of every lifecycle is as before: the checks come before the first
    write, so that a rejected workflow stays repairable. The one exception is
    the read-only completion with a reviewer, which records the review before
    it looks for the result. *)
Theorem lifecycle_rejects op w e w' :
  match op with CompleteReadOnly _ (Some _) => False | _ => True end ->
  faults w = [] -> run_op op w = (Err e, w') ->
  forall id f, files w' !! lfile dir id f = files w !! lfile dir id f.
Proof. intros Hop Hf Hrun. by eapply run_op_spares. Qed.

Definition completes (fs : gmap string string) (id diff : string) (fs' : gmap string string) : Prop :=
  exists st st', completable dir fs id st /\ state_value st "phase" = "post-implementation"
    /\ diff = state_value st "candidate_diff_hash"
    /\ state_in dir fs' id = Some st'
    /\ state_value st' "phase" = "complete" /\ state_value st' "reviewed_diff_hash" = diff
    /\ state_value st' "terminal_outcome" = "succeeded".

Lemma supervisor_complete_wp id fs :
  inv dir fs -> wp (supervisor_complete id) (fun r fs' => forall diff, r = Ok diff -> completes fs id diff fs') fs.
Proof.
  intros Hinv. unfold supervisor_complete. apply wp_bind, wp_check; [|done]. intros _.
  apply wp_open with (1 := Hdir); [done|]. intros before Hid Hst. apply wp_bind, wp_check; [|done].
  intros Hph%String.eqb_eq. apply wp_bind, wp_reader; [readers|].
  destruct (eval _ fs) as [st|e] eqn:E; [|done]. apply (eval_completion_state dir Hdir) in E.
  pose proof (c_state _ _ _ _ E) as Hst'. rewrite Hst in Hst'. injection Hst' as <-.
  apply wp_bind, (wp_gate_check dir Hdir); [by left|]. intros [u|e] fs' _; [|done].
  apply wp_bind, wp_timestamp. intros now Hnow. apply wp_bind, wp_put_file; [|done].
  apply wp_bind. unfold event. apply wp_bind, wp_timestamp. intros now' _.
  apply wp_append_file; [|done]. intros t. apply wp_ret. intros diff [= <-].
  exists before. pose proof (Hinv id before Hid Hst) as Hgood.
  destruct (good_candidate _ _ _ Hgood Hph) as (_ & Hd & _). eexists. do 3 (split; [done|]). split.
  - unfold state_in. rewrite lookup_insert_ne by (apply lfile_ne; [done..|by left]).
    by rewrite lookup_insert_eq.
  - assert (forall kvs, forallb (fun kv => clean kv.2) kvs = true -> state_clean (insert_all kvs before))
      as Hcl by (intros; apply insert_all_clean; [done|apply Hgood]).
    rewrite !env_text_value by first [apply Hcl; cleans | env_key]. by field_values.
Qed.

(** Completion seals what was reviewed. When [supervisor_complete] returns
    a diff, the workflow passed the completion gate in post-implementation with
    this candidate; where the lifecycle is enforced, every needed review is
    backed by the sealed message of a read-only reviewer that passes this very
    diff; and afterwards the workflow is complete with this diff as reviewed. *)
Theorem completion_backed id w diff w' :
  reachable dir (files w) -> supervisor_complete id w = (Ok diff, w') ->
  exists st, completable dir (files w) id st /\ state_value st "phase" = "post-implementation"
    /\ diff = state_value st "candidate_diff_hash"
    /\ (reviewer_evidence_required = true ->
        forall kind, needs_review (obligations_in dir (files w) id) (state_value st "iteration") diff kind ->
        exists reviewer, sealed_verdict dir (files w) id reviewer kind "pass" diff)
    /\ exists st', state_in dir (files w') id = Some st' /\ state_value st' "phase" = "complete"
       /\ state_value st' "reviewed_diff_hash" = diff /\ state_value st' "terminal_outcome" = "succeeded".
Proof.
  intros Hr Hrun.
  destruct (supervisor_complete_wp id (files w) (reachable_inv _ Hr) w _ w' eq_refl Hrun diff eq_refl)
    as (st & st' & Hc & Hph & -> & Hst' & Hfin).
  exists st. split_and!; [done..| |eauto]. intros Henf kind Hk.
  destruct (c_evidence _ _ _ _ Hc Henf) as (_ & _ & Hev).
  destruct (c_passed _ _ _ _ Hc kind Hk) as (r & Hl & Hp).
  destruct (Hev _ _ Hk Hl Hp) as [_ Hok]. eexists. by eapply evidence_sound.
Qed.
End Invariant.

(** ** Witnesses, and a diff hash with a line break *)

Module WorkflowWitness.

#[local] Instance platform : Platform := toy_platform (fun _ => None) 0.
#[local] Instance clock : ClockClean := toy_clock_clean (fun _ => None) 0.
#[local] Instance hash : HashShape := toy_hash_shape (fun _ => None) 0.
#[local] Instance environment : Environment := {|
  canonicalize fs p :=
    if starts_with "/" p && clean p && bool_decide (is_Some (fs !! p)) then Some p else None;
  completion_gate_check := ret tt;
  external_completion_gate_check := ret tt;
  canonical_diff _ _ _ := Ok ""
|}.
#[local] Instance clean_paths : CleanPaths.
Proof.
  intros fs p q. cbn [canonicalize environment].
  destruct (starts_with "/" p) eqn:E1, (clean p) eqn:E2; cbn [andb]; try done.
  case_bool_decide; [|done]. by intros [= <-].
Qed.
#[local] Instance gate_frame_ret : GateFrame.
Proof.
  split; [intros m d w r w' p [->| ->] _|intros m w r w' [->| ->]]; by intros [= <- <-].
Qed.

Definition dir : string := "/work/.multiagent".
Lemma dir_ok : state_dir = Ok dir.
Proof. vm_compute. reflexivity. Qed.

Definition plan : string := sha256_hex "plan".
Definition blank : World := mkWorld {["/work/context.md" := "approved"]} [] 0 [].

Definition prepared : list Op :=
  [Initialize ["wf"];
   SealIteration ["wf"; "--plan-sha256"; plan; "--worker-count"; "2"];
   RecordReview ["wf"; "r0"; "--type"; "plan-alignment"; "--verdict"; "pass"; "--evidence"; "ok"];
   Prepare ["wf"; "--plan-sha256"; plan; "--implementation-context"; "/work/context.md";
            "--alignment-review"; "r0"];
   Transition ["wf"; "implementation"]].
Definition candidate : list Op :=
  [Transition ["wf"; "post-implementation"; "--diff-hash"; "d1"];
   RecordReview ["wf"; "r1"; "--type"; "technical"; "--verdict"; "pass"; "--diff-hash"; "d1";
                 "--evidence"; "ok"]].

Definition run_all (ops : list Op) (w : World) : World := foldl (fun w op => (run_op op w).2) w ops.

Lemma run_all_reachable ops w :
  forallb op_clean ops = true -> rtc (lifecycle_step dir) (files w) (files (run_all ops w)).
Proof.
  revert w. induction ops as [|op ops IH]; intros w; cbn [forallb]; [constructor|].
  intros [Hop Hops]%andb_true_iff. eapply rtc_l; [|by apply IH].
  apply (step_op dir op w (run_op op w).1); [done|]. by destruct (run_op op w).
Qed.

Definition w1 : World := Eval vm_compute in run_all prepared blank.
Definition w2 : World := Eval vm_compute in run_all candidate w1.
Definition w3 : World := Eval vm_compute in (run_op (Complete "wf") w2).2.
Definition st2 : gmap string string := unwrap_or (state_in dir (files w2) "wf") ∅.
Definition st3 : gmap string string := unwrap_or (state_in dir (files w3) "wf") ∅.
Lemma present (o : option (gmap string string)) :
  bool_decide (is_Some o) = true -> o = Some (unwrap_or o ∅).
Proof. by intros [s ->]%bool_decide_eq_true. Qed.
Lemma st2_ok : state_in dir (files w2) "wf" = Some st2.
Proof. apply present. vm_compute. reflexivity. Qed.
Lemma st3_ok : state_in dir (files w3) "wf" = Some st3.
Proof. apply present. vm_compute. reflexivity. Qed.

Lemma blank_reachable : reachable dir (files blank).
Proof.
  exists (files blank). split; [|constructor]. intros id f _. unfold blank. cbn [files].
  by rewrite lookup_singleton_ne.
Qed.

Lemma reach ops w : forallb op_clean ops = true -> reachable dir (files w) -> reachable dir (files (run_all ops w)).
Proof.
  intros Hc (fs0 & Hn & Hr). exists fs0. split; [done|]. etransitivity; [exact Hr|]. by apply run_all_reachable.
Qed.

Lemma w1_reachable : reachable dir (files w1).
Proof.
  replace w1 with (run_all prepared blank) by (vm_compute; reflexivity).
  apply reach; [vm_compute; reflexivity|apply blank_reachable].
Qed.
Lemma w2_reachable : reachable dir (files w2).
Proof.
  replace w2 with (run_all candidate w1) by (vm_compute; reflexivity).
  apply reach; [vm_compute; reflexivity|apply w1_reachable].
Qed.
Lemma w3_reachable : reachable dir (files w3).
Proof.
  replace w3 with (run_all [Complete "wf"] w2) by (vm_compute; reflexivity).
  apply reach; [reflexivity|apply w2_reachable].
Qed.




Lemma completion_exact_witness :
  (completion_state "wf" w2).2 = w2
  /\ forall st, (completion_state "wf" w2).1 = Ok st <-> completable dir (files w2) "wf" st.
Proof. apply (completion_exact dir dir_ok "wf" w2). Defined.

Lemma lifecycle_rejects_witness :
  run_op (Complete "wf") w1
    = (Err "supervisor completion requires phase=post-implementation, got implementation",
       (run_op (Complete "wf") w1).2)
  /\ files (run_op (Complete "wf") w1).2 !! lfile dir "wf" "lifecycle.env"
     = files w1 !! lfile dir "wf" "lifecycle.env".
Proof.
  split; [vm_compute; reflexivity|].
  apply (lifecycle_rejects dir dir_ok (Complete "wf") w1
    "supervisor completion requires phase=post-implementation, got implementation" _ I);
    vm_compute; reflexivity.
Defined.

Lemma completion_backed_witness :
  exists st, completable dir (files w2) "wf" st /\ state_value st "phase" = "post-implementation"
    /\ "d1" = state_value st "candidate_diff_hash"
    /\ (reviewer_evidence_required = true ->
        forall kind, needs_review (obligations_in dir (files w2) "wf") (state_value st "iteration") "d1" kind ->
        exists reviewer, sealed_verdict dir (files w2) "wf" reviewer kind "pass" "d1")
    /\ exists st', state_in dir (files w3) "wf" = Some st' /\ state_value st' "phase" = "complete"
       /\ state_value st' "reviewed_diff_hash" = "d1" /\ state_value st' "terminal_outcome" = "succeeded".
Proof.
  apply (completion_backed dir dir_ok eq_refl "wf" w2 "d1" w3 w2_reachable). vm_compute. reflexivity.
Defined.

(** A diff hash that carries a line of its own. *)
Definition inject : Op :=
  Transition ["wf"; "post-implementation"; "--diff-hash"; "d1" +:+ newline +:+ "phase=complete"].
Definition injected : World := Eval vm_compute in (run_op inject w1).2.

(** A line break in the diff hash completes a workflow. [transition] writes
    the value of [--diff-hash] into [lifecycle.env] as it is; with a second line
    [phase=complete] the command succeeds, and the workflow is read back as
    complete, although [transition] refuses this target, no technical review
    exists and the completion gate was never asked. *)
Theorem diff_hash_injection :
  phase_in dir (files w1) "wf" = Some "implementation"
  /\ (run_op inject w1).1 = Ok tt
  /\ phase_in dir (files (run_op inject w1).2) "wf" = Some "complete"
  /\ existsb (fun r => String.eqb (Lifecycle.get 1 r) "technical") (reviews_in dir (files (run_op inject w1).2) "wf") = false
  /\ exists e, (completion_state "wf" (run_op inject w1).2).1 = Err e.
Proof. split_and!; [vm_compute; reflexivity..|]. eexists. vm_compute. reflexivity. Qed.

End WorkflowWitness.
