(* ===== verification/FinalGateProps.v ===== *)
(** * FinalGateProps: the gate, and the completion it guards

    The command decides the specification of [FinalGateFacts]; it touches only
    the status of verifiers, which discharges what the lifecycle asks of its
    gate; and so a completed workflow has nothing left open. *)

From S2P Require Import Prelude Text State Json LogModel Config Execution Dag Lifecycle Snapshot Findings FinalGate.
From S2P Require Import FinalGateFacts Workflow LifecycleFacts LifecycleGates WorkflowFacts WorkflowRuns FindingsFacts FindingsProps WorkflowProps Instances.

(** ** Reconciliation *)

Definition settle_verifier (state : string) (fs : gmap string string) (name : string) : gmap string string :=
  let dir := subagent_dir state name in
  if negb (is_running (status_of fs dir)) then fs
  else match report_verdict (report_of fs dir) with
       | ACCEPTED => <[path_join dir "status" := "done" +:+ newline]> fs
       | BLOCKING => <[path_join dir "status" := "blocked" +:+ newline]> fs
       | MISSING => fs
       end.
(** The files after every verifier with a verdict was settled. *)
Definition reconciled (state : string) (fs : gmap string string) : gmap string string :=
  foldl (settle_verifier state) fs (verifier_names fs state).

Section Gate.
Context `{Platform} `{Git} `{JsonCodec} `{Modified}.

Lemma no_fail_reconcile state names : no_fail (reconcile state names).
Proof.
  induction names as [|name names IH]; cbn [reconcile]; [no_fail|].
  apply no_fail_bind; [by intros w r w' Hf [= <- <-]; eauto|]. intros fs.
  apply no_fail_bind; [|done]. no_fail.
Qed.

Lemma wp_reconcile state names fs :
  wp (reconcile state names)
    (fun r fs' => (forall p, starts_with (path_join state "subagents/") p = false -> fs' !! p = fs !! p)
                  /\ forall u, r = Ok u -> fs' = foldl (settle_verifier state) fs names) fs.
Proof.
  revert fs. induction names as [|name names IH]; intros fs; cbn [reconcile foldl]; [by apply wp_ret|].
  apply wp_bind, wp_get_files. apply wp_bind.
  assert (forall t fs' p, starts_with (path_join state "subagents/") p = false ->
            <[path_join (subagent_dir state name) "status" := t]> fs' !! p = (fs' : gmap string string) !! p) as Hne.
  { intros t fs' p Hp. apply lookup_insert_ne. intros <-.
    enough (starts_with (path_join state "subagents/") (path_join (subagent_dir state name) "status") = true) by congruence.
    apply starts_with_spec. exists (name +:+ "/status"). unfold subagent_dir, path_join. by rewrite !str_app_assoc. }
  assert (forall fs', (forall p, starts_with (path_join state "subagents/") p = false -> fs' !! p = fs !! p) ->
            settle_verifier state fs name = fs' ->
            wp (reconcile state names)
              (fun r fs'' => (forall p, starts_with (path_join state "subagents/") p = false -> fs'' !! p = fs !! p)
                 /\ forall u, r = Ok u -> fs'' = foldl (settle_verifier state) (settle_verifier state fs name) names) fs')
    as Hrest.
  { intros fs' Hp <-. eapply wp_mono; [apply IH|]. intros r fs'' [Hf Hok]. split; [|done].
    intros p Hs. by rewrite Hf, Hp. }
  unfold settle_verifier in Hrest |- *. destruct (negb _); [by apply wp_ret, Hrest|].
  destruct (report_verdict _); [apply wp_put_file; [apply Hrest; auto|done]..|by apply wp_ret, Hrest].
Qed.

Lemma reader_route_probe : reader current_diff_requires_route_probe.
Proof. unfold current_diff_requires_route_probe. readers. Qed.
Lemma reader_source_diff b : reader (source_diff b).
Proof. unfold source_diff. pose proof reader_route_probe. readers. Qed.

Lemma keeps_println_all l : keeps_files (println_all l).
Proof. induction l; cbn [println_all]; keeps. Qed.
Lemma no_fail_println_all l : no_fail (println_all l).
Proof. induction l; cbn [println_all]; no_fail. Qed.

(** What an accepting gate has checked, whatever faults the disk has. *)
Lemma wp_gate dir b fs :
  state_dir = Ok dir ->
  wp (completion_gate_check_with_source_diff b)
    (fun r fs' => (forall p, starts_with (path_join dir "subagents/") p = false -> fs' !! p = fs !! p)
                  /\ forall u, r = Ok u -> fs' = reconciled dir fs
                     /\ exists h probe, eval (source_diff b) fs' = Ok (h, probe) /\ settled fs' dir h probe) fs.
Proof.
  intros Hdir. unfold completion_gate_check_with_source_diff. rewrite Hdir. apply wp_bind, wp_lift; [|done].
  intros d [= <-]. apply wp_bind. unfold reconcile_terminal_verifiers. apply wp_bind, wp_get_files.
  eapply wp_mono; [apply wp_reconcile|]. intros [[]|e] fs' [Hf Hrec]; [|by split].
  specialize (Hrec tt eq_refl). apply wp_bind, wp_reader; [apply reader_source_diff|].
  destruct (eval (source_diff b) fs') as [[h probe]|e] eqn:E; [|by split]. apply wp_bind, wp_get_files.
  apply wp_bind, wp_keeps; [apply keeps_println_all|]. intros [u|e]; [|by split]. cbn [fst snd].
  case_bool_decide as Hr; [apply wp_println|by apply wp_fail]. split; [done|]. intros u' _. split; [done|].
  exists h, probe. split; [done|]. by apply rejections_nil.
Qed.

Lemma gate_sound b : sound (completion_gate_check_with_source_diff b).
Proof.
  unfold completion_gate_check_with_source_diff, reconcile_terminal_verifiers.
  apply sound_bind; [apply sound_keeps; keeps|]. intros dir. apply sound_bind.
  { apply sound_bind; [apply sound_keeps; keeps|]. intros fs. apply sound_no_fail, no_fail_reconcile. }
  intros _. apply sound_bind; [apply sound_keeps, reader_keeps, reader_source_diff|]. intros source.
  apply sound_bind; [apply sound_keeps; keeps|]. intros fs.
  apply sound_bind; [apply sound_keeps, keeps_println_all|]. intros _. apply sound_keeps. keeps.
Qed.

(** On a sound disk the gate accepts when its specification holds. *)
Lemma gate_complete dir b w h probe :
  state_dir = Ok dir -> faults w = [] -> eval (source_diff b) (reconciled dir (files w)) = Ok (h, probe) ->
  settled (reconciled dir (files w)) dir h probe ->
  (completion_gate_check_with_source_diff b w).1 = Ok tt.
Proof.
  intros Hdir Hf Hs Hset%rejections_nil. unfold completion_gate_check_with_source_diff. rewrite Hdir.
  cbn [bind lift]. unfold bind at 1, reconcile_terminal_verifiers. cbn [bind get_files].
  destruct (reconcile dir (verifier_names (files w) dir) w) as [r w1] eqn:E.
  destruct (no_fail_reconcile _ _ _ _ _ Hf E) as [[[] ->] Hf1].
  assert (files w1 = reconciled dir (files w)) as Hw1
    by (by apply (proj2 (wp_reconcile dir (verifier_names (files w) dir) (files w) w (Ok tt) w1 eq_refl E)) with tt).
  unfold bind at 1. cbn [bind]. rewrite (reader_source_diff b w1), Hw1, Hs. unfold bind, get_files. rewrite Hw1.
  cbn [fst snd]. rewrite Hset. cbn [println_all]. by rewrite bool_decide_eq_true_2.
Qed.
End Gate.

(** ** The environment of the lifecycle *)

Section Composition.
Context `{Platform} `{Git} `{JsonCodec} `{Modified}.
Context (canon : gmap string string -> string -> option string).

(** The gates and the diff that [workflow.rs] calls, as the runtime has them. *)
#[local] Instance runtime_environment : Environment := {|
  canonicalize := canon;
  Workflow.completion_gate_check := FinalGate.completion_gate_check;
  Workflow.external_completion_gate_check := FinalGate.external_completion_gate_check;
  Workflow.canonical_diff := Snapshot.canonical_diff
|}.

Lemma runtime_gates m : is_gate m -> exists b, m = completion_gate_check_with_source_diff b.
Proof. intros [->| ->]; [by exists true|by exists false]. Qed.

(** The gates write below [subagents/] only: the interface of the lifecycle. *)
Lemma runtime_gate_frame : GateFrame.
Proof.
  split.
  - intros m dir w r w' p [b ->]%runtime_gates Hdir Hr Hp. by apply (wp_gate dir b (files w) Hdir w r w' eq_refl Hr).
  - intros m w r w' [b ->]%runtime_gates Hr Hf. by apply (gate_sound b w r w').
Qed.

(** C14: completion leaves nothing open. When [supervisor_complete] returns,
    whatever faults the disk had, the completion gate of the lifecycle was
    passed, and in the files it was decided on every verifier has finished, the
    last verdict accepts the final diff, every blocking finding was dismissed
    with backing or queued and closed, and every TODO is closed or superseded
    with evidence that stands. *)
Theorem completion_settled dir id w diff w' :
  state_dir = Ok dir -> supervisor_complete id w = (Ok diff, w') ->
  exists st h probe,
    completable dir (files w) id st /\ diff = state_value st "candidate_diff_hash"
    /\ eval (source_diff true) (reconciled dir (files w)) = Ok (h, probe)
    /\ settled (reconciled dir (files w)) dir h probe.
Proof.
  intros Hdir Hrun.
  enough (wp (supervisor_complete id) (fun r fs' => forall d, r = Ok d -> exists st h probe,
    completable dir (files w) id st /\ d = state_value st "candidate_diff_hash"
    /\ eval (source_diff true) (reconciled dir (files w)) = Ok (h, probe)
    /\ settled (reconciled dir (files w)) dir h probe) (files w)) as Hwp
    by exact (Hwp w _ w' eq_refl Hrun diff eq_refl).
  unfold supervisor_complete. apply wp_bind, wp_check; [intros _|done].
  apply wp_bind, wp_lift; [intros p _|done]. apply wp_bind, wp_reader; [readers|].
  destruct (eval (read_state _ _) (files w)) as [before|]; [|done]. apply wp_bind, wp_check; [intros _|done].
  apply wp_bind, wp_reader; [readers|]. destruct (eval (completion_state id) (files w)) as [st|] eqn:E; [|done].
  apply (eval_completion_state dir Hdir) in E. apply wp_bind. eapply wp_mono; [by apply (wp_gate dir true)|].
  intros [u|e] fs' [_ Hok]; [|done]. destruct (Hok u eq_refl) as (-> & h & probe & Hs & Hset).
  apply wp_bind, wp_keeps; [keeps|]. intros [now|e]; [|done]. apply wp_bind, wp_put_file; [|done].
  apply wp_bind. unfold event. apply wp_bind, wp_keeps; [keeps|]. intros [now'|e]; [|done].
  apply wp_append_file; [|done]. intros t. apply wp_ret. intros d [= <-]. eauto 10.
Qed.

(** C15: the gate decides its specification. On a sound disk the gate before
    completion accepts exactly when, after verifiers with a verdict have been
    settled, the diff of the repository can be computed and nothing is open:
    verifiers, verdict, findings and TODOs as in [settled]. It changes no file
    outside the directories of subagents. *)
Theorem final_gate_exact dir b w :
  state_dir = Ok dir -> faults w = [] ->
  ((completion_gate_check_with_source_diff b w).1 = Ok tt <->
   exists h probe, eval (source_diff b) (reconciled dir (files w)) = Ok (h, probe)
     /\ settled (reconciled dir (files w)) dir h probe)
  /\ forall p, starts_with (path_join dir "subagents/") p = false ->
       files (completion_gate_check_with_source_diff b w).2 !! p = files w !! p.
Proof.
  intros Hdir Hf. destruct (completion_gate_check_with_source_diff b w) as [r w'] eqn:E.
  destruct (wp_gate dir b (files w) Hdir w r w' eq_refl E) as [Hframe Hok]. cbn [fst snd]. split; [|done]. split.
  - intros ->. by destruct (Hok tt eq_refl) as [-> ?].
  - intros (h & probe & Hs & Hset).
    pose proof (gate_complete dir b w h probe Hdir Hf Hs Hset) as Hc. by rewrite E in Hc.
Qed.
End Composition.

(** ** Witnesses *)

Module GateWitness.

#[local] Instance platform : Platform := toy_platform (fun _ => None) 0.
#[local] Instance no_git : Git := fun _ _ => Ok (mkOutput (Some 0) "" "").
#[local] Instance no_times : Modified := fun _ _ => 0.
Definition canon (fs : gmap string string) (p : string) : option string :=
  if starts_with "/" p && clean p && bool_decide (is_Some (fs !! p)) then Some p else None.
#[local] Instance environment : Environment := runtime_environment canon.

Definition dir : string := "/work/.multiagent".
Lemma gate_dir_ok : state_dir = Ok dir.
Proof. vm_compute. reflexivity. Qed.

(** A TODO that was closed, and a verifier that runs but has accepted. *)
Definition accepted : World := Eval vm_compute in
  let dir := subagent_dir dir "verifier-1" in
  mkWorld (<[path_join dir "status" := "running" +:+ newline]>
             (<[path_join dir "last-message.txt" := "ACCEPTED"]> (files FindingsWitness.closed))) [] 0 [].

Lemma final_gate_exact_witness :
  exists h probe, eval (source_diff true) (reconciled dir (files accepted)) = Ok (h, probe)
    /\ settled (reconciled dir (files accepted)) dir h probe.
Proof.
  apply (proj1 (final_gate_exact dir true accepted gate_dir_ok eq_refl)). vm_compute. reflexivity.
Defined.

Definition run_all (ops : list Op) (w : World) : World := foldl (fun w op => (run_op op w).2) w ops.
Definition candidate : World := Eval vm_compute in
  run_all (WorkflowWitness.prepared ++ WorkflowWitness.candidate)
    (mkWorld (<["/work/context.md" := "approved"]> (files accepted)) [] 0 []).
Definition complete : World := Eval vm_compute in (supervisor_complete "wf" candidate).2.

Lemma completion_settled_witness :
  exists st h probe,
    completable dir (files candidate) "wf" st /\ "d1" = state_value st "candidate_diff_hash"
    /\ eval (source_diff true) (reconciled dir (files candidate)) = Ok (h, probe)
    /\ settled (reconciled dir (files candidate)) dir h probe.
Proof.
  apply (completion_settled canon dir "wf" candidate "d1" complete gate_dir_ok). vm_compute. reflexivity.
Defined.
End GateWitness.
