(* ===== verification/OpsBytes.v ===== *)
(** * OpsBytes: the byte formats of [runtime/src/prod_ops.rs]

    Base64 in both alphabets, the DER signatures that the key service returns
    and their raw form, and the quoting of values in a git configuration. Bytes
    are the characters of a string; [u32] shifts drop the bits above 32. *)

From S2P Require Import Prelude Text State Config Execution Dag Findings.

Definition chr (z : Z) : ascii := ascii_of_N (Z.to_N z).
Definition u32_mask : Z := 4294967295.
Definition shl32 (x k : Z) : Z := Z.land (Z.shiftl x k) u32_mask.

(** ** Base64 *)

Definition URL_ALPHABET : string := "ABCDEFGHIJKLMNOPQRSTUVWXYZabcdefghijklmnopqrstuvwxyz0123456789-_".
Definition STANDARD_ALPHABET : string := "ABCDEFGHIJKLMNOPQRSTUVWXYZabcdefghijklmnopqrstuvwxyz0123456789+/".

(** [alphabet[n as usize] as char]; [n] is below 64. *)
Definition digit_of (alphabet : string) (n : Z) : ascii :=
  match String.get (Z.to_nat n) alphabet with Some c => c | None => "=" end.

(** One chunk of one to three bytes. *)
Definition encode_chunk (alphabet : string) (a : ascii) (b c : option ascii) : string :=
  let byte o := match o with Some x => code x | None => 0 end in
  let value := Z.lor (Z.lor (shl32 (code a) 16) (shl32 (byte b) 8)) (byte c) in
  let digit k := digit_of alphabet (Z.land (Z.shiftr value k) 63) in
  String (digit 18) (String (digit 12)
    (String (match b with Some _ => digit 6 | None => "=" end)
       (String (match c with Some _ => digit 0 | None => "=" end) "")))%char.

Fixpoint encode_chunks (alphabet bytes : string) : string :=
  match bytes with
  | EmptyString => ""
  | String a EmptyString => encode_chunk alphabet a None None
  | String a (String b EmptyString) => encode_chunk alphabet a (Some b) None
  | String a (String b (String c rest)) => encode_chunk alphabet a (Some b) (Some c) +:+ encode_chunks alphabet rest
  end.
Definition base64_encode (bytes : string) (url : bool) : string :=
  encode_chunks (if url then URL_ALPHABET else STANDARD_ALPHABET) bytes.

(** [trim_end_matches('=')]. *)
Fixpoint drop_padding (s : string) : string :=
  match s with
  | EmptyString => ""
  | String c s' => let t := drop_padding s' in if Ascii.eqb c "=" && is_empty t then "" else String c t
  end.
Definition base64url_encode (bytes : string) : string := drop_padding (base64_encode bytes true).

Definition base64_digit (c : ascii) : option Z :=
  if is_ascii_uppercase c then Some (code c - 65)
  else if is_ascii_lowercase c then Some (code c - 97 + 26)
  else if is_ascii_digit c then Some (code c - 48 + 52)
  else if Ascii.eqb c "+" then Some 62
  else if Ascii.eqb c "/" then Some 63
  else None.

(** The loop of [base64_decode]: [buffer] is a [u32] and [bits] a [u8]. *)
Fixpoint decode_from (buffer bits : Z) (output value : string) : result string string :=
  match value with
  | EmptyString => Ok output
  | String c rest =>
      if is_ascii_whitespace c || Ascii.eqb c "=" then decode_from buffer bits output rest
      else match base64_digit c with
      | None => Err "invalid base64 from KMS"
      | Some digit =>
          let buffer := Z.lor (shl32 buffer 6) digit in
          let bits := bits + 6 in
          if 8 <=? bits then
            let bits := bits - 8 in
            decode_from (Z.land buffer (Z.max 0 (shl32 1 bits - 1))) bits
              (output +:+ String (chr (Z.land (Z.shiftr buffer bits) 255)) "") rest
          else decode_from buffer bits output rest
      end
  end.
Definition base64_decode (value : string) : result string string := decode_from 0 0 "" value.

(** ** DER *)

Definition byte_at (bytes : string) (offset : nat) : option Z := code <$> String.get offset bytes.

Fixpoint big_endian (acc : Z) (bytes : string) : Z :=
  match bytes with
  | EmptyString => acc
  | String c rest => big_endian (Z.lor (Z.shiftl acc 8) (code c)) rest
  end.

(** The length at [offset] and the offset behind it. *)
Definition der_len (bytes : string) (offset : nat) : result string (nat * nat) :=
  let? first := ok_or (byte_at bytes offset) "truncated DER length" in
  let offset := S offset in
  if Z.land first 128 =? 0 then Ok (Z.to_nat first, offset)
  else
    let count := Z.to_nat (Z.land first 127) in
    if (count =? 0)%nat || (2 <? count)%nat || (String.length bytes <? offset + count)%nat
    then Err "unsupported DER length"
    else Ok (Z.to_nat (big_endian 0 (String.substring offset count bytes)), (offset + count)%nat).

Definition der_integer (bytes : string) (offset : nat) : result string (string * nat) :=
  if negb (bool_decide (byte_at bytes offset = Some 2)) then Err "invalid DER integer"
  else
    let? length := der_len bytes (S offset) in
    let '(n, offset) := length in
    if (String.length bytes <? offset + n)%nat then Err "truncated DER integer"
    else Ok (String.substring offset n bytes, (offset + n)%nat).

Fixpoint zeros (n : nat) : string := match n with O => "" | S m => String (chr 0) (zeros m) end.

(** The value right-aligned in [width] zero bytes. *)
Definition copy_integer (value : string) (width : nat) : result string string :=
  let value := match value with
               | String c rest => if code c =? 0 then rest else value
               | EmptyString => value
               end in
  if (width <? String.length value)%nat then Err "ECDSA integer exceeds P-256 width"
  else Ok (zeros (width - String.length value) +:+ value).

Definition ecdsa_der_to_raw (der : string) : result string string :=
  if (String.length der <? 8)%nat || negb (bool_decide (byte_at der 0 = Some 48))
  then Err "KMS returned an invalid ECDSA DER signature"
  else
    let? header := der_len der 1 in
    let '(n, offset) := header in
    if negb (offset + n =? String.length der)%nat then Err "KMS ECDSA DER sequence length is invalid"
    else
      let? r := der_integer der offset in
      let? s := der_integer der r.2 in
      let? raw_r := copy_integer r.1 32 in
      let? raw_s := copy_integer s.1 32 in
      Ok (raw_r +:+ raw_s).

(** ** Git configuration *)

(** [replace] of one character by a text. *)
Fixpoint replace_with (c : ascii) (by_ s : string) : string :=
  match s with
  | EmptyString => ""
  | String a s' => (if Ascii.eqb a c then by_ else String a "") +:+ replace_with c by_ s'
  end.
Definition git_config_quote (value : string) : string :=
  String dquote
    (replace_with tab (String backslash "t")
       (replace_with dquote (String backslash (String dquote ""))
          (replace_with backslash (String backslash (String backslash "")) value)))
  +:+ String dquote "".

(** The lines of the format string. *)
Definition git_auth_lines (clone_url token permit : string) : list string :=
  let section name value := "[" +:+ name +:+ " " +:+ value +:+ "]" in
  let setting key value := tabs +:+ key +:+ " =" +:+ (if is_empty value then "" else " " +:+ value) in
  let literal s := String dquote s +:+ String dquote "" in
  [section "url" (git_config_quote clone_url); setting "insteadOf" "prod-mcp-materialize:";
   section "http" (git_config_quote clone_url);
   setting "extraHeader" (git_config_quote ("Authorization: Bearer " +:+ token));
   setting "extraHeader" (git_config_quote ("X-Prod-MCP-Permit: " +:+ permit));
   setting "followRedirects" "false"; "[credential]"; setting "helper" "";
   section "protocol" (literal "file"); setting "allow" "never";
   section "protocol" (literal "ext"); setting "allow" "never";
   section "filter" (literal "lfs"); setting "required" "false"; setting "smudge" ""; setting "clean" "";
   "[core]"; setting "hooksPath" "/dev/null"].
Definition git_auth_config (clone_url token permit : string) : result string string :=
  let? _ := guard (negb (existsb (has_any [nl; cr; chr 0]) [clone_url; token; permit]))
              "git authentication value contains an invalid character" in
  Ok (unlines (git_auth_lines clone_url token permit)).
