(* ===== verification/OpsBytesProps.v ===== *)
(** * OpsBytesProps: round trips and bounds of the byte formats *)

From S2P Require Import Prelude Text State Config Execution Dag Findings OpsBytes.

(** ** Words *)

Lemma code_range c : 0 <= code c < 256.
Proof. unfold code. pose proof (N_ascii_bounded c). lia. Qed.
Lemma chr_code c : chr (code c) = c.
Proof. unfold chr, code. by rewrite N2Z.id, ascii_N_embedding. Qed.
Lemma code_chr z : 0 <= z < 256 -> code (chr z) = z.
Proof. intros Hz. unfold chr, code. rewrite N_ascii_embedding; lia. Qed.

(** Joining bits that do not overlap is addition. *)
Lemma lor_add x y k : 0 <= k -> 0 <= y < 2 ^ k -> Z.lor (x * 2 ^ k) y = x * 2 ^ k + y.
Proof.
  intros Hk Hy. assert (Z.land (x * 2 ^ k) y = 0) as Hz.
  { apply Z.bits_inj'. intros n Hn. rewrite Z.land_spec, Z.bits_0, <- Z.shiftl_mul_pow2, Z.shiftl_spec by lia.
    destruct (Z.ltb_spec n k); [rewrite (Z.testbit_neg_r x) by lia; done|].
    destruct (decide (y = 0)) as [->|Hne]; [by rewrite Z.bits_0, andb_false_r|].
    rewrite (Z.bits_above_log2 y n); [apply andb_false_r|lia|]. apply Z.log2_lt_pow2; [lia|].
    apply Z.lt_le_trans with (2 ^ k); [lia|]. apply Z.pow_le_mono_r; lia. }
  pose proof (Z.add_lor_land (x * 2 ^ k) y). lia.
Qed.
Lemma shl32_small x k : 0 <= k -> 0 <= x * 2 ^ k < 2 ^ 32 -> shl32 x k = x * 2 ^ k.
Proof.
  intros Hk Hx. unfold shl32, u32_mask. rewrite Z.shiftl_mul_pow2 by done. change 4294967295 with (Z.ones 32).
  rewrite Z.land_ones by lia. by apply Z.mod_small.
Qed.
Lemma land_low x k : 0 <= k -> Z.land x (2 ^ k - 1) = x mod 2 ^ k.
Proof. intros Hk. rewrite <- Z.land_ones by done. by rewrite Z.ones_equiv, Z.sub_1_r. Qed.

(** ** Base64 *)

(** The characters of the standard alphabet are read back as their index. *)
Lemma digit_back d : 0 <= d < 64 ->
  base64_digit (digit_of STANDARD_ALPHABET d) = Some d
  /\ is_ascii_whitespace (digit_of STANDARD_ALPHABET d) || Ascii.eqb (digit_of STANDARD_ALPHABET d) "=" = false.
Proof.
  intros Hd.
  assert (forallb (fun n => let d := Z.of_nat n in
            bool_decide (base64_digit (digit_of STANDARD_ALPHABET d) = Some d)
            && negb (is_ascii_whitespace (digit_of STANDARD_ALPHABET d) || Ascii.eqb (digit_of STANDARD_ALPHABET d) "="))
            (seq 0 64) = true) as Hall by (vm_compute; reflexivity).
  rewrite forallb_forall in Hall. specialize (Hall (Z.to_nat d) ltac:(apply in_seq; lia)). cbv zeta in Hall.
  rewrite Z2Nat.id in Hall by lia. apply andb_true_iff in Hall as [H1%bool_decide_eq_true H2%negb_true_iff]. done.
Qed.

(** One digit, when the buffer holds [bits] bits. *)
Lemma decode_digit buffer bits output d rest :
  0 <= d < 64 -> 0 <= bits < 8 -> 0 <= buffer < 2 ^ bits ->
  decode_from buffer bits output (String (digit_of STANDARD_ALPHABET d) rest) =
  if 2 <=? bits then
    decode_from ((buffer * 64 + d) mod 2 ^ (bits - 2)) (bits - 2)
      (output +:+ String (chr ((buffer * 64 + d) / 2 ^ (bits - 2))) "") rest
  else decode_from (buffer * 64 + d) (bits + 6) output rest.
Proof.
  intros Hd Hbits Hbuf. assert (2 ^ bits <= 2 ^ 7) as H7 by (apply Z.pow_le_mono_r; lia). change (2 ^ 7) with 128 in H7.
  destruct (digit_back d Hd) as [Hdig Hws]. cbn [decode_from]. rewrite Hws, Hdig.
  assert (Z.lor (shl32 buffer 6) d = buffer * 64 + d) as ->.
  { rewrite shl32_small by (change (2 ^ 6) with 64; lia). by apply lor_add. }
  destruct (Z.leb_spec 2 bits) as [H2|H2].
  - destruct (Z.leb_spec 8 (bits + 6)); [|lia]. replace (bits + 6 - 8) with (bits - 2) by lia.
    assert (2 ^ (bits - 2) <= 2 ^ 5) as H5 by (apply Z.pow_le_mono_r; lia). change (2 ^ 5) with 32 in H5.
    assert (0 < 2 ^ (bits - 2)) by (apply Z.pow_pos_nonneg; lia).
    rewrite shl32_small by lia. rewrite Z.mul_1_l, Z.max_r, land_low by lia. rewrite Z.shiftr_div_pow2 by lia.
    change 255 with (2 ^ 8 - 1). rewrite land_low by lia. rewrite (Z.mod_small (_ / _)); [done|].
    split; [apply Z.div_pos; lia|]. apply Z.div_lt_upper_bound; [lia|]. change (2 ^ 8) with 256.
    assert (2 ^ bits = 4 * 2 ^ (bits - 2)) as He.
    { change 4 with (2 ^ 2). rewrite <- Z.pow_add_r by lia. f_equal. lia. }
    lia.
  - destruct (Z.leb_spec 8 (bits + 6)); [lia|]. done.
Qed.

(** The digits of a chunk as arithmetic on its bytes. *)
Lemma chunk_value a b c :
  0 <= a < 256 -> 0 <= b < 256 -> 0 <= c < 256 ->
  Z.lor (Z.lor (shl32 a 16) (shl32 b 8)) c = a * 65536 + b * 256 + c.
Proof.
  intros Ha Hb Hc. rewrite !shl32_small by (change (2 ^ 16) with 65536 || change (2 ^ 8) with 256; lia).
  rewrite (lor_add a (b * 2 ^ 8) 16) by (change (2 ^ 8) with 256; change (2 ^ 16) with 65536; lia).
  replace (a * 2 ^ 16 + b * 2 ^ 8) with ((a * 256 + b) * 2 ^ 8) by (change (2 ^ 16) with 65536; change (2 ^ 8) with 256; lia).
  rewrite lor_add by (change (2 ^ 8) with 256; lia). change (2 ^ 8) with 256. lia.
Qed.
Lemma digit_bits v k : 0 <= k -> Z.land (Z.shiftr v k) 63 = (v / 2 ^ k) mod 64.
Proof. intros Hk. rewrite Z.shiftr_div_pow2 by done. change 63 with (2 ^ 6 - 1). by rewrite land_low. Qed.

Section Steps.
Context (d : Z) (Hd : 0 <= d < 64) (output rest : string).
Lemma decode_0 : decode_from 0 0 output (String (digit_of STANDARD_ALPHABET d) rest) = decode_from d 6 output rest.
Proof. by rewrite decode_digit by (done || lia). Qed.
Lemma decode_6 b : 0 <= b < 64 ->
  decode_from b 6 output (String (digit_of STANDARD_ALPHABET d) rest)
  = decode_from ((b * 64 + d) mod 16) 4 (output +:+ String (chr ((b * 64 + d) / 16)) "") rest.
Proof. intros Hb. by rewrite decode_digit by (done || lia). Qed.
Lemma decode_4 b : 0 <= b < 16 ->
  decode_from b 4 output (String (digit_of STANDARD_ALPHABET d) rest)
  = decode_from ((b * 64 + d) mod 4) 2 (output +:+ String (chr ((b * 64 + d) / 4)) "") rest.
Proof. intros Hb. by rewrite decode_digit by (done || lia). Qed.
Lemma decode_2 b : 0 <= b < 4 ->
  decode_from b 2 output (String (digit_of STANDARD_ALPHABET d) rest)
  = decode_from 0 0 (output +:+ String (chr (b * 64 + d)) "") rest.
Proof.
  intros Hb. rewrite decode_digit by (done || lia). change (2 - 2) with 0. change (2 ^ 0) with 1.
  by rewrite Z.mod_1_r, Z.div_1_r.
Qed.
End Steps.

Ltac digit_range :=
  first [apply Z.mod_pos_bound; lia | split; [apply Z.div_pos; lia|apply Z.div_lt_upper_bound; lia]].

(** A whole chunk, in the terms of its bytes. *)
Lemma chunk_digits a b c v :
  0 <= a < 256 -> 0 <= b < 256 -> 0 <= c < 256 -> v = a * 65536 + b * 256 + c ->
  let d1 := (v / 262144) mod 64 in let d2 := (v / 4096) mod 64 in
  let d3 := (v / 64) mod 64 in let d4 := (v / 1) mod 64 in
  (d1 * 64 + d2) / 16 = a /\ (d1 * 64 + d2) mod 16 = b / 16
  /\ (b / 16 * 64 + d3) / 4 = b /\ (b / 16 * 64 + d3) mod 4 = c / 64 /\ c / 64 * 64 + d4 = c.
Proof. intros Ha Hb Hc ->. cbv zeta. split_and!; Z.div_mod_to_equations; lia. Qed.

Lemma decode_chunk a b c output rest :
  decode_from 0 0 output (encode_chunk STANDARD_ALPHABET a (Some b) (Some c) +:+ rest)
  = decode_from 0 0 (output +:+ String a (String b (String c ""))) rest.
Proof.
  pose proof (code_range a) as Ha. pose proof (code_range b) as Hb. pose proof (code_range c) as Hc.
  unfold encode_chunk. rewrite chunk_value by done. rewrite !digit_bits by lia.
  change (2 ^ 18) with 262144; change (2 ^ 12) with 4096; change (2 ^ 6) with 64; change (2 ^ 0) with 1.
  set (v := code a * 65536 + code b * 256 + code c). destruct (chunk_digits _ _ _ v Ha Hb Hc eq_refl) as (E1 & E2 & E3 & E4 & E5).
  cbn [String.append]. rewrite decode_0, decode_6 by digit_range. rewrite E1, E2.
  rewrite decode_4 by digit_range. rewrite E3, E4. rewrite decode_2 by digit_range. rewrite E5.
  by rewrite !chr_code, !str_app_assoc.
Qed.

(** The padding of the last chunk is skipped and its spare bits are dropped. *)
Lemma decode_last a b output :
  decode_from 0 0 output (encode_chunk STANDARD_ALPHABET a b None)
  = Ok (output +:+ String a (match b with Some b => String b "" | None => "" end)).
Proof.
  pose proof (code_range a) as Ha. unfold encode_chunk.
  assert (0 <= match b with Some x => code x | None => 0 end < 256) as Hb by (destruct b; [apply code_range|lia]).
  rewrite chunk_value by lia. rewrite !digit_bits by lia.
  change (2 ^ 18) with 262144; change (2 ^ 12) with 4096; change (2 ^ 6) with 64.
  set (v := code a * 65536 + _ + 0).
  destruct (chunk_digits (code a) (match b with Some x => code x | None => 0 end) 0 v Ha Hb ltac:(lia) eq_refl)
    as (E1 & E2 & E3 & _). rewrite decode_0, decode_6 by digit_range. rewrite E1, E2. destruct b as [b|].
  - rewrite decode_4 by digit_range. rewrite E3. cbn [decode_from]. by rewrite !chr_code, !str_app_assoc.
  - cbn [decode_from]. by rewrite !chr_code.
Qed.

Lemma decode_chunks output bytes :
  decode_from 0 0 output (encode_chunks STANDARD_ALPHABET bytes) = Ok (output +:+ bytes).
Proof.
  remember (String.length bytes) as n eqn:Hn. assert (String.length bytes <= n)%nat as Hle by lia. clear Hn.
  revert output bytes Hle. induction n as [|n IH]; intros output bytes Hle.
  - destruct bytes; [by rewrite str_app_nil_r|simpl in Hle; lia].
  - destruct bytes as [|a [|b [|c rest]]]; cbn [encode_chunks].
    + by rewrite str_app_nil_r.
    + apply (decode_last a None).
    + apply (decode_last a (Some b)).
    + rewrite decode_chunk, IH by (simpl in Hle; lia). by rewrite str_app_assoc.
Qed.

Lemma encode_chunks_length alphabet bytes :
  String.length (encode_chunks alphabet bytes) = (4 * ((String.length bytes + 2) / 3))%nat.
Proof.
  remember (String.length bytes) as n eqn:Hn. revert bytes Hn.
  induction (lt_wf n) as [n _ IH]. intros bytes ->. destruct bytes as [|a [|b [|c rest]]]; try done.
  cbn [encode_chunks]. rewrite str_length_app. cbn [encode_chunk String.length].
  rewrite (IH (String.length rest)) by (simpl; lia || done).
  replace (S (S (S (String.length rest))) + 2)%nat with (String.length rest + 2 + 1 * 3)%nat by lia.
  rewrite Nat.div_add by lia. lia.
Qed.

(** Base64 round trip. Every byte string is read back from its standard
    encoding, and the encoding has four characters for every three bytes begun. *)
Theorem base64_roundtrip bytes :
  base64_decode (base64_encode bytes false) = Ok bytes
  /\ String.length (base64_encode bytes false) = (4 * ((String.length bytes + 2) / 3))%nat.
Proof. split; [apply (decode_chunks "")|apply encode_chunks_length]. Qed.

(** ** DER signatures *)

Lemma get_app a c b : String.get (String.length a) (a +:+ String c b) = Some c.
Proof. by induction a. Qed.
Lemma substring_app a b : String.substring 0 (String.length a) (a +:+ b) = a.
Proof. induction a as [|c a IH]; cbn [String.append String.length String.substring]; [by destruct b|by rewrite IH]. Qed.
Lemma substring_skip a b n : String.substring (String.length a) n (a +:+ b) = String.substring 0 n b.
Proof. by induction a. Qed.
Lemma substring_all s : String.substring 0 (String.length s) s = s.
Proof. rewrite <- (str_app_nil_r s) at 2. apply substring_app. Qed.

Lemma zeros_length n : String.length (zeros n) = n.
Proof. induction n; simpl; congruence. Qed.
Lemma big_endian_zeros n s : big_endian 0 (zeros n +:+ s) = big_endian 0 s.
Proof. by induction n. Qed.

(** A positive integer below 2^256: at most 32 bytes after one zero byte. *)
Definition fits (v : string) : bool :=
  (1 <=? String.length v)%nat && (String.length v <=? 33)%nat
  && ((String.length v <=? 32)%nat || starts_with (String (chr 0) "") v).

Lemma copy_integer_ok value width raw :
  copy_integer value width = Ok raw -> String.length raw = width /\ big_endian 0 raw = big_endian 0 value.
Proof.
  unfold copy_integer. set (v := match value with String c rest => _ | EmptyString => _ end).
  assert (big_endian 0 v = big_endian 0 value) as Hv.
  { unfold v. destruct value as [|c rest]; [done|]. destruct (Z.eqb_spec (code c) 0) as [E|]; [|done].
    cbn [big_endian]. by rewrite E. }
  destruct (Nat.ltb_spec width (String.length v)); [done|]. intros [= <-].
  rewrite str_length_app, zeros_length, big_endian_zeros. split; [lia|done].
Qed.
Lemma copy_integer_fits v : fits v = true -> is_ok (copy_integer v 32) = true.
Proof.
  unfold fits, copy_integer. rewrite !andb_true_iff, orb_true_iff. intros [[H1 H2] H3]. rewrite !Nat.leb_le in *.
  destruct v as [|c rest]; [simpl in H1; lia|]. destruct (Z.eqb_spec (code c) 0) as [E|E].
  - destruct (Nat.ltb_spec 32 (String.length rest)); [simpl in H2; lia|done].
  - destruct (Nat.ltb_spec 32 (String.length (String c rest))) as [Hl|]; [|done]. destruct H3 as [H3|H3]; [lia|].
    apply starts_with_spec in H3 as [r [= -> _]]. by rewrite code_chr in E by lia.
Qed.

(** The DER form of a signature whose parts are short. *)
Definition der_signature (r s : string) : string :=
  let integer v := String (chr 2) (String (chr (Z.of_nat (String.length v))) v) in
  String (chr 48) (String (chr (Z.of_nat (String.length r + String.length s + 4))) (integer r +:+ integer s)).

Lemma short_length bytes offset n :
  (n < 128)%nat -> String.get offset bytes = Some (chr (Z.of_nat n)) -> der_len bytes offset = Ok (n, S offset).
Proof.
  intros Hn Hg. unfold der_len, byte_at. rewrite Hg. cbn [fmap option_fmap option_map ok_or rbind]. rewrite code_chr by lia.
  assert (Z.land (Z.of_nat n) 128 = 0) as ->.
  { change 128 with (2 ^ 7). apply Z.bits_inj'. intros k Hk. rewrite Z.land_spec, Z.bits_0, Z.pow2_bits_eqb by lia.
    destruct (Z.eqb_spec 7 k) as [<-|]; [|apply andb_false_r]. rewrite Z.testbit_odd, Z.shiftr_div_pow2 by lia.
    rewrite Z.div_small by (change (2 ^ 7) with 128; lia). done. }
  by rewrite Nat2Z.id.
Qed.

Lemma der_integer_at pre v rest :
  (String.length v < 128)%nat ->
  der_integer (pre +:+ String (chr 2) (String (chr (Z.of_nat (String.length v))) (v +:+ rest))) (String.length pre)
  = Ok (v, (String.length pre + 2 + String.length v)%nat).
Proof.
  intros Hv. set (n := chr (Z.of_nat (String.length v))). unfold der_integer, byte_at. rewrite get_app. cbn [fmap option_fmap option_map].
  rewrite code_chr by lia. rewrite bool_decide_eq_true_2 by done. cbn [negb].
  set (bytes := pre +:+ String (chr 2) (String n (v +:+ rest))).
  assert (bytes = (pre +:+ String (chr 2) "") +:+ String n (v +:+ rest)) as Hb by (unfold bytes; by rewrite str_app_assoc).
  assert (bytes = (pre +:+ String (chr 2) (String n "")) +:+ (v +:+ rest)) as Hb2 by (unfold bytes; by rewrite str_app_assoc).
  rewrite (short_length bytes (S (String.length pre)) (String.length v)); [|done|].
  2: { replace (S (String.length pre)) with (String.length (pre +:+ String (chr 2) "")) by (rewrite str_length_app; simpl; lia).
       rewrite Hb. apply get_app. }
  cbn [rbind]. replace (S (S (String.length pre))) with (String.length (pre +:+ String (chr 2) (String n "")))
    by (rewrite str_length_app; simpl; lia).
  rewrite Hb2, substring_skip, substring_app, !str_length_app. cbn [String.length].
  destruct (Nat.ltb_spec (String.length pre + 2 + (String.length v + String.length rest)) (String.length pre + 2 + String.length v));
    [lia|done].
Qed.

Lemma der_signature_parses r s :
  (String.length r <= 33)%nat -> (String.length s <= 33)%nat -> (1 <= String.length r)%nat -> (1 <= String.length s)%nat ->
  ecdsa_der_to_raw (der_signature r s) =
  (let? raw_r := copy_integer r 32 in let? raw_s := copy_integer s 32 in Ok (raw_r +:+ raw_s)).
Proof.
  intros Hr Hs Hr1 Hs1. unfold der_signature. cbv zeta.
  set (n := (String.length r + String.length s + 4)%nat). set (part := fun v => String (chr 2) (String (chr (Z.of_nat (String.length v))) v)).
  set (ir := part r). set (iis := part s).
  set (hdr := String (chr 48) (String (chr (Z.of_nat n)) "")).
  assert (String.length (ir +:+ iis) = n) as Hn by (rewrite str_length_app; unfold ir, iis, n; simpl; lia).
  set (der := String (chr 48) _). assert (der = hdr +:+ (ir +:+ iis)) as Hd by done. unfold ecdsa_der_to_raw.
  assert (String.length der = (2 + n)%nat) as Hder by (rewrite Hd, str_length_app; by rewrite Hn).
  rewrite Hder. rewrite bool_decide_eq_true_2 by done.
  destruct (Nat.ltb_spec (2 + n) 8); [lia|]. cbn [orb negb].
  rewrite (short_length der 1 n) by (lia || done). cbn [rbind]. rewrite Nat.eqb_refl. cbn [negb].
  assert (der_integer der 2 = Ok (r, (4 + String.length r)%nat)) as ->.
  { apply (der_integer_at hdr r iis). lia. }
  cbn [rbind fst snd].
  assert (der = (hdr +:+ ir) +:+ String (chr 2) (String (chr (Z.of_nat (String.length s))) (s +:+ ""))) as ->.
  { rewrite Hd. unfold iis, part. by rewrite str_app_assoc, str_app_nil_r. }
  replace (4 + String.length r)%nat with (String.length (hdr +:+ ir)) by (rewrite str_length_app; unfold ir; simpl; lia).
  by rewrite der_integer_at by lia.
Qed.

Lemma ecdsa_raw_length der raw : ecdsa_der_to_raw der = Ok raw -> String.length raw = 64%nat.
Proof.
  unfold ecdsa_der_to_raw. destruct (_ || _); [done|]. intros Hr. apply rbind_ok in Hr as ([n off] & _ & Hr).
  destruct (negb _); [done|]. apply rbind_ok in Hr as (r & _ & Hr). apply rbind_ok in Hr as (s & _ & Hr).
  apply rbind_ok in Hr as (a & Ha & Hr). apply rbind_ok in Hr as (b & Hb & [= <-]).
  apply copy_integer_ok in Ha as [Ha _], Hb as [Hb _]. rewrite str_length_app. lia.
Qed.

(** The signature of a permit. A DER signature that iis accepted always gives
    64 bytes; and the DER form of two positive integers below 2^256 iis accepted,
    with the integers in the two halves. *)
Theorem der_signature_raw :
  (forall der raw, ecdsa_der_to_raw der = Ok raw -> String.length raw = 64%nat)
  /\ forall r s, fits r = true -> fits s = true ->
       exists raw_r raw_s, ecdsa_der_to_raw (der_signature r s) = Ok (raw_r +:+ raw_s)
         /\ String.length raw_r = 32%nat /\ big_endian 0 raw_r = big_endian 0 r
         /\ String.length raw_s = 32%nat /\ big_endian 0 raw_s = big_endian 0 s.
Proof.
  split.
  - apply ecdsa_raw_length.
  - intros r s Hr Hs. assert (String.length r <= 33 /\ String.length s <= 33 /\ 1 <= String.length r /\ 1 <= String.length s)%nat as Hlen.
    { unfold fits in Hr, Hs. rewrite !andb_true_iff, !Nat.leb_le in Hr, Hs. lia. }
    pose proof (copy_integer_fits r Hr) as Hr'. pose proof (copy_integer_fits s Hs) as Hs'.
    destruct (copy_integer r 32) as [raw_r|] eqn:Er; [|done]. destruct (copy_integer s 32) as [raw_s|] eqn:Es; [|done].
    exists raw_r, raw_s. split; [|by apply copy_integer_ok in Er as [-> ->], Es as [-> ->]].
    rewrite der_signature_parses by lia. by rewrite Er, Es.
Qed.

(** ** Git configuration *)

(** What git reads back from a quoted value: up to the closing quote, with the
    escapes of a configuration file. *)
Fixpoint unquote_body (s : string) : option (string * string) :=
  match s with
  | EmptyString => None
  | String c rest =>
      if Ascii.eqb c dquote then Some ("", rest)
      else if Ascii.eqb c backslash then
        match rest with
        | EmptyString => None
        | String e rest' =>
            let piece := if Ascii.eqb e "t" then Some tab else if Ascii.eqb e "n" then Some nl
                         else if Ascii.eqb e backslash then Some backslash
                         else if Ascii.eqb e dquote then Some dquote else None in
            match piece, unquote_body rest' with
            | Some p, Some (v, r) => Some (String p v, r)
            | _, _ => None
            end
        end
      else match unquote_body rest with Some (v, r) => Some (String c v, r) | None => None end
  end.
Definition unquote (s : string) : option (string * string) :=
  match s with String c rest => if Ascii.eqb c dquote then unquote_body rest else None | EmptyString => None end.

Definition escape_char (a : ascii) : string :=
  if Ascii.eqb a backslash then String backslash (String backslash "")
  else if Ascii.eqb a dquote then String backslash (String dquote "")
  else if Ascii.eqb a tab then String backslash "t" else String a "".
Fixpoint escape (s : string) : string :=
  match s with EmptyString => "" | String a s' => escape_char a +:+ escape s' end.

Lemma replace_with_app c b x y : replace_with c b (x +:+ y) = replace_with c b x +:+ replace_with c b y.
Proof. induction x as [|a x IH]; [done|]. cbn [String.append replace_with]. by rewrite IH, str_app_assoc. Qed.
(** The three replacements, in their order, are one pass. *)
Lemma quote_escape v : git_config_quote v = String dquote (escape v +:+ String dquote "").
Proof.
  unfold git_config_quote. cbn [String.append]. f_equal. f_equal. induction v as [|a v IH]; [done|].
  cbn [replace_with escape]. rewrite !replace_with_app, IH. f_equal. unfold escape_char.
  destruct (Ascii.eqb_spec a backslash) as [->|]; [done|]. cbn [replace_with]. rewrite replace_with_app.
  destruct (Ascii.eqb_spec a dquote) as [->|]; [done|]. cbn [replace_with String.append].
  by destruct (Ascii.eqb_spec a tab) as [->|].
Qed.
Lemma unquote_escape v r : unquote_body (escape v +:+ String dquote r) = Some (v, r).
Proof.
  induction v as [|a v IH]; [done|]. cbn [escape]. rewrite str_app_assoc. unfold escape_char.
  destruct (Ascii.eqb_spec a backslash) as [->|H1]; [cbn; by rewrite IH|].
  destruct (Ascii.eqb_spec a dquote) as [->|H2]; [cbn; by rewrite IH|].
  destruct (Ascii.eqb_spec a tab) as [->|H3]; [cbn; by rewrite IH|].
  cbn [String.append unquote_body]. apply Ascii.eqb_neq in H1, H2. by rewrite H2, H1, IH.
Qed.
Lemma escape_clean v : clean v = true -> clean (escape v) = true.
Proof.
  induction v as [|a v IH]; [done|]. change (String a v) with (String a "" +:+ v). rewrite clean_app.
  intros [Ha Hv]%andb_true_iff. cbn [String.append escape]. rewrite clean_app, (IH Hv), andb_true_r. unfold escape_char.
  by repeat case_match.
Qed.
Lemma quote_clean v : clean v = true -> clean (git_config_quote v) = true.
Proof.
  intros Hv. rewrite quote_escape. change (String dquote (escape v +:+ String dquote "")) with (String dquote "" +:+ (escape v +:+ String dquote "")).
  by rewrite !clean_app, escape_clean.
Qed.

(** The values git reads for one key of a configuration. *)
Definition settings (key config : string) : list (option (string * string)) :=
  map unquote (omap (strip_prefix (tabs +:+ key +:+ " = ")) (lines config)).

(** Credentials in the git configuration. A value that is quoted is read
    back unchanged and nothing of it is left over, whatever characters it has. A
    configuration that is accepted has its eighteen lines and no more: the clone
    URL, the token and the permit cannot add a setting, and the only two headers
    are the token and the permit as they were given. *)
Theorem git_auth_config_sealed :
  (forall v, unquote (git_config_quote v) = Some (v, ""))
  /\ forall clone_url token permit config,
       git_auth_config clone_url token permit = Ok config ->
       length (lines config) = 18%nat
       /\ settings "extraHeader" config =
            [Some ("Authorization: Bearer " +:+ token, ""); Some ("X-Prod-MCP-Permit: " +:+ permit, "")].
Proof.
  assert (forall v, unquote (git_config_quote v) = Some (v, "")) as Hq.
  { intros v. rewrite quote_escape. apply unquote_escape. }
  split; [done|]. intros u t p config. unfold git_auth_config. intros Hc.
  apply rbind_ok in Hc as ([] & Hg%guard_ok & [= <-]). cbn [existsb has_any] in Hg.
  assert (clean u = true /\ clean t = true /\ clean p = true) as (Hu & Ht & Hp).
  { unfold clean. bool_hyps. repeat match goal with H : _ = false |- _ => rewrite H end. done. }
  assert (forallb clean (git_auth_lines u t p) = true) as Hls.
  { assert (forall v, is_empty (git_config_quote v) = false) as Hne by done. unfold git_auth_lines. cbv zeta. rewrite !Hne.
    cbn [forallb]. rewrite !clean_app, !quote_clean by (rewrite ?clean_app, ?Hu, ?Ht, ?Hp; done). done. }
  unfold settings. rewrite !lines_unlines by done. split; [done|].
  change (map unquote (omap (strip_prefix (tabs +:+ "extraHeader" +:+ " = ")) (git_auth_lines u t p)))
    with [unquote (git_config_quote ("Authorization: Bearer " +:+ t)); unquote (git_config_quote ("X-Prod-MCP-Permit: " +:+ p))].
  by rewrite !Hq.
Qed.

Lemma der_signature_raw_witness :
  is_ok (ecdsa_der_to_raw (der_signature "r" "s")) = true.
Proof.
  destruct (proj2 der_signature_raw "r" "s" eq_refl eq_refl) as (r & s & E & _). rewrite E. reflexivity.
Defined.
Lemma git_auth_config_sealed_witness :
  exists config, git_auth_config "https://git.example/r" "t0ken" "permit" = Ok config /\ length (lines config) = 18%nat.
Proof.
  eexists. split; [reflexivity|]. eapply (proj2 git_auth_config_sealed "https://git.example/r" "t0ken" "permit"). reflexivity.
Defined.
