(* ===== verification/OpsRequest.v ===== *)
(** * OpsRequest: the requests of [runtime/src/prod_ops.rs]

    The checks on a request, on the capability that the service advertises, on
    the receipt it returns and on the reviewer's message. [serde_json::Map] is a
    [BTreeMap]: a value is printed, compared and iterated in its canonical form. *)

From S2P Require Import Prelude Text State Json LogModel Config Execution Dag Lifecycle Snapshot Findings OpsBytes.

(** ** Values *)

Definition as_object (v : Value) : option (list (string * Value)) :=
  match v with VObj kvs => Some kvs | _ => None end.
Definition as_bool (v : Value) : option bool := match v with VBool b => Some b | _ => None end.
Definition is_null (v : Value) : bool := match v with VNull => true | _ => false end.
(** [Value::pointer] with the keys of the path. *)
Fixpoint pointer (keys : list string) (v : Value) : option Value :=
  match keys with [] => Some v | k :: ks => member k v ≫= pointer ks end.
Definition pointer_str (keys : list string) (v : Value) : option string := pointer keys v ≫= as_str.
(** [Map::insert] and [Map::remove]. *)
Definition obj_remove (key : string) (kvs : list (string * Value)) : list (string * Value) :=
  List.filter (fun kv => negb (String.eqb kv.1 key)) kvs.
Definition obj_insert (key : string) (v : Value) (kvs : list (string * Value)) : list (string * Value) :=
  obj_remove key kvs ++ [(key, v)].
Definition str_is (v : option string) (s : string) : bool := bool_decide (v = Some s).

(** ** Names and versions *)

Definition ops_id_char (c : ascii) : bool := is_ascii_alphanumeric c || has_char c "._:-".
Definition validate_id (label value : string) : result string unit :=
  guard (negb (is_empty value || (128 <? len value))
         && match value with
            | String c rest => is_ascii_alphanumeric c && all_chars ops_id_char rest
            | EmptyString => true
            end)
    (label +:+ " is invalid").

Definition validate_semver (label value : string) : result string unit :=
  let parts := split "." value in
  guard ((length parts =? 3)%nat
         && forallb (fun part => negb (is_empty part) && all_chars is_ascii_digit part) parts)
    (label +:+ " is invalid").

(** ** Options *)

(** The command line of the operations: every option has a value and is given once. *)
Fixpoint options_from (result_ : gmap string string) (args : list string) : result string (gmap string string) :=
  match args with
  | [] => Ok result_
  | key :: rest =>
      if negb (starts_with "--" key) then Err "expected an option"
      else match rest with
      | [] => Err (key +:+ " requires a value")
      | value :: rest' =>
          match result_ !! key with
          | Some _ => Err ("duplicate option: " +:+ key)
          | None => options_from (<[key := value]> result_) rest'
          end
      end
  end.
Definition options (args : list string) : result string (gmap string string) := options_from ∅ args.
Definition required (o : gmap string string) (key : string) : result string string :=
  match o !! key with
  | Some value => if is_empty value then Err (key +:+ " is required") else Ok value
  | None => Err (key +:+ " is required")
  end.

(** ** The request template *)

Definition required_template_string (kvs : list (string * Value)) (key : string) : result string string :=
  match member key (VObj kvs) ≫= as_str with
  | Some value => if is_empty value then Err ("ops request template requires string field " +:+ key) else Ok value
  | None => Err ("ops request template requires string field " +:+ key)
  end.
Definition required_object (kvs : list (string * Value)) (key : string) : result string (list (string * Value)) :=
  ok_or (member key (VObj kvs) ≫= as_object) ("ops request template requires object field " +:+ key).

Definition APPROVALS_SUPPLIED : string :=
  "ops request approvals are derived by the supervisor and cannot be supplied by an agent".

Definition validate_request_envelope (template : Value) : result string unit :=
  let? object := ok_or (as_object template) "ops request template must be an object" in
  let? task_id := required_template_string object "taskId" in
  let? _ := validate_id "task ID" task_id in
  let? _ := guard (match member "goal" template with Some goal => negb (is_null goal) | None => false end)
              "ops request template requires goal" in
  let? _ := guard (negb (is_some (member "approvals" template))) APPROVALS_SUPPLIED in
  let? operation := required_object object "operation" in
  let? _ := guard (length operation =? 2)%nat "ops request operation must contain only id and version" in
  let? operation_id := required_template_string operation "id" in
  let? _ := validate_id "operation ID" operation_id in
  let? version := required_template_string operation "version" in
  let? _ := validate_semver "operation version" version in
  let? _ := required_object object "parameters" in
  let? runbook := required_object object "runbook" in
  let? _ := guard (length runbook =? 3)%nat "ops request runbook must contain id, version, and phase" in
  let? runbook_id := required_template_string runbook "id" in
  let? _ := validate_id "runbook ID" runbook_id in
  let? runbook_version := required_template_string runbook "version" in
  let? _ := validate_semver "runbook version" runbook_version in
  let? phase := required_template_string runbook "phase" in
  validate_id "runbook phase" phase.

Definition ENVIRONMENTS : list string := ["development"; "staging"; "production"].
Fixpoint validate_target_names (target : list (string * Value)) (keys : list string) : result string unit :=
  match keys with
  | [] => Ok tt
  | key :: rest =>
      let? name := required_template_string target key in
      let? _ := validate_id ("target " +:+ key) name in
      validate_target_names target rest
  end.

Definition validate_request_template (template : Value) : result string unit :=
  let? _ := validate_request_envelope template in
  let? object := ok_or (as_object template) "ops request template must be an object" in
  let? target := required_object object "target" in
  let? _ := guard (length target =? 4)%nat
              "ops request target must contain environment, cluster, namespace, and service" in
  let? environment := required_template_string target "environment" in
  let? _ := guard (existsb (String.eqb environment) ENVIRONMENTS) "ops request target environment is invalid" in
  let? _ := validate_target_names target ["cluster"; "namespace"; "service"] in
  let? _ := required_template_string object "runbookDocument" in
  let? digest := required_template_string object "runbookContentSha256" in
  let? hex := ok_or (strip_prefix "sha256:" digest) "ops request runbookContentSha256 is invalid" in
  guard ((len hex =? 64) && all_chars lower_hex hex) "ops request runbookContentSha256 is invalid".

(** ** Capabilities *)

Definition no_approval_roles (capability : Value) : bool :=
  match member "requiredApprovalRoles" capability ≫= as_list with Some [] => true | _ => false end.
Definition non_mutating (capability : Value) : bool :=
  bool_decide ((member "mutation" capability ≫= as_bool) = Some false).
Definition runbook_ref (template : Value) : string :=
  unwrap_or (pointer_str ["runbook"; "id"] template) "" +:+ "@"
  +:+ unwrap_or (pointer_str ["runbook"; "version"] template) "".
Definition allows_runbook (capability template : Value) : bool :=
  match member "allowedRunbooks" capability ≫= as_list with
  | Some values => existsb (fun value => str_is (as_str value) (runbook_ref template)) values
  | None => false
  end.
Definition version_matches (capability template : Value) : bool :=
  same_value (member "version" capability) (pointer ["operation"; "version"] template).

Definition validate_read_capability (capability template : Value) : result string unit :=
  let? _ := guard (str_is (member_str "access" capability) "read" && non_mutating capability)
              "reviewer evidence operation must be advertised as read-only and non-mutating" in
  let? _ := guard (no_approval_roles capability)
              "reviewer evidence operation must not require mutation approvals" in
  let? _ := guard (version_matches capability template)
              "reviewer evidence operation version does not match prod-mcp capability" in
  guard (allows_runbook capability template)
    "reviewer evidence operation is not allowed by the reviewed runbook".

Definition validate_diagnosis_capability (capability : Value) : result string unit :=
  let access := member_str "access" capability in
  let? _ := guard ((str_is access "read" || str_is access "materialize") && non_mutating capability)
              "diagnosis-only sessions may execute only non-mutating read or materialize capabilities" in
  guard (no_approval_roles capability)
    "diagnosis-only capability must not require mutation approval roles".

Inductive DirectAccess : Type := Read | Materialize.

Definition validate_direct_capability (capability template : Value) : result string DirectAccess :=
  let access := member_str "access" capability in
  let? access := (if str_is access "read" then Ok Read
                  else if str_is access "materialize" then Ok Materialize
                  else Err "direct operation must be advertised with read or materialize access") in
  let? _ := guard (non_mutating capability) "direct operation must be advertised as non-mutating" in
  let? _ := guard (no_approval_roles capability) "direct operation must not require approval roles" in
  let? _ := guard (version_matches capability template)
              "direct operation version does not match prod-mcp capability" in
  let? _ := guard (allows_runbook capability template)
              "direct operation is not allowed by the bound runbook" in
  Ok access.

(** The scope of the evidence is the scope under review. *)
Definition SCOPE_POINTERS : list string :=
  ["taskId"; "goal"; "target"; "runbook"; "runbookDocument"; "runbookContentSha256"].
Fixpoint validate_scope (pointers : list string) (reviewed evidence : Value) : result string unit :=
  match pointers with
  | [] => Ok tt
  | p :: rest =>
      let? _ := guard (same_value (member p reviewed) (member p evidence))
                  ("reviewer evidence request widened reviewed scope at /" +:+ p) in
      validate_scope rest reviewed evidence
  end.
Definition validate_evidence_scope (reviewed evidence : Value) : result string unit :=
  validate_scope SCOPE_POINTERS reviewed evidence.

(** ** Network destinations *)

Definition arbitrary_url (value : string) : bool :=
  let normalized := to_ascii_lowercase value in
  contains "://" normalized || starts_with "git@" normalized || starts_with "file:" normalized.
Definition DESTINATION_KEYS : list string := ["url"; "uri"; "endpoint"; "hostname"; "host"].
Definition destination_key (key : string) : bool := existsb (String.eqb (to_ascii_lowercase key)) DESTINATION_KEYS.

Fixpoint reject_urls_in (v : Value) : result string unit :=
  match v with
  | VStr value => if arbitrary_url value then Err "direct operation parameters must not contain an arbitrary URL" else Ok tt
  | VArr values =>
      (fix go (l : list Value) : result string unit :=
         match l with
         | [] => Ok tt
         | x :: l' => let? _ := reject_urls_in x in go l'
         end) values
  | VObj values =>
      (fix go (l : list (string * Value)) : result string unit :=
         match l with
         | [] => Ok tt
         | (key, x) :: l' =>
             if destination_key key then Err "direct operation parameters must not select a network destination"
             else let? _ := reject_urls_in x in go l'
         end) values
  | _ => Ok tt
  end.
Definition reject_arbitrary_urls (v : Value) : result string unit := reject_urls_in (canonical_value v).

Definition http_origin_and_path (value : string) : result string (string * string) :=
  let? _ := guard (negb (has_any [backslash; nl; cr; tab; "#"; "?"]%char value))
              "prod-mcp URL contains unsupported characters" in
  let? parts := ok_or (split_once_str "://" value) "prod-mcp URL must use HTTP or HTTPS" in
  let '(scheme, remainder) := parts in
  let? _ := guard (String.eqb scheme "http" || String.eqb scheme "https") "prod-mcp URL must use HTTP or HTTPS" in
  let '(authority, path) := match split_once "/" remainder with
                            | Some (authority, rest) => (authority, "/" +:+ rest)
                            | None => (remainder, "/")
                            end in
  let? _ := guard (negb (is_empty authority) && negb (has_char "@" authority)) "prod-mcp URL authority is invalid" in
  Ok (scheme +:+ "://" +:+ authority, path).

Definition validate_clone_url (clone_url prod_mcp_url repository : string) : result string unit :=
  let? clone := http_origin_and_path clone_url in
  let? mcp := http_origin_and_path prod_mcp_url in
  let? _ := guard (eq_ignore_ascii_case clone.1 mcp.1) "github.clone URL origin differs from PROD_MCP_URL" in
  guard (String.eqb clone.2 ("/git/" +:+ repository +:+ ".git"))
    "github.clone URL path differs from the signed repository".

Definition repository_char (c : ascii) : bool := is_ascii_alphanumeric c || has_char c "_.-".
Definition validate_repository (repository : string) : result string unit :=
  guard (match split "/" repository with
         | [owner; name] =>
             negb (is_empty owner) && negb (is_empty name)
             && all_chars repository_char owner && all_chars repository_char name
         | _ => false
         end) "GitHub repository must be owner/name".

(** ** The verdict of a reviewer *)

Fixpoint accepted_from (accepted : bool) (ls : list string) : bool :=
  match ls with
  | [] => accepted
  | line :: rest =>
      match split_once ":" (foldl unwrap_marker line ["`"; "**"; "__"]) with
      | None => accepted_from accepted rest
      | Some (label, verdict) =>
          if negb (eq_ignore_ascii_case (trim label) "verdict") then accepted_from accepted rest
          else if eq_ignore_ascii_case (trim verdict) "accepted" then accepted_from true rest
          else false
      end
  end.
Definition reviewer_accepted (evidence : string) : bool :=
  accepted_from false (List.filter (fun line => negb (is_empty line)) (map trim (lines evidence))).

(** [str::from_utf8]: text is valid when nothing of it has to be replaced. *)
Definition from_utf8 (bytes : string) : option string :=
  if String.eqb (from_utf8_lossy bytes) bytes then Some bytes else None.

Definition direct_requester_role (uid : Z) : result string string :=
  if uid =? 0 then Ok "supervisor"
  else if uid =? ORCHESTRATOR_UID then Ok "orchestrator"
  else if uid =? WRITER_UID then Ok "writer"
  else if uid =? READER_UID then Ok "reader"
  else if uid =? OPS_UID then Ok "ops"
  else if uid =? REVIEWER_UID then Ok "reviewer"
  else Err "direct reads require a confined session role identity".

Inductive ExecuteMode : Type := ReviewerRead | ReviewedOperation.
Definition execute_mode (caller_uid : Z) (has_reviewed_request : bool) : result string ExecuteMode :=
  if has_reviewed_request then
    if (caller_uid =? 0) || (caller_uid =? REVIEWER_UID) then Ok ReviewerRead
    else Err "reviewer evidence reads require the reviewer identity"
  else if (caller_uid =? 0) || (caller_uid =? OPS_UID) then Ok ReviewedOperation
  else Err "operation execution requires the ops identity".

Definition parse_u32 (s : string) : option Z := n ← parse_u64 s; if u32_ok n then Some n else None.

Record TrustedApproval := mkApproval {
  subject : string; role : string; evidence_sha256 : string; approved_at : string
}.

Definition DIRECT_KEYS : list string := ["operation"; "parameters"; "runbook"; "runbookDocument"].
Definition direct_request_runbook (unbound : Value) : result string string :=
  let? object := ok_or (as_object unbound) "direct read request must be an object" in
  let? _ := guard ((length object =? 4)%nat && forallb (fun kv => existsb (String.eqb kv.1) DIRECT_KEYS) object)
              "direct read request may contain only operation, parameters, runbook, and runbookDocument" in
  match member_str "runbookDocument" unbound with
  | Some value => if is_empty value then Err "direct read request requires runbookDocument" else Ok value
  | None => Err "direct read request requires runbookDocument"
  end.

Definition successful_operation_receipt (result_ : Value) : result string (list (string * Value)) :=
  let? outer := ok_or (member "result" result_ ≫= as_object) "prod-mcp execution response has no result object" in
  let? _ := guard (negb (bool_decide ((member "isError" (VObj outer) ≫= as_bool) = Some true)))
              "prod-mcp rejected the direct operation" in
  let? structured := ok_or (member "structuredContent" (VObj outer) ≫= as_object)
                       "prod-mcp execution response has no structured receipt" in
  let? _ := guard (str_is (member_str "state" (VObj structured)) "succeeded")
              "prod-mcp direct operation did not succeed" in
  Ok structured.

(** [chars().take(n)]: a character ends before the next byte that is not a
    continuation byte. *)
Fixpoint take_chars (n : nat) (s : string) : string :=
  match s with
  | EmptyString => ""
  | String c s' =>
      if (128 <=? code c) && (code c <? 192) then String c (take_chars n s')
      else match n with O => "" | S m => String c (take_chars m s') end
  end.

(** [value.get(key).cloned().unwrap_or(Value::Null)]. *)
Definition member_or_null (key : string) (v : Value) : Value := unwrap_or (member key v) VNull.

Section Request.
Context `{Platform} `{JsonCodec} `{JsonPretty}.

(** ** Digests *)

Definition canonical (v : Value) : string := to_vec (canonical_value v).
Definition digest (bytes : string) : string := "sha256:" +:+ sha256_hex bytes.
Definition digest_json (v : Value) : string := digest (canonical v).
Definition to_vec_pretty (v : Value) : string := to_string_pretty (canonical_value v).
Definition runbook_content_digest (bytes : string) : string := "sha256:" +:+ sha256_hex bytes.

Definition required_env (name : string) : result string string :=
  ok_or (env_nonempty name) (name +:+ " is required").

Definition PREFIX : string := "- Set `target` to `".
Definition SUFFIX : string := "`.".
Definition canonical_runbook_target (bytes : string) : result string (option Value) :=
  let? markdown := ok_or (from_utf8 bytes) (io_error "decode runbook document as UTF-8") in
  match omap (strip_prefix PREFIX) (lines markdown) with
  | [] => Ok None
  | [declaration] =>
      let? encoded := ok_or (strip_suffix SUFFIX declaration) "canonical runbook target declaration is malformed" in
      let? target := ok_or (from_slice encoded) (io_error "decode canonical runbook target") in
      let? _ := guard (is_object target) "canonical runbook target must be a JSON object" in
      Ok (Some target)
  | _ => Err "runbook document must contain at most one canonical target declaration"
  end.

(** ** The binding of a review *)

Definition review_binding_value (template : Value) (runbook_content_sha256 : string) : result string Value :=
  let? _ := ok_or (as_object template) "ops request template must be an object" in
  let? goal := ok_or (member "goal" template) "ops request template requires goal" in
  let? runbook := ok_or (member "runbook" template) "ops request template requires runbook" in
  Ok (VObj [("apiVersion", VStr "multiagent.moveindustries.io/v1"); ("kind", VStr "OpsReviewBinding");
            ("requestTemplateSha256", VStr (digest_json template)); ("goalSha256", VStr (digest_json goal));
            ("runbookSha256", VStr (digest_json runbook)); ("runbookContentSha256", VStr runbook_content_sha256)]).
Definition review_binding_marker (template : Value) (runbook_content_sha256 : string) : result string string :=
  let? binding := review_binding_value template runbook_content_sha256 in
  Ok ("review-binding-sha256=" +:+ digest_json binding).
Definition review_binding_matches (binding template : Value) (runbook_content_sha256 : string) : result string bool :=
  let? expected := review_binding_value template runbook_content_sha256 in
  Ok (same_value (Some binding) (Some expected)).

Definition review_evidence_is_bound (evidence : string) (template : Value) (runbook_content_sha256 : string) :
    result string bool :=
  let? binding := review_binding_marker template runbook_content_sha256 in
  if existsb (String.eqb binding) (map trim (lines evidence)) then Ok true
  else
    let? _ := ok_or (as_object template) "ops request template must be an object" in
    let? goal := ok_or (member "goal" template) "ops request template requires goal" in
    let? runbook := ok_or (member "runbook" template) "ops request template requires runbook" in
    Ok (forallb (fun marker => contains marker evidence)
          ["request-template-sha256=" +:+ digest_json template; "goal-sha256=" +:+ digest_json goal;
           "runbook-sha256=" +:+ digest_json runbook; "runbook-content-sha256=" +:+ runbook_content_sha256]).

(** ** Responses of the service *)

Definition operation_capability (response : Value) (operation_id : string) : result string Value :=
  let? result_ := ok_or (member "result" response ≫= as_object) "prod-mcp capabilities response has no result object" in
  let? _ := guard (negb (bool_decide ((member "isError" (VObj result_) ≫= as_bool) = Some true)))
              ("prod-mcp capabilities failed: " +:+ canonical (VObj result_)) in
  let? operations := ok_or (pointer ["structuredContent"; "operations"] (VObj result_) ≫= as_list)
                       "prod-mcp capabilities response has no operations array" in
  ok_or (List.find (fun operation => str_is (member_str "id" operation) operation_id) operations)
    ("prod-mcp does not advertise operation " +:+ operation_id).

Definition parse_mcp_body (body : string) : result string Value :=
  match from_slice body with
  | Some value => Ok value
  | None =>
      ok_or (first_some (fun line => data ← strip_prefix "data: " line; from_slice data) (lines body))
        ("prod-mcp returned an invalid MCP response: " +:+ take_chars 512 body)
  end.

Definition redacted_direct_receipt (template result_ : Value) : result string Value :=
  if negb (str_is (pointer_str ["operation"; "id"] template) "github.clone") then Ok result_
  else
    let? outer := ok_or (member "result" result_ ≫= as_object) "prod-mcp execution response has no result object" in
    let structured := match member "structuredContent" (VObj outer) ≫= as_object with
                      | Some kvs => VObj kvs | None => VNull end in
    let succeeded := negb (bool_decide ((member "isError" (VObj outer) ≫= as_bool) = Some true))
                     && str_is (member_str "state" structured) "succeeded" in
    let summary := canonical (VObj
      [("operation", VStr "github.clone");
       ("repository", unwrap_or (pointer ["parameters"; "repository"] template) VNull);
       ("disposition", VStr (if succeeded then "succeeded" else "failed"));
       ("cloneUrl", VStr "[REDACTED]"); ("authentication", VStr "[REDACTED]")]) in
    Ok (VObj
      [("jsonrpc", unwrap_or (member "jsonrpc" result_) (VStr "2.0")); ("id", member_or_null "id" result_);
       ("result", VObj
         [("isError", VBool (negb succeeded));
          ("content", VArr [VObj [("type", VStr "text");
             ("text", VStr (if succeeded then "github.clone succeeded; protected transport fields redacted"
                            else "github.clone failed; protected transport fields redacted"))]]);
          ("structuredContent", VObj
            [("operationId", member_or_null "operationId" structured);
             ("requestedOperation", member_or_null "requestedOperation" structured);
             ("state", VStr (if succeeded then "succeeded" else "failed"));
             ("summary", VStr summary)])])]).

(** The clone URL of a receipt. *)
Definition clone_summary (receipt : list (string * Value)) (expected_repository prod_mcp_url : string) :
    result string string :=
  let? text := ok_or (member_str "summary" (VObj receipt)) "github.clone receipt has no summary" in
  let? summary := ok_or (from_slice text) (io_error "decode github.clone summary") in
  let? object := ok_or (as_object summary) "github.clone summary must be an object" in
  let? _ := guard ((length object =? 4)%nat && str_is (member_str "operation" summary) "github.clone"
                   && str_is (member_str "repository" summary) expected_repository)
              "github.clone summary does not match the requested repository" in
  let? authentication := ok_or (member "authentication" summary ≫= as_object)
                           "github.clone summary has no authentication contract" in
  let? _ := guard ((length authentication =? 2)%nat
                   && str_is (member_str "bearerHeader" (VObj authentication)) "Authorization"
                   && str_is (member_str "permitHeader" (VObj authentication)) "X-Prod-MCP-Permit")
              "github.clone authentication contract is unsupported" in
  let? clone_url := ok_or (member_str "cloneUrl" summary) "github.clone summary has no cloneUrl" in
  let? _ := validate_clone_url clone_url prod_mcp_url expected_repository in
  Ok clone_url.

(** ** Attribution *)

Definition CONTEXT_REQUIRED : string :=
  "thread execution attribution requires thread, session, lease generation, and authorizing event together".
Definition LEASE_INVALID : string := "MULTIAGENT_LEASE_GENERATION must be a positive integer".
Definition execution_context_from_environment : result string Value :=
  match env_nonempty "MULTIAGENT_THREAD_ID", env_nonempty "MULTIAGENT_SESSION",
        env_nonempty "MULTIAGENT_LEASE_GENERATION", env_nonempty "MULTIAGENT_AUTHORIZING_EVENT_ID" with
  | Some thread_id, Some session_id, Some lease_generation, Some authorizing_event_id =>
      let? _ := validate_id "thread ID" thread_id in
      let? _ := validate_id "session ID" session_id in
      let? _ := validate_id "authorizing event ID" authorizing_event_id in
      let? generation := ok_or (parse_u64 lease_generation) LEASE_INVALID in
      let? _ := guard (negb (generation =? 0)) LEASE_INVALID in
      Ok (VObj [("threadId", VStr thread_id); ("sessionId", VStr session_id);
                ("leaseGeneration", VNum generation); ("authorizingEventId", VStr authorizing_event_id)])
  | _, _, _, _ => Err CONTEXT_REQUIRED
  end.

End Request.
