(* ===== verification/OpsHost.v ===== *)
(** * OpsHost: the files of [runtime/src/prod_ops.rs] and their owners

    The operations rely on who owns a file and on its mode, and they call two
    services, so their state is a host: the world of the other components, the
    attributes of the paths and the calls made so far. Every system call that
    changes something can fail (the fault schedule of the world). *)

From S2P Require Import Prelude Text State Json LogModel Config Execution Dag Lifecycle Snapshot Findings Policy OpsBytes OpsRequest.

Record Attr := mkAttr { owner : Z; mode : Z; is_link : bool }.

(** The calls that leave the host: a message sent to the key service for its
    signature, and a request body sent to the operations service. *)
Inductive Call : Type :=
| SignCall (key_id message : string)
| McpCall (url : string) (body : Value).

Record Host := mkHost { hw : World; attrs : string -> Attr; calls : list Call }.

Definition OIO (A : Type) : Type := Host -> result string A * Host.
Definition oret {A} (a : A) : OIO A := fun h => (Ok a, h).
Definition ofail {A} (e : string) : OIO A := fun h => (Err e, h).
Definition obind {A B} (m : OIO A) (k : A -> OIO B) : OIO B :=
  fun h => match m h with
           | (Ok a, h') => k a h'
           | (Err e, h') => (Err e, h')
           end.
Notation "'let^' x ':=' m 'in' k" := (obind m (fun x => k))
  (at level 10, x pattern, m at level 100, k at level 200) : io_scope.
Definition olift {A} (r : result string A) : OIO A := fun h => (r, h).
Definition ocheck (b : bool) (e : string) : OIO unit := if b then oret tt else ofail e.
(** An operation of the world. *)
Definition io {A} (m : IO A) : OIO A :=
  fun h => let '(r, w) := m (hw h) in (r, mkHost w (attrs h) (calls h)).
(** [let _ = ...]: the error is dropped, the effect stays. *)
Definition attempt {A} (m : OIO A) : OIO (result string A) := fun h => let '(r, h') := m h in (Ok r, h').

Definition MAX_OPERATION_REQUEST_BYTES : Z := 65536.
Definition MAX_RUNBOOK_BYTES : Z := 1048576.

(** What other code decides: the clocks, the process, and what other processes
    do to the files between two system calls. *)
Class OpsEnv := {
  utc_now : nat -> Z;                       (* [Utc::now()] in nanoseconds *)
  system_nanos : nat -> option Z;           (* [SystemTime::now()] since the epoch *)
  rfc3339_millis : Z -> string;             (* [to_rfc3339_opts(Millis, true)] *)
  parse_from_rfc3339 : string -> option Z;
  process_id : Z;
  umask : Z;
  between : gmap string string * (string -> Attr) -> gmap string string * (string -> Attr)
}.

(** A file or a directory is there. *)
Definition present (fs : gmap string string) (p : string) : bool := is_some (fs !! p) || is_dir fs p.

Section Host.
Context `{Platform} `{Git} `{JsonCodec} `{JsonPretty} `{OpsEnv} `{Resolver}.

Definition store : OIO (gmap string string) := io get_files.
Definition attr (p : string) : OIO Attr := fun h => (Ok (attrs h p), h).

(** A system call that changes the attributes of a path. *)
Definition set_attr (p : string) (f : Attr -> Attr) (e : string) : OIO unit :=
  fun h =>
    let w := hw h in
    let w' := mkWorld (files w) (tail (faults w)) (ticks w) (stdout w) in
    match faults w with
    | true :: _ => (Err e, mkHost w' (attrs h) (calls h))
    | _ => (Ok tt, mkHost w' (fun q => if String.eqb q p then f (attrs h q) else attrs h q) (calls h))
    end.
Definition chmod (m : Z) (a : Attr) : Attr := mkAttr (owner a) m (is_link a).
Definition chown (u : Z) (a : Attr) : Attr := mkAttr u (mode a) (is_link a).

(** [fs::remove_file]. *)
Definition remove_file (p : string) : OIO unit :=
  fun h =>
    let w := hw h in
    let w' fs := mkWorld fs (tail (faults w)) (ticks w) (stdout w) in
    match faults w, files w !! p with
    | true :: _, _ | _, None => (Err os_error, mkHost (w' (files w)) (attrs h) (calls h))
    | _, Some _ => (Ok tt, mkHost (w' (delete p (files w))) (attrs h) (calls h))
    end.

(** A path that the process has just created. *)
Definition own (p : string) (m : Z) : OIO unit :=
  fun h => (Ok tt, mkHost (hw h)
              (fun q => if String.eqb q p then mkAttr geteuid (Z.land m (Z.lnot umask)) false else attrs h q) (calls h)).
(** [OpenOptions::create_new] with a mode: the file of the process, empty. *)
Definition create_new (p : string) (m : Z) (e : string) : OIO unit :=
  let^ fs := store in
  if present fs p then ofail e
  else let^ _ := io (put_file p "" e) in own p m.
(** [fs::write]: an existing file keeps its owner and mode. *)
Definition write_file (p t e : string) : OIO unit :=
  let^ fs := store in
  let^ _ := io (put_file p t e) in
  if present fs p then oret tt else own p 438.
(** [fs::create_dir_all]; the owners of the directories above are not tracked. *)
Definition make_dir_all (p context : string) : OIO unit :=
  let^ fs := store in
  let^ _ := io (create_dir_all p context) in
  if is_dir fs p then oret tt else own p 511.

(** [SystemTime::now()] and [Utc::now()]. *)
Definition tick : OIO nat :=
  fun h => let w := hw h in
           (Ok (ticks w), mkHost (mkWorld (files w) (faults w) (S (ticks w)) (stdout w)) (attrs h) (calls h)).
Definition nanos : OIO Z := let^ n := tick in olift (ok_or (system_nanos n) os_error).
Definition now : OIO Z := let^ n := tick in oret (utc_now n).

(** Other processes run. *)
Definition interfere : OIO unit :=
  fun h => let w := hw h in
           let '(fs, at_) := between (files w, attrs h) in
           (Ok tt, mkHost (mkWorld fs (faults w) (ticks w) (stdout w)) at_ (calls h)).

Definition canonicalize_path (p context : string) : OIO string :=
  let^ fs := store in olift (ok_or (resolve fs p) (io_error context)).

(** ** Bounded reads *)

Definition read_bounded_file (path : string) (limit : Z) (no_follow : bool) : OIO (string * Attr) :=
  let^ fs := store in
  let^ a := attr path in
  let^ _ := ocheck (present fs path && negb (no_follow && is_link a)) (io_error ("open " +:+ path)) in
  match fs !! path with
  | None => ofail (path +:+ " must be a regular file no larger than " +:+ u64_to_string limit +:+ " bytes")
  | Some contents =>
      let^ _ := ocheck (len contents <=? limit)
                  (path +:+ " must be a regular file no larger than " +:+ u64_to_string limit +:+ " bytes") in
      let bytes := String.substring 0 (Z.to_nat (limit + 1)) contents in
      let^ _ := ocheck (len bytes <=? limit) (path +:+ " exceeds the configured byte limit") in
      oret (bytes, a)
  end.

Definition group_writable (a : Attr) : bool := negb (Z.land (mode a) 18 =? 0).
Definition EMPTY_REQUEST : string := "ops request must contain between 1 and 65536 bytes".

Definition read_ops_draft (path : string) : OIO string :=
  let^ logs := olift (required_env "MULTIAGENT_LOG_DIR") in
  let^ agents := canonicalize_path (path_join logs "agents") "resolve ops agents log directory" in
  let^ canonical_path := canonicalize_path path "resolve ops draft file" in
  let^ _ := ocheck (inside canonical_path agents) "ops draft file must be inside MULTIAGENT_LOG_DIR/agents" in
  let^ read := read_bounded_file canonical_path MAX_OPERATION_REQUEST_BYTES true in
  let '(bytes, metadata) := read in
  let^ _ := ocheck (negb (is_empty bytes)) EMPTY_REQUEST in
  let^ _ := ocheck ((owner metadata =? OPS_UID) && negb (group_writable metadata))
              "ops draft must be owned by the ops UID and not group- or world-writable" in
  oret bytes.

Definition read_reviewable_request (state path : string) : OIO (string * string) :=
  let^ canonical_path := canonicalize_path path "resolve ops request file" in
  let^ _ := ocheck (inside canonical_path state) "ops request file must be inside MULTIAGENT_STATE_DIR" in
  let^ read := read_bounded_file canonical_path MAX_OPERATION_REQUEST_BYTES true in
  let '(bytes, metadata) := read in
  let^ _ := ocheck (negb (is_empty bytes)) EMPTY_REQUEST in
  let^ _ := ocheck (((owner metadata =? OPS_UID) || (owner metadata =? SUPERVISOR_UID)) && negb (group_writable metadata))
              "ops request must be safely owned by the ops or supervisor UID" in
  oret (canonical_path, bytes).

Definition read_direct_request (path : string) (caller_uid : Z) : OIO string :=
  let^ named := olift (required_env "MULTIAGENT_LOG_DIR") in
  let^ logs := canonicalize_path named "resolve multiagent log directory" in
  let^ agents := canonicalize_path (path_join logs "agents") "resolve agent trace directory" in
  let^ canonical_path := canonicalize_path path "resolve direct read request" in
  let^ _ := ocheck (inside canonical_path agents) "direct read request must be inside MULTIAGENT_LOG_DIR/agents" in
  let^ read := read_bounded_file canonical_path MAX_OPERATION_REQUEST_BYTES true in
  let '(bytes, metadata) := read in
  let^ _ := ocheck (negb (is_empty bytes)) "direct read request must contain between 1 and 65536 bytes" in
  let^ _ := ocheck ((owner metadata =? caller_uid) && negb (group_writable metadata))
              "direct read request must be caller-owned and not group- or world-writable" in
  oret bytes.

Definition read_reviewer_request (reviewer path : string) : OIO string :=
  let^ named := olift (required_env "MULTIAGENT_LOG_DIR") in
  let^ logs := canonicalize_path named "resolve multiagent log directory" in
  let^ reviewer_root := canonicalize_path (path_join (path_join logs "agents") reviewer) "resolve reviewer trace directory" in
  let^ canonical_path := canonicalize_path path "resolve reviewer evidence request" in
  let^ _ := ocheck (inside canonical_path reviewer_root)
              "reviewer evidence request must be inside its own trace directory" in
  let^ read := read_bounded_file canonical_path MAX_OPERATION_REQUEST_BYTES true in
  let '(bytes, metadata) := read in
  let^ _ := ocheck ((owner metadata =? REVIEWER_UID) && negb (group_writable metadata))
              "reviewer evidence request must be reviewer-owned and not group- or world-writable" in
  oret bytes.

(** ** Publication *)

Definition secure_publication_path (path : string) (directory : bool) : OIO unit :=
  let^ fs := store in
  let^ a := attr path in
  let^ _ := ocheck (present fs path || is_link a) (io_error ("inspect publication path " +:+ path)) in
  let^ _ := ocheck (negb (is_link a || (directory && negb (is_dir fs path)))) ("unsafe publication path: " +:+ path) in
  let^ _ := (if owner a =? SUPERVISOR_UID then oret tt
             else
               let^ _ := ocheck (geteuid =? 0) "operation request store must be supervisor-owned" in
               let^ _ := ocheck (negb (has_char (chr 0) path)) ("publication path contains NUL: " +:+ path) in
               set_attr path (chown SUPERVISOR_UID) (io_error ("set publication ownership " +:+ path))) in
  set_attr path (chmod (if directory then 488 else 288)) (io_error ("secure publication path " +:+ path)).

(** On the open temporary file. *)
Definition secure_publication_file (path : string) : OIO unit :=
  let^ a := attr path in
  let^ _ := (if owner a =? SUPERVISOR_UID then oret tt
             else
               let^ _ := ocheck (geteuid =? 0) "operation request artifact must be supervisor-owned" in
               set_attr path (chown SUPERVISOR_UID) (io_error "set operation request artifact ownership")) in
  set_attr path (chmod 288) (io_error "secure operation request artifact").

(** The mode bits [0o227]. *)
Definition validate_published_metadata (a : Attr) : result string unit :=
  guard ((owner a =? SUPERVISOR_UID) && (Z.land (mode a) 151 =? 0))
    "published operation request has unsafe ownership or mode".

Inductive Linked : Type := LinkDone | LinkExists | LinkFailed.
(** [fs::hard_link]: a second name of the same file, never over an existing one. *)
Definition hard_link (from to : string) : OIO Linked :=
  fun h =>
    let w := hw h in
    let w' fs := mkWorld fs (tail (faults w)) (ticks w) (stdout w) in
    if present (files w) to then (Ok LinkExists, h)
    else match faults w, files w !! from with
    | true :: _, _ | _, None => (Ok LinkFailed, mkHost (w' (files w)) (attrs h) (calls h))
    | _, Some t => (Ok LinkDone, mkHost (w' (<[to := t]> (files w)))
                                   (fun q => if String.eqb q to then attrs h from else attrs h q) (calls h))
    end.

Record PublishedRequest := mkPublished { artifact_path : string; published_sha256 : string; published_bytes : Z }.

Definition COLLISION : string := "content-addressed operation request collision".
Definition same_artifact (path bytes : string) (on_collision : OIO unit) : OIO unit :=
  let^ read := read_bounded_file path MAX_OPERATION_REQUEST_BYTES true in
  let^ _ := olift (validate_published_metadata read.2) in
  if String.eqb read.1 bytes then oret tt else let^ _ := on_collision in ofail COLLISION.

Definition request_directory (state hex : string) : string :=
  path_join (path_join (path_join state "operations") "requests") hex.

Definition publish_request_bytes (state bytes : string) : OIO PublishedRequest :=
  let^ _ := ocheck (negb (is_empty bytes || (MAX_OPERATION_REQUEST_BYTES <? len bytes))) EMPTY_REQUEST in
  let hex := sha256_hex bytes in
  let directory := request_directory state hex in
  let^ _ := make_dir_all directory "create operation request store" in
  let^ _ := secure_publication_path directory true in
  let artifact := path_join directory "request.json" in
  let^ fs := store in
  let^ _ :=
    (if present fs artifact then same_artifact artifact bytes (oret tt)
     else
       let^ unique := nanos in
       let temporary := path_join directory
         (".request." +:+ u64_to_string process_id +:+ "." +:+ u64_to_string unique +:+ ".tmp") in
       let^ _ := create_new temporary 288 (io_error "create operation request artifact") in
       let^ _ := secure_publication_file temporary in
       let^ _ := io (put_file temporary bytes (io_error "persist operation request artifact")) in
       let^ _ := interfere in
       let^ linked := hard_link temporary artifact in
       let discard := let^ _ := attempt (remove_file temporary) in oret tt in
       let^ _ := (match linked with
                  | LinkDone => oret tt
                  | LinkExists => same_artifact artifact bytes discard
                  | LinkFailed => let^ _ := discard in ofail (io_error "publish operation request artifact")
                  end) in
       discard) in
  oret (mkPublished artifact ("sha256:" +:+ hex) (len bytes)).

Definition descriptor_json (p : PublishedRequest) : string :=
  canonical (VObj [("artifactPath", VStr (artifact_path p)); ("sha256", VStr (published_sha256 p));
                   ("bytes", VNum (published_bytes p)); ("mediaType", VStr "application/json");
                   ("truncated", VBool false)]).

(** ** Runbooks *)

Definition RUNBOOK_PATH_INVALID : string :=
  "runbookDocument must be a normalized path relative to MULTIAGENT_FRAMEWORK_ROOT, for example runbooks/name.md".
Definition exact_runbook_bytes (relative : string) : OIO string :=
  let^ _ := ocheck (negb (is_absolute relative)
                    && forallb (fun c => match c with Normal _ => true | _ => false end) (components relative))
              RUNBOOK_PATH_INVALID in
  let^ named := olift (required_env "MULTIAGENT_FRAMEWORK_ROOT") in
  let^ framework_root := canonicalize_path named "resolve multiagent framework root" in
  let^ runbooks_root := canonicalize_path (path_join framework_root "runbooks") "resolve runbooks directory" in
  let^ document := canonicalize_path (path_join framework_root relative) "resolve runbook document" in
  let^ _ := ocheck (inside document runbooks_root)
              "runbookDocument must resolve inside the framework runbooks directory" in
  let^ read := read_bounded_file document MAX_RUNBOOK_BYTES true in
  let^ _ := ocheck (negb (is_empty read.1)) "runbook document must be a regular file between 1 byte and 1 MiB" in
  oret read.1.

Definition verified_runbook_content (template : Value) : OIO string :=
  let^ _ := olift (ok_or (as_object template) "ops request template must be an object") in
  let^ relative := olift (ok_or (member_str "runbookDocument" template) "ops request template requires runbookDocument") in
  let^ bytes := exact_runbook_bytes relative in
  let actual := runbook_content_digest bytes in
  let^ declared := olift (ok_or (member_str "runbookContentSha256" template)
                            "ops request template requires runbookContentSha256") in
  let^ _ := ocheck (String.eqb declared actual)
              "runbookContentSha256 does not match the exact Markdown runbook bytes" in
  let^ target := olift (canonical_runbook_target bytes) in
  let^ _ := (match target with
             | Some target => ocheck (same_value (member "target" template) (Some target))
                                "ops request target does not match the exact Markdown runbook bytes"
             | None => oret tt
             end) in
  oret actual.

Definition bind_request_template (bytes runbook_document : string) (require_canonical_target : bool) :
    OIO (Value * string) :=
  let^ template := olift (parse_json bytes "decode ops request template: ") in
  let^ _ := olift (validate_request_envelope template) in
  let^ runbook_bytes := exact_runbook_bytes runbook_document in
  let^ canonical_target := olift (canonical_runbook_target runbook_bytes) in
  let^ _ := ocheck (negb (require_canonical_target && negb (is_some canonical_target)))
              "published runbook must declare one canonical target" in
  let digest_ := runbook_content_digest runbook_bytes in
  let^ object := olift (ok_or (as_object template) "ops request template must be an object") in
  let object := match canonical_target with Some target => obj_insert "target" target object | None => object end in
  let object := obj_insert "runbookDocument" (VStr runbook_document) object in
  let object := obj_insert "runbookContentSha256" (VStr digest_) object in
  let^ _ := olift (validate_request_template (VObj object)) in
  oret (VObj object, digest_).

End Host.
