(* ===== verification/Ops.v ===== *)
(** * Ops: the commands of [runtime/src/prod_ops.rs]

    Binding and publishing a request, the reviewer's binding, and the three ways
    in which a permit is signed and sent: a reviewed operation, an observation of
    a reviewer and a direct read. *)

From S2P Require Import Prelude Text State Json LogModel Config Execution Dag Lifecycle Snapshot Findings Policy OpsBytes OpsRequest OpsHost.

(** The two services. Their answer may depend on every call made before. *)
Class Services := {
  kms_sign : list Call -> string -> string -> result string Output;   (* key id, message *)
  curl : list Call -> string -> string -> string -> result string Output  (* url, bearer token, body *)
}.

(** The clone of a repository into the session, from [materialize_repository]:
    state, repository, clone URL, token, permit. *)
Class Materializer := materialize_repository : string -> string -> string -> string -> string -> OIO (string * string).

(** The fields of [workflow::SemanticEnvelope]. *)
Record SemanticEnvelope := mkEnvelope {
  env_original_task : string; env_original_task_sha256 : string;
  env_contract_artifact : string; env_contract_artifact_sha256 : string; env_candidate_diff_hash : string
}.

Section Ops.
Context `{Platform} `{Git} `{JsonCodec} `{JsonPretty} `{OpsEnv} `{Resolver} `{Services} `{Materializer}.

Definition omap_err {A} (f : string -> string) (m : OIO A) : OIO A :=
  fun h => let '(r, h') := m h in (map_err f r, h').
Definition print_line (s : string) : OIO unit := io (println s).

Definition semantic_envelope (workflow_id : string) : IO SemanticEnvelope :=
  let! p := lift (paths workflow_id) in
  let! st := read_state (state p) workflow_id in
  let! _ := validate_original_task st in
  let! _ := validate_contract st in
  let! task := read_optional_artifact (state_value st "original_task") in
  let! contract := read_optional_artifact (state_value st "contract_artifact") in
  ret (mkEnvelope task (state_value st "original_task_sha256") contract
         (state_value st "contract_artifact_sha256") (state_value st "candidate_diff_hash")).

(** ** Signing and sending *)

Definition private_temp_path (directory prefix extension : string) : OIO string :=
  let^ unique := nanos in
  oret (path_join directory
          (prefix +:+ "-" +:+ u64_to_string process_id +:+ "-" +:+ u64_to_string unique +:+ "." +:+ extension)).

Definition write_private_file (path contents : string) : OIO unit :=
  let^ _ := create_new path 384 (io_error "create private temporary file") in
  io (put_file path contents (io_error "write private temporary file")).

Definition record_call (c : Call) : OIO (list Call) :=
  fun h => (Ok (calls h), mkHost (hw h) (attrs h) (calls h ++ [c])).

Definition signing_input (kid payload : string) : string :=
  base64url_encode (canonical (VObj [("alg", VStr "ES256"); ("kid", VStr kid); ("typ", VStr "prod-mcp-action-permit+jws")]))
  +:+ "." +:+ base64url_encode payload.

Definition sign_permit (payload : string) : OIO string :=
  let^ kid := olift (required_env "MULTIAGENT_KMS_KEY_KID") in
  let input := signing_input kid payload in
  let^ state := olift (required_env "MULTIAGENT_STATE_DIR") in
  let temporary_dir := path_join state "tmp" in
  let^ _ := make_dir_all temporary_dir "create KMS temporary directory" in
  let^ temporary := private_temp_path temporary_dir "kms-sign" "bin" in
  let^ _ := omap_err (fun error => "write KMS signing input: " +:+ error) (write_private_file temporary input) in
  let^ key_id := olift (required_env "MULTIAGENT_KMS_KEY_ID") in
  let^ before := record_call (SignCall key_id input) in
  let output := map_err (fun error => "execute aws kms sign: " +:+ error) (kms_sign before key_id input) in
  let^ _ := attempt (remove_file temporary) in
  let^ output := olift output in
  let^ _ := ocheck (success output) ("aws kms sign failed: " +:+ trim (from_utf8_lossy (err_bytes output))) in
  let^ response := olift (parse_json (out_bytes output) "decode aws kms sign response: ") in
  let^ signature := olift (ok_or (member_str "Signature" response) "aws kms sign returned no signature") in
  let^ der := olift (base64_decode signature) in
  let^ raw := olift (ecdsa_der_to_raw der) in
  oret (input +:+ "." +:+ base64url_encode raw).

Definition curl_mcp (url token : string) (body : Value) : OIO Value :=
  let^ before := record_call (McpCall url body) in
  let^ output := olift (curl before url token (canonical body)) in
  let^ _ := ocheck (success output)
              ("prod-mcp HTTP request failed: " +:+ from_utf8_lossy (err_bytes output) +:+ from_utf8_lossy (out_bytes output)) in
  olift (parse_mcp_body (from_utf8_lossy (out_bytes output))).

Definition tool_call (name : string) (arguments : Value) : Value :=
  VObj [("jsonrpc", VStr "2.0"); ("id", VNum 2); ("method", VStr "tools/call");
        ("params", VObj [("arguments", arguments); ("name", VStr name)])].

Definition write_mcp_headers (path token : string) (session : option string) : OIO unit :=
  write_private_file path
    ("Authorization: Bearer " +:+ token +:+ newline
     +:+ match session with Some session => "Mcp-Session-Id: " +:+ session +:+ newline | None => "" end).

Definition call_prod_mcp_tool (name : string) (arguments : Value) : OIO Value :=
  let^ url := olift (required_env "PROD_MCP_URL") in
  let^ _ := ocheck (starts_with "http://" url || starts_with "https://" url) "PROD_MCP_URL must use HTTP or HTTPS" in
  let^ token := olift (required_env "PROD_MCP_BEARER_TOKEN") in
  let^ state := olift (required_env "MULTIAGENT_STATE_DIR") in
  let temporary_dir := path_join state "tmp" in
  let^ _ := make_dir_all temporary_dir "create prod-mcp temporary directory" in
  let^ request_headers := private_temp_path temporary_dir "prod-mcp-request-headers" "txt" in
  let^ response_headers := private_temp_path temporary_dir "prod-mcp-response-headers" "txt" in
  let^ outcome := attempt (
    let^ _ := write_mcp_headers request_headers token None in
    let^ _ := write_private_file response_headers "" in
    curl_mcp url token (tool_call name arguments)) in
  let^ _ := attempt (remove_file request_headers) in
  let^ _ := attempt (remove_file response_headers) in
  let^ result_ := olift outcome in
  match member "error" result_ with
  | Some error => ofail ("prod-mcp tool " +:+ name +:+ " failed: " +:+ canonical error)
  | None => oret result_
  end.

Definition call_prod_mcp (permit : string) : OIO Value :=
  call_prod_mcp_tool "operations_execute" (VObj [("permit", VStr permit)]).

(** ** The signed request *)

Fixpoint check_approvals (subjects : list string) (now : Z) (approvals : list TrustedApproval) : result string unit :=
  match approvals with
  | [] => Ok tt
  | approval :: rest =>
      let? _ := guard (negb (existsb (String.eqb (subject approval)) subjects))
                  "trusted approval subjects must be distinct" in
      let? approved := ok_or (parse_from_rfc3339 (approved_at approval)) "trusted approval has an invalid timestamp" in
      let? _ := guard (approved <=? now) "trusted approval cannot postdate permit issuance" in
      check_approvals (subject approval :: subjects) now rest
  end.

Definition approval_value (a : TrustedApproval) : Value :=
  VObj [("reviewerSubject", VStr (subject a)); ("reviewerRole", VStr (role a)); ("decision", VStr "approve");
        ("evidenceSha256", VStr (evidence_sha256 a)); ("approvedAt", VStr (approved_at a))].

Definition PERMIT_NANOS : Z := 4 * 60 * 1000000000.

Definition build_request (template : Value) (approvals : list TrustedApproval) (delegated_role delegated_subject : string)
    (execution_context : Value) (now_ : Z) : OIO Value :=
  let^ _ := olift (validate_request_template template) in
  let^ _ := olift (validate_id "delegated subject" delegated_subject) in
  let^ object := olift (ok_or (as_object template) "ops request template must be a JSON object") in
  let^ task_id := olift (ok_or (member_str "taskId" template) "ops request template requires taskId") in
  let^ _ := olift (validate_id "task ID" task_id) in
  let^ operation := olift (required_object object "operation") in
  let^ operation_id := olift (ok_or (member_str "id" (VObj operation)) "ops request operation requires id") in
  let^ _ := olift (validate_id "operation ID" operation_id) in
  let^ _ := ocheck (is_some (member_str "version" (VObj operation))) "ops request operation requires version" in
  let^ target := olift (required_object object "target") in
  let^ parameters := olift (required_object object "parameters") in
  let^ runbook := olift (required_object object "runbook") in
  let^ runbook_content_sha256 := olift (ok_or (member_str "runbookContentSha256" template)
                                          "ops request template requires runbookContentSha256") in
  let^ goal := olift (ok_or (member "goal" template) "ops request template requires goal") in
  let^ _ := ocheck (negb (is_some (member "approvals" template))) APPROVALS_SUPPLIED in
  let^ _ := olift (check_approvals [] now_ approvals) in
  let history := member_or_null "history" template in
  let^ unique_nanos := nanos in
  let unique := u64_to_string (unique_nanos / 1000000) +:+ "-" +:+ u64_to_string process_id in
  let request :=
    [("actionId", VStr ("ops-" +:+ unique)); ("apiVersion", VStr "prod.moveindustries.io/v1");
     ("approvals", VArr (map approval_value approvals));
     ("delegatedRole", VStr delegated_role); ("delegatedSubject", VStr delegated_subject);
     ("authorityProxy", VObj [("subject", VStr "multiagent-supervisor"); ("credentialSource", VStr "deployment");
                              ("signingBackend", VStr "aws-kms"); ("transportAuth", VStr "service-token")]);
     ("expiresAt", VStr (rfc3339_millis (now_ + PERMIT_NANOS))); ("executionContext", execution_context);
     ("historySha256", VStr (digest_json history)); ("intentSha256", VStr (digest_json goal));
     ("issuedAt", VStr (rfc3339_millis now_)); ("kind", VStr "OperationRequest");
     ("nonce", VStr ("nonce-" +:+ unique)); ("operation", VObj operation); ("parameters", VObj parameters);
     ("runbook", VObj runbook); ("runbookContextSha256", VStr (digest_json (VObj runbook)));
     ("runbookContentSha256", VStr runbook_content_sha256); ("target", VObj target); ("taskId", VStr task_id)] in
  oret (VObj (match member "changeTicket" template with
              | Some change_ticket => obj_insert "changeTicket" change_ticket request
              | None => request
              end)).

Definition permit_payload (request : Value) : string :=
  canonical (VObj [("apiVersion", VStr "prod.moveindustries.io/v1"); ("kind", VStr "ActionPermit"); ("request", request)]).

(** ** Reviewed evidence *)

Definition meta_is (m : gmap string string) (key value : string) : bool := bool_decide (m !! key = Some value).

Definition verify_reviewer (state reviewer : string) (template : Value) (runbook_content_sha256 : string) :
    OIO TrustedApproval :=
  let directory := path_join (path_join state "reviewer-evidence") reviewer in
  let^ metadata := io (read_env (path_join directory "evidence.env")) in
  let^ _ := ocheck (meta_is metadata "role" "reviewer" && meta_is metadata "access" "read-only"
                    && meta_is metadata "state" "completed")
              "ops execution requires completed supervisor-sealed reviewer evidence" in
  let workflow := unwrap_or (env_var "MULTIAGENT_WORKFLOW_ID") "" in
  let^ _ := ocheck (is_empty workflow || meta_is metadata "workflow_id" workflow)
              "ops reviewer evidence belongs to a different workflow" in
  let^ fs := store in
  let^ evidence := olift (ok_or (fs !! path_join directory "last-message.txt") (io_error "read ops reviewer evidence")) in
  let^ expected_output := olift (ok_or (metadata !! "output_sha256") "ops reviewer evidence has no supervisor seal") in
  let actual_output := sha256_hex evidence in
  let^ _ := ocheck (eq_ignore_ascii_case actual_output expected_output) "ops reviewer evidence failed its supervisor seal" in
  let^ _ := ocheck (reviewer_accepted evidence) "ops reviewer did not accept the operation" in
  let^ evidence_sha256 :=
    (match fs !! path_join directory "review-binding.json" with
     | Some binding_bytes =>
         let^ expected_binding := olift (ok_or (metadata !! "binding_sha256") "ops review binding has no supervisor seal") in
         let actual_binding := sha256_hex binding_bytes in
         let^ _ := ocheck (eq_ignore_ascii_case actual_binding expected_binding)
                     "ops review binding failed its supervisor seal" in
         let^ binding := olift (parse_json binding_bytes "decode sealed ops review binding: ") in
         let^ matches := olift (review_binding_matches binding template runbook_content_sha256) in
         let^ _ := ocheck matches "ops review binding does not match the request, goal, and runbook" in
         oret (digest_json (VObj [("reviewerOutputSha256", VStr ("sha256:" +:+ actual_output));
                                  ("reviewBindingSha256", VStr ("sha256:" +:+ actual_binding))]))
     | None =>
         let^ bound := olift (review_evidence_is_bound evidence template runbook_content_sha256) in
         let^ _ := ocheck bound "ops reviewer evidence is not bound to the request, goal, and runbook" in
         oret ("sha256:" +:+ actual_output)
     end) in
  let^ approved_at := olift (ok_or (metadata !! "completed_at") "ops reviewer evidence has no completion timestamp") in
  oret (mkApproval reviewer "operations-reviewer" evidence_sha256 approved_at).

Definition canonical_state : OIO string :=
  let^ named := olift (required_env "MULTIAGENT_STATE_DIR") in
  canonicalize_path named "resolve multiagent state".

Definition load_reviewed_request (request_file reviewer : string) : OIO (string * Value * TrustedApproval) :=
  let^ _ := olift (validate_id "reviewer name" reviewer) in
  let^ state := canonical_state in
  let^ read := read_reviewable_request state request_file in
  let^ template := olift (parse_json read.2 "decode ops request template: ") in
  let^ runbook_content_sha256 := verified_runbook_content template in
  let^ reviewer_approval := verify_reviewer state reviewer template runbook_content_sha256 in
  oret (state, template, reviewer_approval).

Definition preflight_reviewed_request (request_file reviewer : string) : OIO unit :=
  let^ _ := load_reviewed_request request_file reviewer in oret tt.

Definition enforce_authority_scope (template : Value) : OIO unit :=
  let scope := unwrap_or (env_var "MULTIAGENT_AUTHORITY_SCOPE") "human" in
  if String.eqb scope "human" then oret tt
  else if String.eqb scope "observe" || String.eqb scope "diagnosis-only" then
    let^ operation_id := olift (ok_or (pointer_str ["operation"; "id"] template) "ops request has no operation ID") in
    let^ capabilities := call_prod_mcp_tool "operations_capabilities" (VObj []) in
    let^ capability := olift (operation_capability capabilities operation_id) in
    olift (validate_diagnosis_capability capability)
  else if String.eqb scope "user" then
    let^ execution := io configured in
    ocheck (permits_reviewed_ops execution) "the active Execution does not authorize reviewed operations"
  else ofail "MULTIAGENT_AUTHORITY_SCOPE is invalid".

(** ** Executing a reviewed operation *)

Definition caller_subject : OIO string :=
  let subject := unwrap_or (env_nonempty "MULTIAGENT_CALLER_SUBJECT") "multiagent-control" in
  let^ _ := olift (validate_id "caller subject" subject) in oret subject.
Definition caller_approved_at (now_ : Z) : string :=
  unwrap_or (env_nonempty "MULTIAGENT_CALLER_APPROVED_AT") (rfc3339_millis now_).

Definition action_id_of (request : Value) (error : string) : result string string :=
  ok_or (member_str "actionId" request) error.

(** What is recorded when the service could not be reached. *)
Definition transport_failure (message : string) : Value :=
  VObj [("jsonrpc", VStr "2.0"); ("id", VNum 2);
        ("result", VObj [("isError", VBool true);
          ("structuredContent", VObj [("code", VStr "prod_mcp_transport_failure"); ("message", VStr message);
            ("outcome", VObj [("disposition", VStr "failed"); ("terminal", VBool true); ("retryable", VBool true);
                              ("code", VStr "prod_mcp_transport_failure");
                              ("requiredActor", VStr "service-operator")])])])].

Definition summary_evidence (structured : Value) : Value :=
  match member_str "summary" structured with
  | Some summary => unwrap_or (from_slice summary) (VStr summary)
  | None => VNull
  end.

Definition execute_reviewed_operation (args : list string) : OIO unit :=
  let^ o := olift (options args) in
  let^ reviewer := olift (required o "--reviewer") in
  let^ request_file := olift (required o "--request-file") in
  let^ loaded := load_reviewed_request request_file reviewer in
  let '(state, template, reviewer_approval) := loaded in
  let^ _ := enforce_authority_scope template in
  let^ now_ := now in
  let^ subject := caller_subject in
  let^ goal := olift (ok_or (member "goal" template) "ops request template requires goal") in
  let caller_approval := mkApproval subject "safety-reviewer" (digest_json goal) (caller_approved_at now_) in
  let^ context := olift execution_context_from_environment in
  let^ request := build_request template [caller_approval; reviewer_approval] "runbook-operator"
                    "multiagent-supervisor" context now_ in
  let^ action_id := olift (action_id_of request "generated operation has no action ID") in
  let^ permit := sign_permit (permit_payload request) in
  let^ answer := attempt (call_prod_mcp permit) in
  let result_ := match answer with Ok v => v | Err message => transport_failure message end in
  let operation_dir := path_join (path_join state "operations") action_id in
  let^ _ := make_dir_all operation_dir "create operation receipt directory" in
  let^ _ := write_file (path_join operation_dir "request.json") (to_vec_pretty template)
              (io_error "persist operation request") in
  let^ _ := write_file (path_join operation_dir "receipt.json") (to_vec_pretty result_)
              (io_error "persist operation receipt") in
  let structured := unwrap_or (pointer ["result"; "structuredContent"] result_) VNull in
  print_line (canonical (VObj
    [("apiVersion", VStr "multiagent.moveindustries.io/v1"); ("kind", VStr "OperationExecutionResult");
     ("actionId", VStr action_id); ("operationId", member_or_null "operationId" structured);
     ("requestedOperation", member_or_null "requestedOperation" structured);
     ("state", member_or_null "state" structured); ("outcome", member_or_null "outcome" structured);
     ("code", member_or_null "code" structured); ("message", member_or_null "message" structured);
     ("evidence", summary_evidence structured);
     ("receiptPath", VStr (path_join operation_dir "receipt.json"))])).

(** ** Observations of a reviewer *)

Definition validate_live_reviewer (state reviewer : string) : OIO unit :=
  let directory := path_join (path_join state "subagents") reviewer in
  let^ metadata := io (read_env (path_join directory "meta.env")) in
  let^ _ := ocheck (meta_is metadata "role" "reviewer" && meta_is metadata "access" "read-only")
              "reviewer evidence reads require a live read-only reviewer identity" in
  let^ status := io (read_or (path_join directory "status") "") in
  ocheck (existsb (String.eqb (trim status)) ["running"; "waiting"; "restoring"])
    "reviewer evidence reads require the reviewer to be active".

Definition execute_reviewer_read (args : list string) : OIO unit :=
  let^ o := olift (options args) in
  let^ reviewer := olift (required o "--reviewer") in
  let^ _ := olift (validate_id "reviewer name" reviewer) in
  let^ state := canonical_state in
  let^ _ := validate_live_reviewer state reviewer in
  let^ reviewed_path := olift (required o "--reviewed-request") in
  let^ read := read_reviewable_request state reviewed_path in
  let^ reviewed := olift (parse_json read.2 "decode reviewed ops request: ") in
  let^ _ := olift (validate_request_template reviewed) in
  let^ _ := verified_runbook_content reviewed in
  let^ evidence_path := olift (required o "--request-file") in
  let^ evidence_bytes := read_reviewer_request reviewer evidence_path in
  let^ evidence := olift (parse_json evidence_bytes "decode reviewer evidence request: ") in
  let^ _ := olift (validate_request_template evidence) in
  let^ _ := verified_runbook_content evidence in
  let^ _ := olift (validate_evidence_scope reviewed evidence) in
  let^ operation_id := olift (ok_or (pointer_str ["operation"; "id"] evidence)
                                "reviewer evidence request has no operation ID") in
  let^ capabilities := call_prod_mcp_tool "operations_capabilities" (VObj []) in
  let^ capability := olift (operation_capability capabilities operation_id) in
  let^ _ := olift (validate_read_capability capability evidence) in
  let^ now_ := now in
  let^ subject := caller_subject in
  let^ goal := olift (ok_or (member "goal" reviewed) "reviewed ops request requires goal") in
  let caller := mkApproval subject "safety-reviewer" (digest_json goal) (caller_approved_at now_) in
  let^ context := olift execution_context_from_environment in
  let^ request := build_request evidence [caller] "runbook-observer" reviewer context now_ in
  let^ action_id := olift (action_id_of request "generated reviewer evidence request has no action ID") in
  let^ permit := sign_permit (permit_payload request) in
  let^ result_ := call_prod_mcp permit in
  let evidence_dir := path_join (path_join (path_join state "reviewer-live-evidence") reviewer) action_id in
  let^ _ := make_dir_all evidence_dir "create reviewer evidence receipt directory" in
  let^ _ := secure_publication_path evidence_dir true in
  let request_artifact := path_join evidence_dir "request.json" in
  let receipt_artifact := path_join evidence_dir "receipt.json" in
  let^ _ := write_file request_artifact (to_vec_pretty evidence) (io_error "persist reviewer evidence request") in
  let^ _ := write_file receipt_artifact (to_vec_pretty result_) (io_error "persist reviewer evidence receipt") in
  let^ _ := secure_publication_path request_artifact false in
  let^ _ := secure_publication_path receipt_artifact false in
  let structured := unwrap_or (pointer ["result"; "structuredContent"] result_) VNull in
  print_line (canonical (VObj
    [("apiVersion", VStr "multiagent.moveindustries.io/v1"); ("kind", VStr "ReviewerEvidenceResult");
     ("reviewer", VStr reviewer); ("actionId", VStr action_id);
     ("operationId", member_or_null "operationId" structured); ("state", member_or_null "state" structured);
     ("outcome", member_or_null "outcome" structured); ("code", member_or_null "code" structured);
     ("message", member_or_null "message" structured); ("evidence", member_or_null "summary" structured);
     ("receiptPath", VStr receipt_artifact)])).

(** [env::var("MULTIAGENT_AUTHORITY_CALLER_UID")]. *)
Definition authority_caller (error : string) : result string Z :=
  let? text := ok_or (env_var "MULTIAGENT_AUTHORITY_CALLER_UID") error in
  ok_or (parse_u32 text) "authority caller UID is invalid".

Definition execute (args : list string) : OIO unit :=
  let^ o := olift (options args) in
  let^ caller_uid := olift (authority_caller "ops execute must be mediated by the authority supervisor") in
  let^ mode_ := olift (execute_mode caller_uid (is_some (o !! "--reviewed-request"))) in
  match mode_ with
  | ReviewerRead => execute_reviewer_read args
  | ReviewedOperation => execute_reviewed_operation args
  end.

(** ** Direct reads *)

Definition bind_authenticated_task (template execution_context : Value) : OIO Value :=
  let^ workflow_id := olift (required_env "MULTIAGENT_WORKFLOW_ID") in
  let^ envelope := io (semantic_envelope workflow_id) in
  let task := trim (env_original_task envelope) in
  let^ _ := ocheck (negb (is_empty task || (32768 <? len task)))
              "supervisor-sealed original task must contain 1 to 32768 bytes" in
  let^ thread_id := olift (ok_or (member_str "threadId" execution_context) "execution context has no thread ID") in
  let^ object := olift (ok_or (as_object template) "direct read request template must be an object") in
  oret (VObj (obj_remove "history" (obj_insert "goal" (VStr task) (obj_insert "taskId" (VStr thread_id) object)))).

Definition bind_direct_request (bytes : string) (execution_context : Value) : OIO Value :=
  let^ unbound := olift (parse_json bytes "decode direct read request: ") in
  let^ runbook_document := olift (direct_request_runbook unbound) in
  let^ task_bound := bind_authenticated_task unbound execution_context in
  let^ bound := bind_request_template (canonical task_bound) runbook_document false in
  let^ _ := verified_runbook_content bound.1 in
  oret bound.1.

Definition direct_clone_checks (access : DirectAccess) (operation_id : string) (parameters : Value) : result string unit :=
  match access with
  | Materialize =>
      if String.eqb operation_id "github.clone" then
        let? object := ok_or (as_object parameters) "github.clone parameters must be an object" in
        let? _ := guard (length object =? 1)%nat "github.clone parameters may contain only repository" in
        let? repository := ok_or (member_str "repository" parameters) "github.clone parameters require repository" in
        validate_repository repository
      else Err "direct materialization has no credential-safe runtime handler"
  | Read =>
      guard (negb (String.eqb operation_id "github.clone")) "github.clone must be advertised as a materialize operation"
  end.

(** [fs::create_dir]: it must not exist yet. *)
Definition create_dir (p context : string) : OIO unit :=
  let^ fs := store in
  let^ _ := ocheck (negb (present fs p)) (io_error context) in
  make_dir_all p context.

Definition persist_direct_receipt (state action_id : string) (caller_uid : Z) (caller_role : string)
    (template result_ : Value) : OIO unit :=
  let operation := path_join (path_join state "operations") action_id in
  let^ _ := create_dir operation "create direct operation receipt directory" in
  let^ _ := secure_publication_path operation true in
  let request_path := path_join operation "direct-request.json" in
  let receipt_path := path_join operation "receipt.redacted.json" in
  let^ _ := write_private_file request_path
              (to_vec_pretty (VObj [("requesterUid", VNum caller_uid); ("requesterRole", VStr caller_role);
                                    ("template", template)])) in
  let^ redacted := olift (redacted_direct_receipt template result_) in
  let^ _ := write_private_file receipt_path
              (to_vec_pretty (VObj [("rawReceiptSha256", VStr (digest (canonical result_))); ("receipt", redacted)])) in
  let^ _ := secure_publication_path request_path false in
  secure_publication_path receipt_path false.

Definition execute_direct_read (args : list string) : OIO unit :=
  let^ o := olift (options args) in
  let^ _ := ocheck (size o =? 1)%nat "usage: multiagent ops read --request-file PATH" in
  let^ caller_uid := olift (authority_caller "ops read must be mediated by the authority supervisor") in
  let^ caller_role := olift (direct_requester_role caller_uid) in
  let^ request_file := olift (required o "--request-file") in
  let^ bytes := read_direct_request request_file caller_uid in
  let^ context := olift execution_context_from_environment in
  let^ template := bind_direct_request bytes context in
  let^ operation_id := olift (ok_or (pointer_str ["operation"; "id"] template) "direct read request has no operation ID") in
  let^ capabilities := call_prod_mcp_tool "operations_capabilities" (VObj []) in
  let^ capability := olift (operation_capability capabilities operation_id) in
  let^ access := olift (validate_direct_capability capability template) in
  let^ parameters := olift (ok_or (member "parameters" template) "direct read request requires parameters") in
  let^ _ := olift (reject_arbitrary_urls parameters) in
  let^ _ := olift (direct_clone_checks access operation_id parameters) in
  let delegated_role := match access with Read => "runbook-observer" | Materialize => "runbook-operator" end in
  let^ now_ := now in
  let^ request := build_request template [] delegated_role "multiagent-supervisor" context now_ in
  let^ action_id := olift (action_id_of request "generated direct read request has no action ID") in
  let^ permit := sign_permit (permit_payload request) in
  let^ result_ := call_prod_mcp permit in
  let^ state := canonical_state in
  let^ _ := persist_direct_receipt state action_id caller_uid caller_role template result_ in
  let^ receipt := olift (successful_operation_receipt result_) in
  let structured := VObj receipt in
  if String.eqb operation_id "github.clone" then
    let^ repository := olift (ok_or (pointer_str ["parameters"; "repository"] template)
                                "github.clone parameters require repository") in
    let^ _ := olift (validate_repository repository) in
    let^ url := olift (required_env "PROD_MCP_URL") in
    let^ clone_url := olift (clone_summary receipt repository url) in
    let^ token := olift (required_env "PROD_MCP_BEARER_TOKEN") in
    let^ materialized := materialize_repository state repository clone_url token permit in
    print_line (canonical (VObj
      [("apiVersion", VStr "multiagent.moveindustries.io/v1"); ("kind", VStr "RepositoryMaterializationResult");
       ("actionId", VStr action_id); ("operationId", member_or_null "operationId" structured);
       ("repository", VStr repository); ("path", VStr materialized.1); ("commit", VStr materialized.2);
       ("requesterRole", VStr caller_role); ("receiptRecorded", VBool true)]))
  else
    print_line (canonical (VObj
      [("apiVersion", VStr "multiagent.moveindustries.io/v1"); ("kind", VStr "DirectReadResult");
       ("actionId", VStr action_id); ("operationId", member_or_null "operationId" structured);
       ("requestedOperation", member_or_null "requestedOperation" structured);
       ("state", member_or_null "state" structured); ("outcome", member_or_null "outcome" structured);
       ("code", member_or_null "code" structured); ("message", member_or_null "message" structured);
       ("evidence", summary_evidence structured); ("requesterRole", VStr caller_role);
       ("receiptRecorded", VBool true)])).

(** ** Describing, binding and publishing *)

Definition DESCRIBED : list string :=
  ["id"; "version"; "description"; "access"; "mutation"; "allowedRunbooks"; "parameterSchema"; "parameterExamples";
   "requireChangeTicket"; "requiredApprovalRoles"].
Definition describe (args : list string) : OIO unit :=
  match args with
  | [operation_id] =>
      if is_empty operation_id then ofail "usage: multiagent ops describe OPERATION_ID"
      else
        let^ response := call_prod_mcp_tool "operations_capabilities" (VObj []) in
        let^ operation := olift (operation_capability response operation_id) in
        print_line (canonical (VObj (omap (fun key => (fun v => (key, v)) <$> member key operation) DESCRIBED)))
  | _ => ofail "usage: multiagent ops describe OPERATION_ID"
  end.

Definition bind_runbook (args : list string) : OIO unit :=
  let^ o := olift (options args) in
  let^ state := canonical_state in
  let^ named := olift (required o "--request-file") in
  let^ request_file := canonicalize_path named "resolve ops request file" in
  let^ _ := ocheck (inside request_file state) "ops request file must be inside MULTIAGENT_STATE_DIR" in
  let^ read := read_bounded_file request_file MAX_OPERATION_REQUEST_BYTES false in
  let^ relative := olift (required o "--runbook-document") in
  let^ bound := bind_request_template read.1 relative false in
  let^ _ := write_file request_file (to_vec_pretty bound.1) (io_error "write bound ops request") in
  let^ _ := print_line ("request-template-sha256=" +:+ digest_json bound.1) in
  print_line ("runbook-content-sha256=" +:+ bound.2).

Definition publish (args : list string) : OIO unit :=
  let^ o := olift (options args) in
  let^ state := canonical_state in
  let^ draft_file := olift (required o "--draft-file") in
  let^ runbook_document := olift (required o "--runbook-document") in
  let^ draft := read_ops_draft draft_file in
  let^ bound := bind_request_template draft runbook_document true in
  let^ descriptor := publish_request_bytes state (to_vec_pretty bound.1) in
  print_line (descriptor_json descriptor).

Definition publish_bound_request (state request_file : string) : OIO PublishedRequest :=
  let^ state := canonicalize_path state "resolve multiagent state" in
  let^ read := read_reviewable_request state request_file in
  let^ template := olift (parse_json read.2 "decode bound ops request: ") in
  let^ _ := olift (validate_request_template template) in
  let^ _ := verified_runbook_content template in
  publish_request_bytes state read.2.

Definition publish_bound (args : list string) : OIO unit :=
  let^ _ := ocheck (geteuid =? SUPERVISOR_UID) "ops publish-bound is reserved for the authority supervisor" in
  let^ o := olift (options args) in
  let^ state := olift (required_env "MULTIAGENT_STATE_DIR") in
  let^ request_file := olift (required o "--request-file") in
  let^ descriptor := publish_bound_request state request_file in
  print_line (descriptor_json descriptor).

Definition read_template (path : string) : OIO Value :=
  let^ fs := store in
  let^ bytes := olift (ok_or (fs !! path) (io_error "read ops request")) in
  let^ template := olift (parse_json bytes "decode ops request template: ") in
  let^ _ := olift (validate_request_template template) in
  oret template.

Definition review_binding_artifact_path : OIO string :=
  let^ reviewer := olift (required_env "MULTIAGENT_SUBAGENT_NAME") in
  let^ _ := olift (validate_id "reviewer name" reviewer) in
  let^ named := olift (required_env "MULTIAGENT_LOG_DIR") in
  let^ logs := canonicalize_path named "resolve multiagent log directory" in
  let^ trace_dir := canonicalize_path (path_join (path_join logs "agents") reviewer) "resolve reviewer trace directory" in
  let^ _ := ocheck (inside trace_dir logs) "reviewer trace directory escaped MULTIAGENT_LOG_DIR" in
  oret (path_join trace_dir "review-binding.json").

(** Truncated or created, never through a link. *)
Definition write_review_binding_artifact (path contents : string) : OIO unit :=
  let^ fs := store in
  let^ a := attr path in
  let^ _ := ocheck (negb (is_link a)) (io_error "create ops review binding") in
  let^ _ := io (put_file path contents (io_error "write ops review binding")) in
  if present fs path then oret tt else own path 384.

Definition review_bind (args : list string) : OIO unit :=
  let^ o := olift (options args) in
  let^ request_file := olift (required o "--request-file") in
  let^ template := read_template request_file in
  let^ runbook_content_sha256 := verified_runbook_content template in
  let^ binding := olift (review_binding_value template runbook_content_sha256) in
  let^ binding_path := review_binding_artifact_path in
  let^ _ := write_review_binding_artifact binding_path (to_vec_pretty binding) in
  let^ _ := print_line ("request-template-sha256=" +:+ digest_json template) in
  let^ goal := olift (ok_or (member "goal" template) "ops request template requires goal") in
  let^ _ := print_line ("goal-sha256=" +:+ digest_json goal) in
  let^ runbook := olift (ok_or (member "runbook" template) "ops request template requires runbook") in
  let^ _ := print_line ("runbook-sha256=" +:+ digest_json runbook) in
  let^ _ := print_line ("runbook-content-sha256=" +:+ runbook_content_sha256) in
  print_line ("review-binding-artifact=" +:+ binding_path).

Definition review_binding_for_request (request_file : string) : OIO string :=
  let^ template := read_template request_file in
  let^ runbook_content_sha256 := verified_runbook_content template in
  olift (review_binding_marker template runbook_content_sha256).

(** ** The command *)

Definition OPS_USAGE : string :=
  join newline
    ["usage:";
     "  multiagent ops describe OPERATION_ID";
     "  multiagent ops read --request-file PATH";
     "  multiagent ops template";
     "  multiagent ops bind-runbook --request-file PATH --runbook-document PATH";
     "  multiagent ops publish --draft-file PATH --runbook-document PATH";
     "  multiagent ops review-bind --request-file PATH";
     "  multiagent ops execute --request-file PATH --reviewer NAME [--reviewed-request PATH]"].
Definition OPS_HELP : string :=
  join newline
    ["";
     "Call `multiagent ops describe OPERATION_ID` before constructing parameters; it returns prod-mcp's live description, JSON schema, examples, and authorization requirements.";
     "";
     "Draft schema:";
     "  taskId: non-empty stable string";
     "  goal: bounded goal copied from the authenticated task";
     "  operation: object with id and semantic version";
     "  parameters: exact provider operation parameters from `ops describe`";
     "  runbook: object with id, phase, and semantic version";
     "";
     "Generate a valid starting envelope with `multiagent ops template`, then bind it with a normalized framework-relative runbook path such as `runbooks/name.md`. After binding, run `chmod 0640 DRAFT_FILE` so the ops-owned request is supervisor-readable and not group-writable. The reviewed-ops-cycle publishes the immutable request. For `ops read`, create a request containing exactly operation, parameters, runbook, and runbookDocument; the supervisor replaces task/goal and derives target plus runbookContentSha256 from that framework-relative runbook. For reviewed mutating operations, do not supply target, approvals, runbookDocument, or runbookContentSha256 yourself."].
Definition print_ops_help : OIO unit := let^ _ := print_line OPS_USAGE in print_line OPS_HELP.

Definition template (args : list string) : OIO unit :=
  match args with
  | [] =>
      print_line (to_vec_pretty (VObj
        [("taskId", VStr "replace-with-stable-task-id"); ("goal", VStr "replace with the bounded operation goal");
         ("operation", VObj [("id", VStr "replace.with.operation-id");
                             ("version", VStr "replace-with-version-from-ops-describe")]);
         ("parameters", VObj []);
         ("runbook", VObj [("id", VStr "replace.with-runbook-id"); ("phase", VStr "replace-with-runbook-phase");
                           ("version", VStr "1.0.0")])]))
  | _ => ofail "usage: multiagent ops template"
  end.

Definition run_ops (args : list string) : OIO unit :=
  match args with
  | "describe" :: rest => describe rest
  | "read" :: rest => execute_direct_read rest
  | "template" :: rest => template rest
  | "bind-runbook" :: rest => bind_runbook rest
  | "publish-bound" :: rest => publish_bound rest
  | "publish" :: rest => publish rest
  | "execute" :: rest => execute rest
  | "review-bind" :: rest => review_bind rest
  | "help" :: _ | "--help" :: _ | "-h" :: _ => print_ops_help
  | _ => ofail OPS_USAGE
  end.

End Ops.
