(* ===== verification/OpsFacts.v ===== *)
(** * OpsFacts: reasoning about the operations of the host

    What an operation may have sent when it stops, whether it stops with an
    error or not. *)

From S2P Require Import Prelude Text State Json LogModel Config Execution Dag Lifecycle Snapshot Findings FindingsFacts Policy CompletionFacts LifecycleGates OpsBytes OpsRequest OpsHost Ops.

(** ** Readers and quiet operations *)

(** Nothing changes. *)
Definition watcher {A} (m : OIO A) : Prop := forall h, (m h).2 = h.
(** Nothing is sent. *)
Definition quiet {A} (m : OIO A) : Prop := forall h, calls (m h).2 = calls h.
(** Every call made by [m] from [h] satisfies [P]. *)
Definition sends (P : Call -> Prop) {A} (m : OIO A) (h : Host) : Prop :=
  exists new, calls (m h).2 = calls h ++ new /\ Forall P new.

Lemma watcher_ret {A} (a : A) : watcher (oret a).
Proof. done. Qed.
Lemma watcher_fail {A} e : watcher (@ofail A e).
Proof. done. Qed.
Lemma watcher_lift {A} (r : result string A) : watcher (olift r).
Proof. done. Qed.
Lemma watcher_check b e : watcher (ocheck b e).
Proof. by destruct b. Qed.
Lemma watcher_io {A} (m : IO A) : reader m -> watcher (io m).
Proof. intros Hm h. unfold io. rewrite Hm. by destruct h. Qed.
Lemma watcher_store : watcher store.
Proof. intros h. by destruct h. Qed.
Lemma watcher_attr p : watcher (attr p).
Proof. done. Qed.
Lemma watcher_bind {A B} (m : OIO A) (k : A -> OIO B) : watcher m -> (forall a, watcher (k a)) -> watcher (obind m k).
Proof.
  intros Hm Hk h. unfold obind. specialize (Hm h). destruct (m h) as [[a|e] h1]; cbn [snd] in *; subst; [apply Hk|done].
Qed.

Lemma watcher_quiet {A} (m : OIO A) : watcher m -> quiet m.
Proof. intros Hm h. by rewrite Hm. Qed.
Lemma quiet_io {A} (m : IO A) : quiet (io m).
Proof. intros h. unfold io. by destruct (m (hw h)). Qed.
Lemma quiet_bind {A B} (m : OIO A) (k : A -> OIO B) : quiet m -> (forall a, quiet (k a)) -> quiet (obind m k).
Proof.
  intros Hm Hk h. unfold obind. specialize (Hm h). destruct (m h) as [[a|e] h1]; cbn [snd] in *; [|done]. by rewrite Hk.
Qed.
Lemma quiet_attempt {A} (m : OIO A) : quiet m -> quiet (attempt m).
Proof. intros Hm h. specialize (Hm h). unfold attempt. by destruct (m h). Qed.
Lemma quiet_map_err {A} f (m : OIO A) : quiet m -> quiet (omap_err f m).
Proof. intros Hm h. specialize (Hm h). unfold omap_err. by destruct (m h). Qed.
Lemma quiet_set_attr p f e : quiet (set_attr p f e).
Proof. intros h. unfold set_attr. by destruct (faults (hw h)) as [|[] ?]. Qed.
Lemma quiet_own `{Platform} `{OpsEnv} p m : quiet (own p m).
Proof. done. Qed.
Lemma quiet_remove `{Platform} p : quiet (remove_file p).
Proof. intros h. unfold remove_file. destruct (faults (hw h)) as [|[] ?], (files (hw h) !! p); done. Qed.
Lemma quiet_tick : quiet tick.
Proof. done. Qed.

Create HintDb quiet.
#[export] Hint Resolve watcher_ret watcher_fail watcher_lift watcher_check watcher_store watcher_attr : quiet.
#[export] Hint Resolve quiet_io quiet_set_attr quiet_own quiet_remove quiet_tick : quiet.
Ltac quiets :=
  repeat first
    [ match goal with |- forall _, _ => intros ? end
    | progress (auto with quiet)
    | match goal with
      | |- watcher (obind _ _) => apply watcher_bind; [|intros ?]
      | |- quiet (obind _ _) => apply quiet_bind; [|intros ?]
      | |- quiet (attempt _) => apply quiet_attempt
      | |- quiet (omap_err _ _) => apply quiet_map_err
      | |- watcher (io _) => apply watcher_io; solve [readers]
      | |- watcher (if ?b then _ else _) => destruct b
      | |- quiet (if ?b then _ else _) => destruct b
      | |- watcher (match ?o with _ => _ end) => destruct o
      | |- quiet (match ?o with _ => _ end) => destruct o
      | |- quiet _ => apply watcher_quiet; solve [quiets]
      end ].

Section Quiet.
Context `{Platform} `{Git} `{JsonCodec} `{JsonPretty} `{OpsEnv} `{Resolver} `{Services}.

Lemma watcher_canonicalize p c : watcher (canonicalize_path p c).
Proof. unfold canonicalize_path. quiets. Qed.
Hint Resolve watcher_canonicalize : quiet.
Lemma watcher_read_bounded p l nf : watcher (read_bounded_file p l nf).
Proof. unfold read_bounded_file. quiets. Qed.
Hint Resolve watcher_read_bounded : quiet.
Lemma watcher_read_reviewable s p : watcher (read_reviewable_request s p).
Proof. unfold read_reviewable_request. quiets. Qed.
Lemma watcher_read_direct p u : watcher (read_direct_request p u).
Proof. unfold read_direct_request. quiets. Qed.
Lemma watcher_read_reviewer r p : watcher (read_reviewer_request r p).
Proof. unfold read_reviewer_request. quiets. Qed.
Lemma watcher_runbook_bytes r : watcher (exact_runbook_bytes r).
Proof. unfold exact_runbook_bytes. quiets. Qed.
Hint Resolve watcher_read_reviewable watcher_read_direct watcher_read_reviewer watcher_runbook_bytes : quiet.
Lemma watcher_verified t : watcher (verified_runbook_content t).
Proof. unfold verified_runbook_content. quiets. Qed.
Lemma watcher_bind_template b r c : watcher (bind_request_template b r c).
Proof. unfold bind_request_template. quiets. Qed.
Lemma watcher_state : watcher canonical_state.
Proof. unfold canonical_state. quiets. Qed.
Hint Resolve watcher_verified watcher_bind_template watcher_state : quiet.
Lemma watcher_verify_reviewer s r t d : watcher (verify_reviewer s r t d).
Proof. unfold verify_reviewer. quiets. Qed.
Hint Resolve watcher_verify_reviewer : quiet.
Lemma watcher_load f r : watcher (load_reviewed_request f r).
Proof. unfold load_reviewed_request. quiets. Qed.
Lemma watcher_live s r : watcher (validate_live_reviewer s r).
Proof. unfold validate_live_reviewer, read_or. quiets. Qed.
Lemma watcher_subject : watcher caller_subject.
Proof. unfold caller_subject. quiets. Qed.
Hint Resolve watcher_load watcher_live watcher_subject : quiet.

Lemma quiet_nanos : quiet nanos.
Proof. unfold nanos. quiets. Qed.
Lemma quiet_now : quiet now.
Proof. unfold now. quiets. Qed.
Hint Resolve quiet_nanos quiet_now : quiet.
Lemma quiet_create_new p m e : quiet (create_new p m e).
Proof. unfold create_new. quiets. Qed.
Lemma quiet_write_file p t e : quiet (write_file p t e).
Proof. unfold write_file. quiets. Qed.
Lemma quiet_make_dir p c : quiet (make_dir_all p c).
Proof. unfold make_dir_all. quiets. Qed.
Hint Resolve quiet_create_new quiet_write_file quiet_make_dir : quiet.
Lemma quiet_write_private p t : quiet (write_private_file p t).
Proof. unfold write_private_file. quiets. Qed.
Lemma quiet_temp_path d p e : quiet (private_temp_path d p e).
Proof. unfold private_temp_path. quiets. Qed.
Lemma quiet_secure_path p d : quiet (secure_publication_path p d).
Proof. unfold secure_publication_path. quiets. Qed.
Hint Resolve quiet_write_private quiet_temp_path quiet_secure_path : quiet.
Lemma quiet_build t a r s c n : quiet (build_request t a r s c n).
Proof. unfold build_request. quiets. Qed.
Lemma quiet_persist s a u r t v : quiet (persist_direct_receipt s a u r t v).
Proof. unfold persist_direct_receipt, create_dir. quiets. Qed.
Lemma quiet_headers p t s : quiet (write_mcp_headers p t s).
Proof. unfold write_mcp_headers. quiets. Qed.
End Quiet.
#[export] Hint Resolve watcher_canonicalize watcher_read_bounded watcher_read_reviewable watcher_read_direct
  watcher_read_reviewer watcher_runbook_bytes watcher_verified watcher_bind_template watcher_state
  watcher_verify_reviewer watcher_load watcher_live watcher_subject : quiet.
#[export] Hint Resolve quiet_nanos quiet_now quiet_create_new quiet_write_file quiet_make_dir quiet_write_private
  quiet_temp_path quiet_secure_path quiet_build quiet_persist quiet_headers : quiet.

(** ** What an operation sends *)

Lemma sends_quiet P {A} (m : OIO A) h : quiet m -> sends P m h.
Proof. intros Hm. exists []. by rewrite app_nil_r, Hm. Qed.
Lemma sends_bind P {A B} (m : OIO A) (k : A -> OIO B) h :
  sends P m h -> (forall a h1, m h = (Ok a, h1) -> sends P (k a) h1) -> sends P (obind m k) h.
Proof.
  intros [n1 [E1 F1]] Hk. unfold sends, obind. destruct (m h) as [[a|e] h1] eqn:Em; cbn [snd] in *.
  - destruct (Hk a h1 eq_refl) as [n2 [E2 F2]]. exists (n1 ++ n2). rewrite E2, E1, app_assoc. split; [done|by apply Forall_app].
  - by exists n1.
Qed.
Lemma sends_mono (P Q : Call -> Prop) {A} (m : OIO A) h : (forall c, P c -> Q c) -> sends P m h -> sends Q m h.
Proof. intros HPQ (new & E & HF). exists new. split; [done|]. by eapply Forall_impl. Qed.
Lemma sends_attempt P {A} (m : OIO A) h : sends P m h -> sends P (attempt m) h.
Proof. unfold sends, attempt. by destruct (m h). Qed.

Lemma obind_ok {A B} (m : OIO A) (k : A -> OIO B) h b h' :
  obind m k h = (Ok b, h') <-> exists a h1, m h = (Ok a, h1) /\ k a h1 = (Ok b, h').
Proof. unfold obind. destruct (m h) as [[a|e] h1]; naive_solver. Qed.
Lemma watcher_ok {A} (m : OIO A) h a h1 : watcher m -> m h = (Ok a, h1) -> h1 = h.
Proof. intros Hm E. specialize (Hm h). by rewrite E in Hm. Qed.
Lemma olift_ok {A} (r : result string A) h a h1 : olift r h = (Ok a, h1) -> r = Ok a /\ h1 = h.
Proof. by intros [= -> ->]. Qed.
Lemma ocheck_ok b e h u h1 : ocheck b e h = (Ok u, h1) -> b = true /\ h1 = h.
Proof. destruct b; [by intros [= _ ->]|done]. Qed.
Lemma store_ok h fs h1 : store h = (Ok fs, h1) -> fs = files (hw h) /\ h1 = h.
Proof. destruct h. by intros [= <- <-]. Qed.
Lemma attr_ok p h a h1 : attr p h = (Ok a, h1) -> a = attrs h p /\ h1 = h.
Proof. by intros [= <- <-]. Qed.
Lemma io_reader_ok {A} (m : IO A) h a h1 :
  reader m -> io m h = (Ok a, h1) -> eval m (files (hw h)) = Ok a /\ h1 = h.
Proof. intros Hm. unfold io. rewrite Hm. destruct h. by intros [= E <-]. Qed.
Lemma oret_ok {A} (a : A) h b h1 : oret a h = (Ok b, h1) -> a = b /\ h1 = h.
Proof. by intros [= -> ->]. Qed.

(** Takes the run of a sequence apart. *)
Ltac orun_step :=
  match goal with
  | H : obind _ _ _ = (Ok _, _) |- _ =>
      let a := fresh "a" in let h := fresh "h" in let Ha := fresh "Hrun" in
      apply obind_ok in H as (a & h & Ha & H)
  | H : olift _ _ = (Ok _, _) |- _ => first [apply olift_ok in H as [H ->] | apply olift_ok in H as [H _]]
  | H : ocheck _ _ _ = (Ok _, _) |- _ => first [apply ocheck_ok in H as [H ->] | apply ocheck_ok in H as [H _]]
  | H : store _ = (Ok _, _) |- _ => first [apply store_ok in H as [-> ->] | apply store_ok in H as [-> _]]
  | H : attr _ _ = (Ok _, _) |- _ => first [apply attr_ok in H as [-> ->] | apply attr_ok in H as [-> _]]
  | H : oret _ _ = (Ok _, _) |- _ => first [apply oret_ok in H as [H ->] | apply oret_ok in H as [H _]]
  | H : ofail _ _ = (Ok _, _) |- _ => discriminate H
  | H : (let '(_, _) := ?p in _) _ = (Ok _, _) |- _ => destruct p
  end.
(** A reader leaves the host as it was. *)
Ltac owatch :=
  match goal with
  | H : ?m ?h = (Ok _, ?h1) |- _ =>
      is_var h1; assert_fails (constr_eq h h1);
      let E := fresh in assert (h1 = h) as E by (eapply watcher_ok; [|exact H]; solve [quiets]); subst h1
  end.
Ltac orun := repeat first [orun_step | owatch].

Lemma substring_short n s : (String.length s <= n)%nat -> String.substring 0 n s = s.
Proof.
  revert s. induction n as [|n IH]; intros [|c s] Hn; cbn [String.substring String.length] in *; [done|lia|done|].
  by rewrite IH by lia.
Qed.

Lemma obj_remove_spec key k kvs : k <> key -> member k (VObj (obj_remove key kvs)) = member k (VObj kvs).
Proof.
  intros Hne. cbn [member]. f_equal. induction kvs as [|[k' v] kvs IH]; [done|]. cbn [obj_remove List.filter List.find fst].
  destruct (String.eqb_spec k' key) as [->|Hk]; cbn [negb].
  - destruct (String.eqb_spec key k); [congruence|]. apply IH.
  - cbn [List.find fst]. destruct (String.eqb k' k); [done|]. apply IH.
Qed.
Lemma find_app {A} (f : A -> bool) l k :
  List.find f (l ++ k) = match List.find f l with Some x => Some x | None => List.find f k end.
Proof. induction l as [|x l IH]; [done|]. cbn [app List.find]. by destruct (f x). Qed.
Lemma member_insert_ne key k v kvs : k <> key -> member k (VObj (obj_insert key v kvs)) = member k (VObj kvs).
Proof.
  intros Hne. unfold obj_insert. rewrite <- (obj_remove_spec key k kvs) by done. cbn [member]. rewrite find_app.
  destruct (List.find _ _); [done|]. cbn [List.find fst]. by destruct (String.eqb_spec key k) as [->|].
Qed.
Lemma member_insert_eq k v kvs : member k (VObj (obj_insert k v kvs)) = Some v.
Proof.
  unfold obj_insert. cbn [member]. rewrite find_app. destruct (List.find _ (obj_remove k kvs)) as [x|] eqn:E.
  - apply find_some in E as [Hin Hk]. apply filter_In in Hin as [_ Hf]. by rewrite Hk in Hf.
  - cbn [List.find fst]. by rewrite String.eqb_refl.
Qed.

(** Steps of a sequence that sends nothing are skipped; what they returned is kept. *)
Ltac osilent := apply sends_bind; [apply sends_quiet; solve [quiets]|intros ? ? ?].
