(* ===== verification/OpsProps.v ===== *)
(** * OpsProps: what an operation may send

    Every message that reaches the key service or the operations service, on
    every path, is one that the checks before it authorise. *)

From S2P Require Import Prelude Text State Json LogModel Config Execution Dag Lifecycle Snapshot Findings FindingsFacts Policy CompletionFacts LifecycleGates OpsBytes OpsRequest OpsHost Ops OpsFacts OpsBytesProps.

Section OpsSpec.
Context `{Platform} `{Git} `{JsonCodec} `{JsonPretty} `{OpsEnv} `{Resolver} `{Services}.
Implicit Types (h : Host).

(** ** What the checks establish *)

(** A request file: a regular file of a trusted owner that nobody else may write. *)
Definition request_on_file h (uids : list Z) (dir : string) (template : Value) : Prop :=
  exists path bytes,
    inside path dir = true /\ files (hw h) !! path = Some bytes /\ from_slice bytes = Some template
    /\ len bytes <= 65536
    /\ owner (attrs h path) ∈ uids /\ Z.land (mode (attrs h path)) 18 = 0 /\ is_link (attrs h path) = false.

(** The template names the exact bytes of a runbook of the installation, and its
    target is the one the runbook declares. *)
Definition runbook_bound h (template : Value) (content : string) : Prop :=
  exists root document bytes,
    inside document root = true /\ files (hw h) !! document = Some bytes
    /\ content = "sha256:" +:+ sha256_hex bytes
    /\ member_str "runbookContentSha256" template = Some content
    /\ (forall target, canonical_runbook_target bytes = Ok (Some target) ->
          same_value (member "target" template) (Some target) = true).

(** The evidence of the reviewer is complete and sealed, accepts, and is bound to
    the template and the contents of its runbook. *)
Definition review_sealed h (state reviewer : string) (template : Value) (content : string) (at_ : string) : Prop :=
  let file name := files (hw h) !! path_join (path_join (path_join state "reviewer-evidence") reviewer) name in
  exists text message seal,
    file "evidence.env" = Some text /\ file "last-message.txt" = Some message
    /\ parse_env text !! "role" = Some "reviewer" /\ parse_env text !! "access" = Some "read-only"
    /\ parse_env text !! "state" = Some "completed" /\ parse_env text !! "completed_at" = Some at_
    /\ parse_env text !! "output_sha256" = Some seal /\ eq_ignore_ascii_case (sha256_hex message) seal = true
    /\ reviewer_accepted message = true
    /\ match file "review-binding.json" with
       | Some bytes =>
           exists binding expected seal',
             from_slice bytes = Some binding /\ review_binding_value template content = Ok expected
             /\ same_value (Some binding) (Some expected) = true
             /\ parse_env text !! "binding_sha256" = Some seal'
             /\ eq_ignore_ascii_case (sha256_hex bytes) seal' = true
       | None => review_evidence_is_bound message template content = Ok true
       end.

(** [MULTIAGENT_STATE_DIR], resolved. *)
Definition state_root h (st : string) : Prop :=
  exists named, env_nonempty "MULTIAGENT_STATE_DIR" = Some named /\ resolve (files (hw h)) named = Some st.

(** The scope of the session allows the operation: a human session; a user
    session whose execution permits reviewed operations; or an observing session
    and an operation that the service advertises as harmless. *)
Definition scope_allows h (template : Value) : Prop :=
  let scope := unwrap_or (env_var "MULTIAGENT_AUTHORITY_SCOPE") "human" in
  scope = "human"
  \/ (scope = "user" /\ exists e, eval configured (files (hw h)) = Ok e /\ permits_reviewed_ops e = true)
  \/ ((scope = "observe" \/ scope = "diagnosis-only")
      /\ exists id answer capability h1,
           pointer_str ["operation"; "id"] template = Some id
           /\ call_prod_mcp_tool "operations_capabilities" (VObj []) h = (Ok answer, h1)
           /\ operation_capability answer id = Ok capability /\ non_mutating capability = true
           /\ no_approval_roles capability = true).

(** The signed request carries the operation, the parameters, the runbook and
    the target of the template, exactly the approvals given, and four minutes. *)
Definition request_of (template : Value) (approvals : list TrustedApproval) (role_ subject_ : string)
    (context : Value) (now_ : Z) (request : Value) : Prop :=
  validate_request_template template = Ok tt
  /\ (forall key, key ∈ ["operation"; "parameters"; "runbook"; "target"; "taskId"; "runbookContentSha256"] ->
        member key request = member key template /\ is_Some (member key template))
  /\ member "approvals" request = Some (VArr (map approval_value approvals))
  /\ member_str "delegatedRole" request = Some role_ /\ member_str "delegatedSubject" request = Some subject_
  /\ member "executionContext" request = Some context
  /\ member_str "intentSha256" request = (digest_json <$> member "goal" template)
  /\ member_str "expiresAt" request = Some (rfc3339_millis (now_ + PERMIT_NANOS))
  /\ NoDup (map subject approvals)
  /\ Forall (fun a => exists t, parse_from_rfc3339 (approved_at a) = Some t /\ t <= now_) approvals.

(** A call carries [request]: it asks for the signature of its permit, or sends
    the permit with the signature. *)
Definition carries (request : Value) (c : Call) : Prop :=
  exists kid, match c with
  | SignCall _ message => message = signing_input kid (permit_payload request)
  | McpCall _ body =>
      exists raw, String.length raw = 64%nat
        /\ body = tool_call "operations_execute"
             (VObj [("permit", VStr (signing_input kid (permit_payload request) +:+ "." +:+ base64url_encode raw))])
  end.
(** The question which operations there are. *)
Definition asks_capabilities (c : Call) : Prop :=
  exists url, c = McpCall url (tool_call "operations_capabilities" (VObj [])).

(** A call of a reviewed operation from the host [h]. *)
Definition reviewed_call h (c : Call) : Prop :=
  exists st template content caller approval context now_ request,
    carries request c
    /\ request_of template [caller; approval] "runbook-operator" "multiagent-supervisor" context now_ request
    /\ state_root h st /\ request_on_file h [OPS_UID; SUPERVISOR_UID] st template
    /\ runbook_bound h template content
    /\ role approval = "operations-reviewer" /\ role caller = "safety-reviewer"
    /\ review_sealed h st (subject approval) template content (approved_at approval)
    /\ scope_allows h template.

(** ** The steps *)

Lemma read_bounded_ok path limit nf h bytes a h1 :
  read_bounded_file path limit nf h = (Ok (bytes, a), h1) ->
  h1 = h /\ files (hw h) !! path = Some bytes /\ len bytes <= limit /\ a = attrs h path /\ (nf = true -> is_link a = false).
Proof.
  unfold read_bounded_file. intros Hr. orun. destruct (files (hw h) !! path) as [contents|] eqn:E; orun.
  apply Z.leb_le in Hrun. rewrite substring_short in Hr by (unfold len in *; lia). simplify_eq.
  split_and!; try done. intros ->. cbn [andb] in Hrun1. by bool_hyps.
Qed.

Lemma group_writable_false a : group_writable a = false -> Z.land (mode a) 18 = 0.
Proof. unfold group_writable. intros Hg%negb_false_iff. by apply Z.eqb_eq. Qed.

Lemma parse_json_ok bytes e v : parse_json bytes e = Ok v -> from_slice bytes = Some v.
Proof. unfold parse_json. destruct (from_slice bytes); [by intros [= ->]|done]. Qed.

Lemma read_reviewable_ok st path h p bytes template h1 :
  read_reviewable_request st path h = (Ok (p, bytes), h1) -> from_slice bytes = Some template ->
  h1 = h /\ request_on_file h [OPS_UID; SUPERVISOR_UID] st template.
Proof.
  unfold read_reviewable_request. intros Hr Ht. orun. 
  apply read_bounded_ok in Hrun1 as (_ & Hf & Hl & -> & Hlink). simplify_eq. split; [done|]. exists p, bytes. bool_hyps.
  split_and!; try done; [|by apply group_writable_false|by apply Hlink].
  match goal with Ho : _ || _ = true |- _ => apply orb_true_iff in Ho as [Ho|Ho]; apply Z.eqb_eq in Ho; rewrite Ho end; set_solver.
Qed.

Lemma runbook_bytes_ok relative h bytes h1 :
  exact_runbook_bytes relative h = (Ok bytes, h1) ->
  h1 = h /\ exists root document, inside document root = true /\ files (hw h) !! document = Some bytes.
Proof.
  intros Hr. pose proof (watcher_ok _ _ _ _ (watcher_runbook_bytes _) Hr) as ->. split; [done|].
  unfold exact_runbook_bytes in Hr. orun.
  match goal with Hb : read_bounded_file _ _ _ _ = (Ok ?p, _) |- _ => destruct p; apply read_bounded_ok in Hb as (_ & Hf & _) end.
  cbn [fst] in *. subst. eauto.
Qed.

Lemma verified_ok template h content h1 :
  verified_runbook_content template h = (Ok content, h1) -> h1 = h /\ runbook_bound h template content.
Proof.
  intros Hr. pose proof (watcher_ok _ _ _ _ (watcher_verified _) Hr) as ->. split; [done|].
  unfold verified_runbook_content in Hr. orun. apply runbook_bytes_ok in Hrun1 as (_ & root & document & Hi & Hf).
  apply ok_or_ok in Hrun2. apply String.eqb_eq in Hrun3. subst. exists root, document, a1. split_and!; try done.
  intros target Ht. rewrite Ht in Hrun4. simplify_eq. by apply ocheck_ok in Hrun5 as [? _].
Qed.

Lemma meta_is_true m k v : meta_is m k v = true -> m !! k = Some v.
Proof. apply bool_decide_eq_true. Qed.

Lemma verify_reviewer_ok st reviewer template content h approval h1 :
  verify_reviewer st reviewer template content h = (Ok approval, h1) ->
  h1 = h /\ subject approval = reviewer /\ role approval = "operations-reviewer"
  /\ review_sealed h st reviewer template content (approved_at approval).
Proof.
  intros Hr. pose proof (watcher_ok _ _ _ _ (watcher_verify_reviewer _ _ _ _) Hr) as ->. split; [done|].
  unfold verify_reviewer in Hr. orun. subst approval. split; [done|]. split; [done|].
  unfold review_sealed. cbv zeta. cbn [approved_at].
  apply io_reader_ok in Hrun as [Hm _]; [|readers]. unfold read_env, eval in Hm. cbn in Hm.
  match type of Hm with context [match ?o with Some _ => _ | None => _ end] => destruct o eqn:Ht end; [|done].
  simplify_eq/=. repeat match goal with Ho : ok_or _ _ = Ok _ |- _ => apply ok_or_ok in Ho end.
  bool_hyps. repeat match goal with Hb : meta_is _ _ _ = true |- _ => apply meta_is_true in Hb end.
  do 3 eexists. split_and!; try eassumption; try done.
  match goal with |- context [match ?o with Some _ => _ | None => _ end] => destruct o end; orun.
  - repeat match goal with Ho : ok_or _ _ = Ok _ |- _ => apply ok_or_ok in Ho | Ho : parse_json _ _ = Ok _ |- _ => apply parse_json_ok in Ho end.
    unfold review_binding_matches in *. match goal with Hm : rbind _ _ = Ok ?m |- _ => apply rbind_ok in Hm as (expected & He & [= <-]) end.
    eauto 10.
  - by subst.
Qed.

Lemma canonical_state_ok h st h1 : canonical_state h = (Ok st, h1) -> state_root h st.
Proof.
  unfold canonical_state, canonicalize_path. intros Hr. orun.
  repeat match goal with Ho : ok_or _ _ = Ok _ |- _ => apply ok_or_ok in Ho | Ho : required_env _ = Ok _ |- _ => unfold required_env in Ho end.
  eexists. eauto.
Qed.

Lemma load_reviewed_ok file reviewer h st template approval h1 :
  load_reviewed_request file reviewer h = (Ok (st, template, approval), h1) ->
  h1 = h /\ state_root h st /\ request_on_file h [OPS_UID; SUPERVISOR_UID] st template
  /\ subject approval = reviewer /\ role approval = "operations-reviewer"
  /\ exists content, runbook_bound h template content /\ review_sealed h st reviewer template content (approved_at approval).
Proof.
  intros Hr. pose proof (watcher_ok _ _ _ _ (watcher_load _ _) Hr) as ->. split; [done|].
  unfold load_reviewed_request in Hr. orun. simplify_eq.
  match goal with Hv : verify_reviewer _ _ _ _ _ = _ |- _ => apply verify_reviewer_ok in Hv as (_ & Hs & Hro & Hsealed) end.
  match goal with Hv : verified_runbook_content _ _ = _ |- _ => apply verified_ok in Hv as (_ & Hb) end.
  match goal with Hv : read_reviewable_request _ _ _ = (Ok ?p, _) |- _ => destruct p;
    eapply read_reviewable_ok in Hv as (_ & Hf); [|eapply parse_json_ok; eassumption] end.
  match goal with Hv : canonical_state _ = _ |- _ => apply canonical_state_ok in Hv end. eauto 10.
Qed.

Lemma check_approvals_ok subjects now_ approvals :
  check_approvals subjects now_ approvals = Ok tt ->
  NoDup (map subject approvals) /\ Forall (fun a => subject a ∉ subjects) approvals
  /\ Forall (fun a => exists t, parse_from_rfc3339 (approved_at a) = Some t /\ t <= now_) approvals.
Proof.
  revert subjects. induction approvals as [|a rest IH]; intros subjects Hc; [by split_and!; constructor|].
  cbn [check_approvals] in Hc. apply rbind_ok in Hc as ([] & Hs%guard_ok & Hc). apply rbind_ok in Hc as (t & Ht%ok_or_ok & Hc).
  apply rbind_ok in Hc as ([] & Hn%guard_ok%Z.leb_le & Hc). apply IH in Hc as (Hd & Hf & Ha).
  apply negb_true_iff in Hs. assert (subject a ∉ subjects) as Hna.
  { intros Hin. apply not_true_iff_false in Hs. apply Hs, existsb_exists. exists (subject a).
    split; [by apply list_elem_of_In|apply String.eqb_refl]. }
  cbn [map]. split_and!.
  - apply NoDup_cons. split; [|done]. intros Hin. apply list_elem_of_In, in_map_iff in Hin as (b & Hb & Hin).
    apply list_elem_of_In in Hin. rewrite Forall_forall in Hf. apply (Hf b Hin). rewrite Hb. left.
  - apply Forall_cons. split; [done|]. eapply Forall_impl; [exact Hf|]. intros b Hb Hin. apply Hb. by right.
  - apply Forall_cons. eauto.
Qed.

Lemma as_object_ok v kvs : as_object v = Some kvs -> v = VObj kvs.
Proof. by destruct v; intros [= ->]. Qed.
Lemma member_str_ok k v s : member_str k v = Some s -> member k v = Some (VStr s).
Proof. unfold member_str. destruct (member k v) as [[]|]; cbn; by intros [= ->]. Qed.
Lemma required_object_ok kvs key o : required_object kvs key = Ok o -> member key (VObj kvs) = Some (VObj o).
Proof.
  unfold required_object. intros Hr%ok_or_ok. destruct (member key (VObj kvs)) as [[]|]; try discriminate Hr.
  cbn in Hr. congruence.
Qed.

Lemma build_request_ok template approvals role_ subject_ context now_ h request h1 :
  build_request template approvals role_ subject_ context now_ h = (Ok request, h1) ->
  request_of template approvals role_ subject_ context now_ request.
Proof.
  unfold build_request. intros Hr. orun.
  repeat match goal with
  | Ho : required_object _ _ = Ok _ |- _ => apply required_object_ok in Ho
  | Ho : ok_or _ _ = Ok _ |- _ => apply ok_or_ok in Ho
  end.
  match goal with Ho : as_object template = Some _ |- _ => apply as_object_ok in Ho as -> end.
  rename a1 into kvs.
  match goal with Hc : check_approvals _ _ _ = Ok ?u |- _ => destruct u; apply check_approvals_ok in Hc as (Hd & _ & Ht) end.
  repeat match goal with Ho : member_str _ _ = Some _ |- _ => apply member_str_ok in Ho end.
  set (fields := [("actionId", _); _; _; _; _; _; _; _; _; _; _; _; _; _; _; _; _; _; _; _]) in Hr.
  assert (forall key, key <> "changeTicket" -> member key request = member key (VObj fields)) as Hm.
  { intros key Hk. subst request. destruct (member "changeTicket" _); [by apply member_insert_ne|done]. }
  unfold request_of, member_str. rewrite !Hm by done.
  assert (forall key v, member key (VObj kvs) = Some v -> member key (VObj fields) = Some v ->
    member key (VObj fields) = member key (VObj kvs) /\ is_Some (member key (VObj kvs))) as Hkey by (intros ? ? -> ->; eauto).
  split_and!; try done.
  - match goal with Hv : validate_request_template _ = Ok ?u |- _ => by destruct u end.
  - intros key Hk. rewrite Hm by (intros ->; set_solver).
    repeat (apply elem_of_cons in Hk as [->|Hk]; [eapply Hkey; [eassumption|done]|]). by apply elem_of_nil in Hk.
  - match goal with Hg : member "goal" _ = Some _ |- _ => by rewrite Hg end.
Qed.

Lemma sends_record P c h : P c -> sends P (record_call c) h.
Proof. intros Hc. exists [c]. by split; [|constructor]. Qed.

Lemma sends_sign (P : Call -> Prop) payload h :
  (forall key_id kid, P (SignCall key_id (signing_input kid payload))) -> sends P (sign_permit payload) h.
Proof.
  intros HP. unfold sign_permit. cbv zeta. do 6 osilent.
  apply sends_bind; [apply sends_record, HP|intros ? ? ?]. apply sends_quiet. quiets.
Qed.
Lemma sign_ok payload h permit h1 :
  sign_permit payload h = (Ok permit, h1) ->
  exists kid raw, String.length raw = 64%nat /\ permit = signing_input kid payload +:+ "." +:+ base64url_encode raw.
Proof.
  unfold sign_permit. cbv zeta. intros Hr. apply obind_ok in Hr as (kid & h2 & _ & Hr).
  do 12 (apply obind_ok in Hr as (? & ? & ? & Hr)). orun. exists kid. eexists. split; [|symmetry; eassumption].
  match goal with He : ecdsa_der_to_raw _ = Ok _ |- _ => by apply ecdsa_raw_length in He end.
Qed.
Lemma sends_tool (P : Call -> Prop) name arguments h :
  (forall url, P (McpCall url (tool_call name arguments))) -> sends P (call_prod_mcp_tool name arguments) h.
Proof.
  intros HP. unfold call_prod_mcp_tool. cbv zeta. do 7 osilent.
  apply sends_bind; [|intros ? ? ?; apply sends_quiet; quiets].
  apply sends_attempt. do 2 osilent. unfold curl_mcp.
  apply sends_bind; [apply sends_record, HP|intros ? ? ?]. apply sends_quiet. quiets.
Qed.

(** A signed request is sent and the answer is handled quietly. *)
Lemma sends_signed {A} (P : Call -> Prop) request (k : string -> OIO A) h :
  (forall c, carries request c -> P c) ->
  (forall permit h1, (forall url, P (McpCall url (tool_call "operations_execute" (VObj [("permit", VStr permit)])))) ->
     sends P (k permit) h1) ->
  sends P (obind (sign_permit (permit_payload request)) k) h.
Proof.
  intros HP Hk. apply sends_bind.
  - apply sends_sign. intros key_id kid. apply HP. by exists kid.
  - intros permit h1 (kid & raw & Hl & ->)%sign_ok. apply Hk. intros url. apply HP. exists kid, raw. done.
Qed.

Lemma sends_scope (P : Call -> Prop) template h :
  (forall c, asks_capabilities c -> P c) -> sends P (enforce_authority_scope template) h.
Proof.
  intros HP. unfold enforce_authority_scope. cbv zeta. destruct (String.eqb _ "human"); [apply sends_quiet; quiets|].
  destruct (_ || _).
  - osilent. apply sends_bind; [apply sends_tool; intros url; apply HP; by exists url|]. intros. apply sends_quiet. quiets.
  - destruct (String.eqb _ "user"); apply sends_quiet; quiets.
Qed.
Lemma scope_ok template h u h1 : enforce_authority_scope template h = (Ok u, h1) -> scope_allows h template.
Proof.
  unfold enforce_authority_scope, scope_allows. cbv zeta. set (scope := unwrap_or (env_var "MULTIAGENT_AUTHORITY_SCOPE") "human").
  destruct (String.eqb_spec scope "human"); [auto|].
  destruct (_ || _) eqn:Eo.
  - intros Hr. do 3 (apply obind_ok in Hr as (? & ? & ? & Hr)). orun.
    match goal with Hv : validate_diagnosis_capability _ = Ok _ |- _ => unfold validate_diagnosis_capability in Hv;
      apply rbind_ok in Hv as ([] & Hv%guard_ok & Hw); destruct u; apply guard_ok in Hw end.
    match goal with Ho : ok_or _ _ = Ok _ |- _ => apply ok_or_ok in Ho end. bool_hyps.
    right. right. split; [|eauto 10]. apply orb_true_iff in Eo as [Eo|Eo]; apply String.eqb_eq in Eo; auto.
  - destruct (String.eqb_spec scope "user"); [|done]. intros Hr. right. left. split; [done|].
    apply obind_ok in Hr as (exec & h2 & He & Hr). apply io_reader_ok in He as [He ->]; [|apply reader_configured]. orun. eauto.
Qed.

(** What [execute_reviewed_operation] sends. *)
Lemma reviewed_sends args h : sends (fun c => asks_capabilities c \/ reviewed_call h c) (execute_reviewed_operation args) h.
Proof.
  unfold execute_reviewed_operation. do 3 osilent.
  apply sends_bind; [apply sends_quiet; quiets|]. intros [[st template] approval] h4 Hl.
  orun. apply load_reviewed_ok in Hl as (_ & Hst & Hf & Hs & Hro & content & Hrb & Hseal).
  apply sends_bind; [apply sends_scope; auto|]. intros u h5 Hscope%scope_ok. do 4 osilent.
  apply sends_bind; [apply sends_quiet; quiets|]. intros request h10 Hreq%build_request_ok. osilent.
  apply sends_signed.
  - intros c Hc. right. subst. do 8 eexists. split_and!; try eassumption; done.
  - intros permit h12 Hp. apply sends_bind; [apply sends_attempt, sends_tool, Hp|]. intros. apply sends_quiet. quiets.
Qed.
End OpsSpec.
