(* ===== verification/OpsReadProps.v ===== *)
(** * OpsReadProps: what the reads of production may send

    The observation of a reviewer and the direct read of a role: neither is
    reviewed, so the service must advertise the operation as harmless, and the
    request stays within what is bound to the session. *)

From S2P Require Import Prelude Text State Json LogModel Config Execution Dag Lifecycle Snapshot Findings FindingsFacts Policy CompletionFacts LifecycleGates OpsBytes OpsRequest OpsHost Ops OpsFacts OpsBytesProps OpsProps.

(** ** Network destinations *)

(** The strings and the keys of a value, at any depth. *)
Inductive holds_string : Value -> string -> Prop :=
| hs_here s : holds_string (VStr s) s
| hs_arr l x s : In x l -> holds_string x s -> holds_string (VArr l) s
| hs_obj kvs k x s : In (k, x) kvs -> holds_string x s -> holds_string (VObj kvs) s.
Inductive holds_key : Value -> string -> Prop :=
| hk_here kvs k x : In (k, x) kvs -> holds_key (VObj kvs) k
| hk_arr l x k : In x l -> holds_key x k -> holds_key (VArr l) k
| hk_obj kvs j x k : In (j, x) kvs -> holds_key x k -> holds_key (VObj kvs) k.

Lemma in_canonical k x kvs : In (k, x) kvs -> In (k, canonical_value x) (sort_pairs (map (on_snd canonical_value) kvs)).
Proof.
  intros Hin. apply list_elem_of_In. rewrite sort_pairs_perm. apply list_elem_of_In, in_map_iff. by exists (k, x).
Qed.
Lemma holds_string_canonical v s : holds_string v s -> holds_string (canonical_value v) s.
Proof.
  induction 1 as [s|l x s Hin _ IH|kvs k x s Hin _ IH]; cbn [canonical_value]; [constructor| |].
  - by apply hs_arr with (canonical_value x); [apply in_map|].
  - by apply hs_obj with k (canonical_value x); [apply in_canonical|].
Qed.
Lemma holds_key_canonical v k : holds_key v k -> holds_key (canonical_value v) k.
Proof.
  induction 1 as [kvs k x Hin|l x k Hin _ IH|kvs j x k Hin _ IH]; cbn [canonical_value].
  - by apply hk_here with (canonical_value x), in_canonical.
  - by apply hk_arr with (canonical_value x); [apply in_map|].
  - by apply hk_obj with j (canonical_value x); [apply in_canonical|].
Qed.

Definition url_free (v : Value) : Prop :=
  (forall s, holds_string v s -> arbitrary_url s = false) /\ (forall k, holds_key v k -> destination_key k = false).

Lemma reject_arr l : reject_urls_in (VArr l) = Ok tt -> Forall (fun x => reject_urls_in x = Ok tt) l.
Proof.
  induction l as [|x l IH]; [by constructor|]. intros Hr. apply rbind_ok in Hr as ([] & Hx & Hl). constructor; [done|by apply IH].
Qed.
Lemma reject_obj l :
  reject_urls_in (VObj l) = Ok tt -> Forall (fun kv => destination_key kv.1 = false /\ reject_urls_in kv.2 = Ok tt) l.
Proof.
  induction l as [|[k x] l IH]; [by constructor|]. cbn [reject_urls_in]. destruct (destination_key k) eqn:E; [done|].
  intros Hr. apply rbind_ok in Hr as ([] & Hx & Hl). constructor; [done|by apply IH].
Qed.
Lemma reject_in_sound v : reject_urls_in v = Ok tt -> url_free v.
Proof.
  intros Hr. split; intros t Ht.
  - induction Ht as [s|l x t Hin _ IH|kvs k x t Hin _ IH].
    + cbn [reject_urls_in] in Hr. by destruct (arbitrary_url s).
    + apply IH. apply reject_arr in Hr. rewrite Forall_forall in Hr. by apply Hr, list_elem_of_In.
    + apply IH. apply reject_obj in Hr. rewrite Forall_forall in Hr. apply (Hr (k, x)). by apply list_elem_of_In.
  - induction Ht as [kvs k x Hin|l x k Hin _ IH|kvs j x k Hin _ IH].
    + apply reject_obj in Hr. rewrite Forall_forall in Hr. apply (Hr (k, x)). by apply list_elem_of_In.
    + apply IH. apply reject_arr in Hr. rewrite Forall_forall in Hr. by apply Hr, list_elem_of_In.
    + apply IH. apply reject_obj in Hr. rewrite Forall_forall in Hr. apply (Hr (j, x)). by apply list_elem_of_In.
Qed.
Lemma reject_urls_sound v : reject_arbitrary_urls v = Ok tt -> url_free v.
Proof.
  intros [H1 H2]%reject_in_sound. split; intros s Hs; [by apply H1, holds_string_canonical|by apply H2, holds_key_canonical].
Qed.

Section ReadSpec.
Context `{Platform} `{Git} `{JsonCodec} `{JsonPretty} `{OpsEnv} `{Resolver} `{Services}.
Implicit Types (h : Host).

(** The operation of the template as the service advertises it from [h]. *)
Definition advertised h (template capability : Value) : Prop :=
  exists id answer h1,
    pointer_str ["operation"; "id"] template = Some id
    /\ call_prod_mcp_tool "operations_capabilities" (VObj []) h = (Ok answer, h1)
    /\ operation_capability answer id = Ok capability.

(** It changes nothing, needs no approval, and is meant for this runbook. *)
Definition harmless (capability template : Value) : Prop :=
  non_mutating capability = true /\ no_approval_roles capability = true
  /\ version_matches capability template = true /\ allows_runbook capability template = true.

Definition reviewer_live h (st reviewer : string) : Prop :=
  let file name := files (hw h) !! path_join (path_join (path_join st "subagents") reviewer) name in
  exists text status,
    file "meta.env" = Some text /\ parse_env text !! "role" = Some "reviewer"
    /\ parse_env text !! "access" = Some "read-only"
    /\ file "status" = Some status /\ In (trim status) ["running"; "waiting"; "restoring"].

(** The observation of a reviewer: about the request under review, of the same
    task, goal, target and runbook. *)
Definition observer_call h (c : Call) : Prop :=
  exists st root reviewer reviewed evidence content capability caller context now_ request,
    carries request c
    /\ request_of evidence [caller] "runbook-observer" reviewer context now_ request
    /\ state_root h st /\ reviewer_live h st reviewer
    /\ request_on_file h [OPS_UID; SUPERVISOR_UID] st reviewed /\ request_on_file h [REVIEWER_UID] root evidence
    /\ runbook_bound h evidence content
    /\ (forall key, key ∈ SCOPE_POINTERS -> same_value (member key reviewed) (member key evidence) = true)
    /\ advertised h evidence capability /\ harmless capability evidence
    /\ member_str "access" capability = Some "read".

Lemma live_ok st reviewer h u h1 : validate_live_reviewer st reviewer h = (Ok u, h1) -> reviewer_live h st reviewer.
Proof.
  unfold validate_live_reviewer. intros Hr. orun.
  apply io_reader_ok in Hrun as [Hm _]; [|readers]. apply io_reader_ok in Hrun1 as [Hst _]; [|readers].
  unfold read_env, eval in Hm. unfold read_or, eval in Hst. cbn in Hm, Hst.
  match type of Hm with context [match ?o with Some _ => _ | None => _ end] => destruct o eqn:Ht end; [|done].
  simplify_eq/=. apply andb_true_iff in Hrun0 as [Hro%meta_is_true Hac%meta_is_true]. unfold reviewer_live. cbv zeta.
  destruct (files (hw h) !! path_join _ "status") as [status|] eqn:Es; [|done]. exists s, status. split_and!; try done.
  cbn [unwrap_or] in Hr. rewrite !orb_true_iff, !String.eqb_eq in Hr. cbn [In]. naive_solver.
Qed.

Lemma read_reviewer_ok reviewer path h bytes template h1 :
  read_reviewer_request reviewer path h = (Ok bytes, h1) -> from_slice bytes = Some template ->
  exists root, request_on_file h [REVIEWER_UID] root template.
Proof.
  unfold read_reviewer_request. intros Hr Ht. orun.
  match goal with Hb : read_bounded_file _ _ _ _ = _ |- _ => apply read_bounded_ok in Hb as (_ & Hf & Hl & -> & Hlink) end.
  subst. bool_hyps. do 3 eexists. split_and!; try eassumption; [|by apply group_writable_false|by apply Hlink].
  match goal with Ho : (owner _ =? _) = true |- _ => apply Z.eqb_eq in Ho; rewrite Ho end. set_solver.
Qed.

Lemma scope_same keys reviewed evidence u :
  validate_scope keys reviewed evidence = Ok u ->
  forall key, key ∈ keys -> same_value (member key reviewed) (member key evidence) = true.
Proof.
  revert u. induction keys as [|k keys IH]; intros u Hv key Hk; [by apply elem_of_nil in Hk|]. cbn [validate_scope] in Hv.
  apply rbind_ok in Hv as ([] & Hg%guard_ok & Hv). apply elem_of_cons in Hk as [->|Hk]; [done|eauto].
Qed.

Lemma read_capability_ok capability template u :
  validate_read_capability capability template = Ok u ->
  harmless capability template /\ member_str "access" capability = Some "read".
Proof.
  unfold validate_read_capability. intros Hv. apply rbind_ok in Hv as ([] & Hg%guard_ok & Hv).
  apply rbind_ok in Hv as ([] & Hn%guard_ok & Hv). apply rbind_ok in Hv as ([] & Hver%guard_ok & Hv).
  destruct u. apply guard_ok in Hv. apply andb_true_iff in Hg as [Ha%bool_decide_eq_true Hm]. by split.
Qed.

(** What [execute_reviewer_read] sends. *)
Lemma observer_sends args h : sends (fun c => asks_capabilities c \/ observer_call h c) (execute_reviewer_read args) h.
Proof.
  unfold execute_reviewer_read. do 17 osilent. orun.
  match goal with Hv : read_reviewable_request _ _ _ = (Ok ?p, _) |- _ => destruct p;
    eapply read_reviewable_ok in Hv as (_ & Hf); [|eapply parse_json_ok; eassumption] end.
  match goal with Hv : read_reviewer_request _ _ _ = _ |- _ =>
    eapply read_reviewer_ok in Hv as (root & He); [|eapply parse_json_ok; eassumption] end.
  match goal with Hv : verified_runbook_content ?e _ = _, Hs : validate_evidence_scope _ ?e = _ |- _ =>
    apply verified_ok in Hv as (_ & Hb); pose proof (scope_same _ _ _ _ Hs) as Hscope end.
  match goal with Hv : canonical_state _ = _ |- _ => apply canonical_state_ok in Hv as Hst end.
  match goal with Hv : validate_live_reviewer _ _ _ = _ |- _ => apply live_ok in Hv as Hlive end.
  match goal with Ho : ok_or (pointer_str _ _) _ = Ok _ |- _ => apply ok_or_ok in Ho as Hid end.
  apply sends_bind; [apply sends_tool; intros url; left; by exists url|]. intros answer h1 Hans. do 6 osilent.
  apply sends_bind; [apply sends_quiet; quiets|]. intros request h9 Hreq%build_request_ok. osilent. orun.
  match goal with Hv : validate_read_capability _ _ = _ |- _ => apply read_capability_ok in Hv as [Hharm Hacc] end.
  apply sends_signed.
  - intros c Hc. right. do 11 eexists. split_and!; try eassumption. do 3 eexists. split_and!; eassumption.
  - intros permit h12 Hp. apply sends_bind; [apply sends_tool, Hp|]. intros. apply sends_quiet. quiets.
Qed.

(** C23: [ops execute] sends only what the caller may send. Whatever its outcome,
    a permit for a mutating operation goes out only when the authority supervisor
    names the ops identity or root as the caller and the operation is reviewed,
    and a permit for an observation only for the reviewer or root, about the
    request under review and with an operation that the service advertises as
    read-only, without approvals, and meant for the runbook. *)
Theorem execute_authorised args h r h' :
  execute args h = (r, h') ->
  exists new, calls h' = calls h ++ new
    /\ Forall (fun c => asks_capabilities c
         \/ exists uid, (env_var "MULTIAGENT_AUTHORITY_CALLER_UID" ≫= parse_u32) = Some uid
              /\ ((uid ∈ [0; OPS_UID] /\ reviewed_call h c) \/ (uid ∈ [0; REVIEWER_UID] /\ observer_call h c))) new.
Proof.
  intros Hr. match goal with |- exists new, calls _ = _ /\ Forall ?P new => assert (sends P (execute args) h) as Hs end.
  2: { unfold sends in Hs. by rewrite Hr in Hs. }
  clear Hr. unfold execute. do 2 osilent. apply sends_bind; [apply sends_quiet; quiets|]. intros m h3 Hm. orun.
  assert (env_var "MULTIAGENT_AUTHORITY_CALLER_UID" ≫= parse_u32 = Some a0) as Huid.
  { match goal with Hc : authority_caller _ = Ok _ |- _ => apply rbind_ok in Hc as (t & Ht%ok_or_ok & Hp%ok_or_ok) end. by rewrite Ht. }
  unfold execute_mode in Hm. destruct (is_some _), (a0 =? 0) eqn:E0; cbn [orb] in Hm;
    try destruct (a0 =? REVIEWER_UID) eqn:E1; try destruct (a0 =? OPS_UID) eqn:E2; try discriminate Hm; injection Hm as <-;
    repeat match goal with E : (_ =? _) = true |- _ => apply Z.eqb_eq in E end; subst;
    (eapply sends_mono; [|solve [apply reviewed_sends | apply observer_sends]]); intros c [Hc|Hc]; auto; right; eexists;
    (split; [done|]); first [left; split; [set_solver|exact Hc] | right; split; [set_solver|exact Hc]].
Qed.

(** ** Direct reads *)

Context `{Materializer}.

(** A clone talks to the git server only. *)
Class MaterializerQuiet : Prop := materialize_quiet : forall st repository url token permit,
  quiet (materialize_repository st repository url token permit).

Definition delegated (access : DirectAccess) : string :=
  match access with Read => "runbook-observer" | Materialize => "runbook-operator" end.
Definition access_name (access : DirectAccess) : string := match access with Read => "read" | Materialize => "materialize" end.

(** The direct read of a role: a file of the caller that names only the
    operation, its parameters and the runbook; the task is the thread and the
    goal the sealed original task. *)
Definition direct_call h (c : Call) : Prop :=
  exists uid root unbound template task content capability access context now_ request,
    carries request c
    /\ request_of template [] (delegated access) "multiagent-supervisor" context now_ request
    /\ (env_var "MULTIAGENT_AUTHORITY_CALLER_UID" ≫= parse_u32) = Some uid
    /\ uid ∈ [0; ORCHESTRATOR_UID; WRITER_UID; READER_UID; OPS_UID; REVIEWER_UID]
    /\ request_on_file h [uid] root unbound /\ is_ok (direct_request_runbook unbound) = true
    /\ member_str "taskId" template = member_str "threadId" context
    /\ member_str "goal" template = Some (trim (env_original_task task))
    /\ (exists id, env_nonempty "MULTIAGENT_WORKFLOW_ID" = Some id /\ eval (semantic_envelope id) (files (hw h)) = Ok task)
    /\ runbook_bound h template content
    /\ advertised h template capability /\ harmless capability template
    /\ member_str "access" capability = Some (access_name access)
    /\ (forall parameters, member "parameters" template = Some parameters -> url_free parameters).

Lemma reader_envelope id : reader (semantic_envelope id).
Proof. unfold semantic_envelope. pose proof reader_original_task. pose proof reader_optional_artifact. readers. Qed.

Lemma read_direct_ok path uid h bytes template h1 :
  read_direct_request path uid h = (Ok bytes, h1) -> from_slice bytes = Some template ->
  exists root, request_on_file h [uid] root template.
Proof.
  unfold read_direct_request. intros Hr Ht. orun.
  match goal with Hb : read_bounded_file _ _ _ _ = _ |- _ => apply read_bounded_ok in Hb as (_ & Hf & Hl & -> & Hlink) end.
  subst. bool_hyps. do 3 eexists. split_and!; try eassumption; [|by apply group_writable_false|by apply Hlink].
  match goal with Ho : (owner _ =? _) = true |- _ => apply Z.eqb_eq in Ho; rewrite Ho end. set_solver.
Qed.

Lemma requester_role_ok uid role_ :
  direct_requester_role uid = Ok role_ -> uid ∈ [0; ORCHESTRATOR_UID; WRITER_UID; READER_UID; OPS_UID; REVIEWER_UID].
Proof. unfold direct_requester_role. repeat (case_match eqn:E; [apply Z.eqb_eq in E; subst; set_solver|clear E]). done. Qed.

Lemma direct_capability_ok capability template access :
  validate_direct_capability capability template = Ok access ->
  harmless capability template /\ member_str "access" capability = Some (access_name access).
Proof.
  unfold validate_direct_capability. intros Hv. apply rbind_ok in Hv as (a & Ha & Hv).
  do 4 (apply rbind_ok in Hv as ([] & ?%guard_ok & Hv)). injection Hv as ->. split; [done|]. unfold str_is in Ha.
  case_bool_decide as E1; [by injection Ha as <-|]. case_bool_decide as E2; [by injection Ha as <-|done].
Qed.

(** A member of an object with distinct keys. *)
Lemma member_in k v kvs : NoDup kvs.*1 -> In (k, v) kvs -> member k (VObj kvs) = Some v.
Proof.
  intros Hnd Hin. cbn [member]. induction kvs as [|[j w] kvs IH]; [done|]. cbn [List.find fst]. inversion Hnd; subst.
  destruct Hin as [[= -> ->]|Hin]; [by rewrite String.eqb_refl|]. destruct (String.eqb_spec j k) as [->|]; [|by apply IH].
  exfalso. match goal with Hn : _ ∉ _ |- _ => apply Hn end. apply list_elem_of_In, in_map_iff. by exists (k, v).
Qed.
Lemma in_member k v kvs : member k (VObj kvs) = Some v -> In (k, v) kvs.
Proof.
  cbn [member]. destruct (List.find _ _) as [[j w]|] eqn:E; [|done]. intros [= <-]. apply find_some in E as [Hin E].
  apply String.eqb_eq in E. cbn in E. by subst.
Qed.
Lemma member_canonical k v kvs :
  NoDup kvs.*1 -> member k (VObj kvs) = Some v -> member k (canonical_value (VObj kvs)) = Some (canonical_value v).
Proof.
  intros Hnd Hm. cbn [canonical_value]. apply member_in; [by rewrite sort_pairs_perm, on_snd_keys|].
  by apply in_canonical, in_member.
Qed.
Lemma obj_remove_distinct k kvs : distinct_keys (VObj kvs) = true -> distinct_keys (VObj (obj_remove k kvs)) = true.
Proof.
  cbn [distinct_keys]. intros [Hnd%bool_decide_eq_true Hall]%andb_true_iff. apply andb_true_iff. split.
  - apply bool_decide_eq_true. eapply sublist_NoDup; [exact Hnd|]. unfold obj_remove. clear. induction kvs as [|x kvs IH]; [done|].
    cbn [List.filter]. destruct (negb _); [by apply sublist_skip|by apply sublist_cons].
  - rewrite forallb_forall in *. intros x Hx. by apply filter_In in Hx as [Hx _]; auto.
Qed.
Lemma obj_insert_distinct k v kvs :
  distinct_keys (VObj kvs) = true -> distinct_keys v = true -> distinct_keys (VObj (obj_insert k v kvs)) = true.
Proof.
  intros Hd%(obj_remove_distinct k) Hv. unfold obj_insert. cbn [distinct_keys] in *.
  apply andb_true_iff in Hd as [Hnd%bool_decide_eq_true Hall]. apply andb_true_iff. split.
  - apply bool_decide_eq_true. rewrite fmap_app. apply NoDup_app. split_and!; [done| |by apply NoDup_singleton].
    intros x Hx Hk. cbn in Hk. apply list_elem_of_singleton in Hk as ->. apply list_elem_of_In, in_map_iff in Hx as ([j w] & <- & Hin).
    apply filter_In in Hin as [_ Hf]. cbn in Hf. by rewrite String.eqb_refl in Hf.
  - rewrite forallb_app, Hall. cbn. by rewrite Hv.
Qed.

Lemma bind_task_ok unbound context h bound h1 :
  distinct_keys unbound = true -> bind_authenticated_task unbound context h = (Ok bound, h1) ->
  h1 = h /\ exists kvs id task thread,
    bound = VObj kvs /\ distinct_keys bound = true
    /\ env_nonempty "MULTIAGENT_WORKFLOW_ID" = Some id /\ eval (semantic_envelope id) (files (hw h)) = Ok task
    /\ member_str "threadId" context = Some thread
    /\ member "taskId" bound = Some (VStr thread) /\ member "goal" bound = Some (VStr (trim (env_original_task task))).
Proof.
  intros Hd Hr. unfold bind_authenticated_task in Hr. do 2 (apply obind_ok in Hr as (? & ? & ? & Hr)).
  match goal with He : io (semantic_envelope _) _ = _ |- _ => apply io_reader_ok in He as [He ->]; [|apply reader_envelope] end.
  orun. repeat match goal with Ho : ok_or _ _ = Ok _ |- _ => apply ok_or_ok in Ho | Ho : required_env _ = Ok _ |- _ => unfold required_env in Ho end.
  match goal with Ho : as_object _ = Some _ |- _ => apply as_object_ok in Ho as -> end. subst. split; [done|].
  do 4 eexists. split; [done|]. split; [by repeat first [apply obj_remove_distinct | apply obj_insert_distinct]|].
  split; [eassumption|]. split; [eassumption|]. split; [eassumption|].
  rewrite !obj_remove_spec by done. split; [|apply member_insert_eq]. rewrite member_insert_ne by done. apply member_insert_eq.
Qed.

Lemma bind_template_ok bytes runbook need h template content h1 :
  bind_request_template bytes runbook need h = (Ok (template, content), h1) ->
  exists kvs, from_slice bytes = Some (VObj kvs)
    /\ forall k, k ∉ ["target"; "runbookDocument"; "runbookContentSha256"] -> member k template = member k (VObj kvs).
Proof.
  unfold bind_request_template. intros Hr. orun.
  repeat match goal with Ho : ok_or _ _ = Ok _ |- _ => apply ok_or_ok in Ho | Ho : parse_json _ _ = Ok _ |- _ => apply parse_json_ok in Ho end.
  match goal with Ho : as_object _ = Some ?kvs |- _ => apply as_object_ok in Ho as ->; exists kvs end. split; [done|].
  intros k Hk. injection Hr as <- _. rewrite !member_insert_ne by (intros ->; set_solver).
  case_match; [|done]. by rewrite member_insert_ne by (intros ->; set_solver).
Qed.
End ReadSpec.

Section DirectRead.
Context `{Platform} `{Git} `{JsonCodecLaws} `{!JsonFileLaws} `{JsonPretty} `{OpsEnv} `{Resolver} `{Services}
  `{Materializer} `{!MaterializerQuiet}.
Implicit Types (h : Host).

Lemma bind_direct_ok bytes context h template h1 :
  bind_direct_request bytes context h = (Ok template, h1) ->
  h1 = h /\ exists unbound id task content,
    from_slice bytes = Some unbound /\ is_ok (direct_request_runbook unbound) = true
    /\ env_nonempty "MULTIAGENT_WORKFLOW_ID" = Some id /\ eval (semantic_envelope id) (files (hw h)) = Ok task
    /\ member_str "taskId" template = member_str "threadId" context
    /\ member_str "goal" template = Some (trim (env_original_task task)) /\ runbook_bound h template content.
Proof.
  unfold bind_direct_request. intros Hr. do 3 (apply obind_ok in Hr as (? & ? & ? & Hr)). orun.
  match goal with Hp : parse_json _ _ = Ok _ |- _ => apply parse_json_ok in Hp as Hun end.
  match goal with Hb : bind_authenticated_task _ _ _ = _ |- _ =>
    apply bind_task_ok in Hb as (-> & kvs & id & task & thread & -> & Hd & Hid & Htask & Hth & Ht & Hg);
    [|eapply from_slice_distinct; eassumption] end.
  orun. match goal with Hb : bind_request_template _ _ _ _ = (Ok ?p, _) |- _ => destruct p as [template' c]; cbn [fst] in *; subst;
    apply bind_template_ok in Hb as (kvs' & Hs & Hm) end.
  unfold canonical in Hs. rewrite from_slice_to_vec in Hs by (by apply canonical_value_distinct). assert (VObj kvs' = canonical_value (VObj kvs)) as Hs' by congruence.
  match goal with Hv : verified_runbook_content _ _ = _ |- _ => apply verified_ok in Hv as (_ & Hb) end.
  assert (NoDup kvs.*1) as Hnd. { cbn [distinct_keys] in Hd. bool_hyps. done. }
  split; [done|]. do 4 eexists. split_and!; try eassumption.
  - match goal with Hd : direct_request_runbook _ = Ok _ |- _ => by rewrite Hd end.
  - unfold member_str. rewrite Hm by set_solver. rewrite Hs'. rewrite (member_canonical _ _ _ Hnd Ht).
    unfold member_str in Hth. by rewrite Hth.
  - unfold member_str. rewrite Hm by set_solver. rewrite Hs'. by rewrite (member_canonical _ _ _ Hnd Hg).
Qed.

Lemma direct_sends args h : sends (fun c => asks_capabilities c \/ direct_call h c) (execute_direct_read args) h.
Proof.
  unfold execute_direct_read. do 7 osilent. orun.
  apply sends_bind; [apply sends_quiet, watcher_quiet; unfold bind_direct_request, bind_authenticated_task; pose proof reader_envelope; quiets|].
  intros template h1 (-> & unbound & id & task & content & Hun & Hdoc & Hid & Htask & Hthread & Hgoal & Hb)%bind_direct_ok.
  match goal with Hv : read_direct_request _ _ _ = _ |- _ => eapply read_direct_ok in Hv as (root & Hf); [|exact Hun] end.
  osilent. apply sends_bind; [apply sends_tool; intros url; left; by exists url|]. intros answer h2 Hans. do 6 osilent.
  apply sends_bind; [apply sends_quiet; quiets|]. intros request h9 Hreq%build_request_ok. osilent. orun.
  match goal with Hv : validate_direct_capability _ _ = _ |- _ => apply direct_capability_ok in Hv as [Hharm Hacc] end.
  match goal with Hv : reject_arbitrary_urls _ = Ok ?u |- _ => destruct u; apply reject_urls_sound in Hv as Hurl end.
  repeat match goal with Ho : ok_or _ _ = Ok _ |- _ => apply ok_or_ok in Ho end.
  match goal with Hc : authority_caller _ = Ok _ |- _ => apply rbind_ok in Hc as (t & Ht%ok_or_ok & Hp%ok_or_ok) end.
  apply sends_signed.
  - intros c Hc. right. do 11 eexists. split_and!; try eassumption; try (by rewrite Ht).
    + by eapply requester_role_ok.
    + eauto.
    + do 3 eexists. split_and!; eassumption.
    + intros parameters Hpar. by simplify_eq.
  - intros permit h12 Hp'. apply sends_bind; [apply sends_tool, Hp'|]. intros. apply sends_quiet.
    pose proof materialize_quiet as Hq. quiets.
Qed.

End DirectRead.
