(* ===== verification/OpsPublishProps.v ===== *)
(** * OpsPublishProps: the store of published requests *)

From S2P Require Import Prelude Text State Json LogModel Config Execution Dag Lifecycle Snapshot Findings FindingsFacts Policy OpsBytes OpsRequest OpsHost Ops OpsFacts OpsBytesProps OpsProps OpsReadProps.

(** [m] leaves the file [q] and its attributes as they are, however it stops. *)
Definition untouched (q : string) {A} (m : OIO A) : Prop :=
  forall h, files (hw (m h).2) !! q = files (hw h) !! q /\ attrs (m h).2 q = attrs h q.

Lemma untouched_watcher q {A} (m : OIO A) : watcher m -> untouched q m.
Proof. intros Hm h. by rewrite Hm. Qed.
Lemma untouched_bind q {A B} (m : OIO A) (k : A -> OIO B) :
  untouched q m -> (forall a, untouched q (k a)) -> untouched q (obind m k).
Proof.
  intros Hm Hk h. unfold obind. specialize (Hm h). destruct (m h) as [[a|e] h1]; cbn [snd] in *; [|done].
  destruct (Hk a h1) as [-> ->]. done.
Qed.
Lemma untouched_then q {A B} (m : OIO A) (k : A -> OIO B) h :
  untouched q m ->
  (forall a h1, m h = (Ok a, h1) -> files (hw h1) !! q = files (hw h) !! q ->
     files (hw (k a h1).2) !! q = files (hw h1) !! q /\ attrs (k a h1).2 q = attrs h1 q) ->
  files (hw (obind m k h).2) !! q = files (hw h) !! q /\ attrs (obind m k h).2 q = attrs h q.
Proof.
  intros Hm Hk. unfold obind. specialize (Hm h). destruct (m h) as [[a|e] h1]; cbn [snd] in *; [|done].
  destruct Hm as [Hf Ha]. destruct (Hk a h1 eq_refl Hf) as [-> ->]. done.
Qed.
Lemma untouched_attempt q {A} (m : OIO A) : untouched q m -> untouched q (attempt m).
Proof. intros Hm h. specialize (Hm h). unfold attempt. by destruct (m h). Qed.
Lemma untouched_tick q : untouched q tick.
Proof. done. Qed.
Lemma untouched_put `{Platform} q p t e : p <> q -> untouched q (io (put_file p t e)).
Proof.
  intros Hne h. unfold io, put_file. destruct (faults (hw h)) as [|[] fl]; cbn; (split; [|done]); try done; by rewrite lookup_insert_ne.
Qed.
Lemma untouched_set_attr q p f e : p <> q -> untouched q (set_attr p f e).
Proof.
  intros Hne h. unfold set_attr. destruct (faults (hw h)) as [|[] fl]; cbn; (split; [done|]); try done;
    by destruct (String.eqb_spec q p) as [->|].
Qed.
Lemma untouched_own `{Platform} `{OpsEnv} q p m : p <> q -> untouched q (own p m).
Proof. intros Hne h. cbn. by destruct (String.eqb_spec q p) as [->|]. Qed.
Lemma untouched_remove `{Platform} q p : p <> q -> untouched q (remove_file p).
Proof.
  intros Hne h. unfold remove_file. destruct (faults (hw h)) as [|[] fl], (files (hw h) !! p); cbn; (split; [|done]); try done;
    by rewrite lookup_delete_ne.
Qed.

Create HintDb untouched.
#[export] Hint Resolve untouched_tick untouched_put untouched_set_attr untouched_own untouched_remove : untouched.
Ltac untouch :=
  repeat first
    [ match goal with |- forall _, _ => intros ? end
    | solve [auto with untouched]
    | solve [apply untouched_watcher; quiets]
    | match goal with
      | |- untouched _ (obind _ _) => apply untouched_bind; [|intros ?]
      | |- untouched _ (attempt _) => apply untouched_attempt
      | |- untouched _ (if ?b then _ else _) => destruct b
      | |- untouched _ (match ?o with _ => _ end) => destruct o
      end ].

Lemma value_eqb_refl v : value_eqb v v = true.
Proof.
  induction v as [| [] | n | s | l IH | kvs IH] using Value_nested_ind; cbn [value_eqb]; try done.
  - apply Z.eqb_refl.
  - apply String.eqb_refl.
  - induction IH as [|x l Hx _ IHl]; [done|]. by rewrite Hx.
  - induction IH as [|x l Hx _ IHl]; [done|]. by rewrite String.eqb_refl, Hx.
Qed.

Section Publish.
Context `{Platform} `{Git} `{JsonCodec} `{JsonPretty} `{OpsEnv} `{Resolver}.
Implicit Types (h : Host).

(** No other process changes a temporary file of this one. *)
Class TemporaryPrivate : Prop := temporary_private : forall fs at_ p,
  ends_with ".tmp" p = true -> (between (fs, at_)).1 !! p = fs !! p /\ (between (fs, at_)).2 p = at_ p.

Lemma untouched_make_dir q p c : p +:+ "/" <> q -> p <> q -> untouched q (make_dir_all p c).
Proof. intros. unfold make_dir_all, create_dir_all. untouch. Qed.
Lemma untouched_secure_path q p d : p <> q -> untouched q (secure_publication_path p d).
Proof. intros. unfold secure_publication_path. untouch. Qed.
Lemma untouched_secure_file q p : p <> q -> untouched q (secure_publication_file p).
Proof. intros. unfold secure_publication_file. untouch. Qed.
Lemma untouched_same_artifact q p b d : untouched q d -> untouched q (same_artifact p b d).
Proof. intros. unfold same_artifact. untouch. Qed.

Lemma join_length p q : String.length (path_join p q) = (String.length p + 1 + String.length q)%nat.
Proof. unfold path_join. rewrite !str_length_app. simpl. lia. Qed.
Lemma join_ne p q r : String.length q <> String.length r -> path_join p q <> path_join p r.
Proof. intros Hne E%(f_equal String.length). rewrite !join_length in E. lia. Qed.
Lemma dir_ne p q : p <> path_join p q.
Proof. intros E%(f_equal String.length). rewrite join_length in E. lia. Qed.
Lemma entry_ne p q : q <> "" -> p +:+ "/" <> path_join p q.
Proof.
  intros Hq E%(f_equal String.length). rewrite join_length, str_length_app in E. destruct q; [done|]. simpl in E. lia.
Qed.

Lemma join_same p q r : path_join p q = path_join p r -> q = r.
Proof. unfold path_join. by intros E%str_app_inj_l%str_app_inj_l. Qed.

Lemma set_attr_ok p f e h u h1 : set_attr p f e h = (Ok u, h1) -> files (hw h1) = files (hw h) /\ attrs h1 p = f (attrs h p).
Proof.
  unfold set_attr. destruct (faults (hw h)) as [|[] fl]; [|done|]; intros [= _ <-]; cbn; by rewrite String.eqb_refl.
Qed.
Lemma secure_file_ok p h u h1 :
  secure_publication_file p h = (Ok u, h1) -> owner (attrs h1 p) = SUPERVISOR_UID /\ mode (attrs h1 p) = 288.
Proof.
  unfold secure_publication_file. intros Hr. apply obind_ok in Hr as (a & h0 & Ha & Hr). apply attr_ok in Ha as [-> ->].
  apply obind_ok in Hr as (u1 & h2 & Hown & Hmode). apply set_attr_ok in Hmode as [_ ->]. cbn. split; [|done].
  destruct (Z.eqb_spec (owner (attrs h p)) SUPERVISOR_UID); [by apply oret_ok in Hown as [_ ->]|].
  apply obind_ok in Hown as (u2 & h4 & Hc & Hown). apply ocheck_ok in Hc as [_ ->]. by apply set_attr_ok in Hown as [_ ->].
Qed.

(** C25: a bound request is well-formed. Whatever draft and runbook are bound, the
    template that results passes every check of a request, names the runbook and
    the digest of its exact contents, keeps every other member of the draft, and
    is verified against the runbook on the same files. *)
Theorem bound_request_wellformed bytes document need h template content h' :
  bind_request_template bytes document need h = (Ok (template, content), h') ->
  h' = h /\ validate_request_template template = Ok tt
  /\ member_str "runbookDocument" template = Some document /\ member_str "runbookContentSha256" template = Some content
  /\ verified_runbook_content template h = (Ok content, h)
  /\ exists draft, from_slice bytes = Some draft
       /\ forall k, k ∉ ["target"; "runbookDocument"; "runbookContentSha256"] -> member k template = member k draft.
Proof.
  intros Hr. apply bind_template_ok in Hr as Hb. destruct Hb as (kvs & Hs & Hm).
  pose proof (watcher_ok _ _ _ _ (watcher_bind_template _ _ _) Hr) as ->. split; [done|].
  unfold bind_request_template in Hr. orun. injection Hr as Ht Hc.
  match goal with Hv : validate_request_template _ = Ok ?u |- _ => destruct u; rewrite Ht in Hv end.
  assert (member_str "runbookDocument" template = Some document) as Hdoc.
  { subst template. unfold member_str. rewrite member_insert_ne by done. by rewrite member_insert_eq. }
  assert (member_str "runbookContentSha256" template = Some content) as Hcontent.
  { subst template content. unfold member_str. by rewrite member_insert_eq. }
  split_and!; try done; [|eauto].
  unfold verified_runbook_content, obind. subst template. cbn [as_object ok_or olift]. rewrite Hdoc, Hcontent. cbn [ok_or olift].
  match goal with He : exact_runbook_bytes _ _ = _ |- _ => rewrite He end. rewrite Hc, String.eqb_refl. cbn [ocheck oret].
  match goal with Ht : canonical_runbook_target _ = Ok _ |- _ => rewrite Ht end.
  match goal with |- context [match ?o with Some _ => ocheck _ _ | None => _ end] => destruct o as [target|] end; [|done].
  rewrite !member_insert_ne, member_insert_eq by done. unfold same_value. by rewrite value_eqb_refl.
Qed.

(** The file [p] holds [bytes] and belongs to the supervisor, read-only. *)
Definition published h (p bytes : string) : Prop :=
  files (hw h) !! p = Some bytes /\ owner (attrs h p) = SUPERVISOR_UID /\ Z.land (mode (attrs h p)) 151 = 0.

Lemma same_artifact_ok p bytes d h u h1 : same_artifact p bytes d h = (Ok u, h1) -> h1 = h /\ published h p bytes.
Proof.
  unfold same_artifact. intros Hr. apply obind_ok in Hr as ([b a] & h0 & Hb & Hr).
  apply read_bounded_ok in Hb as (-> & Hf & _ & -> & _). apply obind_ok in Hr as ([] & h2 & Hv & Hr).
  apply olift_ok in Hv as [Hv%guard_ok ->]. cbn [fst snd] in *. destruct (String.eqb_spec b bytes) as [->|].
  - apply oret_ok in Hr as [_ ->]. bool_hyps. split; [done|]. split_and!; [done|by apply Z.eqb_eq|by apply Z.eqb_eq].
  - apply obind_ok in Hr as (? & ? & _ & [=]).
Qed.

Lemma put_ok p t e h u h1 : io (put_file p t e) h = (Ok u, h1) -> files (hw h1) = <[p := t]> (files (hw h)) /\ attrs h1 = attrs h.
Proof. unfold io, put_file. destruct (faults (hw h)) as [|[] fl]; [|done|]; by intros [= _ <-]. Qed.
Lemma link_done from to h h1 :
  hard_link from to h = (Ok LinkDone, h1) -> files (hw h1) !! to = files (hw h) !! from /\ attrs h1 to = attrs h from.
Proof.
  unfold hard_link. destruct (present _ _); [done|].
  destruct (faults (hw h)) as [|[] fl], (files (hw h) !! from) eqn:E; try done; intros [= <-]; cbn;
    by rewrite lookup_insert_eq, String.eqb_refl.
Qed.
Lemma published_untouched p bytes {A} (m : OIO A) h r h1 :
  untouched p m -> m h = (r, h1) -> published h p bytes -> published h1 p bytes.
Proof. intros Hu Hr. specialize (Hu h). rewrite Hr in Hu. destruct Hu as [Hf Ha]. unfold published. cbn in *. by rewrite Hf, Ha. Qed.

Definition request_artifact (st bytes : string) : string := path_join (request_directory st (sha256_hex bytes)) "request.json".

Context `{!TemporaryPrivate}.

Lemma publish_ok st bytes h p h' :
  publish_request_bytes st bytes h = (Ok p, h') ->
  artifact_path p = request_artifact st bytes /\ published_sha256 p = "sha256:" +:+ sha256_hex bytes
  /\ published_bytes p = len bytes /\ 1 <= len bytes <= 65536 /\ published h' (artifact_path p) bytes.
Proof.
  unfold publish_request_bytes. cbv zeta. intros Hr. apply obind_ok in Hr as (? & ? & Hb & Hr). apply ocheck_ok in Hb as [Hb ->].
  do 2 (apply obind_ok in Hr as (? & ? & _ & Hr)). apply obind_ok in Hr as (fs & h3 & Hfs & Hr). apply store_ok in Hfs as [-> ->].
  apply obind_ok in Hr as (? & h4 & Hw & Hr). apply oret_ok in Hr as [<- ->]. cbn [artifact_path published_sha256 published_bytes].
  fold (request_artifact st bytes) in *. bool_hyps. split_and!; try done.
  { destruct bytes; [done|]. unfold len. simpl. lia. } { by apply Z.ltb_ge. }
  destruct (present _ _); [by apply same_artifact_ok in Hw as [-> ?]|].
  apply obind_ok in Hw as (n & h5 & _ & Hw). set (tmp := path_join _ (".request." +:+ _)) in Hw.
  assert (tmp <> request_artifact st bytes) as Hne by (intros E; by apply join_same in E).
  assert (ends_with ".tmp" tmp = true) as Htmp.
  { unfold ends_with, tmp, path_join. rewrite <- !str_app_assoc. by rewrite (proj2 (strip_suffix_some _ _ _) eq_refl). }
  apply obind_ok in Hw as (? & h6 & _ & Hw). apply obind_ok in Hw as (? & h7 & Hsec%secure_file_ok & Hw).
  apply obind_ok in Hw as (? & h8 & [Hput Hattr]%put_ok & Hw). apply obind_ok in Hw as (? & h9 & Hint & Hw).
  apply obind_ok in Hw as (linked & h10 & Hl & Hw). apply obind_ok in Hw as (? & h11 & Hm & Hw).
  assert (published h11 (request_artifact st bytes) bytes) as Hp.
  2: { eapply published_untouched; [|exact Hw|exact Hp]. apply untouched_bind; [by apply untouched_attempt, untouched_remove|untouch]. }
  destruct linked; [|by apply same_artifact_ok in Hm as [-> ?]|by apply obind_ok in Hm as (? & ? & _ & [=])].
  apply oret_ok in Hm as [_ ->]. apply link_done in Hl as [Hlf Hla]. unfold interfere in Hint.
  destruct (temporary_private (files (hw h8)) (attrs h8) tmp Htmp) as [Hbf Hba].
  destruct (between (files (hw h8), attrs h8)) as [fs' at']. injection Hint as _ <-. cbn in Hbf, Hba, Hlf, Hla.
  unfold published. rewrite Hlf, Hla, Hbf, Hba, Hput, Hattr, lookup_insert_eq. destruct Hsec as [-> ->]. done.
Qed.

Lemma publish_keeps st bytes h old :
  files (hw h) !! request_artifact st bytes = Some old ->
  files (hw (publish_request_bytes st bytes h).2) !! request_artifact st bytes = files (hw h) !! request_artifact st bytes
  /\ attrs (publish_request_bytes st bytes h).2 (request_artifact st bytes) = attrs h (request_artifact st bytes).
Proof.
  intros Hold. set (q := request_artifact st bytes) in *. set (dir := request_directory st (sha256_hex bytes)).
  assert (dir <> q) as Hd by apply dir_ne. assert (dir +:+ "/" <> q) as He by (by apply entry_ne).
  unfold publish_request_bytes. cbv zeta. fold dir. change (path_join dir "request.json") with q.
  apply untouched_then; [apply untouched_watcher; quiets|]. intros ? h1 _ E1.
  apply untouched_then; [by apply untouched_make_dir|]. intros ? h2 _ E2.
  apply untouched_then; [by apply untouched_secure_path|]. intros ? h3 _ E3.
  apply untouched_then; [apply untouched_watcher; quiets|]. intros fs h4 Hfs%store_ok _. destruct Hfs as [-> ->].
  assert (present (files (hw h3)) q = true) as ->.
  { unfold present. by rewrite E3, E2, E1, Hold. }
  apply untouched_bind; [by apply untouched_same_artifact, untouched_watcher, watcher_ret|].
  intros ?. apply untouched_watcher. quiets.
Qed.

(** The store of requests is addressed by content and never rewritten. A
    publication that succeeds leaves the exact bytes under their digest, owned by
    the supervisor and read-only, also when another process publishes the same
    request in between; and an artifact that is there already keeps its contents,
    its owner and its mode whatever happens. *)
Theorem publication_sealed st bytes h r h' :
  publish_request_bytes st bytes h = (r, h') ->
  (forall p, r = Ok p ->
     artifact_path p = request_artifact st bytes /\ published_sha256 p = "sha256:" +:+ sha256_hex bytes
     /\ published_bytes p = len bytes /\ 1 <= len bytes <= 65536
     /\ published h' (artifact_path p) bytes)
  /\ (forall old, files (hw h) !! request_artifact st bytes = Some old ->
       files (hw h') !! request_artifact st bytes = Some old
       /\ attrs h' (request_artifact st bytes) = attrs h (request_artifact st bytes)).
Proof.
  intros Hr. split.
  - intros p ->. by apply publish_ok in Hr.
  - intros old Hold. pose proof (publish_keeps st bytes h old Hold) as [Hf Ha]. rewrite Hr in Hf, Ha. cbn in *. by rewrite Hf.
Qed.
End Publish.
