(* ===== verification/OpsWitness.v ===== *)
(** * OpsWitness: a concrete host on which the operations run *)

From S2P Require Import Prelude Text State Json LogModel Instances Config Execution Dag Lifecycle Snapshot Findings Policy OpsBytes OpsRequest OpsHost Ops OpsFacts OpsBytesProps OpsProps OpsReadProps OpsPublishProps.

Module OpsWitness.

Definition vars (k : string) : option string :=
  snd <$> List.find (fun kv => String.eqb kv.1 k)
    [("MULTIAGENT_STATE_DIR", "/state"); ("MULTIAGENT_FRAMEWORK_ROOT", "/framework"); ("MULTIAGENT_LOG_DIR", "/logs");
     ("MULTIAGENT_WORKFLOW_ID", "w1"); ("MULTIAGENT_THREAD_ID", "thread1"); ("MULTIAGENT_SESSION", "session1");
     ("MULTIAGENT_LEASE_GENERATION", "3"); ("MULTIAGENT_AUTHORIZING_EVENT_ID", "event1");
     ("MULTIAGENT_KMS_KEY_KID", "kid"); ("MULTIAGENT_KMS_KEY_ID", "key"); ("PROD_MCP_URL", "https://ops.example/mcp");
     ("PROD_MCP_BEARER_TOKEN", "token"); ("MULTIAGENT_AUTHORITY_CALLER_UID", "10005"); ("CODEX_BIN", "/bin/codex")].
#[local] Instance platform : Platform := toy_platform vars SUPERVISOR_UID.
#[local] Instance no_git : Git := fun _ _ => Ok (mkOutput (Some 0) "" "").
#[local] Instance resolver : Resolver := fun _ p => if is_absolute p then Some p else None.
#[local] Instance env : OpsEnv := {|
  utc_now n := Z.of_nat n; system_nanos n := Some (Z.of_nat n * 1000000); rfc3339_millis := u64_to_string;
  parse_from_rfc3339 := parse_u64; process_id := 7; umask := 18; between store := store
|}.

(** ** The files *)

Definition runbook_text : string :=
  unlines ["# Runbook"; "- Set `target` to `" +:+ to_vec (VObj [("cluster", VStr "c"); ("environment", VStr "staging");
             ("namespace", VStr "n"); ("service", VStr "s")]) +:+ "`."].
Definition operation : Value := VObj [("id", VStr "cache.flush"); ("version", VStr "1.0.0")].
Definition runbook : Value := VObj [("id", VStr "cache"); ("phase", VStr "apply"); ("version", VStr "1.0.0")].
Definition template : Value :=
  VObj [("goal", VStr "flush the cache"); ("operation", operation); ("parameters", VObj [("zone", VStr "a")]);
        ("runbook", runbook); ("runbookContentSha256", VStr (digest runbook_text));
        ("runbookDocument", VStr "runbooks/cache.md");
        ("target", VObj [("cluster", VStr "c"); ("environment", VStr "staging"); ("namespace", VStr "n"); ("service", VStr "s")]);
        ("taskId", VStr "task1")].
Definition binding : Value :=
  match review_binding_value template (digest runbook_text) with Ok v => canonical_value v | Err _ => VNull end.
Definition message : string := unlines ["The plan holds."; "**Verdict: ACCEPTED**"].
Definition evidence_env : string :=
  unlines ["role=reviewer"; "access=read-only"; "state=completed"; "workflow_id=w1"; "completed_at=0";
           "output_sha256=" +:+ sha256_hex message; "binding_sha256=" +:+ sha256_hex (to_vec binding)].
Definition files0 : gmap string string :=
  list_to_map
    [("/state/request.json", to_vec template); ("/framework/runbooks/cache.md", runbook_text);
     ("/state/reviewer-evidence/rev/evidence.env", evidence_env); ("/state/reviewer-evidence/rev/last-message.txt", message);
     ("/state/reviewer-evidence/rev/review-binding.json", to_vec binding);
     ("/state/workflows/w1/lifecycle/lifecycle.env",
      unlines ["original_task=/state/task.txt"; "original_task_sha256=" +:+ sha256_hex "flush the cache"]);
     ("/state/task.txt", "flush the cache");
     ("/logs/agents/ops/read.json",
      to_vec (VObj [("operation", operation); ("parameters", VObj [("zone", VStr "a")]); ("runbook", runbook);
                    ("runbookDocument", VStr "runbooks/cache.md")]))].
Definition h0 : Host :=
  mkHost (mkWorld files0 [] 5 [])
    (fun p => mkAttr (if starts_with "/logs" p then OPS_UID else SUPERVISOR_UID) 288 false) [].

(** ** The services *)

Definition signature : string := base64_encode (der_signature "r" "s") false.
Definition capability : Value :=
  VObj [("id", VStr "cache.flush"); ("version", VStr "1.0.0"); ("access", VStr "read"); ("mutation", VBool false);
        ("requiredApprovalRoles", VArr []); ("allowedRunbooks", VArr [VStr "cache@1.0.0"])].
Definition receipt : Value :=
  VObj [("result", VObj [("structuredContent", VObj [("state", VStr "succeeded"); ("operations", VArr [capability])])])].
#[local] Instance services : Services := {|
  kms_sign _ _ _ := Ok (mkOutput (Some 0) (to_vec (VObj [("Signature", VStr signature)])) "");
  curl _ _ _ _ := Ok (mkOutput (Some 0) (to_vec receipt) "")
|}.
#[local] Instance materializer : Materializer := fun _ _ _ _ _ => ofail "not used".

Definition args : list string := ["--reviewer"; "rev"; "--request-file"; "/state/request.json"].

(** The reviewed operation of the host is signed, sent and recorded. *)
Example reviewed_run :
  let '(r, h) := execute args h0 in
  is_ok r = true /\ length (calls h) = 2%nat
  /\ is_some (files (hw h) !! "/state/operations/ops-6-7/receipt.json") = true.
Proof. vm_compute. done. Qed.
Lemma execute_authorised_witness :
  exists new, length new = 2%nat
    /\ Forall (fun c => asks_capabilities c
         \/ exists uid, (env_var "MULTIAGENT_AUTHORITY_CALLER_UID" ≫= parse_u32) = Some uid
              /\ ((uid ∈ [0; OPS_UID] /\ reviewed_call h0 c) \/ (uid ∈ [0; REVIEWER_UID] /\ observer_call h0 c))) new.
Proof.
  assert (length (calls (execute args h0).2) = 2%nat) as Hlen by (vm_compute; reflexivity).
  destruct (execute args h0) as [r h'] eqn:E. cbn [snd] in Hlen.
  destruct (execute_authorised args h0 r h' E) as (new & Hc & HF). exists new. split; [|exact HF]. rewrite Hc in Hlen. exact Hlen.
Defined.

(** The direct read of the ops role asks for the capabilities and sends its permit. *)
#[local] Instance materializer_quiet : MaterializerQuiet.
Proof. intros ? ? ? ? ? ?. reflexivity. Qed.
Definition read_args : list string := ["--request-file"; "/logs/agents/ops/read.json"].

#[local] Instance private : TemporaryPrivate.
Proof. intros fs at_ p _. done. Qed.
Lemma publication_sealed_witness :
  exists h', published h' (request_artifact "/state" "{}") "{}".
Proof.
  assert (is_ok (publish_request_bytes "/state" "{}" h0).1 = true) as Hok by (vm_compute; reflexivity).
  destruct (publish_request_bytes "/state" "{}" h0) as [[p|e] h'] eqn:E; [|discriminate Hok].
  destruct (publication_sealed "/state" "{}" h0 (Ok p) h' E) as [Hp _]. exists h'.
  destruct (Hp p eq_refl) as (Ha & _ & _ & _ & Hpub). rewrite Ha in Hpub. exact Hpub.
Defined.
Definition draft : Value :=
  VObj [("taskId", VStr "task1"); ("goal", VStr "flush the cache"); ("operation", operation);
        ("parameters", VObj []); ("runbook", runbook)].
Lemma bound_request_wellformed_witness :
  exists t content, validate_request_template t = Ok tt /\ verified_runbook_content t h0 = (Ok content, h0).
Proof.
  assert (is_ok (bind_request_template (to_vec draft) "runbooks/cache.md" true h0).1 = true) as Hok by (vm_compute; reflexivity).
  destruct (bind_request_template (to_vec draft) "runbooks/cache.md" true h0) as [[[t content]|e] h'] eqn:E; [|discriminate Hok].
  destruct (bound_request_wellformed (to_vec draft) "runbooks/cache.md" true h0 t content h' E) as (_ & Hv & _ & _ & Hver & _).
  exists t, content. split; assumption.
Defined.

(** The signing input is removed after the key service has answered, but not
    when the identifier of the key is missing: the private file stays. *)
Definition no_key (k : string) : option string := if String.eqb k "MULTIAGENT_KMS_KEY_ID" then None else vars k.
Example signing_input_left :
  let '(r, h) := @sign_permit (toy_platform no_key SUPERVISOR_UID) _ _ _ "payload" h0 in
  r = Err "MULTIAGENT_KMS_KEY_ID is required"
  /\ files (hw h) !! "/state/tmp/kms-sign-7-5000000.bin" = Some (signing_input "kid" "payload").
Proof. vm_compute. done. Qed.

(** Bytes behind the two integers of a signature are accepted. *)
Example der_trailing_bytes :
  ecdsa_der_to_raw (String (chr 48) (String (chr 8) (String.substring 2 6 (der_signature "r" "s") +:+ "xx")))
  = ecdsa_der_to_raw (der_signature "r" "s").
Proof. vm_compute. done. Qed.

End OpsWitness.
