(* ===== verification/Launch.v ===== *)
(** * Launch: [runtime/src/supervisor.rs], the authorisations to start a role

    A launch is registered, claimed once, finished and possibly renewed; what a
    reviewer or scout wrote is sealed as evidence when its process has ended. The
    group of a file is not modelled, its owner and mode are. *)

From S2P Require Import Prelude Text State Json LogModel Config Execution Dag Lifecycle Snapshot Findings Policy OpsBytes OpsRequest OpsHost Ops.

(** ** Names and options *)

Definition valid_name (name : string) : bool :=
  negb (is_empty name) && negb (starts_with "-" name) && negb (String.eqb name "orchestrator")
  && all_chars (fun c => is_ascii_alphanumeric c || has_char c "_.-") name.

Definition LAUNCH_FLAGS : list string :=
  ["--role"; "--access"; "--cli"; "--cli-bin"; "--instruction-file"; "--decision-id"; "--plan-id"; "--plan-sha256"].
Fixpoint parse_pairs (values : gmap string string) (args : list string) : result string (gmap string string) :=
  match args with
  | flag :: value :: rest =>
      if negb (mem flag LAUNCH_FLAGS) || has_any [nl; cr] value then Err ("invalid register-launch option: " +:+ flag)
      else parse_pairs (<[flag := value]> values) rest
  | _ => Ok values
  end.
Definition parse_options (args : list string) : result string (gmap string string) :=
  let? _ := guard (Nat.even (length args)) "register-launch options require flag/value pairs" in
  parse_pairs ∅ args.

Definition nonempty_entry (values : gmap string string) (name error : string) : result string string :=
  match values !! name with
  | Some value => if is_empty value then Err error else Ok value
  | None => Err error
  end.
Definition required_option (values : gmap string string) (name : string) : result string string :=
  nonempty_entry values name ("register-launch requires " +:+ name).
Definition required_field (values : gmap string string) (name : string) : result string string :=
  nonempty_entry values name ("launch authorization is missing " +:+ name).

Definition LAUNCH_ROLES : list string := ["worker"; "reader"; "verifier"; "reviewer"; "scout"; "ops"].

Definition launch_access (role : string) (requested : option string) : result string string :=
  let access := unwrap_or requested (if String.eqb role "worker" then "workspace-write" else "read-only") in
  let? _ := guard (String.eqb access "read-only" || String.eqb access "workspace-write")
              "register-launch access must be read-only or workspace-write" in
  let? _ := guard (negb (String.eqb access "workspace-write" && negb (String.eqb role "worker")))
              "workspace-write access is reserved for implementation workers" in
  let? _ := guard (negb (String.eqb role "reader" && negb (String.eqb access "read-only")))
              "reader launches require read-only access" in
  Ok access.

Definition binary_variable (cli : string) : string :=
  if String.eqb cli "codex" then "CODEX_BIN" else if String.eqb cli "claude" then "CLAUDE_BIN" else "QWEN_BIN".

Record LaunchAuthorization := mkLaunch {
  launch_role : string; launch_access_ : string; launch_workflow_id : string; launch_cli : string;
  launch_cli_bin : string; launch_instruction : string; launch_owned_paths : list string
}.
Record PlanAlignmentBinding := mkBinding {
  binding_content : string; binding_sha256 : string; binding_plan_sha256 : string; binding_task_sha256 : string
}.

(** The parent of a path, by its last slash. *)
Fixpoint parent_of (p : string) : option string :=
  match p with
  | EmptyString => None
  | String c p' =>
      match parent_of p' with
      | Some q => Some (String c q)
      | None => if Ascii.eqb c "/" then Some "" else None
      end
  end.

(** The bytes appended to the instruction of a plan-alignment reviewer. *)
Definition binding_notice (b : PlanAlignmentBinding) : string :=
  let marker outcome := "plan-alignment-review: plan-sha256=" +:+ binding_plan_sha256 b
                        +:+ " original-task-sha256=" +:+ binding_task_sha256 b +:+ " alignment=" +:+ outcome in
  newline +:+ newline +:+ "## Supervisor-Generated Plan Alignment Binding" +:+ newline +:+ newline
  +:+ "This binding identifies the exact original task and sealed plan under review. It prevents input substitution but does not define user intent or grant authority."
  +:+ newline +:+ newline
  +:+ "alignment-binding-sha256=" +:+ binding_sha256 b +:+ newline +:+ binding_content b +:+ newline
  +:+ "Aligned marker: " +:+ marker "aligned" +:+ newline
  +:+ "Misaligned marker: " +:+ marker "misaligned" +:+ newline.

(** A value of [launch.env] or of a flag. *)
Definition from_binding (b : option PlanAlignmentBinding) (f : PlanAlignmentBinding -> string) : string :=
  match b with Some b => f b | None => "" end.

Section Launch.
Context `{Platform} `{Git} `{JsonCodec} `{JsonPretty} `{OpsEnv} `{Resolver}.

(** ** The binding of a plan-alignment review ([runtime/src/workflow.rs]) *)

Definition sealed_iteration_plan_sha256 (workflow_id : string) : IO string :=
  let! p := lift (paths workflow_id) in
  let! st := read_state (state p) workflow_id in
  let! _ := check (String.eqb (state_value st "phase") "pre-implementation")
              "plan-alignment review requires phase=pre-implementation" in
  let digest_ := state_value st "iteration_plan_sha256" in
  let! _ := check ((len digest_ =? 64) && all_chars is_ascii_hexdigit digest_)
              "plan-alignment review requires a sealed iteration plan" in
  ret digest_.

Definition plan_alignment_binding (workflow_id plan_sha256 : string) : IO PlanAlignmentBinding :=
  let! sealed := sealed_iteration_plan_sha256 workflow_id in
  let! _ := check (String.eqb sealed plan_sha256) "plan-alignment digest does not match the sealed iteration plan" in
  let! envelope := semantic_envelope workflow_id in
  let content := canonical (VObj
    [("apiVersion", VStr "multiagent.moveindustries.io/v1"); ("kind", VStr "PlanAlignmentBinding");
     ("workflowId", VStr workflow_id); ("originalTaskSha256", VStr (env_original_task_sha256 envelope));
     ("iterationPlanSha256", VStr plan_sha256)]) +:+ newline in
  ret (mkBinding content (sha256_hex content) plan_sha256 (env_original_task_sha256 envelope)).

(** ** Files of the supervisor *)

(** A temporary file renamed over [path]: a new file of the process, whose mode
    is then set, and its owner when the process is root. *)
Definition atomic_write_bytes (path bytes : string) : OIO unit :=
  let^ parent := olift (ok_or (parent_of path) ("path has no parent: " +:+ path)) in
  let^ _ := make_dir_all parent ("create authority directory " +:+ parent) in
  let^ _ := io (put_file path bytes (io_error "publish authority file")) in
  let^ _ := own path 438 in
  let^ _ := set_attr path (chmod 416) (io_error ("set permissions " +:+ path)) in
  if geteuid =? 0 then set_attr path (chown SUPERVISOR_UID) (io_error ("chown " +:+ path)) else oret tt.

Definition launch_directory (st name : string) : string := path_join (path_join st "launch-authorizations") name.

Definition text_line (key value : string) : string := key +:+ "=" +:+ value +:+ newline.

Fixpoint required_lines (metadata : gmap string string) (keys : list string) : result string string :=
  match keys with
  | [] => Ok ""
  | key :: rest =>
      let? value := required_field metadata key in
      let? tail_ := required_lines metadata rest in
      Ok (text_line key value +:+ tail_)
  end.
Definition write_launch_state (directory : string) (metadata : gmap string string) (new_state : string) : OIO unit :=
  let^ identity := olift (required_lines metadata ["name"; "role"; "access"; "cli"; "cli_bin"; "instruction_sha256"]) in
  atomic_write_bytes (path_join directory "launch.env")
    (identity +:+ text_line "workflow_id" (state_value metadata "workflow_id")
     +:+ concat_all (map (fun key => text_line key (state_value metadata key))
                       ["iteration_plan_sha256"; "original_task_sha256"; "alignment_binding_sha256"])
     +:+ text_line "state" new_state).

Fixpoint authorized_paths (fs : gmap string string) (root_ : string) (ls : list string) : result string (list string) :=
  match ls with
  | [] => Ok []
  | relative :: rest =>
      let candidate := if is_absolute relative then relative else path_join root_ relative in
      let? canonical_path := ok_or (resolve fs candidate) ("secure writer owned path must already exist: " +:+ candidate) in
      let? _ := guard (negb (same_path canonical_path root_) && inside canonical_path root_)
                  ("authorized path escaped the workspace: " +:+ relative) in
      let? others := authorized_paths fs root_ rest in
      Ok (canonical_path :: others)
  end.
Definition read_owned_paths (st name : string) : OIO (list string) :=
  let^ named := olift root in
  let^ root_ := canonicalize_path named "resolve authority workspace" in
  let^ fs := store in
  match fs !! path_join (path_join (path_join st "assignments") name) "owned-paths" with
  | None => oret []
  | Some text => olift (authorized_paths fs root_ (List.filter (fun line => negb (is_empty line)) (lines text)))
  end.

(** ** Registration *)

Definition ENDED : list string := ["done"; "failed"; "released"; "cancelled"].

(** The writer's part of the checks: an active assignment and the authority of
    the session for exactly its paths. *)
Definition writer_paths (st name access : string) : OIO (list string) :=
  if negb (String.eqb access "workspace-write") then oret []
  else
    let assignment := path_join (path_join st "assignments") name in
    let^ fs := store in
    let^ _ := ocheck (is_some (fs !! path_join assignment "assignment.env"))
                ("workspace writer requires a supervisor-owned assignment: " +:+ name) in
    let^ status := io (read_or (path_join assignment "status") "") in
    let^ _ := ocheck (negb (mem (trim status) ENDED)) ("assignment is not active: " +:+ name) in
    let^ owned := read_owned_paths st name in
    let^ named := olift root in
    let^ root_ := canonicalize_path named "canonicalize repository for writer grant" in
    let^ authority := io configured in
    let^ _ := ocheck (permits_workspace_write authority root_ owned)
                ("session authority " +:+ scope authority +:+ " does not grant the writer's exact owned paths") in
    oret owned.

Definition entry_is (m : gmap string string) (key value : string) : bool := bool_decide (m !! key = Some value).

(** An existing authorisation may only be renewed when it is completed, for the
    same identity. *)
Definition check_renewal (renew plan_alignment : bool) (directory name role access cli cli_bin : string)
    (binding : option PlanAlignmentBinding) : OIO unit :=
  let^ fs := store in
  if present fs directory then
    let^ _ := ocheck renew ("launch authorization already exists: " +:+ name) in
    let^ current := io (read_env (path_join directory "launch.env")) in
    let^ _ := ocheck (entry_is current "state" "completed") ("launch authorization is not renewable: " +:+ name) in
    let^ _ := ocheck (entry_is current "role" role && entry_is current "access" access && entry_is current "cli" cli
                      && entry_is current "cli_bin" cli_bin)
                ("renewed launch cannot change role or coding-agent identity: " +:+ name) in
    ocheck (negb (plan_alignment
                  && negb (bool_decide (current !! "alignment_binding_sha256" = binding_sha256 <$> binding))))
      "renewed plan-alignment launch changed the sealed binding"
  else ocheck (negb renew) ("launch authorization does not exist: " +:+ name).

Definition same_file (fs : gmap string string) (p q : string) : bool :=
  match resolve fs p, resolve fs q with
  | Some a, Some b => same_path a b
  | None, None => true
  | _, _ => false
  end.

Definition alignment_binding_of (o : gmap string string) (plan_alignment : bool) (workflow_id plan_sha256 : string) :
    OIO (option PlanAlignmentBinding) :=
  if plan_alignment then
    let^ _ := ocheck (negb (is_empty workflow_id || is_empty plan_sha256))
                "plan-alignment launch requires workflow and sealed-plan metadata" in
    let^ binding := io (plan_alignment_binding workflow_id plan_sha256) in
    oret (Some binding)
  else
    let^ _ := ocheck (negb (is_some (o !! "--plan-sha256")))
                "sealed-plan metadata is reserved for the plan-alignment reviewer" in
    oret None.

Definition launch_text (name role access workflow_id cli cli_bin instruction plan_sha256 : string)
    (binding : option PlanAlignmentBinding) : string :=
  unlines ["name=" +:+ name; "role=" +:+ role; "access=" +:+ access; "workflow_id=" +:+ workflow_id; "cli=" +:+ cli;
           "cli_bin=" +:+ cli_bin; "instruction_sha256=" +:+ sha256_hex instruction;
           "iteration_plan_sha256=" +:+ plan_sha256;
           "original_task_sha256=" +:+ from_binding binding binding_task_sha256;
           "alignment_binding_sha256=" +:+ from_binding binding binding_sha256; "state=registered"].

Definition register_launch (args : list string) (renew : bool) : OIO unit :=
  let^ name := olift (match args with
                      | name :: _ => if valid_name name then Ok name else Err "register-launch requires a valid NAME"
                      | [] => Err "register-launch requires a valid NAME"
                      end) in
  let^ o := olift (parse_options (tail args)) in
  let^ role := olift (required_option o "--role") in
  let^ cli := olift (required_option o "--cli") in
  let^ cli_bin := olift (required_option o "--cli-bin") in
  let^ instruction_source := olift (required_option o "--instruction-file") in
  let^ _ := ocheck (mem role LAUNCH_ROLES)
              "register-launch role must be worker, reader, verifier, reviewer, scout, or ops" in
  let^ _ := ocheck (mem cli ["codex"; "claude"; "qwen"]) "register-launch backend must be codex, claude, or qwen" in
  let^ expected_binary := olift (ok_or (env_var (binary_variable cli))
                                   ("authority supervisor has no configured " +:+ cli +:+ " binary")) in
  let^ _ := ocheck (String.eqb cli_bin expected_binary) "register-launch binary does not match the launch manifest" in
  let^ st := olift state_dir in
  let workflow_id := unwrap_or (env_var "MULTIAGENT_WORKFLOW_ID") "" in
  let directory := launch_directory st name in
  let plan_alignment := String.eqb role "reviewer" && contains "plan-alignment-reviewer" name in
  let^ fs := store in
  let^ prior := (if renew && is_some (fs !! path_join directory "launch.env")
                 then io (read_env (path_join directory "launch.env")) else oret ∅) in
  let plan_sha256 := match o !! "--plan-sha256" with
                     | Some value => value
                     | None => state_value prior "iteration_plan_sha256"
                     end in
  let^ binding := alignment_binding_of o plan_alignment workflow_id plan_sha256 in
  let expected_instruction := path_join (path_join (path_join st "subagents") name)
                                (if renew then "restore-instruction.txt" else "instruction.txt") in
  let^ _ := ocheck (same_file fs instruction_source expected_instruction && is_some (fs !! instruction_source))
              ("register-launch instruction must be the persisted subagent instruction: " +:+ expected_instruction) in
  let^ access := olift (launch_access role (o !! "--access")) in
  let^ owned := writer_paths st name access in
  let^ _ := check_renewal renew plan_alignment directory name role access cli cli_bin binding in
  let^ _ := make_dir_all directory "create launch authorization" in
  let^ fs := store in
  let^ source := olift (ok_or (fs !! instruction_source) (io_error "read registered instruction")) in
  let instruction := source +:+ from_binding binding binding_notice in
  let^ _ := (match binding with
             | Some b => atomic_write_bytes (path_join directory "plan-alignment-binding.json") (binding_content b)
             | None => oret tt
             end) in
  let^ _ := atomic_write_bytes (path_join directory "instruction.txt") instruction in
  let^ _ := atomic_write_bytes (path_join directory "launch.env")
              (launch_text name role access workflow_id cli cli_bin instruction plan_sha256 binding) in
  let^ _ := (if bool_decide (owned = []) then oret tt
             else atomic_write_bytes (path_join directory "owned-paths") (unlines owned)) in
  print_line ("launch authorized" +:+ tabs +:+ name +:+ tabs +:+ role +:+ tabs +:+ access).

(** ** Claim and end *)

Definition NOT_REGISTERED (name : string) : string := "launch authorization is missing or already consumed: " +:+ name.

Definition claim_launch (st name : string) : OIO LaunchAuthorization :=
  let directory := launch_directory st name in
  let^ metadata := io (read_env (path_join directory "launch.env")) in
  let^ _ := ocheck (entry_is metadata "name" name && entry_is metadata "state" "registered") (NOT_REGISTERED name) in
  let instruction := path_join directory "instruction.txt" in
  let^ fs := store in
  let^ bytes := olift (ok_or (fs !! instruction) (io_error "read authorized instruction")) in
  let^ _ := ocheck (entry_is metadata "instruction_sha256" (sha256_hex bytes))
              ("authorized instruction hash changed: " +:+ name) in
  let^ owned := read_owned_paths st name in
  let^ role := olift (required_field metadata "role") in
  let^ access := olift (required_field metadata "access") in
  let^ cli := olift (required_field metadata "cli") in
  let^ cli_bin := olift (required_field metadata "cli_bin") in
  let^ _ := write_launch_state directory metadata "running" in
  oret (mkLaunch role access (state_value metadata "workflow_id") cli cli_bin instruction owned).

Definition launch_requires_writer (st name : string) : OIO bool :=
  let^ metadata := io (read_env (path_join (launch_directory st name) "launch.env")) in
  let^ _ := ocheck (entry_is metadata "name" name && entry_is metadata "state" "registered") (NOT_REGISTERED name) in
  oret (entry_is metadata "role" "worker" && entry_is metadata "access" "workspace-write").

Definition finish_launch (st name : string) : OIO unit :=
  let directory := launch_directory st name in
  let^ metadata := io (read_env (path_join directory "launch.env")) in
  let^ _ := ocheck (entry_is metadata "state" "running") ("launch authorization is not running: " +:+ name) in
  write_launch_state directory metadata "completed".

(** ** Sealing *)

Definition change_owner (path : string) (uid : Z) : OIO unit :=
  let^ _ := ocheck (negb (has_char (chr 0) path)) ("path contains NUL: " +:+ path) in
  set_attr path (chown uid) (io_error ("chown " +:+ path)).

Definition prepare_private_output (st name : string) (uid : Z) : OIO string :=
  let directory := path_join (path_join st "role-io") name in
  let^ _ := make_dir_all directory "create private role output directory" in
  let^ _ := change_owner directory uid in
  let^ _ := set_attr directory (chmod 1512) (io_error "protect private role output directory") in
  let output := path_join directory ("final-message." +:+ u64_to_string process_id +:+ ".txt") in
  let^ _ := write_file output "" (io_error "create private role output") in
  let^ _ := change_owner output uid in
  let^ _ := set_attr output (chmod 416) (io_error "protect private role output") in
  oret output.

(** The binding a reviewer left in its trace directory. *)
Definition seal_review_binding (directory trace_dir : string) : OIO string :=
  let path := path_join trace_dir "review-binding.json" in
  let^ fs := store in
  if negb (present fs path) then oret ""
  else
    let^ a := attr path in
    match fs !! path with
    | Some binding =>
        let^ _ := ocheck (negb (is_link a) && (owner a =? REVIEWER_UID) && (Z.land (mode a) 63 =? 0))
                    "ops review binding must be a private reviewer-owned regular file" in
        let^ _ := atomic_write_bytes (path_join directory "review-binding.json") binding in
        oret (text_line "binding_sha256" (sha256_hex binding))
    | None => ofail "ops review binding must be a private reviewer-owned regular file"
    end.

Definition seal_alignment_binding (st directory name : string) : OIO string :=
  let launched := launch_directory st name in
  let^ launch := io (read_env (path_join launched "launch.env")) in
  let binding_hash := state_value launch "alignment_binding_sha256" in
  if is_empty binding_hash then oret ""
  else
    let^ fs := store in
    let^ binding := olift (ok_or (fs !! path_join launched "plan-alignment-binding.json")
                             (io_error "read supervisor plan-alignment binding")) in
    let^ _ := ocheck (String.eqb (sha256_hex binding) binding_hash)
                "supervisor plan-alignment binding changed before evidence sealing" in
    let^ _ := atomic_write_bytes (path_join directory "plan-alignment-binding.json") binding in
    oret (text_line "iteration_plan_sha256" (state_value launch "iteration_plan_sha256")
          +:+ text_line "original_task_sha256" (state_value launch "original_task_sha256")
          +:+ text_line "alignment_binding_sha256" binding_hash).

Definition evidence_directory (st role name : string) : string :=
  path_join (path_join st (if String.eqb role "reviewer" then "reviewer-evidence" else "contract-evidence")) name.

Definition evidence_text (name role workflow_id completed_at bytes binding_metadata alignment_metadata : string) : string :=
  unlines ["name=" +:+ name; "role=" +:+ role; "access=read-only"; "workflow_id=" +:+ workflow_id; "state=completed";
           "completed_at=" +:+ completed_at; "output_sha256=" +:+ sha256_hex bytes]
  +:+ binding_metadata +:+ alignment_metadata.

Definition seal_role_output (st name role workflow_id private_output public_output trace_dir : string) : OIO unit :=
  let^ fs := store in
  let^ bytes := olift (ok_or (fs !! private_output) (io_error "read private role output")) in
  let^ _ := atomic_write_bytes public_output bytes in
  let^ _ := change_owner public_output ORCHESTRATOR_UID in
  let^ _ := set_attr public_output (chmod 432) (io_error "set public role output permissions") in
  if negb (String.eqb role "reviewer" || String.eqb role "scout") then oret tt
  else
    let directory := evidence_directory st role name in
    let^ _ := make_dir_all directory "create reviewer evidence directory" in
    let^ _ := change_owner directory SUPERVISOR_UID in
    let^ _ := set_attr directory (chmod 1512) (io_error "protect reviewer evidence directory") in
    let^ _ := atomic_write_bytes (path_join directory "last-message.txt") bytes in
    let^ now_ := now in
    let completed_at := rfc3339_millis now_ in
    let^ metadata := (if String.eqb role "reviewer" then
                        let^ binding_metadata := seal_review_binding directory trace_dir in
                        let^ alignment_metadata := seal_alignment_binding st directory name in
                        oret (binding_metadata, alignment_metadata)
                      else oret ("", "")) in
    atomic_write_bytes (path_join directory "evidence.env")
      (evidence_text name role workflow_id completed_at bytes metadata.1 metadata.2).

End Launch.
