(* ===== verification/LaunchProps.v ===== *)
(** * LaunchProps: the life of a launch authorisation *)

From S2P Require Import Prelude Text State Json LogModel Config Execution Dag Lifecycle Snapshot Findings FindingsFacts Policy LeasesProps CompletionFacts LifecycleGates OpsBytes OpsRequest OpsHost Ops OpsFacts OpsBytesProps OpsProps OpsReadProps Launch.

(** ** Files that stay *)

(** [m] leaves the contents of [q], however it stops. *)
Definition kept (q : string) {A} (m : OIO A) : Prop := forall h, files (hw (m h).2) !! q = files (hw h) !! q.

Lemma kept_watcher q {A} (m : OIO A) : watcher m -> kept q m.
Proof. intros Hm h. by rewrite Hm. Qed.
Lemma kept_bind q {A B} (m : OIO A) (k : A -> OIO B) : kept q m -> (forall a, kept q (k a)) -> kept q (obind m k).
Proof.
  intros Hm Hk h. unfold obind. specialize (Hm h). destruct (m h) as [[a|e] h1]; cbn [snd] in *; [|done]. by rewrite Hk.
Qed.
Lemma kept_put `{Platform} q p t e : p <> q -> kept q (io (put_file p t e)).
Proof. intros Hne h. unfold io, put_file. destruct (faults (hw h)) as [|[] fl]; cbn; try done; by rewrite lookup_insert_ne. Qed.
Lemma kept_set_attr q p f e : kept q (set_attr p f e).
Proof. intros h. unfold set_attr. by destruct (faults (hw h)) as [|[] fl]. Qed.
Lemma kept_own `{Platform} `{OpsEnv} q p m : kept q (own p m).
Proof. done. Qed.
Lemma kept_tick q : kept q tick.
Proof. done. Qed.
Lemma kept_print q s : kept q (print_line s).
Proof. done. Qed.

Create HintDb kept.
#[export] Hint Resolve kept_put kept_set_attr kept_own kept_tick kept_print : kept.
Ltac keep :=
  repeat first
    [ match goal with |- forall _, _ => intros ? end
    | solve [auto with kept]
    | solve [apply kept_watcher; quiets]
    | match goal with
      | |- kept _ (obind _ _) => apply kept_bind; [|intros ?]
      | |- kept _ (if ?b then _ else _) => destruct b
      | |- kept _ (match ?o with _ => _ end) => destruct o
      end ].

(** The contents of [q] after [m], however it stops, satisfy [v]. *)
Definition lands (q : string) {A} (m : OIO A) (h : Host) (v : option string -> Prop) : Prop := v (files (hw (m h).2) !! q).

Lemma lands_kept q {A} (m : OIO A) h v : kept q m -> v (files (hw h) !! q) -> lands q m h v.
Proof. intros Hm Hv. unfold lands. by rewrite Hm. Qed.
Lemma lands_then q {A B} (m : OIO A) (k : A -> OIO B) h v :
  kept q m -> v (files (hw h) !! q) ->
  (forall a h1, m h = (Ok a, h1) -> files (hw h1) !! q = files (hw h) !! q -> lands q (k a) h1 v) ->
  lands q (obind m k) h v.
Proof.
  intros Hm Hv Hk. unfold lands, obind. specialize (Hm h). destruct (m h) as [[a|e] h1]; cbn [snd] in *; [|by rewrite Hm].
  by apply Hk.
Qed.

Lemma lands_watch q {A B} (m : OIO A) (k : A -> OIO B) h v :
  watcher m -> v (files (hw h) !! q) -> (forall a, m h = (Ok a, h) -> lands q (k a) h v) -> lands q (obind m k) h v.
Proof.
  intros Hm Hv Hk. unfold lands, obind. specialize (Hm h). destruct (m h) as [[a|e] h1]; cbn [snd] in *; subst; [by apply Hk|done].
Qed.

Lemma lands_bind_assoc q {A B C} (m : OIO A) (k : A -> OIO B) (k2 : B -> OIO C) h v :
  lands q (let^ a := m in let^ b := k a in k2 b) h v -> lands q (obind (obind m k) k2) h v.
Proof. unfold lands, obind. by destruct (m h) as [[a|e] h1]. Qed.

Lemma lands_bind_ret q {A} (m : OIO A) h v : lands q (obind m oret) h v -> lands q m h v.
Proof. unfold lands, obind. by destruct (m h) as [[a|e] h1]. Qed.

(** Membership in a list that is written out. *)
Ltac listed := repeat first [left | right].

Section Launches.
Context `{Platform} `{Git} `{JsonCodec} `{JsonPretty} `{OpsEnv} `{Resolver}.
Implicit Types (h : Host).

Lemma parent_of_join d f : has_char "/" f = false -> parent_of (path_join d f) = Some d.
Proof.
  intros Hf. unfold path_join. change ("/" +:+ f) with (String "/" f).
  induction d as [|c d IH]; cbn [String.append parent_of].
  - assert (parent_of f = None) as ->; [|done]. clear -Hf. induction f as [|c f IH]; [done|]. cbn [has_char] in Hf.
    apply orb_false_iff in Hf as [Hc Hf]. cbn [parent_of]. by rewrite IH, Hc.
  - by rewrite IH.
Qed.

Lemma kept_make_dir q p c : p +:+ "/" <> q -> kept q (make_dir_all p c).
Proof. intros. unfold make_dir_all, create_dir_all. keep. Qed.
Lemma write_bytes_eq d f bytes :
  has_char "/" f = false ->
  atomic_write_bytes (path_join d f) bytes =
  (let^ _ := make_dir_all d ("create authority directory " +:+ d) in
   let^ _ := io (put_file (path_join d f) bytes (io_error "publish authority file")) in
   let^ _ := own (path_join d f) 438 in
   let^ _ := set_attr (path_join d f) (chmod 416) (io_error ("set permissions " +:+ path_join d f)) in
   if geteuid =? 0 then set_attr (path_join d f) (chown SUPERVISOR_UID) (io_error ("chown " +:+ path_join d f)) else oret tt).
Proof. intros Hf. unfold atomic_write_bytes. by rewrite parent_of_join. Qed.

Lemma kept_write q d f bytes :
  has_char "/" f = false -> path_join d f <> q -> d +:+ "/" <> q -> kept q (atomic_write_bytes (path_join d f) bytes).
Proof. intros Hf Hq Hd. rewrite write_bytes_eq by done. pose proof (kept_make_dir q d). keep. Qed.

Lemma dir_entry_ne d f g : has_char "/" f = false -> f <> "" -> d +:+ "/" <> path_join g f.
Proof.
  intros Hf Hne E. apply (f_equal (after_last "/")) in E. unfold path_join in E. change ("/" +:+ f) with (String "/" f) in E.
  rewrite !after_last_app in E by done. congruence.
Qed.

(** A write of [q] itself leaves the old or the new contents. *)
Lemma lands_write d f bytes {A} (k : unit -> OIO A) h v :
  has_char "/" f = false -> f <> "" ->
  v (files (hw h) !! path_join d f) -> v (Some bytes) -> (forall a, kept (path_join d f) (k a)) ->
  lands (path_join d f) (obind (atomic_write_bytes (path_join d f) bytes) k) h v.
Proof.
  intros Hf Hne Hold Hnew Hk. rewrite write_bytes_eq by done. unfold lands. set (q := path_join d f) in *.
  assert (d +:+ "/" <> q) as Hd by (by apply dir_entry_ne). unfold obind at 1 2.
  destruct (make_dir_all d _ h) as [[[]|e] h1] eqn:E1; pose proof (kept_make_dir q d ("create authority directory " +:+ d) Hd h) as K1;
    rewrite E1 in K1; cbn [snd] in *; [|by rewrite K1].
  unfold obind at 1. destruct (io (put_file q bytes _) h1) as [[[]|e] h2] eqn:E2; cbn [snd].
  - assert (files (hw h2) !! q = Some bytes) as Hf2.
    { unfold io, put_file in E2. destruct (faults (hw h1)) as [|[] fl]; [|done|]; injection E2 as <-; cbn; by rewrite lookup_insert_eq. }
    match goal with |- v (files (hw (match ?m h2 with _ => _ end).2) !! q) => assert (kept q m) as Hm by keep end.
    specialize (Hm h2). match goal with |- v (files (hw (match ?m with _ => _ end).2) !! q) => destruct m as [[a|e] h3] end;
      cbn [snd] in *; [rewrite Hk|]; rewrite Hm, Hf2; done.
  - unfold io, put_file in E2. destruct (faults (hw h1)) as [|[] fl]; [done| |done]. injection E2 as _ <-. cbn. by rewrite K1.
Qed.

(** ** Records *)

Definition LAUNCH_IDENTITY : list string := ["name"; "role"; "access"; "cli"; "cli_bin"; "instruction_sha256"].
Definition record h (st n : string) : option (gmap string string) :=
  parse_env <$> files (hw h) !! path_join (launch_directory st n) "launch.env".

(** The identity of a record is complete and on clean lines. *)
Definition record_ok (r : option (gmap string string)) : Prop :=
  match r with
  | None => True
  | Some m => forall k, k ∈ LAUNCH_IDENTITY -> exists v, m !! k = Some v /\ v <> "" /\ has_char cr v = false
  end.
Definition same_keys (keys : list string) (m m' : gmap string string) : Prop := forall k, k ∈ keys -> m' !! k = m !! k.

(** One step in the life of an authorisation. *)
Inductive moves : option (gmap string string) -> option (gmap string string) -> Prop :=
| stays r : moves r r
| registers m : m !! "state" = Some "registered" -> moves None (Some m)
| claims m m' :
    m !! "state" = Some "registered" -> m' !! "state" = Some "running" -> same_keys LAUNCH_IDENTITY m m' ->
    moves (Some m) (Some m')
| finishes m m' :
    m !! "state" = Some "running" -> m' !! "state" = Some "completed" -> same_keys LAUNCH_IDENTITY m m' ->
    moves (Some m) (Some m')
| renews m m' :
    m !! "state" = Some "completed" -> m' !! "state" = Some "registered" ->
    same_keys ["role"; "access"; "cli"; "cli_bin"] m m' -> moves (Some m) (Some m').

Lemma weak_lookup kvs k v :
  forallb env_weak kvs = true -> NoDup kvs.*1 -> (k, v) ∈ kvs -> parse_env (print_env kvs) !! k = Some (strip_cr v).
Proof.
  intros Hw Hnd Hin. rewrite parse_env_weak by done. clear Hw. revert Hnd Hin. generalize (∅ : gmap string string).
  assert (forall (l : list (string * string)) (m : gmap string string), k ∉ l.*1 ->
            foldl (fun m kv => <[kv.1 := strip_cr kv.2]> m) m l !! k = m !! k) as Hout.
  { induction l as [|[k' v'] l IH]; intros m; simpl; [done|]. rewrite not_elem_of_cons. intros [Hne Hk].
    rewrite IH by done. by rewrite lookup_insert_ne. }
  induction kvs as [|[k' v'] kvs IH]; intros m; simpl; [set_solver|].
  rewrite NoDup_cons, elem_of_cons. intros [Hk Hnd] [[= <- <-]|Hin]; [|by apply IH]. by rewrite Hout, lookup_insert_eq.
Qed.

Lemma required_lines_ok m keys t :
  required_lines m keys = Ok t ->
  t = print_env (map (fun k => (k, state_value m k)) keys) /\ Forall (fun k => m !! k = Some (state_value m k) /\ state_value m k <> "") keys.
Proof.
  revert t. induction keys as [|k keys IH]; intros t Hr; [by injection Hr as <-|]. cbn [required_lines] in Hr.
  apply rbind_ok in Hr as (v & Hv & Hr). apply rbind_ok in Hr as (t' & Ht & [= <-]). apply IH in Ht as [-> Hall].
  unfold required_field, nonempty_entry in Hv. destruct (m !! k) as [v'|] eqn:E; [|done].
  destruct (is_empty v') eqn:Ee; [done|]. injection Hv as ->. unfold is_empty in Ee. apply String.eqb_neq in Ee.
  assert (state_value m k = v) as Hsv by (unfold state_value; by rewrite E). split.
  - cbn [map]. unfold print_env. cbn [map]. rewrite unlines_cons. unfold env_line, text_line. cbn [fst snd]. rewrite Hsv.
    by rewrite !str_app_assoc.
  - constructor; [|done]. by rewrite Hsv.
Qed.

Lemma print_env_app a b : print_env (a ++ b) = print_env a +:+ print_env b.
Proof. unfold print_env. by rewrite map_app, unlines_app. Qed.
Lemma text_line_env k v : text_line k v = print_env [(k, v)].
Proof. unfold text_line, print_env, env_line. cbn [map fst snd]. rewrite unlines_cons. by rewrite !str_app_assoc. Qed.

(** The text of a record that moved to another state. *)
Lemma launch_state_text text new_state identity :
  let m := parse_env text in
  clean new_state = true -> required_lines m LAUNCH_IDENTITY = Ok identity ->
  let m' := parse_env (identity +:+ text_line "workflow_id" (state_value m "workflow_id")
     +:+ concat_all (map (fun key => text_line key (state_value m key))
                       ["iteration_plan_sha256"; "original_task_sha256"; "alignment_binding_sha256"])
     +:+ text_line "state" new_state) in
  m' !! "state" = Some new_state
  /\ forall k, k ∈ LAUNCH_IDENTITY -> m !! k = Some (state_value m k) /\ state_value m k <> "" /\ m' !! k = Some (strip_cr (state_value m k)).
Proof.
  intros m Hn Hr. apply required_lines_ok in Hr as [-> Hall].
  set (kvs := map (fun k => (k, state_value m k))
                (LAUNCH_IDENTITY ++ ["workflow_id"; "iteration_plan_sha256"; "original_task_sha256"; "alignment_binding_sha256"])
              ++ [("state", new_state)]).
  intros m'. assert (m' = parse_env (print_env kvs)) as Hm'.
  { unfold m'. f_equal. unfold kvs. rewrite map_app, !print_env_app. cbn [map concat_all]. rewrite !text_line_env, str_app_nil_r.
    rewrite <- !print_env_app. done. }
  assert (forallb env_weak kvs = true) as Hw.
  { apply env_weak_all; [reflexivity|]. unfold kvs. unfold clean in Hn. bool_hyps.
    repeat constructor; cbn [fst snd]; try apply parse_env_no_nl; done. }
  assert (NoDup kvs.*1) as Hnd by nodup_keys.
  rewrite Hm'. split.
  - rewrite (weak_lookup _ _ new_state Hw Hnd) by (unfold kvs; cbn [map app LAUNCH_IDENTITY]; listed). f_equal. apply strip_cr_id. unfold clean in Hn. by bool_hyps.
  - intros k Hk. rewrite Forall_forall in Hall. destruct (Hall k Hk) as [H1' H2']. split; [done|]. split; [done|].
    apply (weak_lookup _ _ _ Hw Hnd). unfold kvs. apply elem_of_app. left. apply list_elem_of_fmap. exists k. split; [done|].
    apply elem_of_app. by left.
Qed.

(** Where a command leaves the record of [n]. *)
Definition moved h (st n : string) (t : option string) : Prop :=
  record_ok (parse_env <$> t) /\ moves (record h st n) (parse_env <$> t).

Lemma moved_stays h st n : record_ok (record h st n) -> moved h st n (files (hw h) !! path_join (launch_directory st n) "launch.env").
Proof. intros Hok. split; [done|apply stays]. Qed.

(** A record that is rewritten with another state. *)
Lemma moved_state h st n text new_state identity :
  files (hw h) !! path_join (launch_directory st n) "launch.env" = Some text -> record_ok (record h st n) ->
  clean new_state = true -> required_lines (parse_env text) LAUNCH_IDENTITY = Ok identity ->
  (forall m', m' !! "state" = Some new_state -> same_keys LAUNCH_IDENTITY (parse_env text) m' ->
     moves (Some (parse_env text)) (Some m')) ->
  moved h st n (Some (identity +:+ text_line "workflow_id" (state_value (parse_env text) "workflow_id")
     +:+ concat_all (map (fun key => text_line key (state_value (parse_env text) key))
                       ["iteration_plan_sha256"; "original_task_sha256"; "alignment_binding_sha256"])
     +:+ text_line "state" new_state)).
Proof.
  intros Ht Hok Hn Hr Hmove. unfold moved, record in *. rewrite Ht in *. cbn [fmap option_fmap option_map] in *.
  destruct (launch_state_text text new_state identity Hn Hr) as [Hs Hk].
  assert (same_keys LAUNCH_IDENTITY (parse_env text)
    (parse_env (identity +:+ text_line "workflow_id" (state_value (parse_env text) "workflow_id")
     +:+ concat_all (map (fun key => text_line key (state_value (parse_env text) key))
                       ["iteration_plan_sha256"; "original_task_sha256"; "alignment_binding_sha256"])
     +:+ text_line "state" new_state))) as Hsame.
  { intros k Hin. destruct (Hk k Hin) as (Hv & _ & ->). destruct (Hok k Hin) as (v & Hv' & _ & Hcr). rewrite Hv. f_equal.
    apply strip_cr_id. unfold state_value. by rewrite Hv'. }
  split; [|by apply Hmove]. intros k Hin. rewrite (Hsame k Hin). by apply Hok.
Qed.

Lemma read_env_ok p h m h1 : io (read_env p) h = (Ok m, h1) -> h1 = h /\ exists t, files (hw h) !! p = Some t /\ m = parse_env t.
Proof.
  intros Hr. apply io_reader_ok in Hr as [Hm ->]; [|readers]. split; [done|]. unfold read_env, eval in Hm. cbn in Hm.
  destruct (files (hw h) !! p) as [t|]; [|done]. injection Hm as <-. eauto.
Qed.

Lemma launch_path_inj st a b f g :
  has_char "/" a = false -> has_char "/" b = false -> has_char "/" f = false -> has_char "/" g = false ->
  path_join (launch_directory st a) f = path_join (launch_directory st b) g -> a = b /\ f = g.
Proof. intros. unfold launch_directory in *. by eapply entry_inj. Qed.

(** Writes of the files of [name] as seen from the record of [n]. *)
Lemma kept_launch_file st n name f bytes :
  has_char "/" n = false -> has_char "/" name = false -> has_char "/" f = false -> (n <> name \/ f <> "launch.env") ->
  kept (path_join (launch_directory st n) "launch.env") (atomic_write_bytes (path_join (launch_directory st name) f) bytes).
Proof.
  intros Hn Hname Hf Hne. apply kept_write; [done| |by apply dir_entry_ne].
  intros E%launch_path_inj; [|done..]. destruct E as [-> ->]. by destruct Hne.
Qed.
Lemma kept_launch_dir st n name c :
  kept (path_join (launch_directory st n) "launch.env") (make_dir_all (launch_directory st name) c).
Proof. by apply kept_make_dir, dir_entry_ne. Qed.

Lemma watcher_owned st name : watcher (read_owned_paths st name).
Proof. unfold read_owned_paths. quiets. Qed.
Lemma watcher_writer st name access : watcher (writer_paths st name access).
Proof. unfold writer_paths, read_or. pose proof watcher_owned. pose proof reader_configured. quiets. Qed.
Lemma watcher_renewal r p d n ro a c b x : watcher (check_renewal r p d n ro a c b x).
Proof. unfold check_renewal. quiets. Qed.
Lemma reader_sealed_plan w : reader (sealed_iteration_plan_sha256 w).
Proof. unfold sealed_iteration_plan_sha256. readers. Qed.
Lemma reader_alignment w p : reader (plan_alignment_binding w p).
Proof. unfold plan_alignment_binding. pose proof reader_envelope. pose proof reader_sealed_plan. readers. Qed.
Lemma watcher_alignment o p w s : watcher (alignment_binding_of o p w s).
Proof. unfold alignment_binding_of. pose proof reader_alignment. quiets. Qed.
Hint Resolve watcher_owned watcher_writer watcher_renewal watcher_alignment : quiet.
Hint Resolve kept_launch_dir : kept.

(** A step that only reads, on the way to the write. *)
Ltac lwatch := apply lands_watch; [solve [quiets]|by apply moved_stays|intros ? ?].

Lemma claim_moves st name n h :
  has_char "/" n = false -> has_char "/" name = false -> record_ok (record h st n) ->
  lands (path_join (launch_directory st n) "launch.env") (claim_launch st name) h (moved h st n).
Proof.
  intros Hn Hname Hok. destruct (decide (n = name)) as [->|Hne].
  - unfold claim_launch. do 10 lwatch. orun.
    match goal with Hr : io (read_env _) _ = _ |- _ => apply read_env_ok in Hr as (_ & text & Ht & ->) end. bool_hyps.
    unfold write_launch_state. apply lands_bind_assoc. lwatch. orun. apply lands_write; [done|done|by apply moved_stays| |keep].
    eapply moved_state; [exact Ht|done|done|eassumption|]. intros m' Hs Hsame.
    apply claims; [by apply meta_is_true|done|done].
  - apply lands_kept; [|by apply moved_stays]. unfold claim_launch, write_launch_state.
    pose proof (kept_launch_file st n name "launch.env") as Hk. do 10 (apply kept_bind; [keep|intros ?]).
    apply kept_bind; [|keep]. apply kept_bind; [keep|]. intros. apply Hk; auto.
Qed.

Lemma finish_moves st name n h :
  has_char "/" n = false -> has_char "/" name = false -> record_ok (record h st n) ->
  lands (path_join (launch_directory st n) "launch.env") (finish_launch st name) h (moved h st n).
Proof.
  intros Hn Hname Hok. unfold finish_launch, write_launch_state. destruct (decide (n = name)) as [->|Hne].
  - do 3 lwatch. orun.
    match goal with Hr : io (read_env _) _ = _ |- _ => apply read_env_ok in Hr as (_ & text & Ht & ->) end.
    apply lands_bind_ret, lands_write; [done|done|by apply moved_stays| |keep].
    eapply moved_state; [exact Ht|done|done|eassumption|]. intros m' Hs Hsame.
    apply finishes; [by apply meta_is_true|done|done].
  - apply lands_kept; [|by apply moved_stays]. do 3 (apply kept_bind; [keep|intros ?]). apply kept_launch_file; auto.
Qed.

(** ** Registration *)

Lemma valid_name_ok name : valid_name name = true -> has_char "/" name = false /\ clean name = true /\ name <> "".
Proof.
  unfold valid_name. intros Hv. apply andb_true_iff in Hv as [Hv Hall]. bool_hyps.
  assert (forall c, is_ascii_alphanumeric c || has_char c "_.-" = false -> has_char c name = false) as Hno
    by (intros c Hc; exact (all_chars_no_char _ c name Hc Hall)).
  split_and!; [by apply Hno|unfold clean; by rewrite !Hno|by intros ->].
Qed.

Lemma parse_pairs_clean o args o' :
  parse_pairs o args = Ok o' -> map_Forall (fun _ v => clean v = true) o -> map_Forall (fun _ v => clean v = true) o'.
Proof.
  remember (length args) as n eqn:Hn. revert o args Hn. induction (lt_wf n) as [n _ IH]. intros o args -> Hp Ho.
  destruct args as [|k [|v rest]]; [by injection Hp as <-..|]. cbn [parse_pairs] in Hp. destruct (_ || _) eqn:E; [done|].
  eapply (IH (length rest)); [simpl; lia|done|exact Hp|]. apply map_Forall_insert_2; [|done].
  cbn [has_any existsb] in E. unfold clean. bool_hyps. match goal with H1 : has_char nl v = false, H2 : has_char cr v = false |- _ => by rewrite H1, H2 end.
Qed.
Lemma option_clean args o k v : parse_options args = Ok o -> required_option o k = Ok v -> clean v = true /\ v <> "".
Proof.
  unfold parse_options. intros Hp Hr. apply rbind_ok in Hp as (? & _ & Hp). apply parse_pairs_clean in Hp; [|apply map_Forall_empty].
  unfold required_option, nonempty_entry in Hr. destruct (o !! k) as [w|] eqn:E; [|done]. destruct (is_empty w) eqn:Ee; [done|].
  injection Hr as ->. split; [exact (Hp _ _ E)|]. by apply String.eqb_neq in Ee.
Qed.
Lemma mem_clean x l : mem x l = true -> forallb (fun y => clean y && negb (is_empty y)) l = true -> clean x = true /\ x <> "".
Proof.
  unfold mem. rewrite existsb_exists, forallb_forall. intros (y & Hy & ->%String.eqb_eq) Hl. apply Hl in Hy. bool_hyps.
  split; [done|]. by intros ->.
Qed.

Context `{!HashShape}.
Lemma hash_clean t : clean (sha256_hex t) = true /\ sha256_hex t <> "".
Proof.
  split; [|intros E; pose proof (sha256_hex_len t) as Hl; by rewrite E in Hl].
  unfold clean. rewrite (all_chars_no_char lower_hex nl _ eq_refl (sha256_hex_digits t)).
  by rewrite (all_chars_no_char lower_hex cr _ eq_refl (sha256_hex_digits t)).
Qed.

Lemma launch_text_ok name role access workflow_id cli cli_bin instruction plan_sha256 binding :
  Forall (fun v => clean v = true /\ v <> "") [name; role; access; cli; cli_bin] ->
  Forall (fun v => has_char nl v = false) [workflow_id; plan_sha256; from_binding binding binding_task_sha256; from_binding binding binding_sha256] ->
  let m := parse_env (launch_text name role access workflow_id cli cli_bin instruction plan_sha256 binding) in
  m !! "state" = Some "registered" /\ record_ok (Some m)
  /\ m !! "role" = Some role /\ m !! "access" = Some access /\ m !! "cli" = Some cli /\ m !! "cli_bin" = Some cli_bin.
Proof.
  intros Hc Hn. set (kvs := [("name", name); ("role", role); ("access", access); ("workflow_id", workflow_id); ("cli", cli);
    ("cli_bin", cli_bin); ("instruction_sha256", sha256_hex instruction); ("iteration_plan_sha256", plan_sha256);
    ("original_task_sha256", from_binding binding binding_task_sha256);
    ("alignment_binding_sha256", from_binding binding binding_sha256); ("state", "registered")]).
  change (launch_text _ _ _ _ _ _ _ _ _) with (print_env kvs). intros m.
  repeat match goal with Hl : Forall _ (_ :: _) |- _ => apply Forall_cons in Hl as [? Hl] end. destruct_and?.
  destruct (hash_clean instruction) as [Hh1 Hh2].
  assert (forall v, clean v = true -> has_char nl v = false /\ has_char cr v = false) as Hcl by (intros v Hv; unfold clean in Hv; by bool_hyps).
  assert (forallb env_weak kvs = true) as Hw.
  { apply env_weak_all; [reflexivity|]. unfold kvs. repeat constructor; cbn [fst snd]; try done; by apply Hcl. }
  assert (NoDup kvs.*1) as Hnd by nodup_keys.
  assert (forall k v, (k, v) ∈ kvs -> clean v = true -> m !! k = Some v) as Hm.
  { intros k v Hin Hv. unfold m. rewrite (weak_lookup _ _ _ Hw Hnd Hin). f_equal. apply strip_cr_id. by apply Hcl. }
  split_and!; try (apply Hm; [unfold kvs; listed|done]).
  intros k Hk. unfold LAUNCH_IDENTITY in Hk. rewrite !elem_of_cons, elem_of_nil in Hk.
  destruct_or?; subst; try done; eexists; (split; [apply Hm; [unfold kvs; listed|]|split; [|apply Hcl]]); done.
Qed.

Lemma read_state_parsed p id fs st : eval (read_state p id) fs = Ok st -> exists text, st = parse_env text.
Proof.
  unfold read_state. intros Hr. rewrite eval_bind in Hr by readers. apply rbind_ok in Hr as (b & _ & Hr).
  rewrite eval_bind in Hr by readers. apply rbind_ok in Hr as (u & _ & Hr). unfold read_env_optional, eval in Hr. cbn in Hr.
  destruct (fs !! p) as [t|]; injection Hr as <-; [by exists t|by exists ""].
Qed.
Lemma alignment_lines o plan w s h b h1 :
  alignment_binding_of o plan w s h = (Ok b, h1) ->
  has_char nl (from_binding b binding_task_sha256) = false /\ has_char nl (from_binding b binding_sha256) = false.
Proof.
  unfold alignment_binding_of. destruct plan; intros Hr; orun; [|by subst]. subst b. cbn [from_binding].
  match goal with Hi : io (plan_alignment_binding _ _) _ = _ |- _ => apply io_reader_ok in Hi as [Hi _]; [|apply reader_alignment] end.
  unfold plan_alignment_binding in Hrun0. pose proof reader_envelope.
  pose proof reader_sealed_plan.
  do 3 (rewrite eval_bind in Hrun0 by readers; apply rbind_ok in Hrun0 as (? & ? & Hrun0)).
  injection Hrun0 as <-. cbn [binding_task_sha256 binding_sha256]. split.
  - match goal with He : eval (semantic_envelope _) _ = Ok _ |- _ => unfold semantic_envelope in He;
      rewrite eval_bind in He by (pose proof reader_original_task; pose proof reader_optional_artifact; readers);
      apply rbind_ok in He as (p & _ & He);
      rewrite eval_bind in He by (pose proof reader_original_task; pose proof reader_optional_artifact; readers);
      apply rbind_ok in He as (st & Hst & He); apply read_state_parsed in Hst as [text ->];
      do 4 (rewrite eval_bind in He by (pose proof reader_original_task; pose proof reader_optional_artifact; readers);
            apply rbind_ok in He as (? & _ & He)) end.
    match goal with He : eval (ret _) _ = Ok _ |- _ => injection He as <- end. cbn. apply parse_env_no_nl.
  - match goal with |- has_char nl (sha256_hex ?t) = false => destruct (hash_clean t) as [Hc _] end.
    unfold clean in Hc. by bool_hyps.
Qed.

Lemma renewal_ok renew plan st name role access cli cli_bin b h u h1 :
  check_renewal renew plan (launch_directory st name) name role access cli cli_bin b h = (Ok u, h1) ->
  record h st name = None
  \/ exists m, record h st name = Some m /\ m !! "state" = Some "completed" /\ m !! "role" = Some role
       /\ m !! "access" = Some access /\ m !! "cli" = Some cli /\ m !! "cli_bin" = Some cli_bin.
Proof.
  unfold check_renewal. intros Hr. apply obind_ok in Hr as (fs & h2 & Hs & Hr). apply store_ok in Hs as [-> ->].
  destruct (present _ _) eqn:Ep.
  - orun. match goal with Hi : io (read_env _) _ = _ |- _ => apply read_env_ok in Hi as (_ & t & Ht & ->) end. right.
    exists (parse_env t). unfold record. rewrite Ht. bool_hyps.
    repeat match goal with He : entry_is _ _ _ = true |- _ => apply meta_is_true in He end. done.
  - left. unfold record. destruct (files (hw h) !! path_join (launch_directory st name) "launch.env") as [t|] eqn:E; [|done].
    unfold present in Ep. rewrite (is_dir_file (files (hw h)) _ "launch.env") in Ep by (by rewrite E). by rewrite orb_true_r in Ep.
Qed.

(** The workflow identifier of the environment is one line. *)
Context (Hworkflow : has_char nl (unwrap_or (env_var "MULTIAGENT_WORKFLOW_ID") "") = false).

Lemma launch_access_clean role requested access : launch_access role requested = Ok access -> clean access = true /\ access <> "".
Proof.
  unfold launch_access. intros Hr. apply rbind_ok in Hr as ([] & Hg%guard_ok & Hr).
  do 2 (apply rbind_ok in Hr as (? & _ & Hr)). injection Hr as <-.
  apply orb_true_iff in Hg as [Hg|Hg]; apply String.eqb_eq in Hg; by rewrite Hg.
Qed.

Lemma option_lookup_no_nl args o k v : parse_options args = Ok o -> o !! k = Some v -> has_char nl v = false.
Proof.
  unfold parse_options. intros Hp Hv. apply rbind_ok in Hp as (? & _ & Hp). apply parse_pairs_clean in Hp; [|apply map_Forall_empty].
  specialize (Hp _ _ Hv). cbn in Hp. unfold clean in Hp. by bool_hyps.
Qed.
Lemma prior_no_nl (b : bool) p h m h1 k :
  (if b then io (read_env p) else oret ∅) h = (Ok m, h1) -> has_char nl (state_value m k) = false.
Proof.
  destruct b; [intros (_ & t & _ & ->)%read_env_ok; apply parse_env_no_nl|]. intros [<- _]%oret_ok. done.
Qed.

Lemma register_moves st args renew n h :
  state_dir = Ok st -> has_char "/" n = false -> record_ok (record h st n) ->
  lands (path_join (launch_directory st n) "launch.env") (register_launch args renew) h (moved h st n).
Proof.
  intros Hst Hn Hok. unfold register_launch. do 16 lwatch. orun.
  assert (st = a9) as <- by congruence. rename a into name.
  assert (valid_name name = true) as Hv.
  { destruct args as [|x args]; [done|]. destruct (valid_name x) eqn:E; [|done]. congruence. }
  destruct (valid_name_ok _ Hv) as (Hslash & Hclean & Hne).
  assert (has_char nl (match a0 !! "--plan-sha256" with Some value => value | None => state_value a11 "iteration_plan_sha256" end) = false) as Hplan.
  { destruct (a0 !! "--plan-sha256") as [v|] eqn:E; [by eapply option_lookup_no_nl|]. by eapply prior_no_nl. }
  set (plan := match a0 !! "--plan-sha256" with Some value => value | None => _ end) in *. do 2 lwatch.
  match goal with Hr : check_renewal _ _ _ _ _ _ _ _ _ _ = _ |- _ => apply renewal_ok in Hr as Hrec end.
  match goal with Hb : alignment_binding_of _ _ _ _ _ = _ |- _ => apply alignment_lines in Hb as [Hb1 Hb2] end.
  pose proof (moved_stays h st n Hok) as Hstay.
  assert (forall f bytes, has_char "/" f = false -> f <> "launch.env" ->
    kept (path_join (launch_directory st n) "launch.env") (atomic_write_bytes (path_join (launch_directory st name) f) bytes)) as Hk
    by (intros; apply kept_launch_file; auto).
  apply lands_then; [apply kept_launch_dir|done|]. intros ? h1 _ E1. rewrite <- E1 in Hstay.
  apply lands_watch; [quiets|done|]. intros fs _. apply lands_watch; [quiets|done|]. intros source _.
  apply lands_then; [destruct a12; [by apply Hk|keep]|done|]. intros ? h2 _ E2. rewrite <- E2 in Hstay.
  apply lands_then; [by apply Hk|done|]. intros ? h3 _ E3. rewrite <- E3 in Hstay.
  assert (forall v : unit, kept (path_join (launch_directory st n) "launch.env")
     (let^ _ := (if bool_decide (a = []) then oret () else atomic_write_bytes (path_join (launch_directory st name) "owned-paths") (unlines a))
      in print_line ("launch authorized" +:+ tabs +:+ name +:+ tabs +:+ a1 +:+ tabs +:+ a14))) as Hend.
  { intros _. apply kept_bind; [destruct (bool_decide _); [keep|by apply Hk]|intros ?; apply kept_print]. }
  destruct (decide (n = name)) as [->|Hdiff].
  2: { apply lands_kept; [|done]. apply kept_bind; [|done]. apply kept_launch_file; auto. }
  apply lands_write; [done|done|done| |done].
  destruct (launch_text_ok name a1 a14 (unwrap_or (env_var "MULTIAGENT_WORKFLOW_ID") "") a2 a3
    (source +:+ from_binding a12 binding_notice) plan a12) as (Hs & Hro & Hr1 & Hr2 & Hr3 & Hr4).
  { match goal with Ha : launch_access _ _ = Ok _ |- _ => apply launch_access_clean in Ha end.
    repeat match goal with Hq : required_option _ _ = Ok _ |- _ => eapply option_clean in Hq; [|eassumption] end.
    repeat (apply Forall_cons; split; [done|]). by apply Forall_nil. }
  { by repeat constructor. }
  split; [exact Hro|]. destruct Hrec as [->|(m & -> & Hm & Hm1 & Hm2 & Hm3 & Hm4)]; [by apply registers|].
  apply renews; [done|done|]. intros k Hkey. rewrite !elem_of_cons, elem_of_nil in Hkey. destruct_or?; subst; congruence.
Qed.

(** The commands on authorisations. *)
Inductive LaunchCommand : Type :=
| Register (args : list string) | Renew (args : list string) | Claim (name : string) | Finish (name : string).
Definition run_launch (st : string) (c : LaunchCommand) : OIO unit :=
  match c with
  | Register args => register_launch args false
  | Renew args => register_launch args true
  | Claim name => let^ _ := claim_launch st name in oret tt
  | Finish name => finish_launch st name
  end.
Definition named (c : LaunchCommand) : bool :=
  match c with Claim name | Finish name => negb (has_char "/" name) | _ => true end.

(** C26: the life of a launch authorisation. Whatever its arguments and whatever
    fails, a command moves the record of every launch by at most one step: it is
    registered when there was none, claimed when it was registered, finished when
    it ran, renewed when it was completed; so an authorisation is used once. The
    role, the access and the agent's program never change, nor does the digest of
    the instruction between registration and the end. *)
Theorem launch_lifecycle st c h r h' :
  state_dir = Ok st -> named c = true -> run_launch st c h = (r, h') ->
  (forall n, has_char "/" n = false -> record_ok (record h st n)) ->
  forall n, has_char "/" n = false -> record_ok (record h' st n) /\ moves (record h st n) (record h' st n).
Proof.
  intros Hst Hc Hr Hok n Hn. specialize (Hok n Hn). unfold named in Hc.
  assert (lands (path_join (launch_directory st n) "launch.env") (run_launch st c) h (moved h st n)) as Hl.
  { destruct c; cbn [run_launch]; bool_hyps; [by apply register_moves..| |by apply finish_moves].
    pose proof (claim_moves st name n h Hn ltac:(done) Hok) as Hcl. unfold lands, obind in *.
    by destruct (claim_launch st name h) as [[a|e] h2]. }
  unfold lands in Hl. rewrite Hr in Hl. exact Hl.
Qed.
End Launches.
