(* ===== verification/SealProps.v ===== *)
(** * SealProps: from the output of a reviewer to the approval of an operation

    What the supervisor seals when a reviewer has ended is exactly what the
    execution of an operation accepts. *)

From S2P Require Import Prelude Text State Json LogModel Config Execution Dag Lifecycle Snapshot Findings FindingsFacts Policy LeasesProps CompletionFacts LifecycleGates OpsBytes OpsRequest OpsHost Ops OpsFacts OpsBytesProps OpsProps OpsReadProps OpsPublishProps Launch LaunchProps.

Section Seal.
Context `{Platform} `{Git} `{JsonCodec} `{JsonPretty} `{OpsEnv} `{Resolver} `{!HashShape}.
Implicit Types (h : Host).

(** RFC 3339 timestamps are one line. *)
Class MillisClean : Prop := millis_clean : forall t, clean (rfc3339_millis t) = true.
Context `{!MillisClean}.

Lemma write_bytes_ok d f bytes h u h1 :
  has_char "/" f = false -> atomic_write_bytes (path_join d f) bytes h = (Ok u, h1) -> files (hw h1) !! path_join d f = Some bytes.
Proof.
  intros Hf Hr. rewrite write_bytes_eq in Hr by done. apply obind_ok in Hr as (? & h2 & _ & Hr).
  apply obind_ok in Hr as (? & h3 & [Hp _]%put_ok & Hr). assert (files (hw h3) !! path_join d f = Some bytes) as Hput3.
  { by rewrite Hp, lookup_insert_eq. }
  rewrite <- Hput3. match type of Hr with ?m h3 = _ => assert (kept (path_join d f) m) as Hk by keep; specialize (Hk h3); by rewrite Hr in Hk end.
Qed.
Lemma kept_run q {A} (m : OIO A) h r h1 : kept q m -> m h = (r, h1) -> files (hw h1) !! q = files (hw h) !! q.
Proof. intros Hk Hr. specialize (Hk h). by rewrite Hr in Hk. Qed.

Lemma kept_change_owner q p u : kept q (change_owner p u).
Proof. unfold change_owner. keep. Qed.
Lemma kept_any_write q d f p bytes :
  q = path_join d f -> has_char "/" f = false -> f <> "" -> p <> q -> kept q (atomic_write_bytes p bytes).
Proof.
  intros -> Hf Hne Hp. unfold atomic_write_bytes. apply kept_bind; [keep|]. intros parent.
  pose proof (kept_make_dir (path_join d f) parent) as Hm. assert (parent +:+ "/" <> path_join d f) by (by apply dir_entry_ne). keep.
Qed.
Hint Resolve kept_change_owner : kept.

(** Two files of one directory, or of two. *)
Lemma file_ne d e f g : has_char "/" f = false -> has_char "/" g = false -> f <> g -> path_join d f <> path_join e g.
Proof.
  intros Hf Hg Hne E. apply (f_equal (after_last "/")) in E. unfold path_join in E.
  change ("/" +:+ f) with (String "/" f) in E. change ("/" +:+ g) with (String "/" g) in E.
  rewrite !after_last_app in E by done. congruence.
Qed.

(** The evidence as it is read back. *)
Lemma evidence_text_ok name workflow_id stamp bytes binding alignment :
  clean name = true -> clean workflow_id = true -> clean stamp = true -> forallb env_weak alignment = true ->
  Forall (fun k => k ∈ ["iteration_plan_sha256"; "original_task_sha256"; "alignment_binding_sha256"]) alignment.*1 -> NoDup alignment.*1 ->
  let m := parse_env (evidence_text name "reviewer" workflow_id stamp bytes
                        (text_line "binding_sha256" (sha256_hex binding)) (print_env alignment)) in
  m !! "role" = Some "reviewer" /\ m !! "access" = Some "read-only" /\ m !! "state" = Some "completed"
  /\ m !! "workflow_id" = Some workflow_id /\ m !! "completed_at" = Some stamp
  /\ m !! "output_sha256" = Some (sha256_hex bytes) /\ m !! "binding_sha256" = Some (sha256_hex binding).
Proof.
  intros Hn Hw Hs Ha Hak Hnd. set (kvs := [("name", name); ("role", "reviewer"); ("access", "read-only"); ("workflow_id", workflow_id);
    ("state", "completed"); ("completed_at", stamp); ("output_sha256", sha256_hex bytes); ("binding_sha256", sha256_hex binding)]).
  assert (evidence_text name "reviewer" workflow_id stamp bytes (text_line "binding_sha256" (sha256_hex binding)) (print_env alignment)
          = print_env (kvs ++ alignment)) as ->.
  { change kvs with (take 7 kvs ++ [("binding_sha256", sha256_hex binding)]). rewrite !print_env_app, text_line_env, str_app_assoc. done. }
  destruct (hash_clean bytes) as [Hb _], (hash_clean binding) as [Hc _].
  assert (forall v, clean v = true -> has_char nl v = false /\ has_char cr v = false) as Hcl by (intros v Hv; unfold clean in Hv; by bool_hyps).
  assert (forallb env_weak (kvs ++ alignment) = true) as Hweak.
  { rewrite forallb_app, Ha, andb_true_r. apply env_weak_all; [reflexivity|]. unfold kvs.
    repeat constructor; cbn [fst snd]; try done; by apply Hcl. }
  assert (NoDup (kvs ++ alignment).*1) as Hnodup.
  { rewrite fmap_app. apply NoDup_app. split_and!; [nodup_keys| |done]. intros k Hk Hk2. rewrite Forall_forall in Hak.
    apply Hak in Hk2. unfold kvs in Hk. cbn [fmap list_fmap fst] in Hk. rewrite !elem_of_cons, elem_of_nil in Hk.
    rewrite !elem_of_cons, elem_of_nil in Hk2. destruct_or?; congruence. }
  intros m. assert (forall k v, (k, v) ∈ kvs -> clean v = true -> m !! k = Some v) as Hm.
  { intros k v Hin Hv. unfold m. rewrite (weak_lookup _ k v Hweak Hnodup) by (apply elem_of_app; by left). f_equal.
    apply strip_cr_id. by apply Hcl. }
  split_and!; (apply Hm; [unfold kvs; listed|done]).
Qed.

(** The two bindings, as they are sealed. *)
Lemma kept_review_binding q d trace f :
  q = path_join d f -> has_char "/" f = false -> f <> "" -> f <> "review-binding.json" ->
  forall e, kept q (seal_review_binding e trace).
Proof.
  intros -> Hf Hne Hd e. unfold seal_review_binding.
  pose proof (fun b => kept_write (path_join d f) e "review-binding.json" b eq_refl) as Hk.
  assert (path_join e "review-binding.json" <> path_join d f) as N1 by (by apply file_ne).
  assert (e +:+ "/" <> path_join d f) as N2 by (by apply dir_entry_ne).
  pose proof (fun b => Hk b N1 N2). keep.
Qed.
Lemma kept_alignment_binding q d st e name f :
  q = path_join d f -> has_char "/" f = false -> f <> "" -> f <> "plan-alignment-binding.json" ->
  kept q (seal_alignment_binding st e name).
Proof.
  intros -> Hf Hne Hd. unfold seal_alignment_binding.
  pose proof (fun b => kept_write (path_join d f) e "plan-alignment-binding.json" b eq_refl) as Hk.
  assert (path_join e "plan-alignment-binding.json" <> path_join d f) as N1 by (by apply file_ne).
  assert (e +:+ "/" <> path_join d f) as N2 by (by apply dir_entry_ne).
  pose proof (fun b => Hk b N1 N2). keep.
Qed.

Lemma review_binding_sealed d trace b h md h1 :
  files (hw h) !! path_join trace "review-binding.json" = Some b -> seal_review_binding d trace h = (Ok md, h1) ->
  md = text_line "binding_sha256" (sha256_hex b) /\ files (hw h1) !! path_join d "review-binding.json" = Some b.
Proof.
  intros Hb Hr. unfold seal_review_binding in Hr. apply obind_ok in Hr as (fs & h2 & Hs & Hr). apply store_ok in Hs as [-> ->].
  unfold present in Hr. rewrite Hb in Hr. cbn [is_some orb negb] in Hr. orun. subst md. split; [done|]. by eapply write_bytes_ok.
Qed.

Lemma alignment_binding_sealed st d name h md h1 :
  seal_alignment_binding st d name h = (Ok md, h1) ->
  exists alignment, md = print_env alignment /\ forallb env_weak alignment = true /\ NoDup alignment.*1
    /\ Forall (fun k => k ∈ ["iteration_plan_sha256"; "original_task_sha256"; "alignment_binding_sha256"]) alignment.*1.
Proof.
  unfold seal_alignment_binding. intros Hr. apply obind_ok in Hr as (launch & h2 & Hl & Hr).
  apply read_env_ok in Hl as (-> & t & Ht & ->). destruct (is_empty _).
  { exists []. apply oret_ok in Hr as [<- _]. split_and!; try done; constructor. }
  orun. subst md. exists (map (fun k => (k, state_value (parse_env t) k)) ["iteration_plan_sha256"; "original_task_sha256"; "alignment_binding_sha256"]).
  cbn [map]. split_and!.
  - rewrite !text_line_env, <- !print_env_app. done.
  - apply env_weak_all; [reflexivity|]. repeat constructor; cbn [fst snd]; apply parse_env_no_nl.
  - nodup_keys.
  - cbn [fmap list_fmap fst]. repeat (apply Forall_cons; split; [listed|]). by apply Forall_nil.
Qed.

Lemma kept_now q : kept q now.
Proof. done. Qed.
Hint Resolve kept_now kept_review_binding kept_alignment_binding : kept.

(** The file was there before the last step. *)
Ltac back :=
  match goal with
  | E : ?m ?h = (Ok _, ?h1) |- files (hw ?h1) !! ?q = _ =>
      rewrite (kept_run q m h _ h1 ltac:(first
        [ eapply kept_any_write; done
        | apply kept_write; [done|by apply file_ne|by apply dir_entry_ne]
        | by apply kept_make_dir, dir_entry_ne
        | by eapply kept_review_binding | by eapply kept_alignment_binding | solve [keep] ]) E); clear E
  end.

(** What a reviewer's run leaves in its evidence directory. *)
Lemma reviewer_files st name workflow_id private public trace message b h u h1 :
  files (hw h) !! private = Some message -> files (hw h) !! path_join trace "review-binding.json" = Some b ->
  public <> path_join trace "review-binding.json" ->
  seal_role_output st name "reviewer" workflow_id private public trace h = (Ok u, h1) ->
  let file f := files (hw h1) !! path_join (evidence_directory st "reviewer" name) f in
  exists t alignment,
    file "last-message.txt" = Some message /\ file "review-binding.json" = Some b
    /\ file "evidence.env" = Some (evidence_text name "reviewer" workflow_id (rfc3339_millis t) message
                                     (text_line "binding_sha256" (sha256_hex b)) (print_env alignment))
    /\ forallb env_weak alignment = true /\ NoDup alignment.*1
    /\ Forall (fun k => k ∈ ["iteration_plan_sha256"; "original_task_sha256"; "alignment_binding_sha256"]) alignment.*1.
Proof.
  intros Hm Hb Hp Hr. unfold seal_role_output in Hr. change (String.eqb "reviewer" "reviewer") with true in Hr. cbn [orb negb] in Hr.
  set (d := evidence_directory st "reviewer" name) in *. set (q := path_join trace "review-binding.json") in *. orun.
  match goal with Ho : ok_or (_ !! private) _ = Ok ?m |- _ => assert (m = message) as -> by (apply ok_or_ok in Ho; congruence) end.
  subst. cbn [fst snd] in Hr.
  assert (files (hw h10) !! q = Some b) as Hq by (repeat back; done).
  apply (review_binding_sealed _ _ b) in Hrun10 as Hsealed; [|done]. destruct Hsealed as [-> Hd].
  apply alignment_binding_sealed in Hrun11 as Hal. destruct Hal as (alignment & -> & Hweak & Hnd & Hkeys). clear Hq.
  apply write_bytes_ok in Hr as He; [|done]. apply write_bytes_ok in Hrun7 as Hl; [|done].
  exists a8, alignment. split_and!; [repeat (back; try done)..|exact He|done|done|done].
Qed.

(** The reviewer accepts, and what it left binds the template. *)
Definition review_holds (template : Value) (content message b : string) : bool :=
  reviewer_accepted message
  && match from_slice b with
     | Some binding => match review_binding_matches binding template content with Ok same => same | Err _ => false end
     | None => false
     end.

Lemma obind_run {A B} (m : OIO A) (k : A -> OIO B) h a h1 : m h = (Ok a, h1) -> obind m k h = k a h1.
Proof. unfold obind. by intros ->. Qed.
Lemma ocheck_run {B} c e (k : unit -> OIO B) h : c = true -> obind (ocheck c e) k h = k tt h.
Proof. by intros ->. Qed.
Lemma meta_is_eq m k v : meta_is m k v = bool_decide (m !! k = Some v).
Proof. done. Qed.
Lemma ignore_case_refl s : eq_ignore_ascii_case s s = true.
Proof. unfold eq_ignore_ascii_case. apply String.eqb_refl. Qed.

(** C28: from the output of a reviewer to the execution of an operation. When a
    reviewer has ended and the supervisor has sealed its message and the binding
    it left, the check that precedes an execution accepts this reviewer exactly if
    the message accepts and the binding is the one of the request, its goal and
    its runbook; what an earlier run left, and any text of the message that looks
    like a field of the evidence, play no part. *)
Theorem sealed_review_verified st name workflow_id private public trace template content message b h h1 :
  files (hw h) !! private = Some message -> files (hw h) !! path_join trace "review-binding.json" = Some b ->
  public <> path_join trace "review-binding.json" ->
  clean name = true -> clean workflow_id = true ->
  unwrap_or (env_var "MULTIAGENT_WORKFLOW_ID") "" = "" \/ unwrap_or (env_var "MULTIAGENT_WORKFLOW_ID") "" = workflow_id ->
  seal_role_output st name "reviewer" workflow_id private public trace h = (Ok tt, h1) ->
  is_ok (verify_reviewer st name template content h1).1 = review_holds template content message b.
Proof.
  intros Hm Hb Hp Hn Hw Henv Hr. apply reviewer_files with (message := message) (b := b) in Hr as (t & al & Hl & Hq & He & Ha & Hnd & Hk); [|done..].
  destruct (evidence_text_ok name workflow_id (rfc3339_millis t) message b al) as (E1 & E2 & E3 & E4 & E5 & E6 & E7); [done..|].
  change (evidence_directory st "reviewer" name) with (path_join (path_join st "reviewer-evidence") name) in *.
  revert E1 E2 E3 E4 E5 E6 E7. set (m := parse_env _). intros E1 E2 E3 E4 E5 E6 E7.
  unfold verify_reviewer. rewrite (obind_run _ _ _ m h1) by (unfold io, read_env; cbn; rewrite He; by destruct h1).
  rewrite (ocheck_run _ _ _ h1) by (by rewrite !meta_is_eq, E1, E2, E3).
  rewrite (ocheck_run _ _ _ h1) by (rewrite !meta_is_eq, E4; destruct Henv as [->| ->]; [done|]; rewrite orb_true_iff; right; by apply bool_decide_eq_true).
  rewrite (obind_run _ _ _ (files (hw h1)) h1) by (by destruct h1). rewrite Hl, E6, Hq, E7, E5.
  rewrite !(obind_run (olift (ok_or (Some _) _)) _ _ _ h1 eq_refl). rewrite (ocheck_run _ _ _ h1) by apply ignore_case_refl.
  unfold review_holds. destruct (reviewer_accepted message); [|done]. rewrite (ocheck_run true _ _ h1 eq_refl).
  unfold obind, olift, ok_or, ocheck, parse_json. rewrite ignore_case_refl. destruct (from_slice b) as [v|]; [|done].
  cbn. by destruct (review_binding_matches v template content) as [[]|].
Qed.
End Seal.
