(* ===== verification/LaunchAuth.v ===== *)
(** * LaunchAuth: who may be launched as a writer, and concrete launches *)

From S2P Require Import Prelude Text State Json LogModel Instances Config Execution Dag Lifecycle Snapshot Findings FindingsFacts Policy LeasesProps CompletionFacts LifecycleGates OpsBytes OpsRequest OpsHost Ops OpsFacts OpsBytesProps OpsProps OpsReadProps OpsPublishProps OpsWitness Launch LaunchProps SealProps.

Section Writers.
Context `{Platform} `{Git} `{JsonCodec} `{JsonPretty} `{OpsEnv} `{Resolver} `{!HashShape}.
Implicit Types (h : Host).
Context (Hworkflow : has_char nl (unwrap_or (env_var "MULTIAGENT_WORKFLOW_ID") "") = false).

(** The paths of the assignment, each resolved strictly inside the repository. *)
Definition paths_of_assignment h (st name root_ : string) (owned : list string) : Prop :=
  Forall2 (fun relative path =>
             resolve (files (hw h)) (if is_absolute relative then relative else path_join root_ relative) = Some path
             /\ same_path path root_ = false /\ inside path root_ = true)
    (match files (hw h) !! path_join (path_join (path_join st "assignments") name) "owned-paths" with
     | Some text => List.filter (fun line => negb (is_empty line)) (lines text)
     | None => []
     end) owned.

(** An assignment that has not ended, whose paths the session may write. *)
Definition writer_granted h (st name : string) (owned : list string) : Prop :=
  let file f := files (hw h) !! path_join (path_join (path_join st "assignments") name) f in
  is_some (file "assignment.env") = true
  /\ mem (trim (unwrap_or (file "status") "")) ENDED = false
  /\ exists named root_ authority,
       root = Ok named /\ resolve (files (hw h)) named = Some root_
       /\ eval configured (files (hw h)) = Ok authority
       /\ paths_of_assignment h st name root_ owned /\ permits_workspace_write authority root_ owned = true.

Lemma authorized_paths_ok fs root_ ls owned :
  authorized_paths fs root_ ls = Ok owned ->
  Forall2 (fun relative path =>
             resolve fs (if is_absolute relative then relative else path_join root_ relative) = Some path
             /\ same_path path root_ = false /\ inside path root_ = true) ls owned.
Proof.
  revert owned. induction ls as [|l ls IH]; intros owned Hr; [by injection Hr as <-; constructor|]. cbn [authorized_paths] in Hr.
  apply rbind_ok in Hr as (p & Hp%ok_or_ok & Hr). apply rbind_ok in Hr as ([] & Hg%guard_ok & Hr).
  apply rbind_ok in Hr as (ps & Hps & [= <-]). bool_hyps. constructor; [done|by apply IH].
Qed.

Lemma canonicalize_ok p c h r h1 : canonicalize_path p c h = (Ok r, h1) -> h1 = h /\ resolve (files (hw h)) p = Some r.
Proof. unfold canonicalize_path. intros Hr. orun. match goal with Ho : ok_or _ _ = Ok _ |- _ => by apply ok_or_ok in Ho end. Qed.

Lemma owned_paths_ok st name h owned h1 :
  read_owned_paths st name h = (Ok owned, h1) ->
  exists named root_, root = Ok named /\ resolve (files (hw h)) named = Some root_ /\ paths_of_assignment h st name root_ owned.
Proof.
  unfold read_owned_paths. intros Hr. apply obind_ok in Hr as (named & h2 & [Hroot ->]%olift_ok & Hr).
  apply obind_ok in Hr as (root_ & h3 & [-> Hres]%canonicalize_ok & Hr). apply obind_ok in Hr as (fs & h4 & [-> ->]%store_ok & Hr).
  exists named, root_. split_and!; try done. unfold paths_of_assignment. destruct (_ !! path_join _ "owned-paths") as [t|].
  - apply olift_ok in Hr as [Hr _]. by apply authorized_paths_ok.
  - apply oret_ok in Hr as [<- _]. constructor.
Qed.

Lemma writer_paths_ok st name h owned h1 :
  writer_paths st name "workspace-write" h = (Ok owned, h1) -> writer_granted h st name owned.
Proof.
  unfold writer_paths. intros Hr. change (negb (String.eqb "workspace-write" "workspace-write")) with false in Hr. cbv iota in Hr.
  pose proof (watcher_owned st name). pose proof reader_configured. unfold read_or in Hr. orun. subst.
  match goal with Ho : read_owned_paths _ _ _ = _ |- _ => apply owned_paths_ok in Ho as (n1 & r1 & Hn & Hr1 & Hp) end.
  apply io_reader_ok in Hrun1 as [Hs _]; [|readers]. apply io_reader_ok in Hrun6 as [Hc _]; [|done].
  apply canonicalize_ok in Hrun5 as [_ Hres]. assert (a4 = n1) as -> by congruence. assert (a5 = r1) as -> by congruence.
  unfold eval in Hs. cbn in Hs. injection Hs as <-. bool_hyps. unfold writer_granted. cbv zeta. split_and!; [done|done|].
  by exists n1, r1, a6.
Qed.

Lemma launch_access_writer role requested : launch_access role requested = Ok "workspace-write" -> role = "worker".
Proof.
  unfold launch_access. intros Hr. apply rbind_ok in Hr as ([] & _ & Hr). apply rbind_ok in Hr as ([] & Hg%guard_ok & Hr).
  apply rbind_ok in Hr as (? & _ & [= E]). rewrite E in Hg. change (String.eqb "workspace-write" "workspace-write") with true in Hg.
  cbn [andb] in Hg. rewrite negb_involutive in Hg. by apply String.eqb_eq.
Qed.
Lemma print_line_files s h u h1 : print_line s h = (Ok u, h1) -> files (hw h1) = files (hw h).
Proof. unfold print_line. intros Hr. by injection Hr as _ <-. Qed.

End Writers.

(** ** Concrete launches *)

Module LaunchWitness.
#[local] Existing Instances OpsWitness.platform OpsWitness.no_git OpsWitness.resolver OpsWitness.env.
#[local] Instance hashes : HashShape := toy_hash_shape OpsWitness.vars SUPERVISOR_UID.

Definition worker_files : gmap string string :=
  list_to_map
    [("/state/subagents/w/instruction.txt", "edit a.rs"); ("/state/assignments/w/assignment.env", "name=w");
     ("/state/assignments/w/status", "running"); ("/state/assignments/w/owned-paths", unlines ["a.rs"])].
Definition host (fs : gmap string string) : Host :=
  mkHost (mkWorld fs [] 5 []) (fun p => mkAttr (if starts_with "/trace" p then REVIEWER_UID else SUPERVISOR_UID) 384 false) [].
Definition worker_args : list string :=
  ["w"; "--role"; "worker"; "--cli"; "codex"; "--cli-bin"; "/bin/codex"; "--instruction-file"; "/state/subagents/w/instruction.txt"].

Lemma no_launches n : record (host worker_files) "/state" n = None.
Proof.
  unfold record, host. cbn [hw files]. unfold worker_files. rewrite not_elem_of_list_to_map_1; [done|].
  cbn [fmap list_fmap fst]. rewrite !not_elem_of_cons. split_and!; try discriminate. apply not_elem_of_nil.
Qed.

(** The first launch of a worker is registered. *)
Lemma launch_lifecycle_witness :
  exists h', moves (record (host worker_files) "/state" "w") (record h' "/state" "w")
             /\ (record h' "/state" "w" ≫= fun m => m !! "state") = Some "registered".
Proof.
  assert ((record (run_launch "/state" (Register worker_args) (host worker_files)).2 "/state" "w" ≫= fun m => m !! "state") = Some "registered")
    as Hs by (vm_compute; reflexivity).
  destruct (run_launch "/state" (Register worker_args) (host worker_files)) as [r h'] eqn:E. exists h'. split; [|exact Hs].
  refine (proj2 (launch_lifecycle _ "/state" (Register worker_args) (host worker_files) r h' _ _ E _ "w" _)); [reflexivity..|idtac|reflexivity].
  intros n _. rewrite no_launches. exact I.
Defined.


Lemma digits_clean n t acc : clean acc = true -> clean (digits n t acc) = true.
Proof.
  revert t acc. induction n as [|n IH]; intros t acc Ha; cbn [digits]; [done|].
  assert (clean (String (digit_char (t mod 10)) acc) = true) as Hs; [|destruct (_ <? _); [done|by apply IH]].
  pose proof (Z.mod_pos_bound t 10 ltac:(lia)) as Hb. set (d := t mod 10) in *. clearbody d. by cases_below 10%nat d.
Qed.
#[local] Instance millis : MillisClean.
Proof. intros t. cbn [rfc3339_millis OpsWitness.env]. apply digits_clean. reflexivity. Qed.

(** The output of a reviewer that accepts and leaves the binding of the template. *)
Definition review_files : gmap string string :=
  list_to_map
    [("/state/role-io/rev/final-message.7.txt", OpsWitness.message); ("/trace/review-binding.json", to_vec OpsWitness.binding);
     ("/state/launch-authorizations/rev/launch.env", unlines ["name=rev"; "role=reviewer"; "state=running"])].
Definition content : string := digest OpsWitness.runbook_text.
Lemma sealed_review_verified_witness :
  exists h1, is_ok (verify_reviewer "/state" "rev" OpsWitness.template content h1).1 = true.
Proof.
  assert ((seal_role_output "/state" "rev" "reviewer" "w1" "/state/role-io/rev/final-message.7.txt" "/logs/rev.txt" "/trace" (host review_files)).1 = Ok tt)
    as Hok by (vm_compute; reflexivity).
  assert (review_holds OpsWitness.template content OpsWitness.message (to_vec OpsWitness.binding) = true) as Hh by (vm_compute; reflexivity).
  destruct (seal_role_output "/state" "rev" "reviewer" "w1" "/state/role-io/rev/final-message.7.txt" "/logs/rev.txt" "/trace" (host review_files))
    as [r h1] eqn:E. cbn [fst] in Hok. subst r. exists h1. transitivity (review_holds OpsWitness.template content OpsWitness.message (to_vec OpsWitness.binding)); [|exact Hh].
  apply (sealed_review_verified "/state" "rev" "w1" "/state/role-io/rev/final-message.7.txt" "/logs/rev.txt" "/trace" OpsWitness.template content
           OpsWitness.message (to_vec OpsWitness.binding) (host review_files) h1).
  - vm_compute. reflexivity.
  - vm_compute. reflexivity.
  - discriminate.
  - reflexivity.
  - reflexivity.
  - right. reflexivity.
  - exact E.
Defined.

(** A claim hands out the paths of the assignment as they are then, not those
    that were registered: here the assignment was widened in between. *)
Definition widened : Host :=
  let h := (register_launch worker_args false (host worker_files)).2 in
  mkHost (mkWorld (<["/state/assignments/w/owned-paths" := unlines ["a.rs"; "b.rs"]]> (files (hw h))) [] 5 []) (attrs h) (calls h).
Example claim_takes_current_paths :
  files (hw widened) !! "/state/launch-authorizations/w/owned-paths" = Some (unlines ["/work/a.rs"])
  /\ launch_owned_paths <$> (match (claim_launch "/state" "w" widened).1 with Ok a => Some a | Err _ => None end)
     = Some ["/work/a.rs"; "/work/b.rs"].
Proof. vm_compute. done. Qed.
End LaunchWitness.
