(* ===== verification/Shell.v ===== *)
(** * Shell: quoting for the shell ([shell_escape] of [runtime/src/runtime.rs]
    and [runtime/src/agent.rs])

    The commands of agents run in terminal windows, as text that a POSIX shell
    reads again. The lexer below is the reference: how the shell splits the text
    the program builds into words and operators. *)

From S2P Require Import Prelude Text.

Definition squote : ascii := "039".
Definition bslash : ascii := "092".

Definition plain_char (c : ascii) : bool := is_ascii_alphanumeric c || has_char c "_@%+=:,./-".

(** [value.replace('\'', "'\\''")]. *)
Fixpoint escape_quotes (s : string) : string :=
  match s with
  | EmptyString => ""
  | String c s' =>
      if Ascii.eqb c squote
      then String squote (String bslash (String squote (String squote (escape_quotes s'))))
      else String c (escape_quotes s')
  end.

Definition shell_escape (value : string) : string :=
  if negb (is_empty value) && all_chars plain_char value then value
  else String squote (escape_quotes value +:+ String squote "").

(** ** The reference lexer *)

(** A word is a sequence of literal texts and parameters. *)
Inductive part : Type := Lit (s : string) | Par (s : string).
Inductive token : Type := Word (ps : list part) | And_if | Semi | Less.

(** Literal characters collect in one part. *)
Definition push_lit (c : ascii) (ps : list part) : list part :=
  match ps with
  | Lit s :: ps' => Lit (s +:+ String c "") :: ps'
  | _ => Lit (String c "") :: ps
  end.
(** The word that was being read, its parts collected in reverse. *)
Definition flush (w : option (list part)) (ts : list token) : list token :=
  match w with Some ps => Word (reverse ps) :: ts | None => ts end.
Definition opened (w : option (list part)) : list part := match w with Some ps => ps | None => [] end.

Inductive mode : Type := Bare | Quoted | Escaped | Dollar | Name (n : string) | Amp.

(** [lex m w ts s] reads [s] in mode [m] with the word [w] open and the tokens
    [ts] behind it, both in reverse. Text that needs more of the shell language
    than the program's commands use is refused. *)
Fixpoint lex (m : mode) (w : option (list part)) (ts : list token) (s : string) : option (list token) :=
  let bare c w ts s' :=
    if Ascii.eqb c " " then lex Bare None (flush w ts) s'
    else if Ascii.eqb c squote
    then lex Quoted (Some (match opened w with Lit t :: ps => Lit t :: ps | ps => Lit "" :: ps end)) ts s'
    else if Ascii.eqb c bslash then lex Escaped w ts s'
    else if Ascii.eqb c "$" then lex Dollar w ts s'
    else if Ascii.eqb c "&" then lex Amp None (flush w ts) s'
    else if Ascii.eqb c ";" then lex Bare None (Semi :: flush w ts) s'
    else if Ascii.eqb c "<" then lex Bare None (Less :: flush w ts) s'
    else if plain_char c then lex Bare (Some (push_lit c (opened w))) ts s'
    else None in
  match s with
  | EmptyString =>
      match m with
      | Bare => Some (reverse (flush w ts))
      | Name n => Some (reverse (flush (Some (Par n :: opened w)) ts))
      | _ => None
      end
  | String c s' =>
      match m with
      | Bare => bare c w ts s'
      | Quoted => if Ascii.eqb c squote then lex Bare w ts s' else lex Quoted (Some (push_lit c (opened w))) ts s'
      | Escaped => lex Bare (Some (push_lit c (opened w))) ts s'
      | Dollar =>
          if Ascii.eqb c "?" then lex Bare (Some (Par "?" :: opened w)) ts s'
          else if is_ascii_alphanumeric c || Ascii.eqb c "_" then lex (Name (String c "")) w ts s' else None
      | Name n =>
          if is_ascii_alphanumeric c || Ascii.eqb c "_" then lex (Name (n +:+ String c "")) w ts s'
          else bare c (Some (Par n :: opened w)) ts s'
      | Amp => if Ascii.eqb c "&" then lex Bare None (And_if :: ts) s' else None
      end
  end.
Definition shell_tokens (s : string) : option (list token) := lex Bare None [] s.

(** A word without parameters. *)
Definition word (s : string) : token := Word [Lit s].

(** ** Quoting is read back *)

Definition lit (ps : list part) (s : string) : list part :=
  match ps with Lit t :: ps' => Lit (t +:+ s) :: ps' | _ => Lit s :: ps end.

Lemma push_lit_lit c ps : push_lit c ps = lit ps (String c "").
Proof. done. Qed.
Lemma lit_lit ps a b : lit (lit ps a) b = lit ps (a +:+ b).
Proof. destruct ps as [|[]]; cbn; by rewrite ?str_app_assoc. Qed.

Lemma plain_char_ne c d : plain_char c = true -> plain_char d = false -> Ascii.eqb c d = false.
Proof. intros Hc Hd. apply Ascii.eqb_neq. intros ->. congruence. Qed.

Lemma lex_plain_char c w ts t : plain_char c = true -> lex Bare w ts (String c t) = lex Bare (Some (lit (opened w) (String c ""))) ts t.
Proof.
  intros Hc. cbn [lex]. rewrite !(plain_char_ne c) by (exact Hc || reflexivity). by rewrite Hc.
Qed.
(** The plain text of a bare word. *)
Lemma lex_plain s w ts t :
  all_chars plain_char s = true -> s <> "" -> lex Bare w ts (s +:+ t) = lex Bare (Some (lit (opened w) s)) ts t.
Proof.
  revert w. induction s as [|c s IH]; intros w Hs Hne; [done|]. cbn [all_chars] in Hs. apply andb_true_iff in Hs as [Hc Hs].
  change (String c s +:+ t) with (String c (s +:+ t)). rewrite lex_plain_char by done.
  destruct s as [|d s]; [done|]. rewrite IH by done. cbn [opened]. by rewrite lit_lit.
Qed.
(** Quoted text, up to the quote that ends it. *)
Lemma lex_quoted s x ps ts t :
  lex Quoted (Some (Lit x :: ps)) ts (escape_quotes s +:+ String squote t) = lex Bare (Some (Lit (x +:+ s) :: ps)) ts t.
Proof.
  revert x. induction s as [|c s IH]; intros x; [cbn; by rewrite str_app_nil_r|]. cbn [escape_quotes].
  destruct (Ascii.eqb_spec c squote) as [->|Hc].
  - change (lex Quoted (Some (Lit (x +:+ String squote "") :: ps)) ts (escape_quotes s +:+ String squote t)
            = lex Bare (Some (Lit (x +:+ String squote s) :: ps)) ts t).
    by rewrite IH, str_app_assoc.
  - cbn [String.append lex]. destruct (Ascii.eqb_spec c squote); [done|]. cbn [push_lit opened]. rewrite IH. by rewrite str_app_assoc.
Qed.

(** A quoted value continues the word that is open by exactly its characters. *)
Lemma lex_escape v w ts t : lex Bare w ts (shell_escape v +:+ t) = lex Bare (Some (lit (opened w) v)) ts t.
Proof.
  unfold shell_escape. destruct (negb (is_empty v) && all_chars plain_char v) eqn:E.
  - apply andb_true_iff in E as [Hne Hp]. apply lex_plain; [done|]. by intros ->.
  - change (String squote (escape_quotes v +:+ String squote "") +:+ t) with (String squote ((escape_quotes v +:+ String squote "") +:+ t)).
    rewrite str_app_assoc. change (String squote "" +:+ t) with (String squote t). cbn [lex]. cbn [Ascii.eqb Bool.eqb].
    change (Ascii.eqb squote squote) with true. cbv iota.
    destruct (opened w) as [|[u|u] ps] eqn:Ew; cbn; by rewrite lex_quoted.
Qed.

Lemma lex_space w ts t : lex Bare w ts (String " " t) = lex Bare None (flush w ts) t.
Proof. done. Qed.

(** Text that ends an open word. *)
Definition ends (t : string) : Prop := forall w ts, lex Bare w ts t = lex Bare None (flush w ts) t.
Lemma ends_nil : ends "".
Proof. done. Qed.
Lemma ends_space t : ends (String " " t).
Proof. done. Qed.
Lemma ends_semi t : ends (String ";" t).
Proof. intros w ts. by destruct w. Qed.

(** Arguments, each behind a space. *)
Definition arguments (args : list string) : string := concat_all (map (fun a => " " +:+ shell_escape a) args).

Lemma lex_arguments args w ts t :
  ends t -> lex Bare w ts (arguments args +:+ t) = lex Bare None (reverse (map word args) ++ flush w ts) t.
Proof.
  intros Ht. revert w ts. induction args as [|a args IH]; intros w ts; [apply Ht|].
  unfold arguments. cbn [map concat_all]. fold (arguments args). rewrite !str_app_assoc.
  change (" " +:+ ?x) with (String " " x). rewrite lex_space, lex_escape, IH. cbn [flush opened lit].
  cbn [map]. rewrite (reverse_cons (map word args)), <- app_assoc. done.
Qed.

(** A command and its arguments are read as exactly these words. *)
Lemma tokens_command program args : shell_tokens (shell_escape program +:+ arguments args) = Some (map word (program :: args)).
Proof.
  unfold shell_tokens. rewrite lex_escape. rewrite <- (str_app_nil_r (arguments args)), lex_arguments by apply ends_nil.
  cbn [opened lit flush lex]. f_equal. rewrite reverse_app, reverse_involutive. done.
Qed.
