(* ===== verification/Agent.v ===== *)
(** * Agent: [runtime/src/agent.rs], the coding agents

    How an agent is started for a role, and how its output is turned into
    normalised events, a final message and a token count. The process of the
    agent is a parameter. This is the Linux build. *)

From S2P Require Import Prelude Text State Json LogModel Config Execution Dag Lifecycle Snapshot Findings Policy OpsBytes OpsRequest OpsHost Ops Launch Shell.

(** ** Backends *)

Inductive BackendId : Type := Codex | Claude | Qwen.
#[export] Instance BackendId_eq : EqDecision BackendId.
Proof. solve_decision. Defined.

Definition backend_parse (value : string) : result string BackendId :=
  if String.eqb value "codex" then Ok Codex
  else if String.eqb value "claude" then Ok Claude
  else if String.eqb value "qwen" then Ok Qwen
  else Err ("unsupported coding-agent backend '" +:+ value +:+ "' (expected codex, claude, or qwen)").
Definition backend_str (id : BackendId) : string :=
  match id with Codex => "codex" | Claude => "claude" | Qwen => "qwen" end.

Inductive RoleAccess : Type := ReadOnly | WorkspaceWrite.
#[export] Instance RoleAccess_eq : EqDecision RoleAccess.
Proof. solve_decision. Defined.
Definition access_parse (value : string) : result string RoleAccess :=
  if String.eqb value "read-only" then Ok ReadOnly
  else if String.eqb value "workspace-write" then Ok WorkspaceWrite
  else Err ("invalid coding-agent access '" +:+ value +:+ "' (expected read-only or workspace-write)").
Definition access_str (a : RoleAccess) : string :=
  match a with ReadOnly => "read-only" | WorkspaceWrite => "workspace-write" end.

Inductive InvocationMode : Type := Interactive | Headless.

Record AgentCapabilities := mkCapabilities {
  structured_events : bool; native_resume : bool; usage_events : bool; interactive : bool
}.
Record BackendPaths := mkBackendPaths { codex_path : string; claude_path : string; qwen_path : string }.
Record AgentRequest := mkAgentRequest {
  working_directory : string; prompt_file : option string; final_output : option string;
  agent_access : RoleAccess; invocation : InvocationMode; resume_session : option string
}.
Record CommandSpec := mkCommandSpec {
  program : string; cmd_args : list string; spec_directory : string; stdin_file : option string;
  legacy_prompt_argument : option string
}.
Record BackendVersion := mkVersion { version_backend : BackendId; version_executable : string; version_text : string }.

Definition quoted (s : string) : string := String dquote (s +:+ String dquote "").

Definition render_shell (spec : CommandSpec) : string :=
  shell_escape (program spec)
  +:+ concat_all (map (fun arg => " " +:+ shell_escape (from_utf8_lossy arg)) (cmd_args spec))
  +:+ (match legacy_prompt_argument spec with
       | Some path => " " +:+ quoted ("$(cat " +:+ shell_escape path +:+ ")")
       | None => ""
       end)
  +:+ (match stdin_file spec with Some path => " < " +:+ shell_escape path | None => "" end).

Definition capabilities (id : BackendId) : AgentCapabilities :=
  match id with
  | Codex => mkCapabilities true false true true
  | Claude => mkCapabilities true true true true
  | Qwen => mkCapabilities true true true false
  end.
Definition executable (paths : BackendPaths) (id : BackendId) : string :=
  match id with Codex => codex_path paths | Claude => claude_path paths | Qwen => qwen_path paths end.

Definition codex_safety_args (a : RoleAccess) (headless : bool) : list string :=
  ["--dangerously-bypass-approvals-and-sandbox"].

Definition SHELL_ENVIRONMENT : list string :=
  ["PATH"; "HOME"; "USER"; "SHELL"; "TMPDIR"; "TERM"; "COLORTERM"; "LANG"; "LC_ALL"; "GIT_CONFIG_*"; "MULTIAGENT_*";
   "ORCHESTRATOR_CLI"; "WORKER_CLI"; "SUBAGENT_CLI"; "VERIFIER_CLI"; "CODEX_BIN"; "CLAUDE_BIN"; "QWEN_BIN"].
Definition codex_shell_environment_config : string :=
  "shell_environment_policy.include_only=[" +:+ join "," (map quoted SHELL_ENVIRONMENT) +:+ "]".

(** [.replace('\\', "\\\\").replace('"', "\\\"")]. *)
Fixpoint escape_toml (s : string) : string :=
  match s with
  | EmptyString => ""
  | String c s' =>
      if Ascii.eqb c bslash || Ascii.eqb c dquote then String bslash (String c (escape_toml s')) else String c (escape_toml s')
  end.

(** An optional value as an option of the command line. *)
Definition flag_value (flag : string) (value : option string) : list string :=
  match value with Some v => [flag; v] | None => [] end.

(** The process of an agent, as the caller sees it end. *)
Record AgentEnd := mkAgentEnd {
  end_code : option Z; end_signal : option Z; end_timed_out : bool; end_cancel : Z;
  end_stdout : string; end_stderr : string; end_files : gmap string string
}.
Inductive AgentRun : Type :=
| NotStarted (error : string) | PromptRefused (error : string) | WaitFailed (error : string) | Ended (e : AgentEnd).
Class AgentProcess := {
  version_output : string -> result string Output;  (* [EXECUTABLE --version] *)
  agent_process : CommandSpec -> string -> option Z -> gmap string string -> AgentRun  (* prompt, timeout, files *)
}.

(** ** Events *)

Record NormalizedEvent := mkEvent {
  event_backend : BackendId; sequence : nat; event_kind : string; raw_type : string; event_session : option string;
  event_text : option string; tool_id : option string; tool_name : option string; event_success : option bool;
  usage : option Value; raw : Value
}.
Record UsageSummary := mkUsage {
  usage_backend : BackendId; input_tokens : Z; cached_input_tokens : Z; output_tokens : Z;
  cache_creation_input_tokens : Z; cache_read_input_tokens : Z; total_tokens : Z;
  observed_usage_events : nat; aggregation : string
}.
Record TokenCounts := mkCounts {
  input : Z; cached_input : Z; output : Z; cache_creation : Z; cache_read : Z; total : option Z
}.
Record DecodedOutput := mkDecoded {
  decoded_events : list NormalizedEvent; final_message : option string; decoded_session : option string
}.

Definition first_of {A} : list (option A) -> option A := first_some id.

(** The functions below walk a value that was parsed, in the order of the keys. *)
Fixpoint token_value_optional (names : list string) (v : Value) : option Z :=
  match v with
  | VObj kvs =>
      or_else (first_some (fun name => member name (VObj kvs) ≫= as_u64) names)
        (first_of (map (fun kv => token_value_optional names kv.2) kvs))
  | VArr l => first_of (map (token_value_optional names) l)
  | _ => None
  end.
Definition token_value (names : list string) (v : Value) : Z := unwrap_or (token_value_optional names v) 0.

Fixpoint contains_type (expected : string) (v : Value) : bool :=
  match v with
  | VObj kvs =>
      bool_decide (member_str "type" (VObj kvs) = Some expected) || existsb (fun kv => contains_type expected kv.2) kvs
  | VArr l => existsb (contains_type expected) l
  | _ => false
  end.
Fixpoint find_string (keys : list string) (v : Value) : option string :=
  match v with
  | VObj kvs =>
      or_else (first_some (fun key => member_str key (VObj kvs)) keys)
        (first_of (map (fun kv => find_string keys kv.2) kvs))
  | VArr l => first_of (map (find_string keys) l)
  | _ => None
  end.
Fixpoint find_value (keys : list string) (v : Value) : option Value :=
  match v with
  | VObj kvs =>
      or_else (first_some (fun key => member key (VObj kvs)) keys) (first_of (map (fun kv => find_value keys kv.2) kvs))
  | VArr l => first_of (map (find_value keys) l)
  | _ => None
  end.

Definition nonblank (s : string) : bool := negb (is_empty (trim s)).
(** The text of the first of [keys] that has one. *)
Definition keyed_text (texts : list (string * option string)) (keys : list string) : option string :=
  first_some (fun key => List.find (fun kt => String.eqb kt.1 key) texts ≫= snd) keys.
Fixpoint extract_event_text (v : Value) : option string :=
  match v with
  | VStr s => Some s
  | VArr l =>
      let text := concat_all (List.filter nonblank (omap id (map extract_event_text l))) in
      if is_empty text then None else Some text
  | VObj kvs =>
      let texts := map (fun kv => (kv.1, extract_event_text kv.2)) kvs in
      keyed_text texts ["result"; "text"; "content"; "message"; "event"; "delta"]
  | _ => None
  end.

Definition FINAL_TYPES : list string := ["result"; "completed"; "complete"; "final"].
Definition is_final_event (raw_type : string) (raw : Value) : bool :=
  mem raw_type FINAL_TYPES
  || (match member "stop_reason" raw with Some VNull | None => false | Some _ => true end)
  || bool_decide (pointer_str ["event"; "type"] raw = Some "message_stop").

Definition member_bool (key : string) (v : Value) : option bool := member key v ≫= as_bool.

Definition normalized_kind (raw_type : string) (raw : Value) : string :=
  if String.eqb raw_type "system" then "started"
  else if mem raw_type FINAL_TYPES then
    if bool_decide (member_bool "is_error" raw = Some true) then "failed" else "completed"
  else if contains "tool_result" raw_type || contains_type "tool_result" raw then "tool-finished"
  else if contains "tool_use" raw_type || contains_type "tool_use" raw then "tool-started"
  else if mem raw_type ["assistant"; "message"; "text"] then "text"
  else "diagnostic".

Definition token_counts (v : Value) : TokenCounts :=
  mkCounts (token_value ["input_tokens"; "inputTokens"; "prompt_tokens"; "promptTokens"] v)
    (token_value ["cached_input_tokens"; "cachedInputTokens"] v)
    (token_value ["output_tokens"; "outputTokens"; "completion_tokens"; "completionTokens"] v)
    (token_value ["cache_creation_input_tokens"] v) (token_value ["cache_read_input_tokens"] v)
    (token_value_optional ["total_tokens"; "totalTokens"] v).

Definition saturating_add (a b : Z) : Z := Z.min u64_max (a + b).

Definition add_counts (acc : TokenCounts * Z) (v : Value) : TokenCounts * Z :=
  let counts := token_counts v in
  let '(a, total_tokens) := acc in
  (mkCounts (saturating_add (input a) (input counts)) (saturating_add (cached_input a) (cached_input counts))
     (saturating_add (output a) (output counts)) (saturating_add (cache_creation a) (cache_creation counts))
     (saturating_add (cache_read a) (cache_read counts)) (total a),
   saturating_add total_tokens (unwrap_or (total counts) (saturating_add (input counts) (output counts)))).

Definition has_usage (e : NormalizedEvent) : bool := is_some (usage e).
Definition is_turn (e : NormalizedEvent) : bool := mem (raw_type e) ["turn.completed"; "turn_completed"].
Definition is_terminal (e : NormalizedEvent) : bool :=
  mem (raw_type e) ["result"; "completed"; "complete"; "final"; "message.completed"].

Section Agent.
Context `{Platform} `{Git} `{JsonCodec} `{JsonPretty} `{OpsEnv} `{Resolver} `{AgentProcess}.

(** ** Commands *)

Definition backend_paths_from_env : BackendPaths :=
  mkBackendPaths (unwrap_or (env_nonempty "CODEX_BIN") "codex") (unwrap_or (env_nonempty "CLAUDE_BIN") "claude")
    (unwrap_or (env_nonempty "QWEN_BIN") "qwen").

Definition codex_command (exe : string) (r : AgentRequest) : result string CommandSpec :=
  let cwd := working_directory r in
  match invocation r with
  | Headless =>
      let? _ := guard (negb (is_some (resume_session r))) "codex native resume is not enabled by the v1 backend contract" in
      Ok (mkCommandSpec exe
            (["exec"; "--cd"; cwd; "--skip-git-repo-check"] ++ codex_safety_args (agent_access r) true
             ++ ["-c"; codex_shell_environment_config] ++ flag_value "--output-last-message" (final_output r) ++ ["-"])
            cwd (prompt_file r) None)
  | Interactive =>
      Ok (mkCommandSpec exe
            (["--cd"; cwd] ++ codex_safety_args (agent_access r) false
             ++ ["-c"; codex_shell_environment_config; "-c"; "check_for_update_on_startup=false"; "-c";
                 "projects={" +:+ quoted (escape_toml (from_utf8_lossy cwd)) +:+ "={trust_level=" +:+ quoted "trusted" +:+ "}}";
                 "--no-alt-screen"; "--"])
            cwd None (prompt_file r))
  end.

Definition claude_command (exe : string) (r : AgentRequest) : result string CommandSpec :=
  let cwd := working_directory r in
  match invocation r with
  | Headless =>
      Ok (mkCommandSpec exe
            (["-p"; "--input-format"; "text"; "--output-format"; "stream-json"; "--verbose";
              "--dangerously-skip-permissions"; "--disallowedTools"; "Agent"; "Task"]
             ++ flag_value "--append-system-prompt" (env_nonempty "MULTIAGENT_CLAUDE_APPEND_SYSTEM_PROMPT")
             ++ flag_value "--resume" (resume_session r))
            cwd (prompt_file r) None)
  | Interactive => Ok (mkCommandSpec exe ["--dangerously-skip-permissions"] cwd None (prompt_file r))
  end.

Definition qwen_command (exe : string) (r : AgentRequest) : result string CommandSpec :=
  match invocation r with
  | Interactive => Err "Qwen Code v1 backend supports headless workflow roles only"
  | Headless =>
      Ok (mkCommandSpec exe
            (["--output-format"; "stream-json"; "--approval-mode";
              match agent_access r with ReadOnly => "plan" | WorkspaceWrite => "yolo" end]
             ++ flag_value "--resume" (resume_session r)
             ++ flag_value "--max-session-turns" (env_nonempty "MULTIAGENT_AGENT_MAX_TURNS")
             ++ flag_value "--max-wall-time" (env_nonempty "MULTIAGENT_AGENT_MAX_WALL_TIME")
             ++ flag_value "--max-tool-calls" (env_nonempty "MULTIAGENT_AGENT_MAX_TOOL_CALLS"))
            (working_directory r) (prompt_file r) None)
  end.

Definition backend_command (paths : BackendPaths) (id : BackendId) (r : AgentRequest) : result string CommandSpec :=
  match id with
  | Codex => codex_command (codex_path paths) r
  | Claude => claude_command (claude_path paths) r
  | Qwen => qwen_command (qwen_path paths) r
  end.

Definition preflight (paths : BackendPaths) (id : BackendId) : result string BackendVersion :=
  let exe := executable paths id in
  let? o := map_err (fun error => "run " +:+ backend_str id +:+ " coding-agent preflight (" +:+ exe +:+ "): " +:+ error)
              (version_output exe) in
  let? _ := guard (success o) (backend_str id +:+ " coding-agent preflight failed for " +:+ exe +:+ ": "
                               +:+ trim (from_utf8_lossy (err_bytes o))) in
  let version := trim (from_utf8_lossy (if is_empty (out_bytes o) then err_bytes o else out_bytes o)) in
  Ok (mkVersion id exe (if is_empty version then "unknown" else version)).

(** ** Output *)

Definition decode_line (id : BackendId) (sequence : nat) (line : string) : NormalizedEvent :=
  let raw := match from_slice line with
             | Some v => canonical_value v
             | None => VObj [("text", VStr line); ("type", VStr "text")]
             end in
  let raw_type := unwrap_or (or_else (member_str "type" raw) (pointer_str ["event"; "type"] raw)) "unknown" in
  let kind := normalized_kind raw_type raw in
  let started := String.eqb kind "tool-started" in
  mkEvent id sequence kind raw_type (find_string ["session_id"; "sessionId"] raw) (extract_event_text raw)
    (or_else (find_string ["tool_use_id"; "toolUseId"] raw) (if started then find_string ["id"] raw else None))
    (if started then find_string ["name"] raw else None)
    (if String.eqb raw_type "result" then negb <$> member_bool "is_error" raw
     else if String.eqb kind "tool-finished" then or_else (negb <$> member_bool "is_error" raw) (Some true)
     else None)
    (find_value ["usage"] raw) raw.

(** The message of an event that may be the last one. *)
Definition message_of (e : NormalizedEvent) : option string :=
  if is_final_event (raw_type e) (raw e) || mem (raw_type e) ["assistant"; "message"; "text"] then
    text ← event_text e; if nonblank text then Some text else None
  else None.

Definition decode_step (id : BackendId) (d : DecodedOutput) (numbered : nat * string) : DecodedOutput :=
  if nonblank numbered.2 then
    let e := decode_line id numbered.1 numbered.2 in
    mkDecoded (decoded_events d ++ [e]) (or_else (message_of e) (final_message d))
      (or_else (event_session e) (decoded_session d))
  else d.
Definition normalize_output (id : BackendId) (bytes : string) : DecodedOutput :=
  foldl (decode_step id) (mkDecoded [] None None) (imap pair (lines (from_utf8_lossy bytes))).

(** The usages with a rendering that was not seen before. *)
Fixpoint unique_usage (seen : list string) (usages : list Value) : list Value :=
  match usages with
  | [] => []
  | u :: us => if mem (to_vec u) seen then unique_usage seen us else u :: unique_usage (to_vec u :: seen) us
  end.
Definition selected_usage (id : BackendId) (events : list NormalizedEvent) : list Value * string :=
  let usages es := omap usage es in
  let turns := usages (List.filter is_turn events) in
  let terminal := first_of (map (fun e => if is_terminal e then usage e else None) (reverse events)) in
  if bool_decide (id = Codex) && negb (bool_decide (turns = [])) then (turns, "turn-sum")
  else match terminal with
       | Some u => ([u], "terminal")
       | None =>
           let unique := unique_usage [] (usages events) in
           (unique, if bool_decide (unique = []) then "unavailable" else "unique-event-sum")
       end.
Definition summarize_usage (id : BackendId) (events : list NormalizedEvent) : UsageSummary :=
  let '(selected, aggregation) := selected_usage id events in
  let '(aggregate, total_tokens) := foldl add_counts (mkCounts 0 0 0 0 0 None, 0) selected in
  mkUsage id (input aggregate) (cached_input aggregate) (output aggregate) (cache_creation aggregate)
    (cache_read aggregate) total_tokens (length (List.filter has_usage events)) aggregation.

(** ** The run of an agent *)

Definition private_file (path : string) : OIO unit :=
  let^ _ := (match parent_of path with
             | Some parent => make_dir_all parent "create agent output directory"
             | None => oret tt
             end) in
  let^ _ := write_file path "" ("create private agent file " +:+ path +:+ ": " +:+ os_error) in
  set_attr path (chmod 432) ("set private agent file permissions " +:+ path +:+ ": " +:+ os_error).
Definition write_private (path bytes : string) : OIO unit :=
  let^ _ := private_file path in
  io (put_file path bytes ("write private agent file " +:+ path +:+ ": " +:+ os_error)).

Definition create_private_dir (path : string) : OIO unit :=
  let^ _ := make_dir_all path ("create agent trace directory " +:+ path) in
  set_attr path (chmod 1528) ("set agent trace directory permissions " +:+ path +:+ ": " +:+ os_error).

Definition agent_timeout : result string (option Z) :=
  let error := "MULTIAGENT_AGENT_TIMEOUT_SECONDS must be a positive integer" in
  match env_nonempty "MULTIAGENT_AGENT_TIMEOUT_SECONDS" with
  | None => Ok None
  | Some value =>
      let? seconds := ok_or (parse_u64 value) error in
      let? _ := guard (negb (seconds =? 0)) error in
      Ok (Some seconds)
  end.

(** [{:04}]. *)
Definition padded (width : nat) (n : Z) : string :=
  let text := u64_to_string n in
  String.concat "" (repeat "0" (width - String.length text)) +:+ text.
Definition attempt_name (number : nat) : string := "attempt-" +:+ padded 4 (Z.of_nat number).

(** The numbers from [number] on, [n] of them. *)
Fixpoint trace_attempts (root : string) (number n : nat) : OIO string :=
  match n with
  | O => ofail ("agent trace attempt limit reached under " +:+ root)
  | S n' =>
      let path := path_join root (attempt_name number) in
      let^ fs := store in
      if present fs path then trace_attempts root (S number) n'
      else
        let^ _ := io (create_dir_all path ("create agent trace attempt " +:+ path)) in
        let^ _ := own path 511 in
        let^ _ := set_attr path (chmod 1528) ("set agent trace attempt permissions " +:+ path +:+ ": " +:+ os_error) in
        let^ _ := write_private (path_join root "latest") (attempt_name number +:+ newline) in
        oret path
  end.
Definition next_trace_attempt (root : string) : OIO string :=
  let^ _ := create_private_dir root in
  trace_attempts root 1 9999.

Definition opt_value {A} (f : A -> Value) (o : option A) : Value := match o with Some a => f a | None => VNull end.
Definition ser_capabilities (c : AgentCapabilities) : Value :=
  VObj [("structured_events", VBool (structured_events c)); ("native_resume", VBool (native_resume c));
        ("usage_events", VBool (usage_events c)); ("interactive", VBool (interactive c))].
Definition ser_normalized_event (e : NormalizedEvent) : Value :=
  VObj [("backend", VStr (backend_str (event_backend e))); ("sequence", VNum (Z.of_nat (sequence e)));
        ("kind", VStr (event_kind e)); ("raw_type", VStr (raw_type e)); ("session_id", opt_value VStr (event_session e));
        ("text", opt_value VStr (event_text e)); ("tool_id", opt_value VStr (tool_id e));
        ("tool_name", opt_value VStr (tool_name e)); ("success", opt_value VBool (event_success e));
        ("usage", opt_value id (usage e)); ("raw", raw e)].
Definition ser_usage (u : UsageSummary) : Value :=
  VObj [("schema_version", VNum 1); ("backend", VStr (backend_str (usage_backend u))); ("input_tokens", VNum (input_tokens u));
        ("cached_input_tokens", VNum (cached_input_tokens u)); ("output_tokens", VNum (output_tokens u));
        ("cache_creation_input_tokens", VNum (cache_creation_input_tokens u));
        ("cache_read_input_tokens", VNum (cache_read_input_tokens u)); ("total_tokens", VNum (total_tokens u));
        ("observed_usage_events", VNum (Z.of_nat (observed_usage_events u))); ("aggregation", VStr (aggregation u))].

Definition run_metadata (id : BackendId) (version : BackendVersion) (spec : CommandSpec)
    (prompt prompt_path output_path trace_dir : string) : Value :=
  canonical_value (VObj
    [("schema_version", VNum 2); ("backend", VStr (backend_str id)); ("executable", VStr (version_executable version));
     ("version", VStr (version_text version)); ("capabilities", ser_capabilities (capabilities id));
     ("cwd", VStr (spec_directory spec)); ("prompt_bytes", VNum (len prompt)); ("prompt_file", VStr prompt_path);
     ("final_output", VStr output_path); ("usage_file", VStr (path_join trace_dir "usage.json"));
     ("workflow_id", VStr (unwrap_or (env_var "MULTIAGENT_WORKFLOW_ID") ""));
     ("role", VStr (unwrap_or (env_var "MULTIAGENT_SUBAGENT_NAME") "orchestrator"))]).

(** [status.success()]. *)
Definition exited_zero (e : AgentEnd) : bool := bool_decide (end_code e = Some 0).
Definition canceled (e : AgentEnd) : bool := negb (end_cancel e =? 0).
Definition exit_code_of (e : AgentEnd) : Z :=
  if end_timed_out e then 124
  else if canceled e then Z.min (128 + end_cancel e) 255
  else match end_code e with
       | Some code => code
       | None => match end_signal e with Some signal => Z.min (128 + signal) 255 | None => 1 end
       end.
Definition exit_reason (e : AgentEnd) : string :=
  if end_timed_out e then "timeout"
  else if canceled e then "canceled"
  else if is_some (end_signal e) then "signal"
  else if exited_zero e then "completed"
  else "nonzero-exit".
Definition exit_record (e : AgentEnd) : Value :=
  canonical_value (VObj
    [("success", VBool (exited_zero e && negb (end_timed_out e) && negb (canceled e))); ("code", VNum (exit_code_of e));
     ("signal", opt_value VNum (end_signal e)); ("timed_out", VBool (end_timed_out e)); ("canceled", VBool (canceled e));
     ("reason", VStr (exit_reason e))]).
(** [ExitCode::from(code.clamp(0, 255) as u8)]. *)
Definition clamp_code (code : Z) : Z := Z.max 0 (Z.min code 255).

(** What the agent and others did to the files while it ran. *)
Definition set_files (fs : gmap string string) : OIO unit :=
  fun h => let w := hw h in (Ok tt, mkHost (mkWorld fs (faults w) (ticks w) (stdout w)) (attrs h) (calls h)).

(** The files of a run that has ended. *)
Definition record_run (id : BackendId) (e : AgentEnd) (output_path trace_dir : string) : OIO Z :=
  let^ _ := write_private (path_join trace_dir "raw-stdout.log") (end_stdout e) in
  let^ _ := write_private (path_join trace_dir "raw-stderr.log") (end_stderr e) in
  let^ _ := print_line (end_stdout e) in
  let decoded := normalize_output id (end_stdout e) in
  let^ _ := write_private (path_join trace_dir "events.jsonl")
              (concat_all (map (fun ev => to_vec (ser_normalized_event ev) +:+ newline) (decoded_events decoded))) in
  let^ _ := write_private (path_join trace_dir "usage.json")
              (to_string_pretty (ser_usage (summarize_usage id (decoded_events decoded)))) in
  let^ _ := (match decoded_session decoded with
             | Some session => write_private (path_join trace_dir "session-id") (session +:+ newline)
             | None => oret tt
             end) in
  let^ fs := store in
  let^ _ := (if negb (bool_decide (id = Codex)) || bool_decide (fs !! output_path = Some "") then
               match final_message decoded with
               | Some message => write_private output_path (message +:+ newline)
               | None => oret tt
               end
             else oret tt) in
  let^ _ := write_private (path_join trace_dir "exit.json") (to_string_pretty (exit_record e)) in
  oret (clamp_code (exit_code_of e)).

Definition run_spec (id : BackendId) (version : BackendVersion) (spec : CommandSpec)
    (prompt_path output_path trace_dir : string) (timeout : option Z) : OIO Z :=
  let^ fs := store in
  let^ prompt := olift (ok_or (fs !! prompt_path) ("read agent prompt " +:+ prompt_path +:+ ": " +:+ os_error)) in
  let^ _ := create_private_dir trace_dir in
  let^ _ := write_private output_path "" in
  let^ _ := write_private (path_join trace_dir "metadata.json")
              (to_string_pretty (run_metadata id version spec prompt prompt_path output_path trace_dir)) in
  let^ fs := store in
  match agent_process spec prompt timeout fs with
  | NotStarted error => ofail ("start " +:+ backend_str id +:+ " coding agent (" +:+ program spec +:+ "): " +:+ error)
  | PromptRefused error => ofail ("write coding-agent prompt: " +:+ error)
  | WaitFailed error => ofail ("wait for " +:+ backend_str id +:+ " coding agent: " +:+ error)
  | Ended e =>
      let^ _ := set_files (end_files e) in
      record_run id e output_path trace_dir
  end.

Definition RUN_OPTIONS : list string :=
  ["backend"; "working-directory"; "prompt-file"; "final-output"; "trace-dir"; "access"; "resume-session"].
Fixpoint run_options (values : gmap string string) (l : list string) : result string (gmap string string) :=
  match l with
  | [] => Ok values
  | arg :: rest =>
      let? key := (if String.eqb arg "--cwd" then Ok "working-directory"
                   else match strip_prefix "--" arg with
                        | Some key => if mem key RUN_OPTIONS then Ok key else Err ("unknown agent run argument: " +:+ arg)
                        | None => Err ("unknown agent run argument: " +:+ arg)
                        end) in
      match rest with
      | value :: rest' =>
          if is_empty value then Err ("agent run --" +:+ key +:+ " requires a value")
          else run_options (<[key := value]> values) rest'
      | [] => Err ("agent run --" +:+ key +:+ " requires a value")
      end
  end.

Definition run_backend (l : list string) : OIO Z :=
  let^ values := olift (run_options ∅ l) in
  let required key := ok_or (values !! key) ("agent run requires --" +:+ key) in
  let^ id := olift (let? value := required "backend" in backend_parse value) in
  let^ cwd := olift (required "working-directory") in
  let^ prompt_path := olift (required "prompt-file") in
  let^ output_path := olift (required "final-output") in
  let^ trace_root := olift (required "trace-dir") in
  let^ access := olift (let? value := required "access" in access_parse value) in
  let^ fs := store in
  let^ _ := ocheck (is_dir fs cwd) ("agent working directory is missing: " +:+ cwd) in
  let^ _ := ocheck (is_some (fs !! prompt_path)) ("agent prompt file is missing: " +:+ prompt_path) in
  let paths := backend_paths_from_env in
  let^ version := olift (preflight paths id) in
  let^ spec := olift (backend_command paths id
                        (mkAgentRequest cwd (Some prompt_path) (Some output_path) access Headless (values !! "resume-session"))) in
  let^ timeout := olift agent_timeout in
  let^ trace_dir := next_trace_attempt trace_root in
  run_spec id version spec prompt_path output_path trace_dir timeout.

End Agent.
