(* ===== verification/AgentProps.v ===== *)
(** * AgentProps: what an agent is started with and what its run leaves *)

From S2P Require Import Prelude Text State Json LogModel Instances Config Execution Dag Lifecycle Snapshot Findings FindingsFacts Policy LeasesProps CompletionFacts LifecycleGates OpsBytes OpsRequest OpsHost Ops OpsFacts OpsBytesProps OpsProps OpsReadProps OpsPublishProps Launch LaunchProps SealProps Shell Agent.

(** ** Command lines *)

Lemma ends_redirect path : ends (match path with Some p => " < " +:+ shell_escape p | None => "" end).
Proof. by destruct path. Qed.

(** The shell reads a rendered command as its program, its arguments and the
    redirection, whatever they contain. *)
Lemma render_tokens spec :
  legacy_prompt_argument spec = None ->
  shell_tokens (render_shell spec)
  = Some (map word (program spec :: map from_utf8_lossy (cmd_args spec))
          ++ match stdin_file spec with Some p => [Less; word p] | None => [] end).
Proof.
  intros Hl. unfold render_shell, shell_tokens. rewrite Hl, lex_escape. cbn [opened lit].
  change ("" +:+ ?x) with x. replace (concat_all _) with (arguments (map from_utf8_lossy (cmd_args spec)))
    by (unfold arguments; by rewrite map_map).
  rewrite lex_arguments by apply ends_redirect. cbn [flush]. destruct (stdin_file spec) as [p|].
  - change (" < " +:+ shell_escape p) with (String " " (String "<" (String " " (shell_escape p)))).
    rewrite lex_space. cbn [flush]. rewrite <- (str_app_nil_r (shell_escape p)).
    match goal with |- lex Bare None ?ts _ = _ => transitivity (lex Bare None (Less :: ts) (shell_escape p +:+ "")); [reflexivity|] end.
    rewrite lex_escape. cbn [opened lit lex flush]. f_equal.
    rewrite !reverse_cons, reverse_app, reverse_involutive, <- app_assoc. done.
  - cbn [lex flush]. f_equal. rewrite reverse_app, reverse_involutive, app_nil_r. done.
Qed.

(** ** Token counts *)

Definition sum (l : list Z) : Z := foldr Z.add 0 l.
Definition in_u64 (n : Z) : Prop := 0 <= n <= u64_max.

Lemma first_some_spec {A B} (f : A -> option B) l b : first_some f l = Some b -> exists a, a ∈ l /\ f a = Some b.
Proof.
  induction l as [|a l IH]; [done|]. cbn. destruct (f a) eqn:E; [intros [= <-]; exists a; split; [left|done]|].
  intros (a' & Hin & Ha)%IH. exists a'. split; [by right|done].
Qed.
Lemma as_u64_range v n : as_u64 v = Some n -> in_u64 n.
Proof. unfold as_u64, u64_ok. destruct v; try done. case_match eqn:E; [|done]. intros [= <-]. unfold in_u64, u64_max in *. lia. Qed.

Lemma token_range names v n : token_value_optional names v = Some n -> in_u64 n.
Proof.
  revert n. induction v as [| | | |l IH|kvs IH] using Value_nested_ind; intros k; try done; cbn [token_value_optional]; intros Hv.
  - apply first_some_spec in Hv as (o & (v & -> & Hin)%list_elem_of_fmap & Ho). rewrite Forall_forall in IH. by eapply IH.
  - unfold or_else in Hv. destruct (first_some _ names) eqn:E.
    + injection Hv as ->. apply first_some_spec in E as (name & _ & Hm). destruct (member name (VObj kvs)); [|done]. by eapply as_u64_range.
    + apply first_some_spec in Hv as (o & (kv & -> & Hin)%list_elem_of_fmap & Ho). rewrite Forall_forall in IH. by eapply IH.
Qed.
Lemma token_value_range names v : in_u64 (token_value names v).
Proof.
  unfold token_value. destruct (token_value_optional names v) eqn:E; [by eapply token_range|]. cbn. unfold in_u64, u64_max. lia.
Qed.

Lemma sum_nonneg (f : Value -> Z) l : (forall v, 0 <= f v) -> 0 <= sum (map f l).
Proof. intros Hf. induction l as [|v l IH]; [done|]. change (0 <= f v + sum (map f l)). specialize (Hf v). lia. Qed.

Lemma saturating_fold (f : Value -> Z) l acc :
  in_u64 acc -> (forall v, 0 <= f v) ->
  foldl (fun a v => saturating_add a (f v)) acc l = Z.min u64_max (acc + sum (map f l)).
Proof.
  revert acc. induction l as [|v l IH]; intros acc Ha Hf; [unfold in_u64 in Ha; cbn; lia|].
  change (sum (map f (v :: l))) with (f v + sum (map f l)). cbn [foldl]. pose proof (Hf v). rewrite IH; [|unfold in_u64, saturating_add, u64_max in *; lia|done].
  pose proof (sum_nonneg f l Hf).
  unfold saturating_add. lia.
Qed.

(** The tokens of one usage record. *)
Definition record_total (v : Value) : Z :=
  let c := token_counts v in unwrap_or (total c) (saturating_add (input c) (output c)).

Lemma record_total_nonneg v : 0 <= record_total v.
Proof.
  assert (forall names, 0 <= token_value names v) as Hn by (intros names; apply token_value_range).
  unfold record_total. destruct (total (token_counts v)) eqn:E; cbn [unwrap_or].
  - unfold token_counts in E. cbn [total] in E. apply token_range in E. unfold in_u64 in E. lia.
  - pose proof (Hn ["input_tokens"; "inputTokens"; "prompt_tokens"; "promptTokens"]).
    pose proof (Hn ["output_tokens"; "outputTokens"; "completion_tokens"; "completionTokens"]).
    unfold saturating_add, token_counts, u64_max. cbn [input output]. lia.
Qed.

Lemma add_counts_fold l :
  foldl add_counts (mkCounts 0 0 0 0 0 None, 0) l =
  let s f := Z.min u64_max (sum (map f l)) in
  (mkCounts (s (fun v => input (token_counts v))) (s (fun v => cached_input (token_counts v))) (s (fun v => output (token_counts v)))
     (s (fun v => cache_creation (token_counts v))) (s (fun v => cache_read (token_counts v))) None, s record_total).
Proof.
  assert (forall l a t, foldl add_counts (a, t) l =
    (mkCounts (foldl (fun x v => saturating_add x (input (token_counts v))) (input a) l)
       (foldl (fun x v => saturating_add x (cached_input (token_counts v))) (cached_input a) l)
       (foldl (fun x v => saturating_add x (output (token_counts v))) (output a) l)
       (foldl (fun x v => saturating_add x (cache_creation (token_counts v))) (cache_creation a) l)
       (foldl (fun x v => saturating_add x (cache_read (token_counts v))) (cache_read a) l) (total a),
     foldl (fun x v => saturating_add x (record_total v)) t l)) as Hsplit.
  { clear l. induction l as [|v l IH]; intros a t; [by destruct a|]. cbn [foldl]. unfold add_counts at 2. by rewrite IH. }
  assert (forall names v, 0 <= token_value names v) as Hn by (intros names v; apply token_value_range).
  rewrite Hsplit. cbn [input cached_input output cache_creation cache_read total]. cbv zeta.
  assert (in_u64 0) by (unfold in_u64, u64_max; lia).
  rewrite !saturating_fold; try done; try (intros v; apply Hn). apply record_total_nonneg.
Qed.

Section Usage.
Context `{JsonCodec}.

Lemma no_usage_selected id events : existsb has_usage events = false -> selected_usage id events = ([], "unavailable").
Proof.
  intros Hu. assert (forall e, e ∈ events -> usage e = None) as Hnone.
  { intros e He. destruct (usage e) as [u|] eqn:E; [|done]. rewrite <- not_true_iff_false, existsb_exists in Hu. destruct Hu.
    exists e. split; [by apply list_elem_of_In|]. unfold has_usage. by rewrite E. }
  assert (forall es, (forall e, e ∈ es -> usage e = None) -> omap usage es = []) as Homap.
  { induction es as [|e es IH]; intros Hes; [done|]. cbn. rewrite (Hes e) by left. apply IH. intros x Hx. apply Hes. by right. }
  unfold selected_usage. rewrite (Homap (List.filter is_turn events)), (Homap events); [|done|].
  2: { intros e [He _]%list_elem_of_In%filter_In. apply Hnone. by apply list_elem_of_In. }
  change (negb (bool_decide (([] : list Value) = []))) with false. rewrite andb_false_r.
  destruct (first_of _) as [u|] eqn:E; [|done]. apply first_some_spec in E as (o & (e & -> & He)%list_elem_of_fmap & Ho).
  apply (elem_of_reverse e events) in He. unfold Datatypes.id in Ho. rewrite (Hnone e He) in Ho. by destruct (is_terminal e).
Qed.

(** C33: token counts do not overflow. Every count of the summary of a run is the
    sum over the usage records that were selected, or the largest 64-bit value if
    the sum is larger, however many events there are and whatever numbers the
    agent printed; without usage records all counts are zero. *)
Theorem usage_summary_exact id events :
  let selected := (selected_usage id events).1 in
  let total_of f := Z.min u64_max (sum (map f selected)) in
  let u := summarize_usage id events in
  input_tokens u = total_of (fun v => input (token_counts v))
  /\ cached_input_tokens u = total_of (fun v => cached_input (token_counts v))
  /\ output_tokens u = total_of (fun v => output (token_counts v))
  /\ cache_creation_input_tokens u = total_of (fun v => cache_creation (token_counts v))
  /\ cache_read_input_tokens u = total_of (fun v => cache_read (token_counts v))
  /\ total_tokens u = total_of record_total
  /\ Forall in_u64 [input_tokens u; cached_input_tokens u; output_tokens u; cache_creation_input_tokens u;
                     cache_read_input_tokens u; total_tokens u]
  /\ (existsb has_usage events = false -> aggregation u = "unavailable" /\ total_tokens u = 0).
Proof.
  cbv zeta. unfold summarize_usage. destruct (selected_usage id events) as [l mode] eqn:E. cbn [fst].
  rewrite add_counts_fold. cbv zeta. cbn [input cached_input output cache_creation cache_read input_tokens cached_input_tokens
    output_tokens cache_creation_input_tokens cache_read_input_tokens total_tokens aggregation].
  split_and!; try done.
  - assert (forall f, (forall v, 0 <= f v) -> in_u64 (Z.min u64_max (sum (map f l)))) as Hr.
    { intros f Hf. pose proof (sum_nonneg f l Hf). unfold in_u64, u64_max. lia. }
    repeat constructor; apply Hr; intros v; first [apply token_value_range | apply record_total_nonneg].
  - intros Hu. rewrite (no_usage_selected id events Hu) in E. injection E as <- <-. done.
Qed.
End Usage.

(** ** The run of an agent *)

(** What a process is, on Unix: an exit status is a byte, signals are positive. *)
Class UnixProcess `{AgentProcess} : Prop := unix_process : forall spec prompt timeout fs e,
  agent_process spec prompt timeout fs = Ended e ->
  match end_code e with Some c => 0 <= c <= 255 | None => True end
  /\ match end_signal e with Some s => 0 < s | None => True end /\ 0 <= end_cancel e.

Definition TRACE_FILES : list string :=
  ["metadata.json"; "raw-stdout.log"; "raw-stderr.log"; "events.jsonl"; "usage.json"; "session-id"; "exit.json"].

Section Runs.
Context `{Platform} `{Git} `{JsonCodec} `{JsonPretty} `{OpsEnv} `{Resolver} `{AgentProcess} `{!UnixProcess}.
Implicit Types (h : Host).

Lemma private_eq d f :
  has_char "/" f = false ->
  private_file (path_join d f) =
  (let^ _ := make_dir_all d "create agent output directory" in
   let^ _ := write_file (path_join d f) "" ("create private agent file " +:+ path_join d f +:+ ": " +:+ os_error) in
   set_attr (path_join d f) (chmod 432) ("set private agent file permissions " +:+ path_join d f +:+ ": " +:+ os_error)).
Proof. intros Hf. unfold private_file. by rewrite parent_of_join. Qed.

Lemma kept_write_file q p t e : p <> q -> kept q (write_file p t e).
Proof. intros. unfold write_file. keep. Qed.
Lemma kept_write_private q d f bytes :
  has_char "/" f = false -> path_join d f <> q -> d +:+ "/" <> q -> kept q (write_private (path_join d f) bytes).
Proof. intros Hf Hq Hd. unfold write_private. rewrite private_eq by done. pose proof (kept_make_dir q d). pose proof (kept_write_file q). keep. Qed.

Lemma write_private_ok p bytes h u h1 : write_private p bytes h = (Ok u, h1) -> files (hw h1) !! p = Some bytes.
Proof.
  unfold write_private. intros Hr. apply obind_ok in Hr as (? & h2 & _ & [Hp _]%put_ok). by rewrite Hp, lookup_insert_eq.
Qed.

Lemma exit_zero e :
  match end_code e with Some c => 0 <= c <= 255 | None => True end ->
  match end_signal e with Some s => 0 < s | None => True end -> 0 <= end_cancel e ->
  let code := clamp_code (exit_code_of e) in
  0 <= code <= 255 /\ (code = 0 <-> end_code e = Some 0 /\ end_timed_out e = false /\ end_cancel e = 0).
Proof.
  intros Hc Hs Hn. unfold clamp_code, exit_code_of, canceled. split; [lia|].
  destruct (end_timed_out e); [split; [lia|by intros (_ & [=] & _)]|].
  destruct (Z.eqb_spec (end_cancel e) 0) as [E0|E0]; cbn [negb]; [|split; [lia|tauto]].
  destruct (end_code e) as [c|].
  - split; [intros; split_and!; [f_equal; lia|done|done]|intros ([= ->] & _); lia].
  - destruct (end_signal e); (split; [lia|by intros ([=] & _)]).
Qed.

(** The message of the run: what the agent left there itself or, unless it is
    codex with a message of its own, the last message of its output. *)
Definition run_message (id : BackendId) (e : AgentEnd) (output_path : string) : option string :=
  let left := end_files e !! output_path in
  match final_message (normalize_output id (end_stdout e)) with
  | Some message =>
      if negb (bool_decide (id = Codex)) || bool_decide (left = Some "") then Some (message +:+ newline) else left
  | None => left
  end.

Lemma set_files_ok fs h u h1 : set_files fs h = (Ok u, h1) -> files (hw h1) = fs.
Proof. unfold set_files. intros Hr. by injection Hr as _ <-. Qed.

(** One step of the record that leaves the output alone. *)
Ltac kept_step Hr :=
  let hn := fresh "h" in let Hs := fresh "Hs" in
  apply obind_ok in Hr as (? & hn & Hs & Hr);
  match goal with |- context [files (hw _) !! ?q = run_message _ _ ?q] =>
    apply (kept_run q) in Hs; [|solve [auto | case_match; auto | keep]] end.

Lemma record_run_ok id e d f trace_dir h code h1 :
  let output_path := path_join d f in
  has_char "/" f = false -> f <> "" -> Forall (fun g => path_join trace_dir g <> output_path) TRACE_FILES ->
  record_run id e output_path trace_dir h = (Ok code, h1) -> files (hw h) = end_files e ->
  code = clamp_code (exit_code_of e)
  /\ files (hw h1) !! path_join trace_dir "exit.json" = Some (to_string_pretty (exit_record e))
  /\ files (hw h1) !! output_path = run_message id e output_path.
Proof.
  intros output_path Hf Hne Htr Hr Hfs. unfold TRACE_FILES in Htr. rewrite !Forall_cons in Htr. destruct_and?.
  unfold record_run in Hr. assert (trace_dir +:+ "/" <> output_path) as Hd by (by apply dir_entry_ne).
  assert (forall g bytes, has_char "/" g = false -> path_join trace_dir g <> output_path ->
    kept output_path (write_private (path_join trace_dir g) bytes)) as Hk by (intros; by apply kept_write_private).
  do 6 kept_step Hr. apply obind_ok in Hr as (fs & hs & [-> ->]%store_ok & Hr).
  assert (files (hw h6) !! output_path = end_files e !! output_path) as Hleft by congruence.
  apply obind_ok in Hr as (? & h7 & Hm & Hr). apply obind_ok in Hr as (? & h8 & He & [<- <-]%oret_ok). split; [done|].
  split; [by eapply write_private_ok|]. apply (kept_run output_path) in He; [|by apply Hk]. rewrite He.
  unfold run_message. rewrite <- Hleft. destruct (negb _ || _), (final_message _) as [message|].
  - by apply write_private_ok in Hm.
  - by apply oret_ok in Hm as [_ ->].
  - by apply oret_ok in Hm as [_ ->].
  - by apply oret_ok in Hm as [_ ->].
Qed.

End Runs.

Module AgentWitness.
#[local] Instance platform : Platform := toy_platform (fun _ => None) 0.
#[local] Instance env : OpsEnv := {|
  utc_now n := Z.of_nat n; system_nanos n := Some (Z.of_nat n); rfc3339_millis := u64_to_string;
  parse_from_rfc3339 := parse_u64; process_id := 7; umask := 18; between store := store
|}.
(** An agent that prints its result and exits. *)
Definition printed : string := to_vec (VObj [("type", VStr "result"); ("result", VStr "all done")]).
Definition ending (fs : gmap string string) : AgentEnd := mkAgentEnd (Some 0) None false 0 printed "" fs.
#[local] Instance process : AgentProcess := {|
  version_output _ := Ok (mkOutput (Some 0) "1.0" ""); agent_process _ _ _ fs := Ended (ending fs)
|}.
#[local] Instance unix : UnixProcess.
Proof. intros spec prompt timeout fs e He. injection He as <-. cbn. lia. Qed.

Definition start : Host :=
  mkHost (mkWorld (list_to_map [("/work/prompt.md", "do it"); ("/work/out.txt", "old message")]) [] 0 []) (fun _ => mkAttr 0 432 false) [].
Definition version : BackendVersion := mkVersion Claude "claude" "1.0".
Definition spec : CommandSpec := mkCommandSpec "claude" ["-p"] "/work" (Some "/work/prompt.md") None.

End AgentWitness.
