(* ===== verification/Reports.v ===== *)
(** * Reports: [runtime/src/runtime.rs], roles, reports and command lines

    The decisions the session takes on text: what an agent's pane or its last
    message says about its state, which prompt, access and user identifier a
    role gets, and the command lines that agents run with. *)

From S2P Require Import Prelude Text State Json LogModel Config Execution Dag Lifecycle Snapshot Findings Policy OpsBytes OpsRequest OpsHost Ops Launch Shell Agent.

(** ** Text *)

Definition tail_lines (text : string) (maximum : nat) : string :=
  let ls := lines text in
  let result := join newline (drop (length ls - maximum) ls) in
  if negb (is_empty result) && ends_with newline text then result +:+ newline else result.
Definition last_nonempty_line (text : string) : string :=
  unwrap_or (List.find nonblank (reverse (lines text))) "".

Fixpoint csv_unique_from (values : list string) (l : list string) : list string :=
  match l with
  | [] => values
  | v :: rest => if mem v values then csv_unique_from values rest else csv_unique_from (values ++ [v]) rest
  end.
Definition csv_values (raw : string) : list string :=
  csv_unique_from [] (List.filter (fun v => negb (is_empty v)) (map trim (split "," raw))).

Definition any_contains (words : list string) (text : string) : bool := existsb (fun w => contains w text) words.

(** [text.trim_matches(['\r', '\n'])]. *)
Fixpoint trim_breaks_start (s : string) : string :=
  match s with
  | String c s' => if Ascii.eqb c nl || Ascii.eqb c cr then trim_breaks_start s' else s
  | EmptyString => ""
  end.
Fixpoint trim_breaks_end (s : string) : string :=
  match s with
  | EmptyString => ""
  | String c s' =>
      let t := trim_breaks_end s' in
      if is_empty t && (Ascii.eqb c nl || Ascii.eqb c cr) then "" else String c t
  end.
Definition trim_breaks (s : string) : string := trim_breaks_end (trim_breaks_start s).

(** The part of [s] behind the first [p]. *)
Definition after_first (p s : string) : option string := snd <$> split_once_str p s.

Definition starts_with_space (s : string) : bool := existsb (fun w => starts_with w s) whitespace.
(** [s.split_whitespace().next()]. *)
Fixpoint until_space (s : string) : string :=
  if starts_with_space s then "" else match s with EmptyString => "" | String c s' => String c (until_space s') end.
Definition first_word (s : string) : option string :=
  let t := trim_start s in if is_empty t then None else Some (until_space t).

(** ** Reports *)

Definition vertical_bar : string := String "226" (String "148" (String "130" "")).   (* U+2502 *)
Definition classify_capture (capture : string) : string :=
  let lower := to_ascii_lowercase capture in
  if any_contains ["blocked"; "need input"; "waiting for"; "cannot proceed"] lower then "blocked"
  else if any_contains ["final status"; "completed"; "complete_task"; "assignment complete"; "task complete";
                        "finished assignment"; "work completed"; "done with"; "worked for "] lower then "done"
  else if (match last (lines capture) with
           | Some line =>
               let value := to_ascii_lowercase (trim_end line) in
               ends_with vertical_bar value || ends_with ">" value || (contains "codex" value && ends_with "?" value)
           | None => false
           end) then "idle"
  else if is_empty capture then "unknown"
  else "busy".

Definition readiness_state (text : string) : string :=
  let lower := to_ascii_lowercase text in
  if any_contains ["not authenticated"; "authentication required"; "login required"; "sign in"; "setup required";
                   "api key required"; "failed to authenticate"; "claude login"; "log in to claude"; "not logged in";
                   "select theme"; "choose your setup"; "trust this folder"; "do you trust"; "press enter to continue"] lower
  then "blocked"
  else if any_contains ["codex prompt ready"; "claude prompt ready"; "prompt ready"; "restored codex prompt ready";
                        "restored claude prompt ready"; "what can i help"; "ready for input"; "type your message";
                        "claude code"; "bypass permissions mode"; "dangerously-skip-permissions";
                        "use /skills to list available skills"; " default "] lower
  then "ready"
  else "waiting".

Definition numbered (prefix : string) : bool :=
  match or_else (strip_suffix "." prefix) (strip_suffix ")" prefix) with
  | Some number => negb (is_empty number) && all_chars is_ascii_digit number
  | None => false
  end.
Definition unwrap_with (wrapper value : string) : string :=
  let w := String.length wrapper in
  if starts_with wrapper value && ends_with wrapper value && (2 * w <=? String.length value)%nat
  then String.substring w (String.length value - 2 * w) value else value.
Definition normalize_report_line (line : string) : string :=
  let value := trim line in
  let value := match split_once " " value with
               | Some (prefix, rest) =>
                   if numbered prefix || mem prefix ["-"; "*"] then trim_start rest else value
               | None => value
               end in
  foldl (fun v wrapper => unwrap_with wrapper v) value ["`"; "**"; "__"].

Definition accepted_report (text : string) : bool :=
  existsb (fun line =>
    let value := to_ascii_lowercase (normalize_report_line line) in
    String.eqb value "accepted" || starts_with "accepted " value || starts_with "verdict: accepted" value
    || starts_with "verdict=accepted" value
    || (starts_with "review-record: type=" value && contains " verdict=pass diff=" value)) (lines text).

Definition looks_blocked_report (text : string) : bool :=
  existsb (fun raw_line =>
    let line := to_ascii_lowercase (trim raw_line) in
    existsb (fun prefix =>
      match strip_prefix prefix line with
      | Some tail => is_empty tail || starts_with_space tail || existsb (fun c => starts_with c tail) [":"; "."; "-"]
      | None => false
      end) ["blocked"; "blocker"; "need input"; "waiting for"; "cannot proceed"]
    || existsb (fun prefix =>
      match strip_prefix prefix line with
      | Some tail =>
          let tail := trim_start tail in
          starts_with "blocked" tail || starts_with "needs input" tail || starts_with "cannot proceed" tail
      | None => false
      end) ["final status:"; "status:"]) (lines text).

Definition looks_done_report (text : string) : bool :=
  existsb (fun line =>
    let lower := to_ascii_lowercase (trim_start line) in
    existsb (fun prefix => starts_with prefix lower)
      ["final status:"; "complete_task"; "assignment complete"; "task complete"; "finished assignment"; "work completed"; "done with"]
    || (match after_first "worked for " lower with
        | Some (String c _) => is_ascii_digit c
        | _ => false
        end)) (lines text).

Definition nonzero_exec_status (text : string) : bool :=
  existsb (fun line =>
    existsb (fun marker =>
      match (after_first marker line ≫= first_word) ≫= parse_u32 with Some value => 0 <? value | None => false end)
      ["final status: codex exec exited rc="; "final status: coding agent exited rc="]) (lines text).

(** The verdict of a review in a message: exactly one of the two markers. *)
Definition review_output_verdict (message kind diff : string) : option string :=
  let has verdict := existsb (fun line => String.eqb (normalize_report_line line)
                        ("review-record: type=" +:+ kind +:+ " verdict=" +:+ verdict +:+ " diff=" +:+ diff)) (lines message) in
  match has "pass", has "findings" with
  | true, false => Some "pass"
  | false, true => Some "findings"
  | _, _ => None
  end.

(** ** Paths of a diff *)

Definition path_contains (base candidate : string) : bool := String.eqb candidate base || starts_with (base +:+ "/") candidate.

Definition header_changed (line : string) : list string :=
  match strip_prefix "diff --git a/" line ≫= split_once_str " b/" with
  | Some (old, new) =>
      List.filter (fun path => negb (is_empty path) && negb (String.eqb path "/dev/null"))
        [old; trim (hd "" (split tab new))]
  | None => []
  end.
Definition diff_changed_paths (diff : string) : list string :=
  btree_list (list_to_set (concat (map header_changed (lines (from_utf8_lossy diff)))) : gset string).

(** ** Roles *)

Definition role_prompt_name (name role : string) : option string :=
  let lower := to_ascii_lowercase name in
  if contains "plan-alignment-reviewer" lower then Some "prompts/roles/plan-alignment-reviewer.md"
  else if contains "read-only-integrity-reviewer" lower then Some "prompts/roles/read-only-integrity-reviewer.md"
  else if contains "ops-reviewer" lower then Some "prompts/roles/ops-reviewer.md"
  else if String.eqb role "ops" then Some "prompts/roles/ops-agent.md"
  else if contains "contract-scout" lower || String.eqb role "scout" then Some "prompts/roles/contract-scout.md"
  else if contains "acceptance-scout" lower then Some "prompts/roles/acceptance-scout.md"
  else if contains "build-verifier" lower then Some "prompts/roles/build-verifier.md"
  else if String.eqb role "worker" && contains "ops-plan" lower then Some "prompts/roles/ops-plan-worker.md"
  else if mem role ["verifier"; "reviewer"] || contains "verifier" lower || contains "review" lower then Some "prompts/verifier.md"
  else if String.eqb role "reader" then Some "prompts/roles/repository-reader.md"
  else if String.eqb role "worker" || starts_with "worker-" lower then Some "prompts/worker.md"
  else None.
(** The file name of the prompt. *)
Definition prompt_file_name (name role : string) : option string :=
  snd <$> (role_prompt_name name role ≫= after_last "/").

Definition role_can_start_before_contract_gate (name role prompt_file : string) : bool :=
  let lower := to_ascii_lowercase name in
  mem role ["ops"; "reader"; "scout"]
  || mem prompt_file ["ops-agent.md"; "ops-reviewer.md"; "contract-scout.md"; "plan-alignment-reviewer.md"]
  || any_contains ["ops-reviewer"; "read-only-integrity-reviewer"; "contract-scout"; "plan-alignment-reviewer"] lower.

Definition assignment_role_for_spawn (name role : string) : string :=
  let prompt := unwrap_or (role_prompt_name name role) "" in
  if mem prompt ["prompts/roles/acceptance-scout.md"; "prompts/roles/contract-scout.md"] then "scout"
  else if String.eqb role "reader" then "exploration"
  else if mem role ["verifier"; "reviewer"] then "verifier"
  else if String.eqb role "scout" then "scout"
  else if String.eqb role "ops" then "ops"
  else if mem prompt ["prompts/verifier.md"; "prompts/roles/build-verifier.md"; "prompts/roles/read-only-integrity-reviewer.md"]
  then "verifier"
  else "exploitation".

Definition codex_access_for_spawn (name role : string) : RoleAccess :=
  let lower := to_ascii_lowercase name in
  if mem role ["ops"; "reader"] then ReadOnly
  else if mem role ["reviewer"; "verifier"; "scout"] || starts_with "verifier-" lower || contains "reviewer" lower
          || contains "plan-alignment-reviewer" lower
          || mem (unwrap_or (prompt_file_name name role) "")
               ["verifier.md"; "build-verifier.md"; "read-only-integrity-reviewer.md"; "acceptance-scout.md";
                "contract-scout.md"; "plan-alignment-reviewer.md"; "scope-guard.md"; "validation-coordinator.md"]
  then ReadOnly
  else WorkspaceWrite.

Definition role_runtime_uid (role : string) (access : RoleAccess) : Z :=
  if String.eqb role "ops" then OPS_UID
  else if String.eqb role "reviewer" then REVIEWER_UID
  else if bool_decide (access = WorkspaceWrite) then WRITER_UID
  else READER_UID.

(** The role of a launch, from the role of the assignment. *)
Definition authority_role_for (name role : string) : string :=
  let assignment_role := assignment_role_for_spawn name role in
  if String.eqb assignment_role "scout" then "scout"
  else if String.eqb assignment_role "ops" then "ops"
  else if String.eqb assignment_role "verifier" then if String.eqb role "reviewer" then "reviewer" else "verifier"
  else if is_empty role then "worker"
  else role.

(** [{:02}]. *)
Definition iteration_reviewer_name (kind : string) (iteration : Z) : string :=
  if String.eqb kind "technical" then "technical-verifier-" +:+ padded 2 iteration
  else kind +:+ "-reviewer-" +:+ padded 2 iteration.

(** ** Command lines *)

Definition git_safe_directory_values (root : string) : list (string * string) :=
  [("GIT_CONFIG_COUNT", "1"); ("GIT_CONFIG_KEY_0", "safe.directory"); ("GIT_CONFIG_VALUE_0", root)].

Definition build_agent_runner_args (cli working_directory prompt output trace_dir : string) (access : RoleAccess)
    (resume : option string) : list string :=
  ["agent"; "run"; "--backend"; cli; "--working-directory"; working_directory; "--prompt-file"; prompt;
   "--final-output"; output; "--trace-dir"; trace_dir; "--access"; access_str access] ++ flag_value "--resume-session" resume.
Definition build_agent_runner_command (exe cli working_directory prompt output trace_dir : string) (access : RoleAccess)
    (resume : option string) : string :=
  shell_escape exe +:+ arguments (build_agent_runner_args cli working_directory prompt output trace_dir access resume).

Definition wrap_linux_role_sandbox (command exe : string) (write_roots : list string) : string :=
  shell_escape exe +:+ " role-exec " +:+ join " " (map (fun path => "--allow-write " +:+ shell_escape path) write_roots)
  +:+ " -- /bin/sh -c " +:+ shell_escape command.

(** ** Failed operations *)

Definition failed_operation_disposition (result : Value) : option string :=
  if bool_decide ((pointer ["outcome"; "terminal"] result ≫= as_bool) = Some true) then
    value ← pointer_str ["outcome"; "disposition"] result; if mem value ["failed"; "blocked"] then Some value else None
  else None.
Definition failed_operation_summary (result : Value) (disposition : string) : string :=
  let field key := text ← member_str key result; if nonblank text then Some text else None in
  "reviewed operation " +:+ disposition +:+ ": "
  +:+ unwrap_or (or_else (field "message") (field "code")) "the reviewed operation returned no failure detail".
