(* ===== verification/Session.v ===== *)
(** * Session: [runtime/src/runtime.rs], the agents of a session

    Agents run in the windows of a terminal multiplexer. The session starts,
    watches, ends and recovers them; what it knows is in files below
    [subagents/]. The multiplexer and the commands of this program that are run
    as child processes are outside: each call is recorded, its answer and what
    agents and children meanwhile did to the files are the oracle's. *)

From S2P Require Import Prelude Text State Json LogModel Config Execution Dag Lifecycle Snapshot Findings Policy OpsBytes OpsRequest OpsHost Ops Launch Shell Agent Reports.

(** ** Calls out of the process *)

Inductive External : Type :=
| Tmux (args : list string)
| Child (args : list string).     (* [multiagent ARGS] *)

Record Session := mkSession {
  sworld : World;
  history : list External;
  parallel : option string         (* MULTIAGENT_ALLOW_PARALLEL_WORKERS, which the process changes *)
}.

Definition SIO (A : Type) : Type := Session -> result string A * Session.
Definition sret {A} (a : A) : SIO A := fun s => (Ok a, s).
Definition sfail {A} (e : string) : SIO A := fun s => (Err e, s).
Definition sbind {A B} (m : SIO A) (k : A -> SIO B) : SIO B :=
  fun s => match m s with
           | (Ok a, s') => k a s'
           | (Err e, s') => (Err e, s')
           end.
Notation "'let$' x ':=' m 'in' k" := (sbind m (fun x => k))
  (at level 10, x pattern, m at level 100, k at level 200) : io_scope.
Definition slift {A} (r : result string A) : SIO A := fun s => (r, s).
Definition scheck (b : bool) (e : string) : SIO unit := if b then sret tt else sfail e.
Definition swhen (b : bool) (m : SIO unit) : SIO unit := if b then m else sret tt.
(** An operation of the world. *)
Definition sio {A} (m : IO A) : SIO A :=
  fun s => let '(r, w) := m (sworld s) in (r, mkSession w (history s) (parallel s)).
(** [let _ = ...] and [.ok()]. *)
Definition sattempt {A} (m : SIO A) : SIO (result string A) := fun s => let '(r, s') := m s in (Ok r, s').
Definition smap_err {A} (f : string -> string) (m : SIO A) : SIO A := fun s => let '(r, s') := m s in (map_err f r, s').

(** The answers of the outside. *)
Class Externals := external : list External -> External -> gmap string string -> result string Output * gmap string string.
(** Whether a file may be executed, and whether a process is alive. *)
Class Processes := {
  is_executable : gmap string string -> string -> bool;
  current_exe : result string string;
  build_root : string;             (* the framework directory at compile time *)
  alive : Z -> nat -> bool
}.

(** ** Numbers of seconds: [str::parse::<f64>] *)

Inductive F64 : Type := Finite (neg : bool) (mantissa exponent : Z) | Infinite (neg : bool) | NaN.

Fixpoint digits_value (acc : Z) (s : string) : option Z :=
  match s with
  | EmptyString => Some acc
  | String c s' => if is_ascii_digit c then digits_value (acc * 10 + (code c - 48)) s' else None
  end.
Definition exponent_value (s : string) : option Z :=
  let unsigned t := if is_empty t then None else digits_value 0 t in
  match s with
  | String "-" t => Z.opp <$> unsigned t
  | String "+" t => unsigned t
  | _ => unsigned s
  end.
Definition number_value (s : string) : option (Z * Z) :=
  let '(m, e) := match or_else (split_once "e" s) (split_once "E" s) with
                 | Some (m, e) => (m, exponent_value e)
                 | None => (s, Some 0)
                 end in
  let '(whole, fraction) := unwrap_or (split_once "." m) (m, "") in
  if is_empty (whole +:+ fraction) then None
  else
    v ← digits_value 0 (whole +:+ fraction); e ← e;
    Some (v, e - len fraction).
Definition parse_f64 (s : string) : option F64 :=
  let unsigned neg t :=
    let lower := to_ascii_lowercase t in
    if mem lower ["inf"; "infinity"] then Some (Infinite neg)
    else if String.eqb lower "nan" then Some NaN
    else '(m, e) ← number_value t; Some (Finite neg m e) in
  match s with
  | String "-" t => unsigned true t
  | String "+" t => unsigned false t
  | _ => unsigned false s
  end.

(** [m * 10 ^ e < bound], and [> 2 ^ -1075]: what rounds below infinity and away
    from zero. *)
Definition below (m e bound : Z) : bool := if 0 <=? e then m * 10 ^ e <? bound else m <? bound * 10 ^ (- e).
Definition is_finite (x : F64) : bool := match x with Finite _ m e => below m e (2 ^ 1024 - 2 ^ 970) | _ => false end.
Definition is_negative (x : F64) : bool :=
  match x with
  | Finite neg m e => neg && (if 0 <=? e then 1 <? m * 2 ^ 1075 * 10 ^ e else 10 ^ (- e) <? m * 2 ^ 1075)
  | Infinite neg => neg
  | NaN => false
  end.

(** [Instant::now() + Duration::from_secs_f64(x)], which may overflow, and the
    reading of the clock. *)
Class Clock := {
  deadline_after : nat -> F64 -> option Z;
  instant_at : nat -> Z;
  f64_display : F64 -> string;
  patience : nat    (* rounds of a waiting loop that are looked at *)
}.

(** ** Configuration *)

Record RuntimeConfig := mkConfig {
  session : string; cfg_root : string; cfg_state : string; logs : string; policy_file : string; prompt_root : string;
  worker_cli : string; subagent_cli : string; verifier_cli : string; codex_bin : string; claude_bin : string;
  qwen_bin : string; code_exec : bool; agent_headless : bool
}.

Definition cli_bin (cfg : RuntimeConfig) (cli : string) : result string string :=
  if String.eqb cli "codex" then Ok (codex_bin cfg)
  else if String.eqb cli "claude" then Ok (claude_bin cfg)
  else if String.eqb cli "qwen" then Ok (qwen_bin cfg)
  else Err ("unsupported coding-agent backend '" +:+ cli +:+ "' (expected codex, claude, or qwen)").
Definition headless (cfg : RuntimeConfig) (cli : string) : bool :=
  String.eqb cli "qwen" || agent_headless cfg || String.eqb cli "codex" && code_exec cfg.

Definition validate_cli (value : string) : result string unit := let? _ := backend_parse value in Ok tt.

Definition agent_dir (cfg : RuntimeConfig) (name : string) : string := path_join (path_join (cfg_state cfg) "subagents") name.
Definition assignment_of (cfg : RuntimeConfig) (name : string) : string := path_join (path_join (cfg_state cfg) "assignments") name.
Definition agent_trace (cfg : RuntimeConfig) (name : string) : string := path_join (path_join (logs cfg) "agents") name.

Definition required_value (args : list string) (label : string) : result string string :=
  match args with
  | value :: _ => if is_empty value then Err (label +:+ " requires a value") else Ok value
  | [] => Err (label +:+ " requires a value")
  end.
Definition one_name (command : string) (args : list string) : result string string :=
  match args with
  | [name] => if is_empty name then Err (command +:+ " requires NAME") else let? _ := validate_name name in Ok name
  | _ => Err (command +:+ " requires NAME")
  end.
Definition named_args (command : string) (args : list string) : result string (string * list string) :=
  let? first := first_arg args (command +:+ " requires NAME") in
  let? _ := validate_name first.1 in Ok first.

(** The states in which an agent has ended. *)
Definition ENDED_STATUSES : list string := ["done"; "failed"; "blocked"; "exited"; "finalized"; "killed"; "missing"].

Record Recovery := mkRecovery {
  recovery_name : string; action : string; reason : string; recovery_status : string; window : string; dir : string
}.
Definition recovery_row (r : Recovery) : string :=
  join tabs [recovery_name r; action r; reason r; recovery_status r; window r; dir r].

Section Session.
Context `{Platform} `{Git} `{JsonCodec} `{JsonPretty} `{Resolver} `{Externals} `{Processes} `{Clock}.

Definition load_config : result string RuntimeConfig :=
  let? root := root in
  let? state := state_dir in
  let worker := unwrap_or (env_nonempty "WORKER_CLI") "claude" in
  let subagent := unwrap_or (env_nonempty "SUBAGENT_CLI") worker in
  let verifier := unwrap_or (env_nonempty "VERIFIER_CLI") "codex" in
  let? _ := validate_cli worker in
  let? _ := validate_cli subagent in
  let? _ := validate_cli verifier in
  let framework := unwrap_or (or_else (env_nonempty "MULTIAGENT_PROMPT_MODULE_ROOT") (env_nonempty "MULTIAGENT_FRAMEWORK_ROOT")) build_root in
  Ok (mkConfig (unwrap_or (env_nonempty "MULTIAGENT_SESSION") "multiagent") root state
        (unwrap_or (env_nonempty "MULTIAGENT_LOG_DIR") (path_join state "logs"))
        (unwrap_or (env_nonempty "MULTIAGENT_WRITE_POLICY") (path_join root "docs/write-policy.paths"))
        framework worker subagent verifier (unwrap_or (env_nonempty "CODEX_BIN") "codex")
        (unwrap_or (env_nonempty "CLAUDE_BIN") "claude") (unwrap_or (env_nonempty "QWEN_BIN") "qwen")
        (bool_decide (env_var "MULTIAGENT_CODEX_EXEC" = Some "1"))
        (bool_decide (env_var "MULTIAGENT_AGENT_HEADLESS" = Some "1"))).

Definition sfiles : SIO (gmap string string) := sio get_files.
Definition print_text (s : string) : SIO unit := sio (println s).

(** A call out: recorded, answered, and the files are what is left. *)
Definition call (e : External) : SIO Output :=
  fun s =>
    let w := sworld s in
    let '(r, fs) := external (history s) e (files w) in
    (r, mkSession (mkWorld fs (faults w) (ticks w) (stdout w)) (history s ++ [e]) (parallel s)).

(** ** The multiplexer *)

Definition tmux_output (args : list string) : SIO Output :=
  smap_err (fun error => "run tmux: " +:+ error) (call (Tmux (flag_value "-S" (env_nonempty "MULTIAGENT_TMUX_SOCKET") ++ args))).
Definition tmux_success (args : list string) : SIO bool :=
  let$ r := sattempt (tmux_output args) in
  sret (match r with Ok o => success o | Err _ => false end).
Definition tmux_checked (args : list string) : SIO unit :=
  let$ o := tmux_output args in
  scheck (success o) ("tmux " +:+ join " " args +:+ " failed: " +:+ trim (from_utf8_lossy (err_bytes o))).

Definition window_target (cfg : RuntimeConfig) (name : string) : string := session cfg +:+ ":" +:+ name.
Definition window_exists (session_ name : string) : SIO bool :=
  let$ r := sattempt (tmux_output ["list-windows"; "-t"; session_; "-F"; "#W"]) in
  sret (match r with Ok o => success o && mem name (lines (from_utf8_lossy (out_bytes o))) | Err _ => false end).
Definition capture_window (session_ name : string) (count : Z) : SIO string :=
  let$ o := tmux_output ["capture-pane"; "-t"; session_ +:+ ":" +:+ name; "-p"; "-J"; "-S"; "-" +:+ u64_to_string count] in
  let$ _ := scheck (success o) (trim (from_utf8_lossy (err_bytes o))) in
  sret (trim_end (from_utf8_lossy (out_bytes o))).
Definition kill_window (cfg : RuntimeConfig) (name : string) : SIO unit := tmux_checked ["kill-window"; "-t"; window_target cfg name].

(** ** Child processes *)

Definition run_self_output (args : list string) : SIO Output :=
  let$ _ := slift (map_err (fun error => "resolve multiagent executable: " +:+ error) current_exe) in
  let$ o := smap_err (fun error => "run multiagent command: " +:+ error) (call (Child args)) in
  let$ _ := scheck (success o) (trim (from_utf8_lossy (err_bytes o))) in
  sret o.
Definition run_self_owned (args : list string) : SIO unit := let$ _ := run_self_output args in sret tt.
Definition run_self_text (args : list string) : SIO string :=
  let$ o := run_self_output args in sret (trim (from_utf8_lossy (out_bytes o))).

(** ** Commands and files *)

Fixpoint search_path (fs : gmap string string) (command : string) (directories : list string) : option string :=
  match directories with
  | [] => None
  | d :: ds => if is_executable fs (push_path d command) then Some (push_path d command) else search_path fs command ds
  end.
Definition resolve_command_path (fs : gmap string string) (command : string) : result string string :=
  let missing := "missing required command: " +:+ command in
  if has_char "/" command then
    if is_executable fs command then ok_or (resolve fs command) ("resolve required command " +:+ command +:+ ": " +:+ os_error)
    else Err missing
  else
    match env_var "PATH" ≫= (fun paths => search_path fs command (split ":" paths)) with
    | Some candidate => ok_or (resolve fs candidate) ("resolve required command " +:+ candidate +:+ ": " +:+ os_error)
    | None => Err missing
    end.
Definition require_command (command : string) : SIO unit :=
  let$ fs := sfiles in
  let$ _ := slift (resolve_command_path fs command) in sret tt.

Definition write_text (path text label : string) : SIO unit :=
  smap_err (fun error => label +:+ ": " +:+ error) (sio (atomic_write path text)).
Definition make_dirs (path context : string) : SIO unit := sio (create_dir_all path context).
Definition append_text (path text : string) : SIO unit :=
  let$ _ := (match parent_of path with Some parent => make_dirs parent "create append directory" | None => sret tt end) in
  sio (append_file path text (io_error "append file")).
Definition now_text : SIO string := sio timestamp.

Definition read_trimmed (fs : gmap string string) (path : string) : option string := trim_breaks <$> fs !! path.
Definition file_nonempty (fs : gmap string string) (path : string) : bool :=
  match fs !! path with Some t => negb (is_empty t) | None => is_dir fs path end.
(** [fs::read_to_string(..).unwrap_or_default()]. *)
Definition text_of (fs : gmap string string) (path : string) : string := unwrap_or (fs !! path) "".
Definition status_in (fs : gmap string string) (cfg : RuntimeConfig) (name : string) : string :=
  unwrap_or (read_trimmed fs (path_join (agent_dir cfg name) "status")) "unknown".
Definition env_of (fs : gmap string string) (path : string) : gmap string string := parse_env (text_of fs path).

Definition set_subagent_status (cfg : RuntimeConfig) (name status : string) : SIO unit :=
  let$ _ := make_dirs (agent_dir cfg name) "create subagent state" in
  write_text (path_join (agent_dir cfg name) "status") (status +:+ newline) "subagent status".

(** ** Watching *)

Definition has_recovery_context (fs : gmap string string) (dir : string) : bool :=
  file_nonempty fs (path_join dir "current.txt") || file_nonempty fs (path_join dir "transcript.log").
Definition recovery_text (fs : gmap string string) (dir : string) : string :=
  let section heading file count :=
    let text := text_of fs (path_join dir file) in
    if is_empty text then "" else heading +:+ newline +:+ tail_lines text count in
  tail_lines (section "Current pane tail:" "current.txt" 80%nat
              +:+ section (newline +:+ "Transcript tail:") "transcript.log" 120%nat) 180.

Definition capture_subagent (cfg : RuntimeConfig) (name : string) : SIO unit :=
  let dir := agent_dir cfg name in
  let$ _ := make_dirs dir "create subagent directory" in
  let$ captured := sattempt (capture_window (session cfg) name 1000) in
  match captured with
  | Ok capture =>
      let$ _ := write_text (path_join dir "current.txt") (capture +:+ newline) "current capture" in
      let$ at_ := now_text in
      append_text (path_join dir "transcript.log")
        (newline +:+ "----- capture " +:+ at_ +:+ " -----" +:+ newline +:+ capture +:+ newline)
  | Err error =>
      let$ fs := sfiles in
      let last := text_of fs (path_join dir "last-message.txt") in
      let transcript := text_of fs (path_join dir "transcript.log") in
      if is_empty last && is_empty transcript then
        let$ _ := write_text (path_join dir "last-error.txt") (error +:+ newline) "capture error" in
        sfail error
      else
        let recovered :=
          "tmux capture unavailable for " +:+ name +:+ "; recovered durable subagent output." +:+ newline
          +:+ "tmux-capture-error: " +:+ error +:+ newline
          +:+ (if is_empty last then "" else newline +:+ "----- last-message.txt -----" +:+ newline +:+ last)
          +:+ (if is_empty transcript then "" else newline +:+ "----- transcript tail -----" +:+ newline +:+ tail_lines transcript 240) in
        let$ _ := write_text (path_join dir "current.txt") recovered "durable capture" in
        let$ at_ := now_text in
        append_text (path_join dir "transcript.log")
          (newline +:+ "----- durable capture " +:+ at_ +:+ " -----" +:+ newline +:+ recovered +:+ newline)
  end.

(** What the files alone say; [None] when the window decides. *)
Definition reported_status (current last : string) : option string :=
  let lower := to_ascii_lowercase current in
  if nonzero_exec_status lower || contains "warning: no last agent message" lower then Some "failed"
  else if negb (is_empty last) && accepted_report (tail_lines last 160) then Some "done"
  else if looks_blocked_report (tail_lines current 160) then Some "blocked"
  else if looks_done_report current then Some "done"
  else None.
Definition infer_status (cfg : RuntimeConfig) (name : string) : SIO string :=
  let dir := agent_dir cfg name in
  let$ fs := sfiles in
  match reported_status (text_of fs (path_join dir "current.txt")) (text_of fs (path_join dir "last-message.txt")) with
  | Some status => sret status
  | None =>
      let$ open := window_exists (session cfg) name in
      sret (if open then "running" else "exited")
  end.

Definition poll (cfg : RuntimeConfig) (name : string) (report : bool) : SIO unit :=
  let$ _ := slift (validate_name name) in
  let$ _ := require_command "tmux" in
  let$ captured := sattempt (capture_subagent cfg name) in
  match captured with
  | Ok _ =>
      let$ status := infer_status cfg name in
      let$ _ := set_subagent_status cfg name status in
      swhen report (print_text (name +:+ tabs +:+ status))
  | Err _ =>
      let$ _ := set_subagent_status cfg name "missing" in
      sfail ("could not capture subagent: " +:+ name)
  end.

Definition instant : SIO Z :=
  fun s => let w := sworld s in
           (Ok (instant_at (ticks w)), mkSession (mkWorld (files w) (faults w) (S (ticks w)) (stdout w)) (history s) (parallel s)).

Fixpoint wait_loop (fuel : nat) (cfg : RuntimeConfig) (name timeout : string) (deadline : Z) : SIO unit :=
  match fuel with
  | O => sfail "still waiting"
  | S n =>
      let$ _ := poll cfg name false in
      let$ fs := sfiles in
      let status := status_in fs cfg name in
      if mem status ENDED_STATUSES then print_text (name +:+ tabs +:+ status)
      else
        let$ now_ := instant in
        if deadline <=? now_ then
          let$ _ := print_text (name +:+ tabs +:+ status) in
          sfail ("timed out after " +:+ timeout +:+ " seconds waiting for subagent: " +:+ name)
        else wait_loop n cfg name timeout deadline
  end.

Fixpoint wait_options (timeout interval : F64) (l : list string) : result string (F64 * F64) :=
  match l with
  | [] => Ok (timeout, interval)
  | option :: rest =>
      let number label := let? text := required_value rest label in
                          ok_or (parse_f64 text) (label +:+ " must be a non-negative number") in
      if String.eqb option "--timeout" then
        let? x := number "wait --timeout" in
        match rest with _ :: rest' => wait_options x interval rest' | [] => Err "wait --timeout requires a value" end
      else if String.eqb option "--poll-interval" then
        let? x := number "wait --poll-interval" in
        match rest with _ :: rest' => wait_options timeout x rest' | [] => Err "wait --poll-interval requires a value" end
      else Err ("unknown wait argument: " +:+ option)
  end.
Definition wait (cfg : RuntimeConfig) (args : list string) : SIO unit :=
  let$ first := slift (named_args "wait" args) in
  let name := first.1 in
  let$ numbers := slift (wait_options (Finite false 900 0) (Finite false 1 0) first.2) in
  let '(timeout, interval) := numbers in
  let$ _ := scheck (is_finite timeout && negb (is_negative timeout)) "wait --timeout must be a non-negative number" in
  let$ _ := scheck (is_finite interval && negb (is_negative interval)) "wait --poll-interval must be a non-negative number" in
  let$ start := sio (fun w => (Ok (ticks w), w)) in
  let$ deadline := slift (ok_or (deadline_after start timeout) "panic: the deadline overflows") in
  wait_loop patience cfg name (f64_display timeout) deadline.

Definition list_subagents (cfg : RuntimeConfig) (args : list string) : SIO unit :=
  let$ _ := scheck (bool_decide (args = [])) "list takes no arguments" in
  let$ fs := sfiles in
  foldr (fun name rest =>
           let$ fs := sfiles in
           let$ open := window_exists (session cfg) name in
           let$ _ := print_text (name +:+ tabs +:+ status_in fs cfg name +:+ tabs +:+ (if open then "open" else "closed")) in
           rest) (sret tt) (subdirectories fs (path_join (cfg_state cfg) "subagents")).

Fixpoint inspect_options (count : Z) (l : list string) : result string Z :=
  match l with
  | [] => Ok count
  | option :: rest =>
      if String.eqb option "--lines" then
        let? text := required_value rest "--lines" in
        let? n := ok_or (parse_u64 text) "--lines must be a non-negative integer" in
        match rest with _ :: rest' => inspect_options n rest' | [] => Err "--lines requires a value" end
      else Err ("unknown inspect argument: " +:+ option)
  end.
Definition inspect (cfg : RuntimeConfig) (args : list string) : SIO unit :=
  let$ first := slift (named_args "inspect" args) in
  let$ count := slift (inspect_options 120 first.2) in
  let$ open := window_exists (session cfg) first.1 in
  let$ _ := swhen open (let$ _ := sattempt (capture_subagent cfg first.1) in sret tt) in
  let$ fs := sfiles in
  let$ text := slift (ok_or (fs !! path_join (agent_dir cfg first.1) "current.txt")
                        ("no captured output for subagent: " +:+ first.1)) in
  print_text (tail_lines text (Z.to_nat count)).

(** ** Recovery *)

Definition classify_files (fs : gmap string string) (cfg : RuntimeConfig) (name status : string) (open : bool) : string * string :=
  let d := agent_dir cfg name in
  let lowered := to_ascii_lowercase status in
  let checkpoint_file := path_join (assignment_of cfg name) "checkpoint.env" in
  if open then ("skip-open", "tmux-window-already-open")
  else if negb (is_dir fs d) then ("skip-unknown", "missing-state-dir")
  else if mem lowered ["finalized"; "done"; "complete"; "completed"] then ("skip-finalized", "status-" +:+ lowered)
  else if mem lowered ["killed"; "stopped"; "cancelled"; "canceled"] then ("skip-finalized", "intentionally-stopped-" +:+ lowered)
  else if mem lowered ["failed"; "exited"; "missing"] then ("skip-failed", "terminal-failure-" +:+ lowered)
  else if mem lowered ["blocked"; "delivery-blocked"] then ("skip-blocked", "requires-orchestrator-decision")
  else
    match fs !! checkpoint_file with
    | Some text =>
        let checkpoint := parse_env text in
        let checkpoint_status := to_ascii_lowercase (state_value checkpoint "status") in
        if negb (is_empty (state_value checkpoint "blocker")) || String.eqb checkpoint_status "blocked"
        then ("skip-blocked", "checkpoint-blocked")
        else if mem checkpoint_status ["done"; "complete"; "completed"; "finalized"]
        then ("skip-finalized", "checkpoint-" +:+ checkpoint_status)
        else if negb (has_recovery_context fs d) then ("skip-unknown", "checkpoint-without-captured-context")
        else ("restore", "checkpoint-resumable")
    | None =>
        let combined := recovery_text fs d in
        if looks_blocked_report combined then ("skip-blocked", "requires-orchestrator-decision")
        else if looks_done_report combined then ("skip-finalized", "context-looks-final")
        else if negb (has_recovery_context fs d) then ("skip-unknown", "no-current-or-transcript")
        else if mem lowered ["running"; "starting"; "restoring"; "unknown"] then ("restore", "closed-with-recoverable-context")
        else ("skip-unknown", "unrecognized-status-" +:+ lowered)
    end.
Definition classify_recovery (cfg : RuntimeConfig) (name : string) : SIO Recovery :=
  let$ _ := slift (validate_name name) in
  let$ fs := sfiles in
  let status := status_in fs cfg name in
  let$ open := window_exists (session cfg) name in
  let$ fs := sfiles in
  let '(act, why) := classify_files fs cfg name status open in
  sret (mkRecovery name act why status (if open then "open" else "closed") (agent_dir cfg name)).

Definition recover_plan (cfg : RuntimeConfig) (args : list string) : SIO unit :=
  let$ _ := scheck (bool_decide (args = [])) "recover-plan takes no arguments" in
  let$ _ := print_text (join tabs ["NAME"; "ACTION"; "REASON"; "STATUS"; "WINDOW"; "STATE_DIR"]) in
  let$ fs := sfiles in
  foldr (fun name rest =>
           let$ r := classify_recovery cfg name in
           let$ _ := print_text (recovery_row r) in
           rest) (sret tt) (subdirectories fs (path_join (cfg_state cfg) "subagents")).

(** ** Ending *)

(** The assignment of the agent follows its status. *)
Definition report_assignment (cfg : RuntimeConfig) (name status : string) : SIO unit :=
  let$ fs := sfiles in
  swhen (is_some (fs !! path_join (assignment_of cfg name) "assignment.env"))
    (run_self_owned ["subagent"; "assignment-status"; name; status]).

Definition SUCCEEDED : list string := ["done"; "finalized"; "complete"; "completed"].

Definition finalize (cfg : RuntimeConfig) (args : list string) : SIO unit :=
  let$ first := slift (named_args "finalize" args) in
  let name := first.1 in
  let d := agent_dir cfg name in
  let$ keep := slift (match first.2 with
                      | [] => Ok false
                      | value :: rest =>
                          if String.eqb value "--keep-window" && bool_decide (rest = []) then Ok true
                          else Err ("unknown finalize argument: " +:+ value)
                      end) in
  let$ fs := sfiles in
  let observed := status_in fs cfg name in
  let$ open := window_exists (session cfg) name in
  let$ _ := swhen open
    (let$ metadata := sio (read_env (path_join d "meta.env")) in
     let$ fs := sfiles in
     let$ _ := scheck (negb (bool_decide (metadata !! "role" = Some "scout")
                             && negb (file_nonempty fs (path_join d "last-message.txt"))))
                 ("cannot finalize running scout without a final artifact: " +:+ name
                  +:+ "; wait for completion or kill it only after recording a true blocker") in
     let$ _ := sattempt (capture_subagent cfg name) in
     swhen (negb keep) (kill_window cfg name)) in
  let$ observed := (if mem observed ["finalized"; "complete"; "completed"] then sret observed else infer_status cfg name) in
  let succeeded := mem observed SUCCEEDED in
  let terminal_status := if succeeded then "finalized" else "failed" in
  let$ _ := set_subagent_status cfg name terminal_status in
  let$ _ := report_assignment cfg name (if succeeded then "done" else "failed") in
  let$ at_ := now_text in
  let$ _ := write_text (path_join d "finalized_at") (at_ +:+ newline) "finalized timestamp" in
  print_text ("finalized " +:+ name +:+ tabs +:+ terminal_status).

(** The mode of the record is not tracked. *)
Definition record_supervisor_termination (cfg : RuntimeConfig) (name reason : string) : SIO unit :=
  let$ fs := sfiles in
  let metadata := env_of fs (path_join (agent_dir cfg name) "meta.env") in
  let named := state_value metadata "trace_dir" in
  let trace_dir := if is_empty named then agent_trace cfg name else named in
  let$ at_ := now_text in
  let body := to_string_pretty (VObj [("reason", VStr reason); ("recorded_at", VStr at_); ("source", VStr "rust-supervisor")]) in
  let$ _ := make_dirs trace_dir "create supervisor trace directory" in
  write_text (path_join trace_dir "supervisor-termination.json") body "supervisor termination".

Definition read_supervisor_pid (fs : gmap string string) (cfg : RuntimeConfig) (name : string) : option Z :=
  read_trimmed fs (path_join (agent_dir cfg name) "supervisor.pid") ≫= parse_u32.
(** A hundred looks, 50 ms apart. *)
Definition wait_for_process_exit (pid : Z) (name : string) : SIO unit :=
  scheck (existsb (fun n => negb (alive pid n)) (seq 0 100))
    ("subagent process did not exit after pane close: " +:+ name +:+ " pid=" +:+ u64_to_string pid).

Definition kill (cfg : RuntimeConfig) (args : list string) : SIO unit :=
  let$ name := slift (one_name "kill" args) in
  let$ _ := require_command "tmux" in
  let$ fs := sfiles in
  let pid := read_supervisor_pid fs cfg name in
  let$ open := window_exists (session cfg) name in
  let$ _ := swhen open
    (let$ _ := sattempt (capture_subagent cfg name) in
     kill_window cfg name) in
  let$ _ := (match pid with Some pid => wait_for_process_exit pid name | None => sret tt end) in
  let$ _ := record_supervisor_termination cfg name "canceled" in
  let$ _ := set_subagent_status cfg name "killed" in
  let$ _ := report_assignment cfg name "failed" in
  print_text ("killed " +:+ name).

End Session.
