(* ===== verification/Iteration.v ===== *)
(** * Iteration: [runtime/src/runtime.rs], the execution of a sealed plan

    A plan names workers with disjoint paths and dependencies between them. It is
    sealed, reviewed for alignment with the task, executed along its dependencies,
    and its diff is reviewed before the workflow completes. *)

From S2P Require Import Prelude Text State Json LogModel Config Execution Dag Lifecycle Workflow Completion Snapshot Findings Policy OpsBytes OpsRequest OpsHost Ops Launch Shell Agent Reports Session Spawn.

Definition ITERATION_PLAN_API_VERSION : string := "multiagent.moveindustries.io/v1".
Definition ITERATION_PLAN_KIND : string := "IterationPlan".

Record IterationWorker := mkWorker {
  worker_id : string; owned_paths : list string; worker_instruction : string; depends_on : list string
}.
Record IterationPlan := mkPlan {
  api_version : string; plan_kind : string; plan_workflow : string; iteration : Z; plan_context : string;
  workers : list IterationWorker; resolves_todos : list string; additional_reviews : list string
}.

(** [#[serde(default)]]. *)
Definition default_strings (k : string) (kvs : list (string * Value)) : option (list string) :=
  match field k kvs with None => Some [] | Some _ => strings_field k kvs end.
Definition de_worker (v : Value) : option IterationWorker :=
  kvs ← as_fields v;
  if known_fields ["id"; "ownedPaths"; "instruction"; "dependsOn"] kvs then
    id ← str_field "id" kvs;
    paths ← strings_field "ownedPaths" kvs;
    text ← str_field "instruction" kvs;
    deps ← default_strings "dependsOn" kvs;
    Some (mkWorker id paths text deps)
  else None.
Definition de_plan (v : Value) : option IterationPlan :=
  kvs ← as_fields v;
  if known_fields ["apiVersion"; "kind"; "workflowId"; "iteration"; "implementationContext"; "workers"; "resolvesTodos";
                   "additionalReviews"] kvs then
    api ← str_field "apiVersion" kvs;
    kind ← str_field "kind" kvs;
    workflow_id ← str_field "workflowId" kvs;
    iteration ← u64_field "iteration" kvs;
    context ← str_field "implementationContext" kvs;
    ws ← (field "workers" kvs ≫= as_list) ≫= all_some de_worker;
    todos ← default_strings "resolvesTodos" kvs;
    reviews ← default_strings "additionalReviews" kvs;
    Some (mkPlan api kind workflow_id iteration context ws todos reviews)
  else None.

(** The workers that are not completed and whose dependencies are. *)
Definition worker_ready (completed : gset string) (w : IterationWorker) : bool :=
  negb (bool_decide (worker_id w ∈ completed)) && forallb (fun d => bool_decide (d ∈ completed)) (depends_on w).
Definition ready_workers (completed : gset string) (ws : list IterationWorker) : list IterationWorker :=
  List.filter (worker_ready completed) ws.

(** The dependencies can be met round by round. A round that goes on completes a
    worker, so there are at most as many rounds as workers. *)
Fixpoint schedulable (fuel : nat) (completed : gset string) (ws : list IterationWorker) : bool :=
  if (size completed <? length ws)%nat then
    match fuel, ready_workers completed ws with
    | O, _ | _, [] => false
    | S n, ready => schedulable n (completed ∪ list_to_set (map worker_id ready)) ws
    end
  else true.

Record PendingReviewObligation := mkPending { obligation_id : string; obligation_kind : string; obligation_reason : string }.
Record ActiveTodo := mkActiveTodo { active_id : string; active_kind : string; active_summary : string }.

Section Iteration.
Context `{Platform} `{Git} `{JsonCodec} `{JsonPretty} `{Resolver} `{Externals} `{Processes} `{Clock}.

(** ** The workflow ([runtime/src/workflow.rs]) *)

Definition pending_review_obligations (workflow_id diff_hash : string) : IO (list PendingReviewObligation) :=
  let! p := lift (paths workflow_id) in
  let! st := read_state (state p) workflow_id in
  let! _ := check (String.eqb (state_value st "phase") "post-implementation") "pending reviews require phase=post-implementation" in
  let! _ := check (negb (is_empty diff_hash) && String.eqb (state_value st "candidate_diff_hash") diff_hash)
              "pending reviews require the frozen candidate diff hash" in
  let! rows := read_review_obligations (review_obligations p) in
  ret (map (fun row => mkPending (get 0 row) (get 1 row) (get 4 row))
         (List.filter (fun row => String.eqb (get 3 row) diff_hash && String.eqb (get 5 row) (state_value st "iteration")
                                  && String.eqb (get 6 row) "pending") rows)).
Definition active_todos (workflow_id : string) : IO (list ActiveTodo) :=
  let! p := lift (paths workflow_id) in
  let! _ := read_state (state p) workflow_id in
  let! rows := read_todos (todos p) in
  ret (map (fun row => mkActiveTodo (get 0 row) (get 1 row) (get 2 row)) (List.filter (fun row => active (get 4 row)) rows)).
Definition passing_review_recorded (workflow_id review_id kind : string) : IO bool :=
  let! p := lift (paths workflow_id) in
  let! st := read_state (state p) workflow_id in
  let! rows := read_reviews (reviews p) in
  ret (existsb (fun row => String.eqb (get 0 row) review_id && String.eqb (get 1 row) kind && String.eqb (get 2 row) "pass"
                           && String.eqb (get 5 row) (state_value st "iteration")) rows).

(** ** Validation *)

Definition MAX_TEXT : Z := 65536.

Fixpoint add_owned (fs : gmap string string) (cfg : RuntimeConfig) (all requested : list string) : result string (list string) :=
  match requested with
  | [] => Ok all
  | path :: rest =>
      let? normalized := normalize_requested_path fs (cfg_root cfg) path in
      let? _ := guard (negb (existsb (fun existing => path_contains existing normalized || path_contains normalized existing) all))
                  ("iteration worker ownership overlaps another worker: " +:+ normalized) in
      add_owned fs cfg (all ++ [normalized]) rest
  end.
Fixpoint check_dependencies_of (ids : gset string) (w : IterationWorker) (deps : list string) : result string unit :=
  match deps with
  | [] => Ok tt
  | d :: rest =>
      let? _ := guard (negb (String.eqb d (worker_id w)) && bool_decide (d ∈ ids))
                  ("invalid dependency " +:+ d +:+ " for worker " +:+ worker_id w) in
      check_dependencies_of ids w rest
  end.
Fixpoint check_workers (fs : gmap string string) (cfg : RuntimeConfig) (ids : gset string) (all : list string) (ws : list IterationWorker)
    : result string (list string) :=
  match ws with
  | [] => Ok all
  | w :: rest =>
      let? _ := validate_name (worker_id w) in
      let? _ := guard (starts_with "worker-" (worker_id w)) ("iteration worker ID must start with worker-: " +:+ worker_id w) in
      let? _ := guard (nonblank (worker_instruction w) && (len (worker_instruction w) <=? MAX_TEXT))
                  ("iteration worker instruction is empty or too large: " +:+ worker_id w) in
      let? _ := guard (negb (bool_decide (owned_paths w = []))) ("iteration worker has no ownedPaths: " +:+ worker_id w) in
      let? _ := check_dependencies_of ids w (depends_on w) in
      let? all' := add_owned fs cfg all (owned_paths w) in
      check_workers fs cfg ids all' rest
  end.
Definition todo_id_ok (todo : string) : bool :=
  negb (is_empty todo) && all_chars (fun c => is_ascii_alphanumeric c || has_char c "_.-") todo.

Definition validate_iteration_plan (fs : gmap string string) (cfg : RuntimeConfig) (plan : IterationPlan) : result string (list string) :=
  let? _ := guard (String.eqb (api_version plan) ITERATION_PLAN_API_VERSION && String.eqb (plan_kind plan) ITERATION_PLAN_KIND)
              ("iteration plan must use apiVersion=" +:+ ITERATION_PLAN_API_VERSION +:+ " kind=" +:+ ITERATION_PLAN_KIND) in
  let? _ := guard (negb (iteration plan =? 0)) "iteration plan iteration must be positive" in
  let? _ := guard (nonblank (plan_context plan) && (len (plan_context plan) <=? MAX_TEXT))
              "iteration plan implementationContext must contain 1..65536 bytes" in
  let ws := workers plan in
  let? _ := guard ((0 <? length ws)%nat && (length ws <=? 32)%nat) "iteration plan requires 1..32 workers" in
  let ids : gset string := list_to_set (map worker_id ws) in
  let? _ := guard (size ids =? length ws)%nat "iteration worker IDs must be unique" in
  let? all := check_workers fs cfg ids [] ws in
  let? _ := guard (schedulable (length ws) ∅ ws) "iteration worker dependency graph contains a cycle" in
  let? _ := guard (forallb (fun kind => mem kind ["scope"; "reflection"]) (additional_reviews plan))
              "additionalReviews may contain only scope or reflection" in
  let? _ := (match List.find (fun todo => negb (todo_id_ok todo)) (resolves_todos plan) with
             | Some todo => Err ("invalid resolvesTodos ID: " +:+ todo)
             | None => Ok tt
             end) in
  Ok all.

Definition validate_iteration_todos (plan : IterationPlan) : SIO (list ActiveTodo) :=
  let$ todos := sio (active_todos (plan_workflow plan)) in
  let non_direct := map (fun t => active_id t +:+ ":" +:+ active_kind t) (List.filter (fun t => negb (String.eqb (active_kind t) "direct")) todos) in
  let$ _ := scheck (bool_decide (non_direct = []))
              ("resolve active evidence or decision TODOs before executing an iteration: " +:+ join "," non_direct) in
  let declared : gset string := list_to_set (resolves_todos plan) in
  let$ _ := scheck (size declared =? length (resolves_todos plan))%nat "resolvesTodos must not contain duplicates" in
  let expected : gset string := list_to_set (map active_id todos) in
  let$ _ := scheck (bool_decide (declared = expected))
              ("resolvesTodos must exactly name the active direct TODOs: expected=" +:+ join "," (btree_list expected)
               +:+ " declared=" +:+ join "," (btree_list declared)) in
  sret todos.

(** ** The workers *)

Definition set_parallel (value : option string) : SIO unit := fun s => (Ok tt, mkSession (sworld s) (history s) value).
Definition get_parallel : SIO (option string) := fun s => (Ok (parallel s), s).

Definition worker_text (context : string) (w : IterationWorker) : string :=
  context +:+ newline +:+ "## Sealed Worker Node" +:+ newline +:+ newline +:+ "node=" +:+ worker_id w +:+ newline
  +:+ "depends-on=" +:+ join "," (depends_on w) +:+ newline +:+ newline +:+ worker_instruction w +:+ newline.
Definition own_args (l : list string) : list string := concat (map (fun path => ["--own"; path]) l).
Definition spawn_worker (cfg : RuntimeConfig) (plan : IterationPlan) (context execution_dir : string) (w : IterationWorker) : SIO unit :=
  let file := path_join execution_dir (worker_id w +:+ ".md") in
  let$ _ := write_text file (worker_text context w) "write sealed worker instruction" in
  spawn cfg ([worker_id w; "--role"; "worker"] ++ own_args (owned_paths w)
             ++ ["--workflow-id"; plan_workflow plan; "--instruction-file"; file]).

(** The workers of a round are started one after the other; the names of those
    that were are kept when one fails. *)
Fixpoint spawn_round (cfg : RuntimeConfig) (plan : IterationPlan) (context execution_dir : string) (ready : list IterationWorker)
    (spawned : list string) : SIO (list string * option string) :=
  match ready with
  | [] => sret (spawned, None)
  | w :: rest =>
      let$ r := sattempt (spawn_worker cfg plan context execution_dir w) in
      match r with
      | Ok _ => spawn_round cfg plan context execution_dir rest (spawned ++ [worker_id w])
      | Err error => sret (spawned, Some error)
      end
  end.
Fixpoint kill_all (cfg : RuntimeConfig) (names : list string) : SIO unit :=
  match names with
  | [] => sret tt
  | name :: rest => let$ _ := sattempt (kill cfg [name]) in kill_all cfg rest
  end.
(** [agent_final_message]. *)
Definition agent_final_message (cfg : RuntimeConfig) (name : string) : SIO string :=
  let$ fs := sfiles in
  slift (ok_or (fs !! path_join (agent_dir cfg name) "last-message.txt") ("agent final message is missing: " +:+ name)).

(** Waits for the workers of a round: the reason to stop, or all are completed. *)
Fixpoint collect_round (cfg : RuntimeConfig) (timeout : string) (ready : list IterationWorker) (completed : gset string)
    : SIO (gset string * option string) :=
  match ready with
  | [] => sret (completed, None)
  | w :: rest =>
      let name := worker_id w in
      let$ _ := wait cfg [name; "--timeout"; timeout] in
      let$ fs := sfiles in
      let status := status_in fs cfg name in
      let$ message := sattempt (agent_final_message cfg name) in
      let$ _ := finalize cfg [name] in
      if negb (String.eqb status "done") || negb (match message with Ok m => nonblank m | Err _ => false end)
      then sret (completed, Some ("worker-incomplete:" +:+ name +:+ ":" +:+ status))
      else collect_round cfg timeout rest ({[name]} ∪ completed)
  end.

Definition run_round (cfg : RuntimeConfig) (plan : IterationPlan) (context execution_dir timeout : string) (completed : gset string)
    (ready : list IterationWorker) : SIO (gset string * option string) :=
  let$ prior := get_parallel in
  let$ _ := set_parallel (Some "1") in
  let$ spawned := spawn_round cfg plan context execution_dir ready [] in
  let$ _ := set_parallel prior in
  match spawned.2 with
  | Some error => let$ _ := kill_all cfg spawned.1 in sfail error
  | None => collect_round cfg timeout ready completed
  end.

(** As many rounds as workers are enough, see [schedulable]. *)
Fixpoint worker_rounds (fuel : nat) (cfg : RuntimeConfig) (plan : IterationPlan) (context execution_dir timeout : string) (completed : gset string)
    : SIO (option string) :=
  if (size completed <? length (workers plan))%nat then
    match fuel with
    | O => sfail "out of rounds"
    | S n =>
        let ready := ready_workers completed (workers plan) in
        let$ _ := scheck (negb (bool_decide (map worker_id ready = []))) "iteration worker dependency graph became unschedulable" in
        let$ round := run_round cfg plan context execution_dir timeout completed ready in
        match round.2 with
        | Some reason => sret (Some reason)
        | None => worker_rounds n cfg plan context execution_dir timeout round.1
        end
    end
  else sret None.
Definition execute_worker_graph (cfg : RuntimeConfig) (plan : IterationPlan) (context execution_dir timeout : string) : SIO (option string) :=
  worker_rounds (S (length (workers plan))) cfg plan context execution_dir timeout ∅.

(** ** Reviews *)

Fixpoint run_all (commands : list (list string)) : SIO unit :=
  match commands with
  | [] => sret tt
  | c :: rest => let$ _ := run_self_owned c in run_all rest
  end.
Definition add_iteration_review_requests (plan : IterationPlan) (diff_hash : string) : SIO unit :=
  let$ pending := sio (pending_review_obligations (plan_workflow plan) diff_hash) in
  let existing := map obligation_kind pending in
  run_all (map (fun kind =>
                  ["workflow"; "require-review"; plan_workflow plan; "plan-" +:+ u64_to_string (iteration plan) +:+ "-" +:+ kind;
                   "--type"; kind; "--trigger"; "sealed-iteration-plan"; "--artifact-digest"; diff_hash; "--reason";
                   "orchestrator requested additional independent review"])
             (List.filter (fun kind => negb (mem kind existing)) (btree_list (list_to_set (additional_reviews plan) : gset string)))).

Definition record_iteration_review (workflow_id review_id kind verdict diff_hash reviewer : string) : SIO unit :=
  run_self_owned
    (["workflow"; "record-review"; workflow_id; review_id; "--type"; kind; "--verdict"; verdict]
     ++ (if String.eqb kind "plan-alignment" then [] else ["--diff-hash"; diff_hash])
     ++ ["--evidence"; reviewer; "--reviewer"; reviewer]).

Definition emit_iteration_result (status : string) (plan : IterationPlan) (plan_sha256 reason : string) (diff_hash : option string) : SIO unit :=
  print_text (to_vec (canonical_value (VObj
    [("apiVersion", VStr ITERATION_PLAN_API_VERSION); ("kind", VStr "IterationExecutionResult"); ("status", VStr status);
     ("workflowId", VStr (plan_workflow plan)); ("iteration", VNum (iteration plan)); ("planSha256", VStr plan_sha256);
     ("candidateDiffSha256", opt_value VStr diff_hash); ("reason", VStr reason)]))).

(** ** The iteration *)

Fixpoint iteration_options (plan_file : option string) (timeout : string) (l : list string) : result string (option string * string) :=
  match l with
  | [] => Ok (plan_file, timeout)
  | flag :: rest =>
      if String.eqb flag "--plan-file" then
        let? value := required_value rest "execute-iteration --plan-file" in
        match rest with _ :: rest' => iteration_options (Some value) timeout rest' | [] => Ok (Some value, timeout) end
      else if String.eqb flag "--timeout" then
        let? value := required_value rest "execute-iteration --timeout" in
        let? _ := (match parse_f64 value with
                   | Some x => guard (is_finite x && negb (is_negative x)) "execute-iteration --timeout must be a non-negative number"
                   | None => Err "execute-iteration --timeout must be a non-negative number"
                   end) in
        match rest with _ :: rest' => iteration_options plan_file value rest' | [] => Ok (plan_file, value) end
      else Err ("unknown execute-iteration argument: " +:+ flag)
  end.

Definition MAX_PLAN_BYTES : Z := 262144.

(** The plan, its bytes and the paths of its workers. *)
Definition load_plan (cfg : RuntimeConfig) (named : string) : SIO (IterationPlan * string * list string) :=
  let$ fs := sfiles in
  let$ state_root := slift (ok_or (resolve fs (cfg_state cfg)) (io_error "resolve state directory")) in
  let$ plan_file := slift (ok_or (resolve fs named) (io_error "resolve iteration plan")) in
  let$ _ := scheck (inside plan_file state_root && is_some (fs !! plan_file))
              "iteration plan must be a regular file under MULTIAGENT_STATE_DIR" in
  let$ bytes := slift (ok_or (fs !! plan_file) (io_error "read iteration plan")) in
  let$ _ := scheck (len bytes <=? MAX_PLAN_BYTES) "iteration plan exceeds the 256 KiB limit" in
  let$ plan := slift (ok_or (from_slice bytes ≫= de_plan) ("decode iteration plan JSON: " +:+ os_error)) in
  let$ paths := slift (validate_iteration_plan fs cfg plan) in
  let$ workflow := slift (ok_or (env_nonempty "MULTIAGENT_WORKFLOW_ID") "execute-iteration requires MULTIAGENT_WORKFLOW_ID") in
  let$ _ := scheck (String.eqb (plan_workflow plan) workflow)
              ("iteration plan workflow mismatch: plan=" +:+ plan_workflow plan +:+ " active=" +:+ workflow) in
  let$ current := run_self_text ["workflow"; "value"; plan_workflow plan; "iteration"] in
  let$ _ := scheck (String.eqb current (u64_to_string (iteration plan)))
              ("iteration plan revision mismatch: plan=" +:+ u64_to_string (iteration plan) +:+ " active=" +:+ current) in
  let$ _ := validate_iteration_todos plan in
  sret (plan, bytes, paths).

Definition alignment_review_id (plan : IterationPlan) : string := "iteration-" +:+ u64_to_string (iteration plan) +:+ "-alignment".
Definition alignment_instruction (plan_sha256 bytes : string) : string :=
  "Compare the authenticated original task with this complete sealed iteration plan. Check the main requested outcome, every material constraint, the implementation context, all worker instructions and owned paths, TODO claims, dependencies, and additional reviews. Return only aligned or misaligned using the role protocol."
  +:+ newline +:+ newline +:+ "sealed-iteration-plan-sha256=" +:+ plan_sha256 +:+ newline +:+ newline
  +:+ "```json" +:+ newline +:+ bytes +:+ newline +:+ "```".

(** [complete_reviewer_human_fallback]. *)
Definition complete_reviewer_human_fallback (cfg : RuntimeConfig) (reviewer question : string) : SIO unit :=
  let candidate := path_join (cfg_state cfg) "human-review-result-candidate.md" in
  let$ _ := sio (atomic_write candidate (trim question +:+ newline)) in
  run_self_owned ["orchestrator"; "complete"; "--human-review"; "--result-file"; candidate; "--reviewer"; reviewer].

(** One reviewer, from its start to its verdict in the workflow. *)
Definition collect_review (cfg : RuntimeConfig) (plan : IterationPlan) (reviewer review_id kind diff timeout missing : string) : SIO string :=
  let$ _ := wait cfg [reviewer; "--timeout"; timeout] in
  let$ message := agent_final_message cfg reviewer in
  let$ _ := finalize cfg [reviewer] in
  let$ verdict := slift (ok_or (review_output_verdict message kind diff) (missing +:+ reviewer)) in
  let$ _ := record_iteration_review (plan_workflow plan) review_id kind verdict diff reviewer in
  sret verdict.

(** The alignment of the plan: [true] when the workers may start. *)
Definition align_plan (cfg : RuntimeConfig) (plan : IterationPlan) (bytes plan_sha256 timeout : string) : SIO bool :=
  let name := "plan-alignment-reviewer-" +:+ padded 2 (iteration plan) in
  let$ recorded := sio (passing_review_recorded (plan_workflow plan) (alignment_review_id plan) "plan-alignment") in
  if recorded then sret true
  else
    let$ _ := spawn cfg [name; "--role"; "reviewer"; "--workflow-id"; plan_workflow plan; "--plan-sha256"; plan_sha256;
                         "--instruction"; alignment_instruction plan_sha256 bytes] in
    let$ verdict := collect_review cfg plan name (alignment_review_id plan) "plan-alignment" "-" timeout
                      "plan-alignment reviewer output is missing the required structured marker: " in
    if String.eqb verdict "findings" then
      let$ asked := sio (reviewer_human_review_question (plan_workflow plan) name) in
      let$ _ := (match asked with
                 | Some (question, _) =>
                     let$ _ := complete_reviewer_human_fallback cfg name question in
                     emit_iteration_result "human_review_required" plan plan_sha256 "plan-misaligned-user-input-required" None
                 | None => emit_iteration_result "needs_replan" plan plan_sha256 "plan-misaligned" None
                 end) in
      sret false
    else sret true.

Definition context_text (plan : IterationPlan) (plan_sha256 : string) : string :=
  "# Sealed Implementation Context" +:+ newline +:+ newline +:+ "iteration-plan-sha256=" +:+ plan_sha256 +:+ newline
  +:+ "workflow=" +:+ plan_workflow plan +:+ newline +:+ "iteration=" +:+ u64_to_string (iteration plan) +:+ newline +:+ newline
  +:+ plan_context plan +:+ newline.

(** The implementation: the diff and its paths, when the candidate may be reviewed. *)
Definition implement_plan (cfg : RuntimeConfig) (plan : IterationPlan) (owned : list string) (plan_sha256 execution_dir timeout : string)
    : SIO (option (string * list string)) :=
  let context := context_text plan plan_sha256 in
  let context_file := path_join execution_dir "implementation-context.md" in
  let$ _ := write_text context_file context "write sealed implementation context" in
  let$ _ := run_self_owned ["workflow"; "prepare-implementation"; plan_workflow plan; "--plan-sha256"; plan_sha256;
                            "--implementation-context"; context_file; "--alignment-review"; alignment_review_id plan] in
  let$ _ := run_self_owned ["workflow"; "transition"; plan_workflow plan; "implementation"] in
  let$ stopped := execute_worker_graph cfg plan context execution_dir timeout in
  match stopped with
  | Some reason => let$ _ := emit_iteration_result "needs_replan" plan plan_sha256 reason None in sret None
  | None =>
      let$ fs := sfiles in
      let$ diff := slift (canonical_diff (cfg_root cfg) "HEAD" fs) in
      let diff_hash := sha256_hex diff in
      let changed := diff_changed_paths diff in
      if bool_decide (changed = []) then
        let$ _ := emit_iteration_result "needs_replan" plan plan_sha256 "workers-produced-no-candidate-diff" (Some diff_hash) in sret None
      else
        let$ _ := slift (match List.find (fun path => negb (existsb (fun o => path_contains o path) owned)) changed with
                         | Some path => Err ("sealed iteration produced a path outside worker ownership: " +:+ path)
                         | None => Ok tt
                         end) in
        let$ _ := run_self_owned ["workflow"; "transition"; plan_workflow plan; "post-implementation"; "--diff-hash"; diff_hash] in
        sret (Some (diff_hash, changed))
  end.

Definition review_instruction (o : PendingReviewObligation) (diff_hash plan_sha256 : string) (changed : list string) : string :=
  "review-record: type=" +:+ obligation_kind o +:+ " verdict=pass diff=" +:+ diff_hash +:+ newline
  +:+ "Review only the frozen candidate diff sha256=" +:+ diff_hash +:+ " for obligation " +:+ obligation_id o +:+ ": " +:+ obligation_reason o
  +:+ ". Local read-only repository inspection and non-networked validation commands are required and are not production operations; inspect the live changed paths "
  +:+ join "," changed
  +:+ ". Emit the same type and hash with verdict=pass only if accepted, otherwise emit verdict=findings. The sealed iteration plan sha256 is "
  +:+ plan_sha256 +:+ ".".
Definition reviewer_of (plan : IterationPlan) (o : PendingReviewObligation) : string := iteration_reviewer_name (obligation_kind o) (iteration plan).

Fixpoint spawn_reviewers (cfg : RuntimeConfig) (plan : IterationPlan) (diff_hash plan_sha256 : string) (changed : list string)
    (obligations : list PendingReviewObligation) : SIO unit :=
  match obligations with
  | [] => sret tt
  | o :: rest =>
      let$ _ := spawn cfg ([reviewer_of plan o; "--role"; "reviewer"] ++ own_args changed
                           ++ ["--workflow-id"; plan_workflow plan; "--instruction"; review_instruction o diff_hash plan_sha256 changed]) in
      spawn_reviewers cfg plan diff_hash plan_sha256 changed rest
  end.
Fixpoint collect_reviews (cfg : RuntimeConfig) (plan : IterationPlan) (diff_hash timeout : string) (obligations : list PendingReviewObligation)
    : SIO (list string) :=
  match obligations with
  | [] => sret []
  | o :: rest =>
      let$ verdict := collect_review cfg plan (reviewer_of plan o)
                        ("iteration-" +:+ u64_to_string (iteration plan) +:+ "-" +:+ obligation_id o) (obligation_kind o) diff_hash timeout
                        "reviewer output is missing its required structured marker: " in
      let$ found := collect_reviews cfg plan diff_hash timeout rest in
      sret (if String.eqb verdict "findings" then obligation_kind o :: found else found)
  end.

(** The reviews of the candidate: [true] when all pass. *)
Definition review_candidate (cfg : RuntimeConfig) (plan : IterationPlan) (plan_sha256 diff_hash : string) (changed : list string) (timeout : string) : SIO bool :=
  let$ _ := add_iteration_review_requests plan diff_hash in
  let$ obligations := sio (pending_review_obligations (plan_workflow plan) diff_hash) in
  let$ _ := spawn_reviewers cfg plan diff_hash plan_sha256 changed obligations in
  let$ found := collect_reviews cfg plan diff_hash timeout obligations in
  if bool_decide (found = []) then sret true
  else
    let$ _ := emit_iteration_result "needs_replan" plan plan_sha256 ("review-findings:" +:+ join "," found) (Some diff_hash) in
    sret false.

Definition complete_iteration (plan : IterationPlan) (plan_sha256 diff_hash : string) : SIO unit :=
  let$ _ := run_all (map (fun todo => ["workflow"; "resolve-todo"; plan_workflow plan; todo; "--resolution"; "completed"; "--evidence";
                                       "sealed iteration " +:+ u64_to_string (iteration plan) +:+ " passed all reviews for diff " +:+ diff_hash])
                       (resolves_todos plan)) in
  let$ _ := run_self_owned ["workflow"; "gate"; plan_workflow plan; "completion"] in
  let$ _ := run_self_owned ["orchestrator"; "complete"] in
  emit_iteration_result "completed" plan plan_sha256 "all-supervisor-gates-passed" (Some diff_hash).

Definition execute_iteration (cfg : RuntimeConfig) (args : list string) : SIO unit :=
  let$ o := slift (iteration_options None "900" args) in
  let '(named, timeout) := o in
  let$ named := slift (ok_or named "execute-iteration requires --plan-file PATH") in
  let$ loaded := load_plan cfg named in
  let '(plan, bytes, owned) := loaded in
  let plan_sha256 := sha256_hex bytes in
  let execution_dir := path_join (path_join (path_join (cfg_state cfg) "runtime_state") "iteration-executor")
                         (plan_workflow plan +:+ "-" +:+ u64_to_string (iteration plan)) in
  let$ _ := make_dirs execution_dir "create iteration execution directory" in
  let$ _ := write_text (path_join execution_dir "sealed-plan.json") bytes "seal iteration plan copy" in
  let$ _ := run_self_owned ["workflow"; "seal-iteration"; plan_workflow plan; "--plan-sha256"; plan_sha256; "--worker-count";
                            u64_to_string (Z.of_nat (length (workers plan)))] in
  let$ aligned := align_plan cfg plan bytes plan_sha256 timeout in
  if negb aligned then sret tt
  else
    let$ candidate := implement_plan cfg plan owned plan_sha256 execution_dir timeout in
    match candidate with
    | None => sret tt
    | Some (diff_hash, changed) =>
        let$ passed := review_candidate cfg plan plan_sha256 diff_hash changed timeout in
        if passed then complete_iteration plan plan_sha256 diff_hash else sret tt
    end.
End Iteration.
