(* ===== verification/SessionFacts.v ===== *)
(** * SessionFacts: reasoning about the calls of a session *)

From S2P Require Import Prelude Text State Json LogModel Config Execution Dag Lifecycle Workflow Completion Snapshot Findings Policy OpsBytes OpsRequest OpsHost Ops Launch Shell Agent Reports Session Spawn Iteration.

(** ** Runs *)

Lemma sbind_ok {A B} (m : SIO A) (k : A -> SIO B) s b s' :
  sbind m k s = (Ok b, s') <-> exists a s1, m s = (Ok a, s1) /\ k a s1 = (Ok b, s').
Proof. unfold sbind. destruct (m s) as [[a|e] s1]; naive_solver. Qed.
Lemma slift_ok {A} (r : result string A) s a s1 : slift r s = (Ok a, s1) -> r = Ok a /\ s1 = s.
Proof. by intros [= -> ->]. Qed.
Lemma scheck_ok b e s u s1 : scheck b e s = (Ok u, s1) -> b = true /\ s1 = s.
Proof. destruct b; [|done]. by intros [= _ ->]. Qed.
Lemma sret_ok {A} (a : A) s b s1 : sret a s = (Ok b, s1) -> a = b /\ s1 = s.
Proof. by intros [= -> ->]. Qed.
Lemma sfiles_ok s fs s1 : sfiles s = (Ok fs, s1) -> fs = files (sworld s) /\ s1 = s.
Proof. destruct s. by intros [= <- <-]. Qed.
Lemma sattempt_ok {A} (m : SIO A) s r s1 : sattempt m s = (Ok r, s1) -> m s = (r, s1).
Proof. unfold sattempt. destruct (m s). by intros [= -> ->]. Qed.

(** ** The calls a run adds *)

(** [m] only adds calls in [Q], however it stops. *)
Definition adds (Q : External -> Prop) {A} (m : SIO A) : Prop :=
  forall s, exists es, history (m s).2 = history s ++ es /\ Forall Q es.

Section Adds.
Context (Q : External -> Prop).

Lemma adds_none {A} (m : SIO A) : (forall s, history (m s).2 = history s) -> adds Q m.
Proof. intros Hm s. exists []. by rewrite Hm, app_nil_r. Qed.
Lemma adds_bind {A B} (m : SIO A) (k : A -> SIO B) : adds Q m -> (forall a, adds Q (k a)) -> adds Q (sbind m k).
Proof.
  intros Hm Hk s. unfold sbind. destruct (Hm s) as (es & He & HQ). destruct (m s) as [[a|e] s1]; cbn [snd] in *; [|by exists es].
  destruct (Hk a s1) as (es' & He' & HQ'). exists (es ++ es'). rewrite He', He, app_assoc. split; [done|]. by apply Forall_app.
Qed.
Lemma adds_attempt {A} (m : SIO A) : adds Q m -> adds Q (sattempt m).
Proof. intros Hm s. unfold sattempt. specialize (Hm s). by destruct (m s). Qed.
Lemma adds_map_err {A} f (m : SIO A) : adds Q m -> adds Q (smap_err f m).
Proof. intros Hm s. unfold smap_err. specialize (Hm s). by destruct (m s). Qed.
Lemma adds_ret {A} (a : A) : adds Q (sret a).
Proof. by apply adds_none. Qed.
Lemma adds_fail {A} e : adds Q (sfail (A := A) e).
Proof. by apply adds_none. Qed.
Lemma adds_lift {A} (r : result string A) : adds Q (slift r).
Proof. by apply adds_none. Qed.
Lemma adds_check b e : adds Q (scheck b e).
Proof. apply adds_none. by destruct b. Qed.
Lemma adds_when b m : adds Q m -> adds Q (swhen b m).
Proof. destruct b; [done|]. intros _. apply adds_ret. Qed.
Lemma adds_sio {A} (m : IO A) : adds Q (sio m).
Proof. apply adds_none. intros s. unfold sio. by destruct (m (sworld s)). Qed.
Lemma adds_call `{Externals} e : Q e -> adds Q (call e).
Proof. intros He s. exists [e]. unfold call. destruct (external _ _ _). cbn. by split; [|constructor]. Qed.
End Adds.

Lemma adds_run Q {A} (m : SIO A) s r s' : adds Q m -> m s = (r, s') -> exists es, history s' = history s ++ es /\ Forall Q es.
Proof. intros Hm Hr. specialize (Hm s). by rewrite Hr in Hm. Qed.

Create HintDb adds.
#[export] Hint Resolve adds_ret adds_fail adds_lift adds_check adds_sio : adds.
Ltac add :=
  repeat first
    [ match goal with |- forall _, _ => intros ? end
    | solve [auto with adds]
    | match goal with
      | |- adds _ (sbind _ _) => apply adds_bind; [|intros ?]
      | |- adds _ (sattempt _) => apply adds_attempt
      | |- adds _ (smap_err _ _) => apply adds_map_err
      | |- adds _ (swhen _ _) => apply adds_when
      | |- adds _ (call _) => apply adds_call
      | |- adds _ (if ?b then _ else _) => destruct b
      | |- adds _ (match ?o with _ => _ end) => destruct o
      end ].

(** ** Calls of the multiplexer and of children *)

(** The name of the window that a call opens. *)
Definition opens (e : External) : option string :=
  match e with
  | Tmux ("-S" :: _ :: "new-window" :: _ :: _ :: _ :: _ :: name :: _) => Some name
  | Tmux ("new-window" :: _ :: _ :: _ :: _ :: name :: _) => Some name
  | _ => None
  end.
Definition opened_windows (es : list External) : list string := omap opens es.

Section Sets.
Context `{Platform} `{Git} `{JsonCodec} `{JsonPretty} `{Resolver} `{Externals} `{Processes} `{Clock}.
Context (Q : External -> Prop).

(** The multiplexer is asked something else than to open a window. *)
Definition asks (first : string) : Prop := forall sock rest, Q (Tmux (flag_value "-S" sock ++ first :: rest)).
Context (Hask : Forall asks ["list-windows"; "capture-pane"; "kill-window"; "has-session"; "pipe-pane"; "send-keys"]).
(** The commands of this program that agents are started and ended with. *)
Context (Hchild : forall command rest, command ∈ ["subagent"; "workflow"; "supervisor"] -> Q (Child (command :: rest))).

Lemma asks_in first : first ∈ ["list-windows"; "capture-pane"; "kill-window"; "has-session"; "pipe-pane"; "send-keys"] -> asks first.
Proof. intros Hin. rewrite Forall_forall in Hask. by apply Hask. Qed.

Lemma adds_tmux first rest :
  first ∈ ["list-windows"; "capture-pane"; "kill-window"; "has-session"; "pipe-pane"; "send-keys"] -> adds Q (tmux_output (first :: rest)).
Proof. intros Hin. unfold tmux_output. apply adds_map_err, adds_call. by apply asks_in. Qed.
Ltac tmux := apply adds_tmux; repeat first [left | right].

Lemma adds_self args : Q (Child args) -> adds Q (run_self_owned args).
Proof. intros Hq. unfold run_self_owned, run_self_output. add. Qed.
Lemma adds_self_text args : Q (Child args) -> adds Q (run_self_text args).
Proof. intros Hq. unfold run_self_text, run_self_output. add. Qed.
Lemma adds_child command rest : command ∈ ["subagent"; "workflow"; "supervisor"] -> adds Q (run_self_owned (command :: rest)).
Proof. intros Hin. by apply adds_self, Hchild. Qed.
Lemma adds_child_text command rest : command ∈ ["subagent"; "workflow"; "supervisor"] -> adds Q (run_self_text (command :: rest)).
Proof. intros Hin. by apply adds_self_text, Hchild. Qed.
Hint Extern 1 (adds _ (run_self_owned _)) => apply adds_child; repeat first [left | right] : adds.
Hint Extern 1 (adds _ (run_self_text _)) => apply adds_child_text; repeat first [left | right] : adds.
Lemma adds_window_exists session_ name : adds Q (window_exists session_ name).
Proof. unfold window_exists. apply adds_bind; [|add]. apply adds_attempt. tmux. Qed.
Lemma adds_tmux_success first rest :
  first ∈ ["list-windows"; "capture-pane"; "kill-window"; "has-session"; "pipe-pane"; "send-keys"] -> adds Q (tmux_success (first :: rest)).
Proof. intros Hin. unfold tmux_success. apply adds_bind; [|add]. apply adds_attempt. by apply adds_tmux. Qed.
Lemma adds_tmux_checked first rest :
  first ∈ ["list-windows"; "capture-pane"; "kill-window"; "has-session"; "pipe-pane"; "send-keys"] -> adds Q (tmux_checked (first :: rest)).
Proof. intros Hin. unfold tmux_checked. apply adds_bind; [|add]. by apply adds_tmux. Qed.
Lemma adds_capture_window a b c : adds Q (capture_window a b c).
Proof. unfold capture_window. apply adds_bind; [tmux|add]. Qed.
Lemma adds_kill_window cfg name : adds Q (kill_window cfg name).
Proof. apply adds_tmux_checked. repeat first [left | right]. Qed.
Hint Resolve adds_window_exists adds_capture_window adds_kill_window : adds.

Lemma adds_files : adds Q sfiles.
Proof. unfold sfiles. add. Qed.
Lemma adds_print t : adds Q (print_text t).
Proof. unfold print_text. add. Qed.
Lemma adds_write p t l : adds Q (write_text p t l).
Proof. unfold write_text. add. Qed.
Lemma adds_dirs p c : adds Q (make_dirs p c).
Proof. unfold make_dirs. add. Qed.
Lemma adds_now : adds Q now_text.
Proof. unfold now_text. add. Qed.
Hint Resolve adds_files adds_print adds_write adds_dirs adds_now : adds.
Lemma adds_append p t : adds Q (append_text p t).
Proof. unfold append_text. add. Qed.
Lemma adds_require c : adds Q (require_command c).
Proof. unfold require_command. add. Qed.
Lemma adds_status cfg n st : adds Q (set_subagent_status cfg n st).
Proof. unfold set_subagent_status. add. Qed.
Hint Resolve adds_append adds_require adds_status : adds.
Lemma adds_capture cfg n : adds Q (capture_subagent cfg n).
Proof. unfold capture_subagent. add. Qed.
Lemma adds_infer cfg n : adds Q (infer_status cfg n).
Proof. unfold infer_status. add. Qed.
Hint Resolve adds_capture adds_infer : adds.
Lemma adds_poll cfg n r : adds Q (poll cfg n r).
Proof. unfold poll. add. Qed.
Lemma adds_instant : adds Q instant.
Proof. by apply adds_none. Qed.
Hint Resolve adds_poll adds_instant : adds.
Lemma adds_wait cfg args : adds Q (wait cfg args).
Proof.
  unfold wait. assert (forall fuel n t d, adds Q (wait_loop fuel cfg n t d)) by (induction fuel; intros; cbn [wait_loop]; add). add.
Qed.
Lemma adds_report_assignment cfg n st : adds Q (report_assignment cfg n st).
Proof. unfold report_assignment. add. Qed.
Hint Resolve adds_wait adds_report_assignment : adds.
Lemma adds_finalize cfg args : adds Q (finalize cfg args).
Proof. unfold finalize. add. Qed.
Lemma adds_kill cfg args : adds Q (kill cfg args).
Proof. unfold kill, record_supervisor_termination, wait_for_process_exit. add. Qed.
Hint Resolve adds_finalize adds_kill : adds.
Lemma adds_classify cfg n : adds Q (classify_recovery cfg n).
Proof. unfold classify_recovery. add. Qed.
Lemma adds_final_message cfg n : adds Q (agent_final_message cfg n).
Proof. unfold agent_final_message. add. Qed.
Lemma adds_deliver cfg n t : adds Q (deliver_instruction cfg n t).
Proof.
  unfold deliver_instruction, wait_for_ready.
  assert (forall fuel c, adds Q (ready_attempts fuel cfg n c)) by (induction fuel; intros; cbn [ready_attempts]; add).
  assert (forall rest, adds Q (tmux_checked ("send-keys" :: rest))) by (intros; apply adds_tmux_checked; repeat first [left | right]). add.
Qed.
Hint Resolve adds_classify adds_final_message adds_deliver : adds.

(** ** Starting an agent, up to its window *)

Lemma adds_compose cfg name role text : adds Q (compose_role_instruction cfg name role text).
Proof. unfold compose_role_instruction. add. Qed.
Lemma adds_envelope name role text : adds Q (append_semantic_envelope name role text).
Proof. unfold append_semantic_envelope. add. Qed.
Lemma adds_binding cfg name role text : adds Q (append_verifier_diff_binding cfg name role text).
Proof. unfold append_verifier_diff_binding. add. Qed.
Lemma adds_context cfg name : adds Q (implementation_context cfg name).
Proof. unfold implementation_context. add. Qed.
Hint Resolve adds_compose adds_envelope adds_binding adds_context : adds.
Lemma adds_validate_context cfg name file text : adds Q (validate_implementation_context cfg name file text).
Proof. unfold validate_implementation_context. add. Qed.
Lemma adds_plan name o : adds Q (spawn_plan name o).
Proof. unfold spawn_plan. add. Qed.
Lemma adds_metadata name o p : adds Q (check_metadata name o p).
Proof. unfold check_metadata. add. Qed.
Lemma adds_reject_parallel cfg name : adds Q (reject_parallel_generic_worker_spawn cfg name).
Proof.
  unfold reject_parallel_generic_worker_spawn.
  assert (forall others, adds Q (reject_running_worker cfg name others)) by (induction others; cbn [reject_running_worker]; add).
  apply adds_bind; [by apply adds_none|add].
Qed.
Lemma adds_reject_ops cfg name role : adds Q (reject_additional_ops_identity cfg name role).
Proof. unfold reject_additional_ops_identity. add. Qed.
Lemma adds_ensure cfg name o : adds Q (ensure_assignment cfg name o).
Proof. unfold ensure_assignment. add. Qed.
Lemma adds_prompt cfg name cli text : adds Q (write_prompt cfg name cli text).
Proof. unfold write_prompt. add. Qed.
Lemma adds_register name cli binary prompt o p : adds Q (register_agent name cli binary prompt o p).
Proof. unfold register_agent. add. Qed.
Lemma adds_command cfg name cli exe prompt resume access missing secure :
  adds Q (agent_command cfg name cli exe prompt resume access missing secure).
Proof. unfold agent_command. add. Qed.
Lemma adds_pipe cfg name : adds Q (pipe_log cfg name).
Proof. unfold pipe_log. assert (forall rest, adds Q (tmux_checked ("pipe-pane" :: rest))) by (intros; apply adds_tmux_checked; repeat first [left | right]). add. Qed.
Lemma adds_has_session rest : adds Q (tmux_success ("has-session" :: rest)).
Proof. apply adds_tmux_success. repeat first [left | right]. Qed.
Hint Resolve adds_validate_context adds_plan adds_metadata adds_reject_parallel adds_reject_ops adds_ensure adds_prompt adds_register
  adds_command adds_pipe adds_has_session : adds.

(** A window is opened by one call. *)
Lemma adds_spawn cfg args : (forall sock rest, Q (Tmux (flag_value "-S" sock ++ "new-window" :: rest))) -> adds Q (spawn cfg args).
Proof.
  intros Hnew. unfold spawn.
  assert (forall name command, adds Q (open_window cfg name command)).
  { intros name command. unfold open_window, tmux_checked, tmux_output. add. }
  add.
Qed.
End Sets.

#[export] Hint Resolve adds_window_exists adds_capture_window adds_kill_window adds_files adds_print adds_write adds_dirs adds_now adds_append
  adds_require adds_status adds_capture adds_infer adds_poll adds_instant adds_wait adds_report_assignment adds_finalize adds_kill
  adds_classify adds_final_message adds_deliver adds_compose adds_envelope adds_binding adds_context adds_validate_context adds_plan
  adds_metadata adds_reject_parallel adds_reject_ops adds_ensure adds_prompt adds_register adds_command adds_pipe adds_has_session : adds.
#[export] Hint Extern 1 (adds _ (run_self_owned _)) => apply adds_child; [|repeat first [left | right]] : adds.
#[export] Hint Extern 1 (adds _ (run_self_text _)) => apply adds_child_text; [|repeat first [left | right]] : adds.

(** ** Windows *)

Lemma opened_app es es' : opened_windows (es ++ es') = opened_windows es ++ opened_windows es'.
Proof. apply omap_app. Qed.

(** The calls that open no window. *)
Definition quiet (e : External) : Prop := opens e = None.
Lemma quiet_asks : Forall (asks quiet) ["list-windows"; "capture-pane"; "kill-window"; "has-session"; "pipe-pane"; "send-keys"].
Proof. repeat constructor; intros [sock|] rest; reflexivity. Qed.
Lemma quiet_child command rest : command ∈ ["subagent"; "workflow"; "supervisor"] -> quiet (Child (command :: rest)).
Proof. done. Qed.
#[export] Hint Resolve quiet_asks quiet_child : adds.
Lemma quiet_windows es : Forall quiet es -> opened_windows es = [].
Proof. induction 1 as [|e es He _ IH]; [done|]. unfold opened_windows in *. cbn. by rewrite He. Qed.

(** [m] opens the window [name] once, or fails without opening one. *)
Definition opens_one (name : string) {A} (m : SIO A) : Prop :=
  forall s, exists es, history (m s).2 = history s ++ es
    /\ (opened_windows es = [name] \/ opened_windows es = [] /\ is_ok (m s).1 = false).

Lemma opens_one_bind {A B} name (m : SIO A) (k : A -> SIO B) : adds quiet m -> (forall a, opens_one name (k a)) -> opens_one name (sbind m k).
Proof.
  intros Hm Hk s. destruct (Hm s) as (es & He & Hq%quiet_windows). unfold sbind. destruct (m s) as [[a|e] s1]; cbn [snd] in *.
  - destruct (Hk a s1) as (es' & He' & Ho). exists (es ++ es'). rewrite He', He, app_assoc, opened_app, Hq. done.
  - exists es. auto.
Qed.
Lemma opens_one_then {A B} name (m : SIO A) (k : A -> SIO B) : opens_one name m -> (forall a, adds quiet (k a)) -> opens_one name (sbind m k).
Proof.
  intros Hm Hk s. destruct (Hm s) as (es & He & Ho). unfold sbind. destruct (m s) as [[a|e] s1]; cbn [fst snd] in *; [|eauto].
  destruct (Hk a s1) as (es' & He' & Hq%quiet_windows). exists (es ++ es'). rewrite He', He, app_assoc, opened_app, Hq, app_nil_r.
  split; [done|]. destruct Ho as [|[_ ?]]; [by left|done].
Qed.
Lemma opens_one_lift {A B} name (r : result string A) (k : A -> SIO B) :
  (forall a, r = Ok a -> opens_one name (k a)) -> opens_one name (sbind (slift r) k).
Proof.
  intros Hk s. unfold sbind, slift. destruct r as [a|e]; [by apply Hk|]. exists []. by rewrite app_nil_r; auto.
Qed.

Section Opening.
Context `{Platform} `{Git} `{JsonCodec} `{JsonPretty} `{Resolver} `{Externals} `{Processes} `{Clock}.

Lemma opens_open_window cfg name command : opens_one name (open_window cfg name command).
Proof.
  unfold open_window. apply opens_one_then; [|add]. unfold tmux_checked, tmux_output. apply opens_one_then; [|add].
  intros s. unfold smap_err, call. destruct (external _ _ _) as [r fs]. cbn. eexists. split; [reflexivity|]. left.
  by destruct (env_nonempty "MULTIAGENT_TMUX_SOCKET").
Qed.

(** The help of [spawn] opens nothing; otherwise it opens the window of its agent. *)
Lemma opens_spawn cfg name rest :
  (forall o, spawn_options no_spawn_options rest = Ok o -> help o = false) -> opens_one name (spawn cfg (name :: rest)).
Proof.
  intros Hh. unfold spawn. apply opens_one_lift. intros first Hf. assert (first = (name, rest)) as ->.
  { unfold named_args, first_arg in Hf. destruct (is_empty name); inv_ok. done. }
  cbn [fst snd]. apply opens_one_lift. intros o Ho. rewrite (Hh o Ho). repeat (apply opens_one_bind; [solve [add]|intros ?]).
  apply opens_one_then; [apply opens_open_window|add].
Qed.
End Opening.
