(* ===== verification/PlanProps.v ===== *)
(** * PlanProps: which iteration plans are accepted, and that their workers can run *)

From S2P Require Import Prelude Text State Json LogModel Instances Config Execution Dag Lifecycle Workflow WorkflowFacts Completion Snapshot Findings Policy OpsBytes OpsRequest OpsHost Ops Launch Shell Agent Reports Session Spawn Iteration.

(** ** Sets made of lists *)

Lemma size_set_le (l : list string) : (size (list_to_set l : gset string) <= length l)%nat.
Proof.
  induction l as [|x l IH]; cbn [list_to_set length]; [by rewrite size_empty|].
  rewrite size_union_alt, size_singleton.
  pose proof (subseteq_size (list_to_set l ∖ {[x]}) (list_to_set l : gset string) ltac:(set_solver)). lia.
Qed.
Lemma size_set_nodup (l : list string) : size (list_to_set l : gset string) = length l <-> NoDup l.
Proof.
  split; [|apply size_list_to_set]. induction l as [|x l IH]; [constructor|]. cbn [list_to_set length]. intros Hs.
  pose proof (size_set_le l). constructor.
  - intros Hx. replace ({[x]} ∪ list_to_set l) with (list_to_set l : gset string) in Hs by set_solver. lia.
  - apply IH. rewrite size_union_alt, size_singleton in Hs.
    pose proof (subseteq_size (list_to_set l ∖ {[x]}) (list_to_set l : gset string) ltac:(set_solver)). lia.
Qed.

(** ** Dependencies *)

#[export] Instance IterationWorker_eq : EqDecision IterationWorker.
Proof. solve_decision. Defined.

Definition worker_ids (ws : list IterationWorker) : list string := map worker_id ws.
Definition id_set (ws : list IterationWorker) : gset string := list_to_set (worker_ids ws).

(** A worker only depends on workers of a lower rank. *)
Definition ranked (ws : list IterationWorker) (rank : string -> nat) : Prop :=
  forall w d, w ∈ ws -> d ∈ depends_on w -> (rank d < rank (worker_id w))%nat.
(** The identifiers are unique, and a worker depends on other workers of the plan. *)
Record closed_graph (ws : list IterationWorker) : Prop := {
  cg_unique : NoDup (worker_ids ws);
  cg_known : forall w d, w ∈ ws -> d ∈ depends_on w -> d ≠ worker_id w /\ d ∈ worker_ids ws
}.

Lemma elem_of_id_set ws x : x ∈ id_set ws <-> exists w, w ∈ ws /\ worker_id w = x.
Proof. unfold id_set, worker_ids. rewrite elem_of_list_to_set, list_elem_of_fmap. naive_solver. Qed.

Lemma elem_of_ready completed ws w :
  w ∈ ready_workers completed ws <-> w ∈ ws /\ worker_id w ∉ completed /\ forall d, d ∈ depends_on w -> d ∈ completed.
Proof.
  unfold ready_workers, worker_ready. rewrite list_elem_of_In, filter_In, <- list_elem_of_In, andb_true_iff, negb_true_iff, bool_decide_eq_false.
  rewrite forallb_forall. setoid_rewrite bool_decide_eq_true. setoid_rewrite <- list_elem_of_In. done.
Qed.

Section Ranked.
Context (ws : list IterationWorker) (Hg : closed_graph ws).

Lemma size_ids : size (id_set ws) = length ws.
Proof. unfold id_set. rewrite size_list_to_set by apply Hg. apply length_map. Qed.

Lemma id_inj w w' : w ∈ ws -> w' ∈ ws -> worker_id w = worker_id w' -> w = w'.
Proof.
  intros (i & Hi)%list_elem_of_lookup (j & Hj)%list_elem_of_lookup He.
  assert (i = j) as ->; [|congruence].
  eapply NoDup_lookup; [apply Hg|unfold worker_ids; rewrite list_lookup_fmap, Hi; done|]. unfold worker_ids. rewrite list_lookup_fmap, Hj. cbn. by rewrite He.
Qed.

(** Some worker is not completed. *)
Lemma incomplete completed : completed ⊆ id_set ws -> (size completed < length ws)%nat -> exists w, w ∈ ws /\ worker_id w ∉ completed.
Proof.
  intros Hsub Hlt. rewrite <- size_ids in Hlt.
  destruct (set_choose_or_empty (id_set ws ∖ completed)) as [[x Hx]|He].
  - apply elem_of_difference in Hx as [(w & Hw & <-)%elem_of_id_set Hx]. eauto.
  - assert (id_set ws ⊆ completed) as Hall%subseteq_size by set_solver. lia.
Qed.
Lemma all_complete completed : completed ⊆ id_set ws -> (length ws <= size completed)%nat -> completed = id_set ws.
Proof.
  intros Hsub Hle. rewrite <- size_ids in Hle. apply leibniz_equiv.
  destruct (decide (completed ≡ id_set ws)) as [|Hne]; [done|].
  assert (completed ⊂ id_set ws) as ?%subset_size by (split; set_solver). lia.
Qed.

(** Among them, one of the lowest rank is ready. *)
Lemma ready_exists rank completed :
  ranked ws rank -> completed ⊆ id_set ws -> (size completed < length ws)%nat -> exists w, w ∈ ready_workers completed ws.
Proof.
  intros Hr Hsub Hlt. destruct (incomplete completed Hsub Hlt) as (w & Hw & Hn). clear Hlt.
  remember (rank (worker_id w)) as n eqn:En. revert w Hw Hn En. induction n as [n IH] using lt_wf_ind. intros w Hw Hn ->.
  destruct (decide (Forall (fun d => d ∈ completed) (depends_on w))) as [Hall|Hsome].
  - exists w. apply elem_of_ready. rewrite Forall_forall in Hall. done.
  - apply not_Forall_Exists, Exists_exists in Hsome as (d & Hd & Hnd); [|solve_decision].
    destruct (cg_known _ Hg w d Hw Hd) as [_ (w' & -> & Hw')%list_elem_of_fmap].
    apply (IH (rank (worker_id w'))) with w'; auto.
Qed.

(** A round completes at least one more worker, and only workers of the plan. *)
Definition after_round (completed : gset string) : gset string :=
  completed ∪ list_to_set (map worker_id (ready_workers completed ws)).
Lemma after_round_sub completed : completed ⊆ id_set ws -> after_round completed ⊆ id_set ws.
Proof.
  intros Hsub x [Hx|(w & -> & Hw)%elem_of_list_to_set%list_elem_of_fmap]%elem_of_union; [by apply Hsub|].
  apply elem_of_ready in Hw as [Hw _]. apply elem_of_id_set. eauto.
Qed.
Lemma after_round_grows completed w : w ∈ ready_workers completed ws -> (size completed < size (after_round completed))%nat.
Proof.
  intros Hw. apply subset_size. assert (worker_id w ∈ after_round completed).
  { apply elem_of_union_r, elem_of_list_to_set, list_elem_of_fmap. eauto. }
  apply elem_of_ready in Hw as (_ & Hn & _). unfold after_round in *. split; set_solver.
Qed.

(** ** The check for cycles *)

Lemma schedulable_ranked fuel completed :
  completed ⊆ id_set ws -> schedulable fuel completed ws = true ->
  exists rank : string -> nat, forall w d, w ∈ ws -> worker_id w ∉ completed -> d ∈ depends_on w -> d ∈ completed \/ (rank d < rank (worker_id w))%nat.
Proof.
  revert completed. induction fuel as [|fuel IH]; intros completed Hsub; cbn [schedulable].
  all: destruct (Nat.ltb_spec (size completed) (length ws)) as [Hlt|Hge].
  1: done.
  all: try (intros _; exists (fun _ => 0%nat); intros w d Hw Hn; exfalso; apply Hn; rewrite (all_complete completed Hsub Hge);
            apply elem_of_id_set; eauto; fail).
  destruct (ready_workers completed ws) as [|w0 l] eqn:Er; [done|]. rewrite <- Er. intros Hs.
  destruct (IH (after_round completed) (after_round_sub completed Hsub) Hs) as (rank & Hrank).
  set (now := list_to_set (map worker_id (ready_workers completed ws)) : gset string).
  exists (fun x => if bool_decide (x ∈ now) then 0%nat else S (rank x)). intros w d Hw Hn Hd.
  destruct (decide (w ∈ ready_workers completed ws)) as [(_ & _ & Hready)%elem_of_ready|Hnr]; [by left; apply Hready|].
  assert (worker_id w ∉ now) as Hnow.
  { intros (w' & He & Hw')%elem_of_list_to_set%list_elem_of_fmap. apply Hnr.
    assert (w' ∈ ws) by (by apply elem_of_ready in Hw' as [? _]). by rewrite (id_inj w w'). }
  rewrite (bool_decide_eq_false_2 _ Hnow). destruct (decide (d ∈ completed)) as [|Hdc]; [by left|right].
  case_bool_decide as Hdn; [lia|].
  destruct (Hrank w d Hw) as [Hin|]; [unfold after_round; set_solver|done|unfold after_round in Hin; set_solver|lia].
Qed.
Lemma ranked_schedulable rank fuel completed :
  ranked ws rank -> completed ⊆ id_set ws -> (length ws <= fuel + size completed)%nat -> schedulable fuel completed ws = true.
Proof.
  intros Hr. revert completed. induction fuel as [|fuel IH]; intros completed Hsub Hf; cbn [schedulable].
  all: destruct (Nat.ltb_spec (size completed) (length ws)) as [Hlt|Hge]; try done.
  - lia.
  - destruct (ready_exists rank completed Hr Hsub Hlt) as (w & Hw). pose proof (after_round_grows completed w Hw).
    destruct (ready_workers completed ws) as [|w0 l] eqn:Er; [by apply not_elem_of_nil in Hw|]. rewrite <- Er.
    apply IH; [by apply after_round_sub|]. unfold after_round in *. lia.
Qed.
Lemma schedulable_exact : schedulable (length ws) ∅ ws = true <-> exists rank, ranked ws rank.
Proof.
  split.
  - intros (rank & Hr)%schedulable_ranked; [|set_solver]. exists rank. intros w d Hw Hd.
    destruct (Hr w d Hw) as [|]; [set_solver|done|set_solver|done].
  - intros (rank & Hr). apply (ranked_schedulable rank); [done|set_solver|lia].
Qed.
End Ranked.

(** ** The accepted plans *)

(** No path of the list is, or is below, another one. *)
Definition pairwise_apart (l : list string) : Prop :=
  forall i j a b, i ≠ j -> l !! i = Some a -> l !! j = Some b -> path_contains a b = false.

Lemma pairwise_snoc l x :
  pairwise_apart (l ++ [x]) <-> pairwise_apart l /\ forall y, y ∈ l -> path_contains y x = false /\ path_contains x y = false.
Proof.
  split.
  - intros Hp. split.
    + intros i j a b Hij Hi Hj. apply (Hp i j a b Hij); apply lookup_app_l_Some; done.
    + intros y (i & Hi)%list_elem_of_lookup. pose proof (lookup_lt_Some _ _ _ Hi).
      assert ((l ++ [x]) !! i = Some y) by (by apply lookup_app_l_Some).
      assert ((l ++ [x]) !! length l = Some x) by (by apply list_lookup_middle).
      split; [apply (Hp i (length l))|apply (Hp (length l) i)]; try done; lia.
  - intros [Hp Hx] i j a b Hij [Hi|[Hli Hi]]%lookup_app_Some [Hj|[Hlj Hj]]%lookup_app_Some.
    + by apply (Hp i j).
    + apply list_lookup_singleton_Some in Hj as [_ <-]. by apply Hx, list_elem_of_lookup_2 with i.
    + apply list_lookup_singleton_Some in Hi as [_ <-]. by apply Hx, list_elem_of_lookup_2 with j.
    + apply list_lookup_singleton_Some in Hi as [? _]. apply list_lookup_singleton_Some in Hj as [? _]. lia.
Qed.
Lemma pairwise_prefix l k : pairwise_apart (l ++ k) -> pairwise_apart l.
Proof. intros Hp i j a b Hij Hi Hj. apply (Hp i j); auto using lookup_app_l_Some. Qed.

Section Accepted.
Context `{Platform} `{Git} `{JsonCodec} `{JsonPretty} `{Resolver} `{Externals} `{Processes} `{Clock}.
Context (fs : gmap string string) (cfg : RuntimeConfig).

Definition normalizes (path normal : string) : Prop := normalize_requested_path fs (cfg_root cfg) path = Ok normal.

Lemma add_owned_exact all requested r :
  pairwise_apart all ->
  add_owned fs cfg all requested = Ok r <-> exists new, r = all ++ new /\ Forall2 normalizes requested new /\ pairwise_apart r.
Proof.
  revert all. induction requested as [|path rest IH]; intros all Ha; cbn [add_owned].
  - split; [intros [= <-]; exists []; rewrite app_nil_r; repeat split; auto; constructor|].
    intros (new & -> & Hn & _). inversion Hn; subst. by rewrite app_nil_r.
  - assert (forall n, existsb (fun e => path_contains e n || path_contains n e) all = false <-> forall y, y ∈ all -> path_contains y n = false /\ path_contains n y = false) as Hex.
    { intros n. rewrite <- not_true_iff_false, existsb_exists. setoid_rewrite <- list_elem_of_In. split.
      - intros Hno y Hy. apply orb_false_iff, not_true_iff_false. eauto.
      - intros Hy (y & Hin & Hb). destruct (Hy y Hin) as [E1 E2]. by rewrite E1, E2 in Hb. }
    split.
    + intros Hr. inv_ok. bool_hyps. pose proof (proj1 (Hex _) Hok0) as Hfree. apply IH in Hr as (new & -> & Hn & Hp); [|by apply pairwise_snoc].
      exists (a :: new). rewrite <- app_assoc in *. repeat split; [|done]. by constructor.
    + intros (new & -> & Hn & Hp). inversion Hn as [|? n ? new' Hpn Hrest]; subst. rewrite Hpn. cbn [rbind].
      assert (pairwise_apart (all ++ [n])) as Hp1 by (apply (pairwise_prefix _ new'); by rewrite <- app_assoc).
      rewrite (proj2 (Hex n)) by (by apply pairwise_snoc in Hp1 as [_ ?]). cbn [negb guard rbind].
      apply IH; [done|]. exists new'. by rewrite <- app_assoc.
Qed.

Lemma check_dependencies_exact ids w deps :
  check_dependencies_of ids w deps = Ok tt <-> forall d, d ∈ deps -> d ≠ worker_id w /\ d ∈ ids.
Proof.
  induction deps as [|d deps IH]; cbn [check_dependencies_of]; [split; [intros _ d Hd; by apply not_elem_of_nil in Hd|done]|].
  setoid_rewrite elem_of_cons. split.
  - intros Hr. inv_ok. bool_hyps. pose proof (proj1 IH Hr) as Hrest. intros x [->|Hx]; auto.
  - intros Hd. destruct (Hd d (or_introl eq_refl)) as [Hne Hin]. rewrite (proj2 (String.eqb_neq _ _) Hne), bool_decide_eq_true_2 by done.
    cbn. apply IH. auto.
Qed.

(** What is asked of each worker on its own. *)
Record worker_valid (w : IterationWorker) : Prop := {
  wv_name : validate_name (worker_id w) = Ok tt;
  wv_prefix : starts_with "worker-" (worker_id w) = true;
  wv_text : nonblank (worker_instruction w) = true /\ len (worker_instruction w) <= MAX_TEXT;
  wv_owned : owned_paths w ≠ []
}.
Lemma check_workers_exact ids all ws r :
  pairwise_apart all ->
  check_workers fs cfg ids all ws = Ok r <->
  exists new, r = all ++ new /\ Forall2 normalizes (concat (map owned_paths ws)) new /\ pairwise_apart r /\
    forall w, w ∈ ws -> worker_valid w /\ forall d, d ∈ depends_on w -> d ≠ worker_id w /\ d ∈ ids.
Proof.
  revert all. induction ws as [|w ws IH]; intros all Ha; cbn [check_workers map concat].
  - split; [intros [= <-]; exists []; rewrite app_nil_r; split_and!; auto; intros w Hw; by apply not_elem_of_nil in Hw|].
    intros (new & -> & Hn & _). inversion Hn; subst. by rewrite app_nil_r.
  - split.
    + intros Hr. apply rbind_ok in Hr as ([] & Hname & Hr). apply rbind_ok in Hr as ([] & Hpre%guard_ok & Hr).
      apply rbind_ok in Hr as ([] & Htext%guard_ok & Hr). apply rbind_ok in Hr as ([] & Howned%guard_ok & Hr).
      apply rbind_ok in Hr as ([] & Hdeps & Hr). apply rbind_ok in Hr as (all' & Hadd & Hr). bool_hyps.
      apply add_owned_exact in Hadd as (n1 & -> & Hn1 & Hp1); [|done]. apply IH in Hr as (n2 & -> & Hn2 & Hp2 & Hws); [|done].
      exists (n1 ++ n2). rewrite <- app_assoc in *. split_and!; [done|by apply Forall2_app|done|].
      intros w' [->|Hw']%elem_of_cons; [|auto]. split; [|by apply check_dependencies_exact].
      constructor; auto. split; [done|lia].
    + intros (new & -> & Hn & Hp & Hws). apply Forall2_app_inv_l in Hn as (n1 & n2 & Hn1 & Hn2 & ->). rewrite app_assoc in *.
      destruct (Hws w (list_elem_of_here _ _)) as [[Hname Hpre [Htext Hlen] Howned] Hdeps]. rewrite Hname. cbn [rbind]. rewrite Hpre. cbn [guard rbind].
      rewrite Htext, (proj2 (Z.leb_le _ _) Hlen). cbn [andb guard rbind]. rewrite bool_decide_eq_false_2 by done. cbn [negb guard rbind].
      rewrite (proj2 (check_dependencies_exact ids w _) Hdeps). cbn [rbind].
      pose proof (pairwise_prefix _ _ Hp) as Hp1. rewrite (proj2 (add_owned_exact all (owned_paths w) (all ++ n1) Ha)) by eauto. cbn [rbind].
      apply IH; [done|]. exists n2. split_and!; auto. intros w' Hw'. apply Hws. by right.
Qed.

(** A plan that may be executed, with the paths its workers own. *)
Record sound_plan (plan : IterationPlan) (owned : list string) : Prop := {
  sp_kind : api_version plan = ITERATION_PLAN_API_VERSION /\ plan_kind plan = ITERATION_PLAN_KIND;
  sp_iteration : iteration plan ≠ 0;
  sp_context : nonblank (plan_context plan) = true /\ len (plan_context plan) <= MAX_TEXT;
  sp_count : (1 <= length (workers plan) <= 32)%nat;
  sp_workers : forall w, w ∈ workers plan -> worker_valid w;
  sp_graph : closed_graph (workers plan);
  sp_ranked : exists rank, ranked (workers plan) rank;
  sp_owned : Forall2 normalizes (concat (map owned_paths (workers plan))) owned;
  sp_apart : pairwise_apart owned;
  sp_reviews : forall kind, kind ∈ additional_reviews plan -> kind ∈ ["scope"; "reflection"];
  sp_todos : forall todo, todo ∈ resolves_todos plan -> todo_id_ok todo = true
}.

Lemma find_none_forall {A} (f : A -> bool) (l : list A) : List.find (fun x => negb (f x)) l = None <-> forall x, x ∈ l -> f x = true.
Proof.
  setoid_rewrite list_elem_of_In. split.
  - intros Hn x Hx. apply negb_false_iff. exact (find_none _ _ Hn x Hx).
  - intros Hf. destruct (List.find _ l) eqn:E; [|done]. apply find_some in E as [Hin E]. by rewrite (Hf _ Hin) in E.
Qed.
Lemma reviews_exact l : forallb (fun kind => mem kind ["scope"; "reflection"]) l = true <-> forall kind, kind ∈ l -> kind ∈ ["scope"; "reflection"].
Proof. rewrite forallb_forall. setoid_rewrite <- list_elem_of_In. by setoid_rewrite mem_in. Qed.

Lemma plan_accepted plan owned : validate_iteration_plan fs cfg plan = Ok owned <-> sound_plan plan owned.
Proof.
  unfold validate_iteration_plan. split.
  - intros Hr. apply rbind_ok in Hr as ([] & Hkind%guard_ok & Hr). apply rbind_ok in Hr as ([] & Hiter%guard_ok & Hr).
    apply rbind_ok in Hr as ([] & Hctx%guard_ok & Hr). apply rbind_ok in Hr as ([] & Hcount%guard_ok & Hr).
    apply rbind_ok in Hr as ([] & Hids%guard_ok & Hr). apply rbind_ok in Hr as (all & Hws & Hr).
    apply rbind_ok in Hr as ([] & Hsched%guard_ok & Hr). apply rbind_ok in Hr as ([] & Hrev%guard_ok & Hr).
    apply rbind_ok in Hr as ([] & Htodos & [= <-]). bool_hyps. rewrite Nat.eqb_eq in Hids.
    apply check_workers_exact in Hws as (new & -> & Hn & Hp & Hw); [|by intros ? ? ? ? ? ?].
    assert (closed_graph (workers plan)) as Hg.
    { split; [apply size_set_nodup; unfold worker_ids; by rewrite Hids, length_map|]. intros w d Hin Hd. destruct (Hw w Hin) as [_ Hdep].
      destruct (Hdep d Hd) as [? Hid]. by rewrite elem_of_list_to_set in Hid. }
    destruct (List.find _ (resolves_todos plan)) eqn:Ef; [done|].
    rewrite Z.eqb_neq in Hiter. rewrite Nat.ltb_lt, Nat.leb_le, Z.leb_le in *.
    split; auto; [intros w Hin; by apply Hw|by apply schedulable_exact|by apply reviews_exact|by apply find_none_forall].
  - intros [[Hk1 Hk2] Hiter [Hc1 Hc2] Hcount Hws Hg Hrank Hn Hp Hrev Htodos].
    rewrite Hk1, Hk2, !String.eqb_refl. cbn [andb guard rbind]. rewrite (proj2 (Z.eqb_neq _ _) Hiter). cbn [negb guard rbind].
    rewrite Hc1, (proj2 (Z.leb_le _ _) Hc2). cbn [andb guard rbind].
    rewrite (proj2 (Nat.ltb_lt _ _)), (proj2 (Nat.leb_le _ _)) by lia. cbn [andb guard rbind].
    pose proof (size_ids _ Hg) as Hs. unfold id_set, worker_ids in Hs. rewrite Hs, Nat.eqb_refl. cbn [guard rbind].
    rewrite (proj2 (check_workers_exact _ [] (workers plan) owned ltac:(by intros ? ? ? ? ? ?))).
    + cbn [rbind]. rewrite (proj2 (schedulable_exact _ Hg) Hrank). cbn [guard rbind]. rewrite (proj2 (reviews_exact _) Hrev). cbn [guard rbind].
      by rewrite (proj2 (find_none_forall _ _) Htodos).
    + exists owned. split_and!; auto. intros w Hin. split; [auto|]. intros d Hd. rewrite elem_of_list_to_set. by apply (cg_known _ Hg w d).
Qed.
Lemma plan_graph plan owned : validate_iteration_plan fs cfg plan = Ok owned -> closed_graph (workers plan).
Proof. intros Hv%plan_accepted. apply Hv. Qed.

(** C29: a plan is accepted exactly when it is sound. Its kind, iteration, context and
    number of workers are as asked; its workers have names, instructions and paths,
    unique identifiers, and dependencies on other workers that follow some rank, so
    that no worker depends on itself through others; the normalized paths that
    validation returns are those of the workers in order, and none is or contains
    another; the extra reviews and resolved TODOs are of the known form. *)
Theorem plan_accepted_exact plan owned : validate_iteration_plan fs cfg plan = Ok owned <-> sound_plan plan owned.
Proof. apply plan_accepted. Qed.
End Accepted.
