(* ===== verification/IterationProps.v ===== *)
(** * IterationProps: the workers of a plan run in the order of their dependencies *)

From S2P Require Import Prelude Text State Json LogModel Instances Config Execution Dag Lifecycle Workflow Completion Snapshot Findings Policy OpsBytes OpsRequest OpsHost Ops Launch Shell Agent Reports Session Spawn Iteration SessionFacts PlanProps.

Section Workers.
Context `{Platform} `{Git} `{JsonCodec} `{JsonPretty} `{Resolver} `{Externals} `{Processes} `{Clock}.
Context (cfg : RuntimeConfig) (plan : IterationPlan) (context execution_dir timeout : string).

(** ** What a run does *)

(** The agent is done and left a message. *)
Definition done_at (name : string) (s : Session) : Prop :=
  status_in (files (sworld s)) cfg name = "done"
  /\ exists m, files (sworld s) !! path_join (agent_dir cfg name) "last-message.txt" = Some m /\ nonblank m = true.
(** After [start], and when no more than the calls [h] were made, the agent was
    waited for and found done. *)
Definition finished (start : Session) (h : list External) (name : string) : Prop :=
  exists s1 s2, history start `prefix_of` history s1 /\ wait cfg [name; "--timeout"; timeout] s1 = (Ok tt, s2)
    /\ done_at name s2 /\ history s2 `prefix_of` h.
(** Every window that the calls [es] open, after [before], is one of a worker of
    the plan that has none yet and whose dependencies are finished. *)
Definition in_order (start : Session) (before es : list External) : Prop :=
  forall pre e post name, es = pre ++ e :: post -> opens e = Some name ->
  exists w, w ∈ workers plan /\ worker_id w = name /\ name ∉ opened_windows (before ++ pre)
    /\ forall d, d ∈ depends_on w -> finished start (history start ++ before ++ pre) d.

Lemma finished_mono start h h' name : h `prefix_of` h' -> finished start h name -> finished start h' name.
Proof. intros Hp (s1 & s2 & Ha & Hw & Hd & Hb). exists s1, s2. split_and!; auto. by etrans. Qed.
Lemma quiet_in_order start before es : Forall quiet es -> in_order start before es.
Proof.
  intros Hq pre e post name -> Ho. apply Forall_app in Hq as [_ Hq]. apply Forall_cons in Hq as [Hq _]. unfold quiet in Hq. congruence.
Qed.
Lemma in_order_app start before es es' : in_order start before es -> in_order start (before ++ es) es' -> in_order start before (es ++ es').
Proof.
  intros Ha Hb pre e post name He Ho.
  apply app_eq_inv in He as [(l & -> & He)|(l & -> & He)].
  - destruct l as [|e0 l]; [|injection He as <- ->; eapply Ha; eauto].
    rewrite app_nil_r in *. specialize (Hb [] e post name (eq_sym He) Ho). by rewrite app_nil_r in Hb.
  - specialize (Hb l e post name He Ho). by rewrite <- app_assoc in Hb.
Qed.
(** One window, of a worker that may start. *)
Lemma one_in_order start before es w :
  opened_windows es = [worker_id w] -> w ∈ workers plan -> worker_id w ∉ opened_windows before ->
  (forall d, d ∈ depends_on w -> finished start (history start ++ before) d) -> in_order start before es.
Proof.
  intros Hes Hw Hn Hd pre e post name -> Ho. rewrite opened_app in Hes. unfold opened_windows in Hes at 2. cbn [omap list_omap] in Hes.
  rewrite Ho in Hes. destruct (opened_windows pre) as [|x l] eqn:Ep; [|exfalso; by destruct l].
  injection Hes as -> _. exists w. rewrite opened_app, Ep, app_nil_r. split_and!; auto. intros d Hin. eapply finished_mono; [|by apply Hd].
  rewrite app_assoc. by apply prefix_app_r.
Qed.

(** ** Starting the workers of a round *)

Lemma own_options o l rest o' :
  spawn_options o (own_args l ++ rest) = Ok o' -> exists o1, help o1 = help o /\ spawn_options o1 rest = Ok o'.
Proof.
  revert o. induction l as [|path l IH]; intros o; [by exists o|]. cbn. destruct (is_empty path) eqn:Ee; cbn; [done|].
  intros (o1 & Hh & Ho)%IH. exists o1. split; [by rewrite Hh|done].
Qed.
Lemma worker_options w o :
  spawn_options no_spawn_options (["--role"; "worker"] ++ own_args (owned_paths w)
     ++ ["--workflow-id"; plan_workflow plan; "--instruction-file"; path_join execution_dir (worker_id w +:+ ".md")]) = Ok o -> help o = false.
Proof.
  cbn. intros (o1 & Hh & Ho)%own_options. cbn in Hh, Ho. destruct (is_empty (plan_workflow plan)); [done|]. cbn in Ho.
  destruct (is_empty (path_join _ _)); [done|]. cbn in Ho. injection Ho as <-. done.
Qed.
Lemma opens_spawn_worker w : opens_one (worker_id w) (spawn_worker cfg plan context execution_dir w).
Proof. unfold spawn_worker. apply opens_one_bind; [add|]. intros _. apply opens_spawn. apply worker_options. Qed.

(** The workers may start: they have no window, and their dependencies finished. *)
Definition may_start (start : Session) (before : list External) (ready : list IterationWorker) : Prop :=
  forall w, w ∈ ready -> w ∈ workers plan /\ worker_id w ∉ opened_windows before
    /\ forall d, d ∈ depends_on w -> finished start (history start ++ before) d.
Lemma may_start_after start before es w ready :
  NoDup (worker_ids (w :: ready)) -> opened_windows es = [worker_id w] -> may_start start before (w :: ready) -> may_start start (before ++ es) ready.
Proof.
  intros [Hn _]%NoDup_cons Hes Hm w' Hw'. destruct (Hm w' (list_elem_of_further _ _ _ Hw')) as (Hin & Hno & Hd). split_and!; auto.
  - rewrite opened_app, Hes. intros [|He%list_elem_of_singleton]%elem_of_app; [done|]. apply Hn. rewrite <- He. apply list_elem_of_fmap. eauto.
  - intros d Hdd. eapply finished_mono; [|by apply Hd]. rewrite app_assoc. by apply prefix_app_r.
Qed.

Lemma spawn_round_order start before ready spawned s :
  NoDup (worker_ids ready) -> may_start start before ready ->
  exists es got failed, spawn_round cfg plan context execution_dir ready spawned s = (Ok (got, failed), (spawn_round cfg plan context execution_dir ready spawned s).2)
    /\ history (spawn_round cfg plan context execution_dir ready spawned s).2 = history s ++ es /\ in_order start before es
    /\ (failed = None -> opened_windows es = worker_ids ready).
Proof.
  revert before spawned s. induction ready as [|w ready IH]; intros before spawned s Hnd Hm; cbn [spawn_round].
  { exists [], spawned, None. rewrite app_nil_r. split_and!; auto. by apply quiet_in_order. }
  unfold sbind, sattempt. destruct (opens_spawn_worker w s) as (es & He & Ho).
  destruct (Hm w (list_elem_of_here _ _)) as (Hw & Hno & Hd).
  destruct (spawn_worker _ _ _ _ w s) as [[u|e] s1]; cbn [fst snd] in *.
  - destruct Ho as [Ho|[_ ?]]; [|done].
    destruct (IH (before ++ es) (spawned ++ [worker_id w]) s1) as (es' & got & failed & -> & He' & Hord & Hall).
    { by apply NoDup_cons in Hnd as [_ ?]. } { by eapply may_start_after. }
    exists (es ++ es'), got, failed. cbn [snd] in *. split_and!; [done|by rewrite He', He, app_assoc|apply in_order_app; [by eapply one_in_order|done]|].
    intros Hf. by rewrite opened_app, Ho, (Hall Hf).
  - exists es, spawned, (Some e). split_and!; [done|done| |done]. destruct Ho as [Ho|[Ho _]]; [by eapply one_in_order|].
    intros pre x post name -> Hx. rewrite opened_app in Ho. apply app_eq_nil in Ho as [_ Ho]. unfold opened_windows in Ho. cbn in Ho. by rewrite Hx in Ho.
Qed.

(** ** Waiting for them *)

Lemma adds_collect ready completed : adds quiet (collect_round cfg timeout ready completed).
Proof. revert completed. induction ready; intros; cbn [collect_round]; add. Qed.
Lemma adds_kill_all names : adds quiet (kill_all cfg names).
Proof. induction names; cbn [kill_all]; add. Qed.
Lemma adds_prefix {A} Q (m : SIO A) s r s' : adds Q m -> m s = (r, s') -> history s `prefix_of` history s'.
Proof. intros Hm Hr. destruct (adds_run Q m s r s' Hm Hr) as (es & -> & _). by exists es. Qed.

Lemma final_message_run name s r s' :
  agent_final_message cfg name s = (r, s') ->
  r = ok_or (files (sworld s) !! path_join (agent_dir cfg name) "last-message.txt") ("agent final message is missing: " +:+ name) /\ s' = s.
Proof. destruct s as [w h p]. by intros [= <- <-]. Qed.
Lemma collect_round_ok start ready completed s c s' :
  history start `prefix_of` history s -> collect_round cfg timeout ready completed s = (Ok (c, None), s') ->
  c = list_to_set (worker_ids ready) ∪ completed /\ forall w, w ∈ ready -> finished start (history s') (worker_id w).
Proof.
  revert completed s. induction ready as [|w ready IH]; intros completed s Hp; cbn [collect_round].
  { intros [= <- <-]. split; [cbn; set_solver|]. by intros w ?%not_elem_of_nil. }
  intros Hr. apply sbind_ok in Hr as ([] & s1 & Hwait & Hr). apply sbind_ok in Hr as (fs & s2 & [-> ->]%sfiles_ok & Hr).
  apply sbind_ok in Hr as (message & s2 & Hmsg%sattempt_ok & Hr). apply sbind_ok in Hr as ([] & s3 & Hfin & Hr).
  apply final_message_run in Hmsg as [-> ->].
  destruct (negb _ || negb _) eqn:Ed; [discriminate Hr|]. bool_hyps.
  assert (history s `prefix_of` history s1) as Hp1 by (eapply (adds_prefix quiet); [|exact Hwait]; auto with adds).
  assert (history s1 `prefix_of` history s3) as Hp3 by (eapply (adds_prefix quiet); [|exact Hfin]; auto with adds).
  assert (history start `prefix_of` history s3) as Hp4 by (etrans; [exact Hp|]; etrans; [exact Hp1|exact Hp3]).
  destruct (IH _ _ Hp4 Hr) as [-> Hrest].
  split; [cbn; set_solver|]. intros w' [->|Hin]%elem_of_cons; [|auto].
  exists s, s1. split_and!; auto.
  - split; [done|]. destruct (files (sworld s1) !! _) as [m|] eqn:Em; [|done]. by exists m.
  - etrans; [exact Hp3|]. eapply adds_prefix, Hr. apply adds_collect.
Qed.

(** ** Rounds *)

Lemma adds_parallel v : adds quiet (set_parallel v).
Proof. by apply adds_none. Qed.
Lemma run_round_order start before completed ready s r s' :
  NoDup (worker_ids ready) -> may_start start before ready -> history s = history start ++ before ->
  run_round cfg plan context execution_dir timeout completed ready s = (r, s') ->
  exists es, history s' = history s ++ es /\ in_order start before es
    /\ forall c, r = Ok (c, None) -> c = list_to_set (worker_ids ready) ∪ completed /\ opened_windows es = worker_ids ready
         /\ forall w, w ∈ ready -> finished start (history s') (worker_id w).
Proof.
  intros Hnd Hm Hh Hr. unfold run_round, sbind, get_parallel, set_parallel in Hr.
  set (s1 := mkSession (sworld s) (history s) (Some "1")) in Hr.
  destruct (spawn_round_order start before ready [] s1 Hnd Hm) as (es & got & failed & Es & He & Hord & Hall).
  rewrite Es in Hr. set (s2 := (spawn_round cfg plan context execution_dir ready [] s1).2) in *.
  set (s3 := mkSession (sworld s2) (history s2) (parallel s)) in Hr. assert (history s3 = history s ++ es) as Hh3 by exact He. cbn [fst snd] in Hr.
  destruct failed as [error|].
  - assert (adds quiet (let$ _ := kill_all cfg got in sfail (A := gset string * option string) error)) as Hq by (pose proof (adds_kill_all got); add).
    destruct (adds_run _ _ _ _ _ Hq Hr) as (es' & He' & Hes'). exists (es ++ es'). rewrite He', Hh3, app_assoc. split_and!; [done| |].
    + apply in_order_app; [done|by apply quiet_in_order].
    + intros c ->. exfalso. unfold sbind in Hr. by destruct (kill_all cfg got s3) as [[u|e] s4].
  - destruct (adds_run _ _ _ _ _ (adds_collect ready completed) Hr) as (es' & He' & Hes'). exists (es ++ es'). rewrite He', Hh3, app_assoc.
    split_and!; [done|apply in_order_app; [done|by apply quiet_in_order]|].
    intros c ->. apply (collect_round_ok start) in Hr as [-> Hfin].
    + rewrite opened_app, (quiet_windows es'), app_nil_r by done. split_and!; [done|by apply Hall|].
      intros w Hw. specialize (Hfin w Hw). by rewrite He', Hh3 in Hfin.
    + rewrite Hh3, Hh, <- app_assoc. by apply prefix_app_r.
Qed.

Lemma run_round_completed completed ready s c s' :
  run_round cfg plan context execution_dir timeout completed ready s = (Ok (c, None), s') -> c = list_to_set (worker_ids ready) ∪ completed.
Proof.
  unfold run_round. intros Hr. do 3 (apply sbind_ok in Hr as (? & ? & _ & Hr)). apply sbind_ok in Hr as (? & s1 & _ & Hr).
  match type of Hr with context [match ?o with _ => _ end] => destruct o end.
  - by apply sbind_ok in Hr as (? & ? & _ & ?).
  - by eapply collect_round_ok in Hr as [-> _].
Qed.

Lemma ready_nodup completed ws : NoDup (worker_ids ws) -> NoDup (worker_ids (ready_workers completed ws)).
Proof.
  intros Hn. unfold worker_ids, ready_workers in *. induction ws as [|w l IH]; [constructor|].
  cbn in *. apply NoDup_cons in Hn as [Hw Hn]. destruct (worker_ready completed w); cbn; [|by apply IH].
  constructor; [|by apply IH]. intros (x & Hx & Hin%list_elem_of_In%filter_In)%list_elem_of_fmap. apply Hw. rewrite Hx.
  apply list_elem_of_fmap. exists x. split; [done|]. by apply list_elem_of_In, Hin.
Qed.

Section Graph.
Context (Hg : closed_graph (workers plan)).

(** The state between two rounds. *)
Record between (start : Session) (before : list External) (completed : gset string) (s : Session) : Prop := {
  bt_history : history s = history start ++ before;
  bt_known : completed ⊆ id_set (workers plan);
  bt_opened : forall x, x ∈ completed <-> x ∈ opened_windows before;
  bt_finished : forall x, x ∈ completed -> finished start (history s) x
}.
Lemma between_may_start start before completed s :
  between start before completed s -> may_start start before (ready_workers completed (workers plan)).
Proof.
  intros [Hh _ Ho Hf] w (Hw & Hn & Hd)%elem_of_ready. split_and!; [done|by rewrite <- Ho|]. intros d Hin. rewrite <- Hh. auto.
Qed.
Lemma between_next start before completed s es s' :
  between start before completed s -> history s' = history s ++ es ->
  opened_windows es = worker_ids (ready_workers completed (workers plan)) ->
  (forall w, w ∈ ready_workers completed (workers plan) -> finished start (history s') (worker_id w)) ->
  between start (before ++ es) (list_to_set (worker_ids (ready_workers completed (workers plan))) ∪ completed) s'.
Proof.
  intros [Hh Hk Ho Hf] He Hes Hfin. split.
  - by rewrite He, Hh, app_assoc.
  - intros x [(w & -> & [Hw _]%elem_of_ready)%elem_of_list_to_set%list_elem_of_fmap|Hx]%elem_of_union; [apply elem_of_id_set; eauto|auto].
  - intros x. rewrite opened_app, elem_of_app, elem_of_union, elem_of_list_to_set, Hes, Ho. tauto.
  - intros x [(w & -> & Hw)%elem_of_list_to_set%list_elem_of_fmap|Hx]%elem_of_union; [auto|].
    eapply finished_mono; [|by apply Hf]. rewrite He. by apply prefix_app_r.
Qed.

Lemma worker_rounds_order fuel start before completed s r s' :
  between start before completed s -> worker_rounds fuel cfg plan context execution_dir timeout completed s = (r, s') ->
  exists es, history s' = history s ++ es /\ in_order start before es
    /\ (r = Ok None -> forall w, w ∈ workers plan -> worker_id w ∈ opened_windows (before ++ es) /\ finished start (history s') (worker_id w)).
Proof.
  revert before completed s. induction fuel as [|fuel IH]; intros before completed s Hb; cbn [worker_rounds].
  all: destruct (Nat.ltb_spec (size completed) (length (workers plan))) as [Hlt|Hge].
  all: try (intros [= <- <-]; exists []; rewrite !app_nil_r; split_and!; [done|by apply quiet_in_order|]).
  1: done.
  1,3: intros _ w Hw; assert (worker_id w ∈ completed) as Hin by
         (rewrite (all_complete _ Hg completed (bt_known _ _ _ _ Hb) Hge); apply elem_of_id_set; eauto);
       split; [by apply (bt_opened _ _ _ _ Hb)|by apply (bt_finished _ _ _ _ Hb)].
  unfold sbind at 1. destruct (scheck _ _ s) as [[u|e] s0] eqn:Ec.
  2: { intros [= <- <-]. assert (s0 = s) as -> by (unfold scheck in Ec; destruct (negb _); by inversion Ec).
       exists []. rewrite !app_nil_r. split_and!; [done|by apply quiet_in_order|done]. }
  apply scheck_ok in Ec as [_ ->]. unfold sbind. destruct (run_round _ _ _ _ _ _ _ s) as [round s1] eqn:Er.
  apply (run_round_order start before) in Er as (es & He & Hord & Hc); [|apply ready_nodup, Hg|by eapply between_may_start|apply Hb].
  destruct round as [[c [reason|]]|e]; cbn [fst snd].
  1,3: intros [= <- <-]; exists es; split_and!; [done|done|done].
  destruct (Hc c eq_refl) as (-> & Ho & Hfin). intros Hr.
  destruct (IH _ _ _ (between_next _ _ _ _ _ _ Hb He Ho Hfin) Hr) as (es' & He' & Hord' & Hall).
  exists (es ++ es'). split_and!; [by rewrite He', He, app_assoc|by apply in_order_app|]. by rewrite app_assoc.
Qed.

(** More rounds than workers are never used. *)
Lemma worker_rounds_enough fuel k completed s :
  completed ⊆ id_set (workers plan) -> (length (workers plan) <= fuel + size completed)%nat ->
  worker_rounds (fuel + k) cfg plan context execution_dir timeout completed s = worker_rounds fuel cfg plan context execution_dir timeout completed s.
Proof.
  revert completed s. induction fuel as [|fuel IH]; intros completed s Hk Hf.
  all: destruct (Nat.ltb_spec (size completed) (length (workers plan))) as [Hlt|Hge].
  all: try (destruct k; cbn [worker_rounds Nat.add]; rewrite ?(proj2 (Nat.ltb_ge _ _) Hge); done).
  1: lia.
  cbn [worker_rounds Nat.add]. rewrite (proj2 (Nat.ltb_lt _ _) Hlt). unfold sbind at 1 3. destruct (scheck _ _ s) as [[u|e] s0] eqn:Ec; [|done].
  apply scheck_ok in Ec as [Hne%negb_true_iff%bool_decide_eq_false ->]. unfold sbind.
  destruct (run_round _ _ _ _ _ _ _ s) as [[[c [reason|]]|e] s1] eqn:Er; try done. cbn [fst snd].
  apply run_round_completed in Er as ->. destruct (ready_workers completed (workers plan)) as [|w l] eqn:Ew; [done|]. rewrite <- Ew.
  assert (w ∈ ready_workers completed (workers plan)) as Hw by (rewrite Ew; left).
  pose proof (after_round_sub _ completed Hk). pose proof (after_round_grows _ Hg completed w Hw).
  unfold after_round, worker_ids in *. rewrite (union_comm_L completed) in *. apply IH; [done|lia].
Qed.
End Graph.

Lemma worker_graph_order start s r s' :
  closed_graph (workers plan) -> history start = history s ->
  execute_worker_graph cfg plan context execution_dir timeout s = (r, s') ->
  exists es, history s' = history s ++ es /\ in_order start [] es
    /\ (r = Ok None -> forall w, w ∈ workers plan -> worker_id w ∈ opened_windows es /\ finished start (history s') (worker_id w)).
Proof.
  intros Hg Hs Hr. eapply (worker_rounds_order Hg _ start []) in Hr as (es & He & Hord & Hall); [eauto|].
  split; [by rewrite app_nil_r|set_solver|cbn; set_solver|set_solver].
Qed.

(** C30: whatever the multiplexer, the agents and the children answer, the workers of
    an accepted plan run along its dependencies. A run only opens windows of workers
    of the plan, none of them twice, and a worker's window only after each of its
    dependencies was waited for in this run, found done and had left a message. When
    the run reports no reason to stop, every worker was started and found done. The
    rounds are always enough: allowing more of them changes nothing. *)
Theorem workers_in_order fs owned s r s' :
  validate_iteration_plan fs cfg plan = Ok owned ->
  execute_worker_graph cfg plan context execution_dir timeout s = (r, s') ->
  exists es, history s' = history s ++ es /\ in_order s [] es
    /\ (r = Ok None -> forall w, w ∈ workers plan -> worker_id w ∈ opened_windows es /\ finished s (history s') (worker_id w))
    /\ forall k, worker_rounds (S (length (workers plan)) + k) cfg plan context execution_dir timeout ∅ s = (r, s').
Proof.
  intros Hg%plan_graph Hr. destruct (worker_graph_order s s r s' Hg eq_refl Hr) as (es & He & Hord & Hall).
  exists es. split_and!; auto. intros k. rewrite <- Hr. unfold execute_worker_graph. apply worker_rounds_enough; [done|set_solver|lia].
Qed.
End Workers.
