(* ===== verification/IterationGate.v ===== *)
(** * IterationGate: when an iteration completes its workflow *)

From S2P Require Import Prelude Text State Json LogModel Instances Config Execution Dag Lifecycle Workflow Completion Snapshot Findings Policy OpsBytes OpsRequest OpsHost Ops Launch Shell Agent Reports Session Spawn Iteration SessionFacts PlanProps IterationProps.

Definition COMPLETE : External := Child ["orchestrator"; "complete"].

(** ** The calls of an iteration, before it completes the workflow *)

Section Calls.
Context `{Platform} `{Git} `{JsonCodec} `{JsonPretty} `{Resolver} `{Externals} `{Processes} `{Clock}.
Context (Q : External -> Prop).
(** All calls but the completion. *)
Context (Hall : forall e, e ≠ COMPLETE -> Q e).

Lemma all_asks : Forall (asks Q) ["list-windows"; "capture-pane"; "kill-window"; "has-session"; "pipe-pane"; "send-keys"].
Proof. apply Forall_forall. intros first _ sock rest. by apply Hall. Qed.
Lemma all_child command rest : command ∈ ["subagent"; "workflow"; "supervisor"] -> Q (Child (command :: rest)).
Proof. intros Hin. apply Hall. intros [= -> _]. set_solver. Qed.
Hint Resolve all_asks all_child : adds.

Lemma calls_spawn cfg args : adds Q (spawn cfg args).
Proof. apply adds_spawn; auto with adds. Qed.
Hint Resolve calls_spawn : adds.
Lemma calls_kill_all cfg names : adds Q (kill_all cfg names).
Proof. induction names; cbn [kill_all]; add. Qed.
Lemma calls_collect cfg timeout ready completed : adds Q (collect_round cfg timeout ready completed).
Proof. revert completed. induction ready; intros; cbn [collect_round]; add. Qed.
Lemma calls_spawn_round cfg plan context dir ready spawned : adds Q (spawn_round cfg plan context dir ready spawned).
Proof. revert spawned. induction ready; intros; cbn [spawn_round]; unfold spawn_worker; add. Qed.
Hint Resolve calls_kill_all calls_collect calls_spawn_round : adds.
Lemma calls_graph cfg plan context dir timeout : adds Q (execute_worker_graph cfg plan context dir timeout).
Proof.
  unfold execute_worker_graph. generalize (S (length (workers plan))) as fuel. intros fuel. generalize (∅ : gset string).
  assert (adds Q get_parallel) by (by apply adds_none). assert (forall v, adds Q (set_parallel v)) by (intros; by apply adds_none).
  induction fuel; intros; cbn [worker_rounds]; unfold run_round; add.
Qed.
Lemma calls_run_all commands : (forall c, c ∈ commands -> exists rest, c = "workflow" :: rest) -> adds Q (run_all commands).
Proof.
  induction commands as [|c commands IH]; intros Hc; cbn [run_all]; [add|]. destruct (Hc c) as (rest & ->); [left|].
  apply adds_bind; [auto with adds|]. intros _. apply IH. intros c' Hin. apply Hc. by right.
Qed.
Lemma calls_requests plan diff : adds Q (add_iteration_review_requests plan diff).
Proof.
  unfold add_iteration_review_requests. apply adds_bind; [add|]. intros pending. apply calls_run_all.
  intros c (kind & -> & _)%list_elem_of_fmap. eauto.
Qed.
Lemma calls_record workflow review kind verdict diff reviewer : adds Q (record_iteration_review workflow review kind verdict diff reviewer).
Proof. unfold record_iteration_review. auto with adds. Qed.
Lemma calls_emit status plan sha why diff : adds Q (emit_iteration_result status plan sha why diff).
Proof. unfold emit_iteration_result. add. Qed.
Hint Resolve calls_graph calls_requests calls_record calls_emit : adds.
Lemma calls_collect_review cfg plan reviewer id kind diff timeout missing : adds Q (collect_review cfg plan reviewer id kind diff timeout missing).
Proof. unfold collect_review. add. Qed.
Hint Resolve calls_collect_review : adds.
Lemma calls_load cfg named : adds Q (load_plan cfg named).
Proof. unfold load_plan, validate_iteration_todos. add. Qed.
Lemma calls_align cfg plan bytes sha timeout : adds Q (align_plan cfg plan bytes sha timeout).
Proof.
  unfold align_plan. assert (forall name question, adds Q (complete_reviewer_human_fallback cfg name question)).
  { intros. unfold complete_reviewer_human_fallback. apply adds_bind; [add|]. intros _. apply adds_self. by apply Hall. }
  add.
Qed.
Lemma calls_implement cfg plan owned sha dir timeout : adds Q (implement_plan cfg plan owned sha dir timeout).
Proof. unfold implement_plan. add. Qed.
Lemma calls_reviewers cfg plan diff sha changed obligations : adds Q (spawn_reviewers cfg plan diff sha changed obligations).
Proof. induction obligations; cbn [spawn_reviewers]; add. Qed.
Lemma calls_reviews cfg plan diff timeout obligations : adds Q (collect_reviews cfg plan diff timeout obligations).
Proof. induction obligations; cbn [collect_reviews]; add. Qed.
Hint Resolve calls_load calls_align calls_implement calls_reviewers calls_reviews : adds.
Lemma calls_candidate cfg plan sha diff changed timeout : adds Q (review_candidate cfg plan sha diff changed timeout).
Proof. unfold review_candidate. add. Qed.
Lemma calls_resolve plan commands : adds Q (run_all (map (fun todo => "workflow" :: commands plan todo) (resolves_todos plan))).
Proof. apply calls_run_all. intros c (todo & -> & _)%list_elem_of_fmap. eauto. Qed.
End Calls.

(** ** Calls that were made *)

Definition made (s s' : Session) (e : External) : Prop := exists es, history s' = history s ++ es /\ e ∈ es.

Lemma made_left s s1 s2 e : made s s1 e -> history s1 `prefix_of` history s2 -> made s s2 e.
Proof. intros (es & He & Hin) (l & Hl). exists (es ++ l). rewrite Hl, He, app_assoc. split; [done|]. apply elem_of_app. by left. Qed.
Lemma made_right s s1 s2 e : history s `prefix_of` history s1 -> made s1 s2 e -> made s s2 e.
Proof. intros (l & Hl) (es & He & Hin). exists (l ++ es). rewrite He, Hl, app_assoc. split; [done|]. apply elem_of_app. by right. Qed.

Section Gate.
Context `{Platform} `{Git} `{JsonCodec} `{JsonPretty} `{Resolver} `{Externals} `{Processes} `{Clock}.

Definition early (e : External) : Prop := e ≠ COMPLETE.
Definition anything (e : External) : Prop := True.
Lemma early_all e : e ≠ COMPLETE -> early e.
Proof. done. Qed.
Lemma anything_all e : e ≠ COMPLETE -> anything e.
Proof. done. Qed.
Lemma early_child command rest : command ∈ ["subagent"; "workflow"; "supervisor"] -> early (Child (command :: rest)).
Proof. apply all_child, early_all. Qed.
Lemma anything_child command rest : command ∈ ["subagent"; "workflow"; "supervisor"] -> anything (Child (command :: rest)).
Proof. done. Qed.
Hint Resolve early_all anything_all all_asks early_child anything_child calls_spawn calls_graph calls_requests calls_record calls_emit calls_collect_review calls_load
  calls_align calls_implement calls_reviewers calls_reviews calls_candidate calls_resolve : adds.

Lemma self_run args s r s' :
  run_self_owned args s = (r, s') -> history s' = history s ++ [Child args] \/ history s' = history s /\ is_ok r = false.
Proof.
  unfold run_self_owned, run_self_output, sbind, slift. destruct (map_err _ current_exe) as [exe|e]; [|intros [= <- <-]; by right].
  unfold smap_err, call. destruct (external _ _ _) as [o fs]. intros Hr. left.
  destruct (map_err _ o) as [out|e]; [unfold scheck in Hr; destruct (success out)|]; by injection Hr as <- <-.
Qed.
Lemma self_made args s s' : run_self_owned args s = (Ok tt, s') -> made s s' (Child args).
Proof. intros [He|[_ ?]]%self_run; [|done]. exists [Child args]. split; [done|left]. Qed.
Lemma extends_run {A} (m : SIO A) s r s' : adds anything m -> m s = (r, s') -> history s `prefix_of` history s'.
Proof. intros Hm. by apply (adds_prefix anything). Qed.

(** A run that makes the completion has passed its early steps. *)
Lemma reach_bind {A B} (m : SIO A) (k : A -> SIO B) s r s' :
  adds early m -> (forall a, adds anything (k a)) -> sbind m k s = (r, s') -> made s s' COMPLETE ->
  exists a s1, m s = (Ok a, s1) /\ history s `prefix_of` history s1 /\ k a s1 = (r, s') /\ made s1 s' COMPLETE.
Proof.
  intros Hm Hk Hr (es & He & Hin). unfold sbind in Hr. destruct (m s) as [[a|e] s1] eqn:Em.
  all: destruct (adds_run _ _ _ _ _ Hm Em) as (es1 & He1 & Hq); rewrite Forall_forall in Hq.
  - exists a, s1. split_and!; [done|by exists es1|done|]. destruct (adds_run _ _ _ _ _ (Hk a) Hr) as (es2 & He2 & _).
    rewrite He1, <- app_assoc in He2. rewrite He in He2. apply app_inv_head in He2 as ->. exists es2. split; [by rewrite He, He1, app_assoc|].
    apply elem_of_app in Hin as [Hin%Hq|]; [|done]. by destruct Hin.
  - injection Hr as <- <-. rewrite He in He1. apply app_inv_head in He1 as ->. by apply Hq in Hin.
Qed.

(** ** The stages *)

(** The record of a review. *)
Definition review_record (plan : IterationPlan) (review_id kind verdict diff reviewer : string) : External :=
  Child (["workflow"; "record-review"; plan_workflow plan; review_id; "--type"; kind; "--verdict"; verdict]
         ++ (if String.eqb kind "plan-alignment" then [] else ["--diff-hash"; diff]) ++ ["--evidence"; reviewer; "--reviewer"; reviewer]).
Definition obligation_review (plan : IterationPlan) (o : PendingReviewObligation) (diff : string) : External :=
  review_record plan ("iteration-" +:+ u64_to_string (iteration plan) +:+ "-" +:+ obligation_id o) (obligation_kind o) "pass" diff (reviewer_of plan o).

Lemma load_plan_ok cfg named s plan bytes owned s' :
  load_plan cfg named s = (Ok (plan, bytes, owned), s') ->
  validate_iteration_plan (files (sworld s)) cfg plan = Ok owned /\ env_nonempty "MULTIAGENT_WORKFLOW_ID" = Some (plan_workflow plan).
Proof.
  intros Hr. unfold load_plan in Hr. apply sbind_ok in Hr as (fs & ? & [-> ->]%sfiles_ok & Hr).
  repeat first [apply sbind_ok in Hr as (? & ? & [? ->]%slift_ok & Hr) | apply sbind_ok in Hr as (? & ? & [? ->]%scheck_ok & Hr)].
  apply sbind_ok in Hr as (? & ? & _ & Hr). apply sbind_ok in Hr as (? & ? & [? ->]%scheck_ok & Hr). apply sbind_ok in Hr as (? & ? & _ & Hr).
  apply sret_ok in Hr as [[= -> -> ->] ->]. split; [done|]. inv_ok. bool_hyps. congruence.
Qed.

Lemma collect_review_ok cfg plan reviewer id kind diff timeout missing s verdict s' :
  collect_review cfg plan reviewer id kind diff timeout missing s = (Ok verdict, s') -> verdict ≠ "findings" ->
  made s s' (review_record plan id kind "pass" diff reviewer).
Proof.
  unfold collect_review. intros Hr Hv. apply sbind_ok in Hr as (? & s1 & Hw & Hr). apply sbind_ok in Hr as (? & s2 & Hm & Hr).
  apply sbind_ok in Hr as (? & s3 & Hf & Hr). apply sbind_ok in Hr as (v & s4 & [Hok%ok_or_ok ->]%slift_ok & Hr).
  apply sbind_ok in Hr as ([] & s5 & Hrec & Hr). apply sret_ok in Hr as [-> <-].
  assert (verdict = "pass") as ->. { unfold review_output_verdict in Hok. repeat case_match; congruence. }
  apply self_made in Hrec. eapply made_right; [|exact Hrec].
  etrans; [eapply extends_run; [|exact Hw]; auto with adds|]. etrans; [eapply extends_run; [|exact Hm]; auto with adds|].
  eapply extends_run; [|exact Hf]; auto with adds.
Qed.

(** The plan was found aligned, now or before. *)
Definition aligned (plan : IterationPlan) (s s' : Session) : Prop :=
  (exists w, (passing_review_recorded (plan_workflow plan) (alignment_review_id plan) "plan-alignment" (sworld s)) = (Ok true, w))
  \/ made s s' (review_record plan (alignment_review_id plan) "plan-alignment" "pass" "-" ("plan-alignment-reviewer-" +:+ padded 2 (iteration plan))).
Lemma align_plan_ok cfg plan bytes sha timeout s s' : align_plan cfg plan bytes sha timeout s = (Ok true, s') -> aligned plan s s'.
Proof.
  unfold align_plan. intros Hr. apply sbind_ok in Hr as (recorded & s1 & Hrec & Hr). unfold sio in Hrec.
  destruct (passing_review_recorded _ _ _ (sworld s)) as [res w] eqn:Ew. injection Hrec as -> <-.
  destruct recorded; [left; eauto|]. right. apply sbind_ok in Hr as (? & s2 & Hs & Hr). apply sbind_ok in Hr as (verdict & s3 & Hc & Hr).
  destruct (String.eqb_spec verdict "findings") as [->|Hv].
  { by repeat (apply sbind_ok in Hr as (? & ? & _ & Hr)). }
  apply sret_ok in Hr as [_ <-]. eapply made_right; [|by eapply collect_review_ok].
  change (history s) with (history (mkSession w (history s) (parallel s))). eapply extends_run; [|exact Hs]. auto with adds.
Qed.

(** The diff is not empty and stays inside the paths of the workers. *)
Definition confined (owned : list string) (diff : string) : Prop :=
  diff_changed_paths diff ≠ [] /\ forall path, path ∈ diff_changed_paths diff -> exists o, o ∈ owned /\ path_contains o path = true.
Lemma implement_plan_ok cfg plan owned sha dir timeout s diff_hash changed s' :
  closed_graph (workers plan) -> implement_plan cfg plan owned sha dir timeout s = (Ok (Some (diff_hash, changed)), s') ->
  exists fs diff, canonical_diff (cfg_root cfg) "HEAD" fs = Ok diff /\ diff_hash = sha256_hex diff /\ confined owned diff
    /\ made s s' (Child ["workflow"; "transition"; plan_workflow plan; "post-implementation"; "--diff-hash"; diff_hash])
    /\ forall w, w ∈ workers plan -> exists e, opens e = Some (worker_id w) /\ made s s' e.
Proof.
  unfold implement_plan. intros Hg Hr. apply sbind_ok in Hr as (? & s1 & H1' & Hr). apply sbind_ok in Hr as (? & s2 & H2' & Hr).
  apply sbind_ok in Hr as (? & s3 & H3' & Hr). apply sbind_ok in Hr as (stopped & s4 & H4' & Hr).
  assert (history s `prefix_of` history s3) as Hp3.
  { etrans; [eapply extends_run; [|exact H1']; auto with adds|]. etrans; [eapply extends_run; [|exact H2']; auto with adds|].
    eapply extends_run; [|exact H3']; auto with adds. }
  destruct stopped as [why|]; [by apply sbind_ok in Hr as (? & ? & _ & ?)|].
  apply sbind_ok in Hr as (fs & s5 & [-> ->]%sfiles_ok & Hr). apply sbind_ok in Hr as (diff & s5 & [Hd ->]%slift_ok & Hr).
  case_bool_decide as Hc; [by apply sbind_ok in Hr as (? & ? & _ & ?)|].
  apply sbind_ok in Hr as (u & s5 & [Hfind ->]%slift_ok & Hr). apply sbind_ok in Hr as ([] & s6 & Ht%self_made & Hr).
  apply sret_ok in Hr as [[= <- <-] <-]. destruct (List.find _ _) eqn:Ef in Hfind; [done|].
  exists (files (sworld s4)), diff. destruct (worker_graph_order _ _ _ _ _ s3 s3 _ _ Hg eq_refl H4') as (es & He & _ & Hall).
  split_and!; [done|done| | |].
  - split; [done|]. intros path Hpath. rewrite find_none_forall in Ef. specialize (Ef path Hpath).
    apply existsb_exists in Ef as (o & Ho & Hin). exists o. split; [by apply list_elem_of_In|done].
  - eapply made_right; [|exact Ht]. etrans; [exact Hp3|]. by exists es.
  - intros w Hw. destruct (Hall eq_refl w Hw) as [Ho _]. apply list_elem_of_omap in Ho as (e & Hin & Hopen). exists e. split; [done|].
    eapply made_right; [exact Hp3|]. destruct Ht as (l & Hl & _). exists (es ++ l). rewrite Hl, He, app_assoc. split; [done|].
    apply elem_of_app. by left.
Qed.

Lemma collect_reviews_ok cfg plan diff timeout obligations s s' :
  collect_reviews cfg plan diff timeout obligations s = (Ok [], s') -> forall o, o ∈ obligations -> made s s' (obligation_review plan o diff).
Proof.
  revert s. induction obligations as [|o obligations IH]; intros s Hr; cbn [collect_reviews] in Hr; [by intros ? ?%not_elem_of_nil|].
  apply sbind_ok in Hr as (verdict & s1 & Hc & Hr). apply sbind_ok in Hr as (found & s2 & Hrest & Hr). apply sret_ok in Hr as [Hf <-].
  destruct (String.eqb_spec verdict "findings") as [|Hv]; [done|]. subst found. intros o' [->|Hin]%elem_of_cons.
  - eapply made_left; [by eapply collect_review_ok|]. eapply extends_run; [|exact Hrest]. auto with adds.
  - eapply made_right; [|by apply (IH s1)]. eapply extends_run; [|exact Hc]. auto with adds.
Qed.
Lemma review_candidate_ok cfg plan sha diff changed timeout s s' :
  review_candidate cfg plan sha diff changed timeout s = (Ok true, s') ->
  exists w w' obligations, pending_review_obligations (plan_workflow plan) diff w = (Ok obligations, w')
    /\ forall o, o ∈ obligations -> made s s' (obligation_review plan o diff).
Proof.
  unfold review_candidate. intros Hr. apply sbind_ok in Hr as (? & s1 & H1' & Hr). apply sbind_ok in Hr as (obligations & s2 & Hp & Hr).
  apply sbind_ok in Hr as (? & s3 & H3' & Hr). apply sbind_ok in Hr as (found & s4 & H4' & Hr).
  case_bool_decide as Hf; [|by apply sbind_ok in Hr as (? & ? & _ & ?)]. subst found. apply sret_ok in Hr as [_ <-].
  unfold sio in Hp. destruct (pending_review_obligations _ _ (sworld s1)) as [res w] eqn:Ew. injection Hp as -> <-.
  exists (sworld s1), w, obligations. split; [done|]. intros o Ho. eapply made_right; [|by eapply collect_reviews_ok].
  etrans; [eapply extends_run; [|exact H1']; auto with adds|].
  change (history s1) with (history (mkSession w (history s1) (parallel s1))). eapply extends_run; [|exact H3']. auto with adds.
Qed.

Lemma reach_lift {A B} (x : result string A) (k : A -> SIO B) s r s' :
  sbind (slift x) k s = (r, s') -> made s s' COMPLETE -> exists a, x = Ok a /\ k a s = (r, s').
Proof.
  unfold sbind, slift. destruct x as [a|e]; [eauto|]. intros [= <- <-] (es & He & Hin).
  rewrite <- (app_nil_r (history s)) in He at 1. apply app_inv_head in He as <-. by apply not_elem_of_nil in Hin.
Qed.
Lemma not_made {A} (a : A) s r s' : sret a s = (r, s') -> ~ made s s' COMPLETE.
Proof.
  intros [= <- <-] (es & He & Hin). rewrite <- (app_nil_r (history s)) in He at 1. apply app_inv_head in He as <-. by apply not_elem_of_nil in Hin.
Qed.
Lemma made_within s s1 s2 pre e : history s `prefix_of` history s1 -> history s2 `prefix_of` history s ++ pre -> made s1 s2 e -> e ∈ pre.
Proof.
  intros (l & Hl) (k & Hk) (es & He & Hin). rewrite He, Hl, <- !app_assoc in Hk. apply app_inv_head in Hk as ->.
  rewrite !elem_of_app. auto.
Qed.
Lemma calls_complete plan sha diff : adds anything (complete_iteration plan sha diff).
Proof.
  unfold complete_iteration. apply adds_bind; [apply (calls_resolve _ anything_all plan (fun plan todo => _))|]. intros _. apply adds_bind; [auto with adds|].
  intros _. apply adds_bind; [by apply adds_self|auto with adds].
Qed.
Hint Resolve calls_complete : adds.

Definition completion_gate (plan : IterationPlan) : External := Child ["workflow"; "gate"; plan_workflow plan; "completion"].
(** The completion is the last call, behind its gate. *)
Lemma complete_last plan sha diff s r s' :
  complete_iteration plan sha diff s = (r, s') -> made s s' COMPLETE ->
  exists s1, history s `prefix_of` history s1 /\ history s' = history s1 ++ [completion_gate plan; COMPLETE].
Proof.
  unfold complete_iteration. intros Hr Hc.
  apply reach_bind in Hr as (? & s1 & _ & Hp & Hr & Hc'); [|apply (calls_resolve _ early_all plan (fun plan todo => _))| |done].
  2: { intros _. apply adds_bind; [auto with adds|]. intros _. apply adds_bind; [by apply adds_self|auto with adds]. }
  apply reach_bind in Hr as ([] & s2 & Hgate & _ & Hr & Hc''); [|auto with adds| |done].
  2: { intros _. apply adds_bind; [by apply adds_self|auto with adds]. }
  apply self_run in Hgate as [Hgate|[_ ?]]; [|done]. exists s1. split; [done|].
  assert (exists s3, history s' = history s3 /\ exists r3, run_self_owned ["orchestrator"; "complete"] s2 = (r3, s3)) as (s3 & Hs3 & r3 & Hrun).
  { unfold sbind in Hr. destruct (run_self_owned _ s2) as [[u|e] s3]; [|injection Hr as <- <-; eauto].
    exists s3. split; [|eauto]. destruct (adds_run (fun _ => False) _ _ _ _ ltac:(by unfold emit_iteration_result; add) Hr) as ([|e es] & He & Hq).
    - by rewrite app_nil_r in He.
    - by apply Forall_cons in Hq as [? _]. }
  apply self_run in Hrun as [Hh|[Hh _]].
  - by rewrite Hs3, Hh, Hgate, <- app_assoc.
  - exfalso. destruct Hc'' as (es & He & Hin). rewrite Hs3, Hh in He. rewrite <- (app_nil_r (history s2)) in He at 1.
    apply app_inv_head in He as <-. by apply not_elem_of_nil in Hin.
Qed.

End Gate.
