(* ===== verification/IterationWitness.v ===== *)
(** * IterationWitness: an iteration of two workers, from its plan to the completed workflow

    The children that change the workflow run the workflow's own operations; the
    agents answer with accepted reports. *)

From S2P Require Import Prelude Text State Json LogModel Instances Config Execution Dag Lifecycle Workflow Completion WorkflowRuns Snapshot Findings Policy OpsBytes OpsRequest OpsHost Ops Launch Shell Agent Reports Session Spawn Iteration SessionFacts PlanProps IterationProps IterationGate.

Module IterationWitness.

Definition vars (k : string) : option string :=
  snd <$> List.find (fun kv => String.eqb kv.1 k)
    [("MULTIAGENT_STATE_DIR", "/state"); ("MULTIAGENT_ROOT", "/repo"); ("MULTIAGENT_WORKFLOW_ID", "w1"); ("PATH", "/bin")].
#[local] Instance platform : Platform := toy_platform vars 0.
#[local] Instance resolver : Resolver := fun _ p => if is_absolute p then Some p else None.
Definition the_diff : string := unlines ["diff --git a/src/a.rs b/src/a.rs"; "+fn a() {}"; "diff --git a/src/b/lib.rs b/src/b/lib.rs"; "+fn b() {}"].
#[local] Instance repository : Git := fun args _ =>
  Ok (mkOutput (Some 0) (if mem "rev-parse" args then "main" else if mem "ls-files" args then "" else the_diff) "").
#[local] Instance environment : Environment := {|
  canonicalize fs p := if starts_with "/" p && bool_decide (is_Some (fs !! p)) then Some p else None;
  completion_gate_check := ret tt; external_completion_gate_check := ret tt;
  Workflow.canonical_diff _ _ _ := Ok ""
|}.
#[local] Instance processes : Processes := {|
  is_executable _ p := starts_with "/bin/" p; current_exe := Ok "/bin/multiagent"; build_root := "/framework"; alive _ _ := false
|}.
#[local] Instance clock : Clock := {|
  deadline_after n _ := Some (Z.of_nat n + 1000); instant_at n := Z.of_nat n; f64_display _ := "900"; patience := 3%nat
|}.

(** ** The outside *)

Definition report : string :=
  unlines (["accepted"; "review-record: type=plan-alignment verdict=pass diff=-"]
           ++ map (fun kind => "review-record: type=" +:+ kind +:+ " verdict=pass diff=" +:+ sha256_hex the_diff)
                ["technical"; "scope"; "reflection"]).
Definition workflow_op (args : list string) : option Op :=
  match args with
  | "seal-iteration" :: rest => Some (SealIteration rest)
  | "prepare-implementation" :: rest => Some (Prepare rest)
  | "transition" :: rest => Some (Transition rest)
  | "record-review" :: rest => Some (RecordReview rest)
  | "require-review" :: rest => Some (RequireReview rest)
  | "gate" :: rest => Some (Gate rest)
  | _ => None
  end.
Definition answer (r : result string unit * World) : result string Output * gmap string string :=
  (Ok (match r.1 with Ok _ => mkOutput (Some 0) "" "" | Err e => mkOutput (Some 1) "" e end), files r.2).
#[local] Instance outside : Externals := fun h e fs =>
  let w := mkWorld fs [] (length h) [] in
  match e with
  | Tmux args =>
      (Ok (mkOutput (Some 0) "pane" ""),
       match opens e with Some name => <["/state/subagents/" +:+ name +:+ "/last-message.txt" := report]> fs | None => fs end)
  | Child ("workflow" :: "value" :: _) => (Ok (mkOutput (Some 0) "1" ""), fs)
  | Child ("workflow" :: args) => match workflow_op args with Some op => answer (run_op op w) | None => (Err "unknown", fs) end
  | Child ["orchestrator"; "complete"] => answer (run_op (Complete "w1") w)
  | Child _ => (Ok (mkOutput (Some 0) "" ""), fs)
  end.

(** ** The session *)

Definition cfg : RuntimeConfig :=
  mkConfig "multiagent" "/repo" "/state" "/logs" "/policy" "/framework" "claude" "claude" "codex" "codex" "claude" "qwen" false true.
Definition worker (id path : string) (deps : list string) : Value :=
  VObj [("id", VStr id); ("ownedPaths", VArr [VStr path]); ("instruction", VStr "implement"); ("dependsOn", VArr (map VStr deps))].
Definition plan_value : Value :=
  VObj [("apiVersion", VStr ITERATION_PLAN_API_VERSION); ("kind", VStr ITERATION_PLAN_KIND); ("workflowId", VStr "w1"); ("iteration", VNum 1);
        ("implementationContext", VStr "context"); ("workers", VArr [worker "worker-b" "src/b" ["worker-a"]; worker "worker-a" "src/a.rs" []]);
        ("additionalReviews", VArr [VStr "scope"])].
Definition plan : IterationPlan :=
  mkPlan ITERATION_PLAN_API_VERSION ITERATION_PLAN_KIND "w1" 1 "context"
    [mkWorker "worker-b" ["src/b"] "implement" ["worker-a"]; mkWorker "worker-a" ["src/a.rs"] "implement" []] [] ["scope"].
Definition files0 : gmap string string :=
  files (run_op (Initialize ["w1"]) (mkWorld (list_to_map [("/state/plan.json", to_vec plan_value); ("/repo/README", "")]) [] 0 [])).2.
Definition s0 : Session := mkSession (mkWorld files0 [] 0 []) [] None.
Definition args : list string := ["--plan-file"; "/state/plan.json"].

(** The run starts the reviewer of the plan, the workers along their dependencies
    and the reviewers of the diff, and completes the workflow. *)
Example iteration_run :
  let '(r, s') := execute_iteration cfg args s0 in
  r = Ok tt /\ opened_windows (history s') = ["plan-alignment-reviewer-01"; "worker-a"; "worker-b"; "technical-verifier-01"; "scope-reviewer-01"]
  /\ last (history s') = Some COMPLETE.
Proof. vm_compute. done. Qed.


(** The workers alone. *)
Lemma workers_in_order_witness :
  exists es, in_order cfg plan "900" s0 [] es /\ "worker-b" ∈ opened_windows es
    /\ finished cfg "900" s0 (history (execute_worker_graph cfg plan "context" "/state/run" "900" s0).2) "worker-a".
Proof.
  destruct (execute_worker_graph cfg plan "context" "/state/run" "900" s0) as [r s'] eqn:E.
  assert (r = Ok None) as Hr by (change r with (r, s').1; rewrite <- E; vm_compute; reflexivity).
  assert (validate_iteration_plan files0 cfg plan = Ok ["src/b"; "src/a.rs"]) as Hv by (vm_compute; reflexivity).
  destruct (workers_in_order cfg plan "context" "/state/run" "900" files0 ["src/b"; "src/a.rs"] s0 r s' Hv E)
    as (es & _ & Hord & Hall & _).
  exists es. split; [exact Hord|]. split.
  - apply (Hall Hr (mkWorker "worker-b" ["src/b"] "implement" ["worker-a"])). left.
  - apply (Hall Hr (mkWorker "worker-a" ["src/a.rs"] "implement" [])). right. left.
Defined.

(** Plans that are refused: a cycle, and one path inside another. *)
Definition with_workers (ws : list IterationWorker) : IterationPlan :=
  mkPlan ITERATION_PLAN_API_VERSION ITERATION_PLAN_KIND "w1" 1 "context" ws [] [].
Example cyclic_plan :
  validate_iteration_plan files0 cfg (with_workers [mkWorker "worker-a" ["a"] "x" ["worker-b"]; mkWorker "worker-b" ["b"] "x" ["worker-a"]])
  = Err "iteration worker dependency graph contains a cycle".
Proof. vm_compute. reflexivity. Qed.
Example overlapping_plan :
  validate_iteration_plan files0 cfg (with_workers [mkWorker "worker-a" ["src"] "x" []; mkWorker "worker-b" ["src/b"] "x" []])
  = Err "iteration worker ownership overlaps another worker: src/b".
Proof. vm_compute. reflexivity. Qed.

(** A file whose name Git quotes is not among the changed paths. *)
Example quoted_path_unseen :
  diff_changed_paths (unlines ["diff --git " +:+ quoted "a/other/\303\251.rs" +:+ " " +:+ quoted "b/other/\303\251.rs"; "+x"]) = [].
Proof. vm_compute. reflexivity. Qed.
(** An agent without metadata is restored with write access. *)
Example restore_without_metadata : restore_access ∅ = WorkspaceWrite.
Proof. vm_compute. reflexivity. Qed.
End IterationWitness.
