(* ===== verification/Privilege.v ===== *)
(** * Privilege: [runtime/src/linux_privilege.rs] and [runtime/src/role_sandbox.rs]

    Who a process runs as and what it may write. The binary is installed setuid
    root: it drops to the caller unless the caller may use the command, and role
    processes give up their identity and the right to write outside their roots
    before they execute the agent. The system calls that change identities are
    parameters with their documented effect; what Landlock was asked to enforce is
    recorded in the process. This is the Linux build; the signal
    handler, which kills the child's process group, is not modelled. *)

From S2P Require Import Prelude Text State Json LogModel Config Execution Dag Lifecycle Snapshot Findings Policy OpsBytes OpsRequest OpsHost Ops Launch Shell Agent Reports.

(** ** Processes *)

Record Ruleset := mkRuleset { handled_access : Z; rules : list (string * Z) }.
Record Process := mkProcess {
  ruid : Z; euid : Z; suid : Z; rgid : Z; egid : Z; sgid : Z; groups : list Z;
  no_new_privileges : bool; enforced : list Ruleset      (* the newest first *)
}.

(** The system calls; [None] and [Err] are failures. *)
Class Kernel := {
  setgroups : list Z -> Process -> option Process;
  setgid : Z -> Process -> option Process;
  setuid : Z -> Process -> option Process;
  landlock_abi : Z;                                      (* below 1: the call failed *)
  landlock_error : string;                               (* the error of a failed call *)
  landlock_create_ruleset : Z -> bool;
  landlock_add_rule : Ruleset -> string * Z -> bool;
  prctl_no_new_privs : bool;
  landlock_restrict_self : Ruleset -> bool;
  setpgid_self : bool;
  prctl_death_signal : bool;
  parent_unchanged : bool;                               (* getppid() is the forking process *)
  execve : Process -> string -> list string -> bool      (* [false]: it returned *)
}.

Definition with_groups (g : list Z) (p : Process) : Process :=
  mkProcess (ruid p) (euid p) (suid p) (rgid p) (egid p) (sgid p) g (no_new_privileges p) (enforced p).
Definition with_gids (r e s : Z) (p : Process) : Process :=
  mkProcess (ruid p) (euid p) (suid p) r e s (groups p) (no_new_privileges p) (enforced p).
Definition with_uids (r e s : Z) (p : Process) : Process :=
  mkProcess r e s (rgid p) (egid p) (sgid p) (groups p) (no_new_privileges p) (enforced p).
(** setgroups(2), setgid(2), setuid(2): a privileged process sets all three
    identifiers, another one the effective identifier, and only to its real or saved
    one. *)
Class KernelLaws `{Kernel} := {
  setgroups_law : forall g p p', setgroups g p = Some p' -> p' = with_groups g p;
  setgid_law : forall g p p', setgid g p = Some p' ->
    p' = if euid p =? 0 then with_gids g g g p else with_gids (rgid p) g (sgid p) p;
  setuid_law : forall u p p', setuid u p = Some p' ->
    p' = if euid p =? 0 then with_uids u u u p else with_uids (ruid p) u (suid p) p;
  setuid_permission : forall u p p', setuid u p = Some p' -> euid p <> 0 -> u = ruid p \/ u = suid p
}.

Definition PIO (A : Type) : Type := Process -> result string A * Process.
Definition pret {A} (a : A) : PIO A := fun p => (Ok a, p).
Definition pfail {A} (e : string) : PIO A := fun p => (Err e, p).
Definition pbind {A B} (m : PIO A) (k : A -> PIO B) : PIO B :=
  fun p => match m p with
           | (Ok a, p') => k a p'
           | (Err e, p') => (Err e, p')
           end.
Notation "'let&' x ':=' m 'in' k" := (pbind m (fun x => k))
  (at level 10, x pattern, m at level 100, k at level 200) : io_scope.
Definition pcheck (b : bool) (e : string) : PIO unit := if b then pret tt else pfail e.
Definition pmap_err {A} (f : string -> string) (m : PIO A) : PIO A := fun p => let '(r, p') := m p in (map_err f r, p').
(** A system call that changes the process. *)
Definition syscall (f : Process -> option Process) (e : string) : PIO unit :=
  fun p => match f p with Some p' => (Ok tt, p') | None => (Err e, p) end.

(** ** Identities *)

Record IdentitySpec := mkIdentity { id_uid : Z; id_gid : Z; supplementary_gids : list Z }.
Record PreparedIdentity := mkPrepared { prepared_uid : Z; prepared_gid : Z; prepared_groups : list Z }.

(** [Vec::dedup]: consecutive duplicates. *)
Fixpoint dedup (l : list Z) : list Z :=
  match l with
  | x :: l' => match l' with y :: _ => if x =? y then dedup l' else x :: dedup l' | [] => [x] end
  | [] => []
  end.
Definition prepare_identity (s : IdentitySpec) : PreparedIdentity :=
  mkPrepared (id_uid s) (id_gid s) (dedup (merge_sort Z.le (id_gid s :: supplementary_gids s))).

Inductive SetuidDisposition : Type := NoTransition | RetainPrivilegedIdentity | DropToRealUid.
Definition setuid_disposition (real_uid effective_uid : Z) (authorized : bool) : SetuidDisposition :=
  if negb (effective_uid =? 0) || (real_uid =? 0) then NoTransition
  else if authorized then RetainPrivilegedIdentity
  else DropToRealUid.

(** ** Landlock *)

Definition access (bit : Z) : Z := Z.shiftl 1 bit.
Definition ACCESS_WRITE_FILE : Z := access 1.
Definition ACCESS_REMOVE_DIR : Z := access 4.
Definition ACCESS_REMOVE_FILE : Z := access 5.
Definition ACCESS_MAKE_CHAR : Z := access 6.
Definition ACCESS_MAKE_DIR : Z := access 7.
Definition ACCESS_MAKE_REG : Z := access 8.
Definition ACCESS_MAKE_SOCK : Z := access 9.
Definition ACCESS_MAKE_FIFO : Z := access 10.
Definition ACCESS_MAKE_BLOCK : Z := access 11.
Definition ACCESS_MAKE_SYM : Z := access 12.
Definition ACCESS_REFER : Z := access 13.
Definition ACCESS_TRUNCATE : Z := access 14.
Definition ACCESS_IOCTL_DEV : Z := access 15.

Definition handled_access_for_abi (abi : Z) : Z :=
  let bits := foldl Z.lor ACCESS_WRITE_FILE
    [ACCESS_REMOVE_DIR; ACCESS_REMOVE_FILE; ACCESS_MAKE_CHAR; ACCESS_MAKE_DIR; ACCESS_MAKE_REG; ACCESS_MAKE_SOCK;
     ACCESS_MAKE_FIFO; ACCESS_MAKE_BLOCK; ACCESS_MAKE_SYM] in
  let bits := if 2 <=? abi then Z.lor bits ACCESS_REFER else bits in
  let bits := if 3 <=? abi then Z.lor bits ACCESS_TRUNCATE else bits in
  if 5 <=? abi then Z.lor bits ACCESS_IOCTL_DEV else bits.

(** ** The callers of the setuid binary *)

Definition privileged_command_allowed (command : string) (real_uid : Z) : bool :=
  mem command ["role-agent-exec"; "reviewed-ops-exec"] && (real_uid =? ORCHESTRATOR_UID)
  || mem command ["authority-supervisor-exec"; "container-bootstrap"; "launch"; "session-control"] && (real_uid =? CONTROL_UID).

Definition landlock_unavailable (error : string) : bool :=
  contains "Landlock is unavailable" error
  && any_contains ["Function not implemented"; "Operation not supported"; "Protocol not supported"] error.

(** Arguments of [role-exec]. *)
Record RoleExecOptions := mkRoleExec {
  exec_roots : gset string; exec_uid : option Z; exec_gid : option Z; exec_groups : list Z; exec_command : list string
}.
Definition parse_id (rest : list string) (flag : string) : result string Z :=
  ok_or (head rest ≫= parse_u32) ("role-exec " +:+ flag +:+ " requires an integer").

Section Privilege.
Context `{Platform} `{Kernel} `{Resolver}.

Definition guard_setuid_invocation (authorized : Z -> bool) : PIO unit :=
  let& real_uid := (fun p => (Ok (ruid p), p)) in
  let& effective_uid := (fun p => (Ok (euid p), p)) in
  let caller_authorized := (effective_uid =? 0) && negb (real_uid =? 0) && authorized real_uid in
  match setuid_disposition real_uid effective_uid caller_authorized with
  | NoTransition | RetainPrivilegedIdentity => pret tt
  | DropToRealUid =>
      let& _ := syscall (setuid real_uid) ("drop setuid privilege: " +:+ os_error) in
      let& now_ := (fun p => (Ok (euid p), p)) in
      pcheck (now_ =? real_uid) "drop setuid privilege postcondition failed"
  end.
Definition gate_setuid_invocation (command : string) : PIO unit :=
  pmap_err (fun error => error +:+ " for " +:+ command) (guard_setuid_invocation (privileged_command_allowed command)).

Definition apply_prepared_identity (identity : PreparedIdentity) : PIO unit :=
  let& _ := syscall (setgroups (prepared_groups identity)) os_error in
  let& _ := syscall (setgid (prepared_gid identity)) os_error in
  let& _ := syscall (setuid (prepared_uid identity)) os_error in
  let& p := (fun p => (Ok p, p)) in
  pcheck ((ruid p =? prepared_uid identity) && (euid p =? prepared_uid identity) && (rgid p =? prepared_gid identity)
          && (egid p =? prepared_gid identity)) "identity transition postcondition failed".
Definition apply_identity (spec : IdentitySpec) : PIO unit :=
  pmap_err (fun error => "drop to uid " +:+ u64_to_string (id_uid spec) +:+ " gid " +:+ u64_to_string (id_gid spec) +:+ ": " +:+ error)
    (apply_prepared_identity (prepare_identity spec)).

(** The rights for one root, and the root added to the ruleset: the rule holds the
    file that was opened, named by its canonical path. *)
Definition allowed_access (fs : gmap string string) (handled : Z) (path : string) : Z :=
  if path_is_dir fs path then handled
  else Z.land handled (Z.lor (Z.lor ACCESS_WRITE_FILE ACCESS_TRUNCATE) ACCESS_IOCTL_DEV).
Definition add_path_rule (fs : gmap string string) (r : Ruleset) (path : string) : result string Ruleset :=
  let? file := ok_or (resolve fs path) ("open Landlock write root " +:+ path +:+ ": " +:+ os_error) in
  let rule := (file, allowed_access fs (handled_access r) path) in
  let? _ := guard (landlock_add_rule r rule) ("allow Landlock write root " +:+ path +:+ ": " +:+ os_error) in
  Ok (mkRuleset (handled_access r) (rules r ++ [rule])).
Fixpoint add_path_rules (fs : gmap string string) (r : Ruleset) (roots : list string) : result string Ruleset :=
  match roots with
  | [] => Ok r
  | path :: rest => let? r' := add_path_rule fs r path in add_path_rules fs r' rest
  end.

Definition plift {A} (r : result string A) : PIO A := fun p => (r, p).
Definition restrict_writes (fs : gmap string string) (write_roots : list string) : PIO unit :=
  let& _ := pcheck (1 <=? landlock_abi)
              ("Landlock is unavailable; refusing to run without role write enforcement: " +:+ landlock_error) in
  let handled := handled_access_for_abi landlock_abi in
  let& _ := pcheck (landlock_create_ruleset handled) ("create Landlock ruleset: " +:+ os_error) in
  let& ruleset := plift (add_path_rules fs (mkRuleset handled []) write_roots) in
  let& _ := pcheck prctl_no_new_privs ("enable no-new-privileges for Landlock: " +:+ os_error) in
  let& _ := (fun p => (Ok tt, mkProcess (ruid p) (euid p) (suid p) (rgid p) (egid p) (sgid p) (groups p) true (enforced p))) in
  let& _ := pcheck (landlock_restrict_self ruleset) ("apply Landlock role ruleset: " +:+ os_error) in
  fun p => (Ok tt, mkProcess (ruid p) (euid p) (suid p) (rgid p) (egid p) (sgid p) (groups p) (no_new_privileges p) (ruleset :: enforced p)).

(** ** [role-exec] *)

Fixpoint role_exec_options (fs : gmap string string) (o : RoleExecOptions) (l : list string) : result string RoleExecOptions :=
  match l with
  | [] => Ok o
  | flag :: rest =>
      if String.eqb flag "--" then Ok (mkRoleExec (exec_roots o) (exec_uid o) (exec_gid o) (exec_groups o) rest)
      else
        let? o' :=
          (if String.eqb flag "--allow-write" then
             let? path := ok_or (path ← head rest; if is_empty path then None else Some path) "role-exec --allow-write requires PATH" in
             let? canonical := ok_or (resolve fs path) ("resolve role write root " +:+ path +:+ ": " +:+ os_error) in
             Ok (mkRoleExec ({[canonical]} ∪ exec_roots o) (exec_uid o) (exec_gid o) (exec_groups o) (exec_command o))
           else if String.eqb flag "--uid" then
             let? id := parse_id rest "--uid" in
             Ok (mkRoleExec (exec_roots o) (Some id) (exec_gid o) (exec_groups o) (exec_command o))
           else if String.eqb flag "--gid" then
             let? id := parse_id rest "--gid" in
             Ok (mkRoleExec (exec_roots o) (exec_uid o) (Some id) (exec_groups o) (exec_command o))
           else if String.eqb flag "--supplementary-gid" then
             let? id := parse_id rest "--supplementary-gid" in
             Ok (mkRoleExec (exec_roots o) (exec_uid o) (exec_gid o) (exec_groups o ++ [id]) (exec_command o))
           else Err ("unknown role-exec argument: " +:+ flag)) in
        match rest with _ :: rest' => role_exec_options fs o' rest' | [] => Ok o' end
  end.

(** A program that replaces the process. *)
Record Image := mkImage { image_process : Process; image_command : string; image_args : list string }.
(** [exec] returns only when it fails. *)
Definition exec_image (message command : string) (args : list string) : PIO Image :=
  fun p => if execve p command args then (Ok (mkImage p command args), p) else (Err (message +:+ command +:+ ": " +:+ os_error), p).

Definition exec_as_identity (spec : IdentitySpec) (command : string) (args : list string) : PIO Image :=
  let& _ := apply_identity spec in exec_image "execute " command args.

Definition role_exec (fs : gmap string string) (args : list string) : PIO Image :=
  let& o := plift (role_exec_options fs (mkRoleExec ∅ None None [] []) args) in
  let& command := plift (match exec_command o with
                         | command :: _ => if is_empty command then Err "role-exec requires a command after --" else Ok command
                         | [] => Err "role-exec requires a command after --"
                         end) in
  let& _ := (match exec_uid o with
             | Some uid =>
                 let& gid := plift (ok_or (exec_gid o) "role-exec --uid requires --gid") in
                 apply_identity (mkIdentity uid gid (exec_groups o))
             | None => restrict_writes fs (btree_list (exec_roots o))
             end) in
  exec_image "execute role command " command (tail (exec_command o)).

(** The role process of a supervised run, between fork and exec; a failure is the
    status it exits with. *)
Definition supervised_child (fs : gmap string string) (uid gid : Z) (write_roots : list string) (filesystem_write_boundary : bool)
    (command : string) (args : list string) (p : Process) : Image + Z :=
  if negb setpgid_self then inr 126
  else if negb prctl_death_signal || negb parent_unchanged then inr 126
  else
    match apply_identity (mkIdentity uid gid []) p with
    | (Err _, _) => inr 126
    | (Ok _, p1) =>
        let '(restricted, p2) := restrict_writes fs write_roots p1 in
        if match restricted with
           | Err error => negb filesystem_write_boundary || negb (landlock_unavailable error)
           | Ok _ => false
           end then inr 126
        else if execve p2 command args then inl (mkImage p2 command args) else inr 127
    end.

(** The supervising parent. *)
Inductive Waited : Type := WaitedChild (status : Z) | WaitInterrupted | WaitFailed.
(** The wait status of a process that calls [_exit]. *)
Definition exit_status (code : Z) : Z := Z.shiftl (Z.land code 255) 8.
Definition WIFEXITED (status : Z) : bool := Z.land status 127 =? 0.
Definition WEXITSTATUS (status : Z) : Z := Z.land (Z.shiftr status 8) 255.
Definition WTERMSIG (status : Z) : Z := Z.land status 127.
(** [((status & 0x7f) + 1) as i8 >= 2]. *)
Definition WIFSIGNALED (status : Z) : bool := (2 <=? Z.land status 127 + 1) && (Z.land status 127 + 1 <? 128).
Definition exit_code (status : Z) : Z :=
  if WIFEXITED status then WEXITSTATUS status mod 256
  else if WIFSIGNALED status then Z.min (128 + WTERMSIG status) 255 mod 256
  else 1.
(** [waitpid] until it answers for the child; [None]: the answers given end in the
    middle of the wait. *)
Fixpoint wait_for_child (answers : list Waited) : option (result string Z) :=
  match answers with
  | [] => None
  | WaitedChild status :: _ => Some (Ok (exit_code status))
  | WaitInterrupted :: rest => wait_for_child rest
  | WaitFailed :: _ => Some (Err ("wait for role process: " +:+ os_error))
  end.
(** [fork]: [None] when it fails, else what [waitpid] answers given what the child
    became. *)
Definition run_supervised (handlers_installed : bool) (fork : option (Image + Z -> list Waited)) (fs : gmap string string)
    (uid gid : Z) (write_roots : list string) (filesystem_write_boundary : bool) (command : string) (args : list string)
    (p : Process) : option (result string Z) :=
  if negb handlers_installed then Some (Err ("install role supervisor signal handler: " +:+ os_error))
  else match fork with
       | None => Some (Err ("fork role process: " +:+ os_error))
       | Some waits => wait_for_child (waits (supervised_child fs uid gid write_roots filesystem_write_boundary command args p))
       end.
End Privilege.
