(* ===== verification/PrivilegeProps.v ===== *)
(** * PrivilegeProps: what a process may still do

    The gate of the setuid binary, what Landlock allows after [restrict_writes], the
    identity and the writes of a role process, and the status its supervisor
    reports. *)

From S2P Require Import Prelude Text State Json LogModel Config Execution Dag Lifecycle Snapshot Findings Policy OpsBytes OpsRequest OpsHost Ops Launch Shell Agent Reports Privilege WorkflowFacts Instances.

(** ** Specification: the Landlock decision

    A right is allowed on a canonical path when every ruleset enforced on the process
    either does not handle the right or has a rule for the path or a directory above
    it that allows the right. *)
Definition landlock_allows (p : Process) (path : string) (bit : Z) : bool :=
  forallb (fun r => negb (Z.testbit (handled_access r) bit)
                    || existsb (fun rule => inside path rule.1 && Z.testbit rule.2 bit) (rules r))
    (enforced p).

(** The rights of Landlock that write, by the version of the interface; reading,
    listing and executing (bits 0, 2 and 3) are not among them. *)
Definition write_rights (abi : Z) : list Z :=
  [1; 4; 5; 6; 7; 8; 9; 10; 11; 12] ++ (if 2 <=? abi then [13] else [])
    ++ (if 3 <=? abi then [14] else []) ++ (if 5 <=? abi then [15] else []).
(** The rights that make sense on a file: write, truncate, ioctl. *)
Definition file_rights : list Z := [1; 14; 15].
Definition zmem (x : Z) (l : list Z) : bool := existsb (Z.eqb x) l.

Lemma zmem_in x l : In x l -> zmem x l = true.
Proof. intros Hx. apply existsb_exists. exists x. by rewrite Z.eqb_refl. Qed.

Lemma access_testbit b bit : 0 <= b -> Z.testbit (access b) bit = (bit =? b).
Proof.
  intros Hb. unfold access. rewrite Z.shiftl_1_l. destruct (Z.eqb_spec bit b) as [->|N].
  - by apply Z.pow2_bits_true.
  - by apply Z.pow2_bits_false.
Qed.

Lemma handled_exact abi bit : Z.testbit (handled_access_for_abi abi) bit = zmem bit (write_rights abi).
Proof.
  unfold handled_access_for_abi, write_rights, zmem.
  destruct (2 <=? abi), (3 <=? abi), (5 <=? abi); cbn [foldl app existsb];
    unfold ACCESS_WRITE_FILE, ACCESS_REMOVE_DIR, ACCESS_REMOVE_FILE, ACCESS_MAKE_CHAR, ACCESS_MAKE_DIR, ACCESS_MAKE_REG,
      ACCESS_MAKE_SOCK, ACCESS_MAKE_FIFO, ACCESS_MAKE_BLOCK, ACCESS_MAKE_SYM, ACCESS_REFER, ACCESS_TRUNCATE, ACCESS_IOCTL_DEV;
    rewrite !Z.lor_spec, !access_testbit by lia; rewrite ?orb_false_r, <- ?orb_assoc; done.
Qed.

Section Facts.
Context `{Platform} `{Kernel} `{Resolver}.

Lemma pbind_ok {A B} (m : PIO A) (k : A -> PIO B) p b p' :
  pbind m k p = (Ok b, p') -> exists a p1, m p = (Ok a, p1) /\ k a p1 = (Ok b, p').
Proof. unfold pbind. destruct (m p) as [[a|e] p1]; [|done]. eauto. Qed.

Lemma pcheck_ok b e p p' : pcheck b e p = (Ok tt, p') -> b = true /\ p' = p.
Proof. by destruct b; intros [= ->]. Qed.

Lemma plift_ok {A} (r : result string A) p a p' : plift r p = (Ok a, p') -> r = Ok a /\ p' = p.
Proof. by intros [= -> ->]. Qed.

Lemma pmap_err_ok {A} f (m : PIO A) p a p' : pmap_err f m p = (Ok a, p') -> m p = (Ok a, p').
Proof. unfold pmap_err. destruct (m p) as [[b|e] p1]; simpl; congruence. Qed.

Lemma syscall_ok f e p p' : syscall f e p = (Ok tt, p') -> f p = Some p'.
Proof. unfold syscall. destruct (f p); congruence. Qed.
End Facts.

(** Take apart a computation that succeeded. *)
Ltac pinv :=
  repeat match goal with
  | E : unit |- _ => destruct E
  | E : pmap_err _ _ _ = (Ok _, _) |- _ => apply pmap_err_ok in E
  | E : pbind _ _ _ = (Ok _, _) |- _ => apply pbind_ok in E as (? & ? & ? & ?)
  | E : pcheck _ _ _ = (Ok _, _) |- _ => apply pcheck_ok in E as [? ->]
  | E : plift _ _ = (Ok _, _) |- _ => apply plift_ok in E as [? ->]
  | E : syscall _ _ _ = (Ok _, _) |- _ => apply syscall_ok in E
  | E : (Ok _, _) = (Ok _, _) |- _ => inversion E; subst; clear E
  end.

Section Rules.
Context `{Platform} `{Kernel} `{Resolver}.

(** The rule of one root. *)
Definition root_rule (fs : gmap string string) (handled : Z) (root : string) : option (string * Z) :=
  file ← resolve fs root; Some (file, allowed_access fs handled root).

Lemma root_rule_some fs handled root file :
  resolve fs root = Some file -> root_rule fs handled root = Some (file, allowed_access fs handled root).
Proof. unfold root_rule. by intros ->. Qed.

Lemma root_rule_none fs handled root : resolve fs root = None -> root_rule fs handled root = None.
Proof. unfold root_rule. by intros ->. Qed.

Lemma add_path_rules_exact fs r roots r' :
  add_path_rules fs r roots = Ok r' ->
  handled_access r' = handled_access r
  /\ exists added, mapM (root_rule fs (handled_access r)) roots = Some added /\ rules r' = rules r ++ added.
Proof.
  revert r. induction roots as [|root roots IH]; intros r E; simpl in E.
  - injection E as <-. split; [done|]. exists []. by rewrite app_nil_r.
  - unfold add_path_rule in E. destruct (resolve fs root) as [file|] eqn:R; simpl in E; [|done].
    destruct (landlock_add_rule _ _); simpl in E; [|done].
    apply IH in E as (Hh & added & Hm & Hr). simpl in *. split; [done|].
    exists ((file, allowed_access fs (handled_access r) root) :: added). rewrite Hr, <- app_assoc. split; [|done].
    simpl. rewrite (root_rule_some _ _ _ _ R). simpl. by rewrite Hm.
Qed.

Lemma allowed_exact fs abi root bit :
  Z.testbit (allowed_access fs (handled_access_for_abi abi) root) bit
  = zmem bit (write_rights abi) && (path_is_dir fs root || zmem bit file_rights).
Proof.
  unfold allowed_access. destruct (path_is_dir fs root); rewrite ?Z.land_spec, handled_exact; simpl; [by rewrite andb_true_r|].
  f_equal. unfold ACCESS_WRITE_FILE, ACCESS_TRUNCATE, ACCESS_IOCTL_DEV.
  rewrite !Z.lor_spec, !access_testbit by lia. unfold zmem, file_rights. cbn [existsb]. by rewrite orb_false_r, orb_assoc.
Qed.

(** One write root covers a right on a path. *)
Definition covers (fs : gmap string string) (path : string) (bit : Z) (root : string) : bool :=
  match resolve fs root with
  | Some file => inside path file && (path_is_dir fs root || zmem bit file_rights)
  | None => false
  end.

Lemma rules_cover fs abi roots added path bit :
  mapM (root_rule fs (handled_access_for_abi abi)) roots = Some added ->
  zmem bit (write_rights abi) = true ->
  existsb (fun rule => inside path rule.1 && Z.testbit rule.2 bit) added = existsb (covers fs path bit) roots.
Proof.
  intros E Hb. revert added E. induction roots as [|root roots IH]; intros added E; simpl in E; [by injection E as <-|].
  destruct (resolve fs root) as [file|] eqn:R; [|by rewrite root_rule_none in E].
  rewrite (root_rule_some _ _ _ _ R) in E. simpl in E.
  destruct (mapM _ roots) as [rest|]; simpl in E; [|done]. injection E as <-. simpl.
  rewrite (IH rest eq_refl), allowed_exact, Hb. unfold covers at 2. by rewrite R.
Qed.

Lemma restrict_writes_ok fs roots p p' :
  restrict_writes fs roots p = (Ok tt, p') ->
  exists added, 1 <= landlock_abi
    /\ mapM (root_rule fs (handled_access_for_abi landlock_abi)) roots = Some added
    /\ p' = mkProcess (ruid p) (euid p) (suid p) (rgid p) (egid p) (sgid p) (groups p) true
              (mkRuleset (handled_access_for_abi landlock_abi) added :: enforced p).
Proof.
  unfold restrict_writes. intros E. pinv.
  match goal with E : add_path_rules _ _ _ = Ok ?r |- _ => destruct r as [h rs]; apply add_path_rules_exact in E as (Hh & added & Hm & Hr) end.
  simpl in *. subst. exists added. repeat split; try lia; try done.
Qed.

Lemma restrict_writes_ids fs roots p r p' :
  restrict_writes fs roots p = (r, p') ->
  (ruid p', euid p', suid p', rgid p', egid p', sgid p', groups p')
  = (ruid p, euid p, suid p, rgid p, egid p, sgid p, groups p).
Proof.
  unfold restrict_writes, pbind, pcheck, plift, pret, pfail. intros E.
  repeat case_match; simplify_eq; done.
Qed.

Lemma restrict_writes_decision fs roots p p' path bit :
  restrict_writes fs roots p = (Ok tt, p') ->
  landlock_allows p' path bit
  = landlock_allows p path bit && (negb (zmem bit (write_rights landlock_abi)) || existsb (covers fs path bit) roots).
Proof.
  intros E. apply restrict_writes_ok in E as (added & _ & Hm & ->).
  unfold landlock_allows. cbn [enforced forallb handled_access rules]. rewrite handled_exact, andb_comm. f_equal.
  destruct (zmem bit (write_rights landlock_abi)) eqn:Hb; [|done]. cbn [negb orb]. by apply rules_cover with landlock_abi.
Qed.

(** C35: Once [restrict_writes] has succeeded, Landlock allows a writing right on a
    path exactly when it allowed it before and one of the write roots is the path or
    a directory above it (a root that is a file is given only the rights of a file);
    reading and executing are decided as before, the process can gain no privilege,
    and its identity is unchanged. *)
Theorem restrict_writes_exact fs roots p p' path bit :
  restrict_writes fs roots p = (Ok tt, p') ->
  landlock_allows p' path bit
    = landlock_allows p path bit
      && (negb (zmem bit (write_rights landlock_abi)) || existsb (covers fs path bit) roots)
  /\ no_new_privileges p' = true
  /\ (ruid p', euid p', suid p', rgid p', egid p', sgid p', groups p')
     = (ruid p, euid p, suid p, rgid p, egid p, sgid p, groups p).
Proof.
  intros E. split; [by apply restrict_writes_decision|]. split; [|by apply restrict_writes_ids with fs roots (Ok tt)].
  by apply restrict_writes_ok in E as (added & _ & _ & ->).
Qed.
End Rules.

Section Identities.
Context `{Platform} `{Kernel} `{!KernelLaws} `{Resolver}.

(** C34: When the gate of the setuid binary lets an invocation go on with an effective
    root identity, the caller is root, or the orchestrator running one of its two
    commands, or the control account running one of its four; every other caller goes
    on with its own user as the real, effective and saved one, and an invocation
    that was not setuid is left alone. *)
Theorem setuid_gate_closed command p p' :
  gate_setuid_invocation command p = (Ok tt, p') ->
  (euid p' = 0 ->
   ruid p = 0
   \/ ruid p = ORCHESTRATOR_UID /\ In command ["role-agent-exec"; "reviewed-ops-exec"]
   \/ ruid p = CONTROL_UID /\ In command ["authority-supervisor-exec"; "container-bootstrap"; "launch"; "session-control"])
  /\ (euid p = 0 -> euid p' <> 0 -> p' = with_uids (ruid p) (ruid p) (ruid p) p)
  /\ (euid p <> 0 -> p' = p).
Proof.
  unfold gate_setuid_invocation, guard_setuid_invocation. intros E%pmap_err_ok.
  unfold pbind in E. unfold setuid_disposition in E.
  destruct (Z.eqb_spec (euid p) 0) as [E0|E0]; simpl in E; [|by injection E as <-].
  destruct (Z.eqb_spec (ruid p) 0) as [R0|R0]; simpl in E; [injection E as <-; naive_solver|].
  destruct (privileged_command_allowed command (ruid p)) eqn:A; simpl in E.
  - injection E as <-. split; [|naive_solver]. intros _. right. unfold privileged_command_allowed in A.
    apply orb_true_iff in A as [[Hm Hu]%andb_true_iff|[Hm Hu]%andb_true_iff]; apply Z.eqb_eq in Hu; apply mem_in, list_elem_of_In in Hm; auto.
  - unfold syscall in E. destruct (setuid (ruid p) p) as [p1|] eqn:S; [|done].
    apply setuid_law in S. rewrite E0 in S. simpl in S. subst p1. simpl in E. rewrite Z.eqb_refl in E.
    injection E as <-. naive_solver.
Qed.

Lemma apply_identity_root spec p p' :
  apply_identity spec p = (Ok tt, p') -> euid p = 0 ->
  p' = mkProcess (id_uid spec) (id_uid spec) (id_uid spec) (id_gid spec) (id_gid spec) (id_gid spec)
         (prepared_groups (prepare_identity spec)) (no_new_privileges p) (enforced p).
Proof.
  unfold apply_identity, apply_prepared_identity. intros E E0. pinv.
  repeat match goal with
  | E : setgroups _ _ = Some _ |- _ => apply setgroups_law in E
  | E : setgid _ _ = Some _ |- _ => apply setgid_law in E
  | E : setuid _ _ = Some _ |- _ => apply setuid_law in E
  end. subst.
  unfold with_groups, with_gids, with_uids. simpl. rewrite !E0. simpl. by rewrite ?E0.
Qed.

Lemma no_root q uid :
  (ruid q, euid q, suid q) = (uid, uid, uid) -> uid <> 0 -> setuid 0 q = None.
Proof.
  intros [= R E S] N. destruct (setuid 0 q) as [q'|] eqn:F; [|done].
  apply setuid_permission in F; [|congruence]. destruct F; congruence.
Qed.

(** The role process of a supervised run that reaches its command has exactly the
    user and the group it was given, as real, effective and saved identifiers, and no
    other group; it cannot become root again; and Landlock allows it to write only
    below its write roots, unless the caller has the file system enforce the boundary
    and the kernel has no Landlock. *)
Theorem role_child_confined fs uid gid roots boundary command args p image :
  supervised_child fs uid gid roots boundary command args p = inl image ->
  euid p = 0 -> uid <> 0 ->
  let q := image_process image in
  (ruid q, euid q, suid q, rgid q, egid q, sgid q, groups q) = (uid, uid, uid, gid, gid, gid, [gid])
  /\ (image_command image, image_args image) = (command, args)
  /\ setuid 0 q = None
  /\ (no_new_privileges q = true
      /\ (forall path bit, In bit (write_rights landlock_abi) -> landlock_allows q path bit = true ->
                           existsb (covers fs path bit) roots = true)
      \/ boundary = true /\ exists error p1, restrict_writes fs roots p1 = (Err error, q) /\ landlock_unavailable error = true).
Proof.
  unfold supervised_child. intros E E0 U0.
  destruct setpgid_self; simpl in E; [|done]. destruct (_ || _); [done|].
  destruct (apply_identity _ p) as [[[]|e] p1] eqn:Ei; [|done].
  apply apply_identity_root in Ei as ->; [|done]. cbn [id_uid id_gid] in E.
  set (p1 := mkProcess _ _ _ _ _ _ _ _ _) in E.
  destruct (restrict_writes fs roots p1) as [restricted p2] eqn:Er.
  assert (Hids : (ruid p2, euid p2, suid p2, rgid p2, egid p2, sgid p2, groups p2) = (uid, uid, uid, gid, gid, gid, [gid])).
  { transitivity (ruid p1, euid p1, suid p1, rgid p1, egid p1, sgid p1, groups p1); [|done].
    by apply restrict_writes_ids with fs roots restricted. }
  destruct (match restricted with Ok _ => false | Err _ => _ end) eqn:Eb; [done|].
  destruct (execve p2 command args); [|done]. injection E as <-. cbn [image_process image_command image_args].
  split; [done|]. split; [done|]. split; [apply no_root with uid; [congruence|done]|].
  destruct restricted as [[]|error].
  - left. split.
    + apply restrict_writes_ok in Er as (added & _ & _ & ->). done.
    + intros path bit Hbit Hall. apply (restrict_writes_decision _ _ _ _ path bit) in Er. rewrite Er in Hall.
      apply andb_true_iff in Hall as [_ Hall]. by rewrite (zmem_in _ _ Hbit) in Hall.
  - right. apply orb_false_iff in Eb as [?%negb_false_iff ?%negb_false_iff]. eauto.
Qed.
End Identities.

(** ** The supervisor's verdict *)

Lemma exit_code_range status : 0 <= exit_code status <= 255.
Proof.
  unfold exit_code. destruct (WIFEXITED status); [|destruct (WIFSIGNALED status); [|lia]].
  - pose proof (Z.mod_pos_bound (WEXITSTATUS status) 256 ltac:(lia)). lia.
  - pose proof (Z.mod_pos_bound (Z.min (128 + WTERMSIG status) 255) 256 ltac:(lia)). lia.
Qed.

Lemma wexitstatus_mod status : WEXITSTATUS status mod 256 = WEXITSTATUS status.
Proof.
  unfold WEXITSTATUS. change 255 with (Z.ones 8). rewrite Z.land_ones by lia. change (2 ^ 8) with 256.
  by rewrite Z.mod_mod by lia.
Qed.

(** A supervisor reports success only for a role process that exited with status
    zero: not for one that was killed. *)
Lemma exit_code_success status : exit_code status = 0 <-> WIFEXITED status = true /\ WEXITSTATUS status = 0.
Proof.
  unfold exit_code. rewrite wexitstatus_mod. destruct (WIFEXITED status) eqn:E; [naive_solver|].
  split; [|naive_solver]. destruct (WIFSIGNALED status) eqn:S; [|done].
  unfold WTERMSIG. assert (0 <= Z.land status 127) by (apply Z.land_nonneg; lia).
  rewrite Z.mod_small by lia. lia.
Qed.

(** The status of a child that calls [_exit] comes back. *)
Lemma exit_code_exit code : 0 <= code <= 255 -> exit_code (exit_status code) = code.
Proof.
  intros Hc. unfold exit_code, exit_status, WIFEXITED. change 255 with (Z.ones 8).
  rewrite Z.land_ones, Z.mod_small by lia.
  assert (E : Z.land (Z.shiftl code 8) 127 = 0).
  { change 127 with (Z.ones 7). rewrite Z.land_ones, Z.shiftl_mul_pow2 by lia.
    change (2 ^ 8) with (2 * 2 ^ 7). by rewrite Z.mul_assoc, Z.mod_mul. }
  rewrite E. simpl. rewrite wexitstatus_mod. unfold WEXITSTATUS. rewrite Z.shiftr_shiftl_l by lia.
  simpl (8 - 8). rewrite Z.shiftl_0_r. change 255 with (Z.ones 8). by rewrite Z.land_ones, Z.mod_small by lia.
Qed.

Section Verdict.
Context `{Platform} `{Kernel} `{Resolver}.

Lemma wait_for_child_interrupted n status rest :
  wait_for_child (replicate n WaitInterrupted ++ WaitedChild status :: rest) = Some (Ok (exit_code status)).
Proof. by induction n. Qed.

(** A role process that could not be confined or executed is reported as a failure,
    however often the wait is interrupted. *)
Theorem supervised_failure_reported waits fs uid gid roots boundary command args p n rest code :
  supervised_child fs uid gid roots boundary command args p = inr code ->
  waits (inr code) = replicate n WaitInterrupted ++ WaitedChild (exit_status code) :: rest ->
  run_supervised true (Some waits) fs uid gid roots boundary command args p = Some (Ok code) /\ code <> 0.
Proof.
  intros E Ew.
  assert (Hc : code = 126 \/ code = 127).
  { unfold supervised_child in E. repeat case_match; simplify_eq; auto. }
  unfold run_supervised. simpl. rewrite E, Ew, wait_for_child_interrupted, exit_code_exit by lia. split; [done|lia].
Qed.
End Verdict.

(** ** A concrete kernel *)
Module PrivilegeWitness.

#[local] Instance platform : Platform := toy_platform (fun _ => None) 0.
#[local] Instance resolver : Resolver := fun _ p => if is_absolute p then Some p else None.
#[local] Instance kernel : Kernel := {
  setgroups g p := if euid p =? 0 then Some (with_groups g p) else None;
  setgid g p :=
    if euid p =? 0 then Some (with_gids g g g p)
    else if (g =? rgid p) || (g =? sgid p) then Some (with_gids (rgid p) g (sgid p) p) else None;
  setuid u p :=
    if euid p =? 0 then Some (with_uids u u u p)
    else if (u =? ruid p) || (u =? suid p) then Some (with_uids (ruid p) u (suid p) p) else None;
  landlock_abi := 4; landlock_error := "";
  landlock_create_ruleset _ := true; landlock_add_rule _ _ := true; prctl_no_new_privs := true;
  landlock_restrict_self _ := true; setpgid_self := true; prctl_death_signal := true; parent_unchanged := true;
  execve _ command _ := starts_with "/" command
}.
#[local] Instance kernel_laws : KernelLaws.
Proof.
  constructor; simpl.
  - intros g p p' E. case_match; congruence.
  - intros g p p' E. repeat case_match; congruence.
  - intros u p p' E. repeat case_match; congruence.
  - intros u p p' E N. repeat case_match; simplify_eq; lia.
Qed.

(** The setuid binary as the account [u] starts it. *)
Definition started (u : Z) : Process := mkProcess u 0 0 100 100 100 [100; 27] false [].
Definition disk : gmap string string := list_to_map [("/work/lib/a.rs", "x"); ("/work/notes", "y")].

Lemma setuid_gate_witness :
  gate_setuid_invocation "role-agent-exec" (started 1000) = (Ok tt, with_uids 1000 1000 1000 (started 1000))
  /\ with_uids 1000 1000 1000 (started 1000) = with_uids 1000 1000 1000 (started 1000).
Proof.
  assert (E : gate_setuid_invocation "role-agent-exec" (started 1000) = (Ok tt, with_uids 1000 1000 1000 (started 1000)))
    by (vm_compute; reflexivity).
  split; [exact E|]. exact (proj1 (proj2 (setuid_gate_closed _ _ _ E)) eq_refl ltac:(vm_compute; discriminate)).
Defined.

Definition restricted : Process := (restrict_writes disk ["/work/lib"] (started 1000)).2.
Lemma restrict_writes_witness :
  landlock_allows restricted "/work/lib/a.rs" 1 = true /\ landlock_allows restricted "/work/notes" 1 = false
  /\ no_new_privileges restricted = true.
Proof.
  assert (E : restrict_writes disk ["/work/lib"] (started 1000) = (Ok tt, restricted)) by (vm_compute; reflexivity).
  split; [|split].
  - etransitivity; [exact (proj1 (restrict_writes_exact _ _ _ _ "/work/lib/a.rs" 1 E))|vm_compute; reflexivity].
  - vm_compute; reflexivity.
  - exact (proj1 (proj2 (restrict_writes_exact _ _ _ _ "/work/notes" 1 E))).
Defined.

Definition role_image : Image + Z := supervised_child disk 2001 2000 ["/work/lib"] false "/usr/bin/agent" ["--run"] (started 501).
Lemma role_child_witness :
  match role_image with
  | inl image => setuid 0 (image_process image) = None /\ landlock_allows (image_process image) "/work/notes" 1 = false
  | inr _ => False
  end.
Proof.
  destruct role_image as [image|code] eqn:E; [|vm_compute in E; discriminate].
  split.
  - exact (proj1 (proj2 (proj2 (role_child_confined _ _ _ _ _ _ _ _ _ E eq_refl ltac:(discriminate))))).
  - vm_compute in E. injection E as <-. vm_compute. reflexivity.
Defined.

(** The orchestrator keeps its privilege for its own command only. *)
Example orchestrator_keeps :
  (gate_setuid_invocation "role-agent-exec" (started ORCHESTRATOR_UID)).2 = started ORCHESTRATOR_UID
  /\ euid (gate_setuid_invocation "launch" (started ORCHESTRATOR_UID)).2 = ORCHESTRATOR_UID.
Proof. vm_compute. split; reflexivity. Qed.

(** [role-exec] without a user confines the writes and keeps the identity. *)
Example role_exec_confines :
  match role_exec disk ["--allow-write"; "/work/lib"; "--"; "/bin/sh"; "-c"] (started 1000) with
  | (Ok image, p) => image_args image = ["-c"] /\ ruid p = 1000 /\ landlock_allows p "/work/notes" 4 = false
                     /\ landlock_allows p "/work/notes" 0 = true
  | (Err _, _) => False
  end.
Proof. vm_compute. repeat split. Qed.
Example role_exec_needs_group :
  (role_exec disk ["--uid"; "7"; "--"; "/bin/sh"] (started 1000)).1 = Err "role-exec --uid requires --gid".
Proof. vm_compute. reflexivity. Qed.
End PrivilegeWitness.
