(* ===== verification/RoleExec.v ===== *)
(** * RoleExec: the setuid bridge that starts a role ([runtime/src/runtime.rs])

    [role-agent-exec] runs as root for the orchestrator: it takes one registered
    launch, checks the binary and the writer's authority, hands the assigned paths of
    the repository to the writer, runs the role under its own user, takes the paths
    back and seals what the role wrote. The registry of the authority state
    ([runtime/src/supervisor.rs]) and the directories of a container are here too.
    Groups of files are not modelled; a directory is read in the order of its names. *)

From S2P Require Import Prelude Text State Json LogModel Config Execution Dag Lifecycle Snapshot Findings Policy OpsBytes OpsRequest OpsHost Ops Launch Shell Agent Reports Session Spawn Privilege OpsHost.

Definition ROLE_GID : Z := 10001.
Definition AUTHORITY_REGISTRY : string := "/run/multiagent/authority-state-10001".

Definition privileged_agent_parent_mode_is_safe (uid mode : Z) : bool :=
  (uid =? 0) && ((Z.land mode 18 =? 0) || negb (Z.land mode 512 =? 0)).

(** The paths above a path, nearest first. *)
Fixpoint ancestors (fuel : nat) (p : string) : list string :=
  match fuel, path_parent p with
  | S n, Some parent => parent :: ancestors n parent
  | _, _ => []
  end.

(** The names in a directory. *)
Definition directory_entries (fs : gmap string string) (p : string) : list string :=
  btree_list (list_to_set
    (omap (fun q => rest ← strip_prefix (p +:+ "/") q;
                    let name := match split_once "/" rest with Some (name, _) => name | None => rest end in
                    if is_empty name then None else Some name)
       (map_to_list fs).*1) : gset string).

(** The mode a tree is given, directories and files. *)
Definition directory_mode (writable : bool) (m : Z) : Z :=
  Z.land (if writable then Z.lor m 448 else Z.lor (Z.land m (Z.lnot 146)) 360) 4095.
Definition file_mode (writable : bool) (m : Z) : Z :=
  Z.land (if writable then Z.lor m 384 else Z.lor (Z.land m (Z.lnot 146)) 288) 4095.

Section Host.
Context `{Platform} `{Git} `{JsonCodec} `{JsonPretty} `{OpsEnv} `{Resolver}.

(** [fs::metadata]: the attributes of what a path leads to. *)
Definition metadata (p error : string) : OIO Attr :=
  let^ fs := store in
  let^ canonical := olift (ok_or (resolve fs p) error) in
  attr canonical.

(** A loop that stops at the first error. *)
Fixpoint each {A} (f : A -> OIO unit) (l : list A) : OIO unit :=
  match l with
  | [] => oret tt
  | x :: rest => let^ _ := f x in each f rest
  end.

(** ** The registry of the authority state *)

Definition register_runtime_state (st : string) : OIO unit :=
  let^ _ := ocheck (geteuid =? 0) "registering authority state requires root" in
  let^ canonical := canonicalize_path st ("canonicalize authority state " +:+ st) in
  let^ parent := olift (ok_or (path_parent AUTHORITY_REGISTRY) "authority registry has no parent") in
  let^ _ := make_dir_all parent "create authority registry directory" in
  let^ a := metadata parent (io_error "inspect authority registry directory") in
  let^ _ := ocheck ((owner a =? 0) && (Z.land (mode a) 18 =? 0)) "authority registry directory must be root-owned and non-writable" in
  let^ fs := store in
  if path_exists fs AUTHORITY_REGISTRY then
    let^ existing := olift (ok_or (fs !! AUTHORITY_REGISTRY) (io_error "read authority registry")) in
    ocheck (same_path (trim existing) canonical)
      ("another UID-isolated authority state is already registered: " +:+ trim existing)
  else
    let^ _ := write_file AUTHORITY_REGISTRY (canonical +:+ newline) (io_error "write authority registry") in
    set_attr AUTHORITY_REGISTRY (chmod 384) (io_error "protect authority registry").

Definition validate_runtime_state (st : string) : OIO unit :=
  let^ a := metadata AUTHORITY_REGISTRY "trusted authority state is not registered" in
  let^ _ := ocheck ((owner a =? 0) && (Z.land (mode a) 63 =? 0)) "trusted authority state registry has unsafe ownership or mode" in
  let^ fs := store in
  let^ expected := olift (ok_or (fs !! AUTHORITY_REGISTRY) (io_error "read trusted authority state")) in
  let^ actual := canonicalize_path st "canonicalize requested authority state" in
  ocheck (same_path actual (trim expected)) ("requested state is not the registered authority state: " +:+ st).

(** ** The directories of a container *)

Definition CONTAINER_DIRECTORIES : list (string * Z * Z) :=
  [("control-home", CONTROL_UID, 448); ("state", CONTROL_UID, 1512); ("repositories", CONTROL_UID, 1528);
   ("role-homes/orchestrator", ORCHESTRATOR_UID, 448); ("role-homes/orchestrator/codex", ORCHESTRATOR_UID, 448);
   ("role-homes/orchestrator/claude", ORCHESTRATOR_UID, 448); ("role-homes/writer", WRITER_UID, 448);
   ("role-homes/reader", READER_UID, 448); ("role-homes/reviewer", REVIEWER_UID, 448);
   ("role-homes/supervisor", SUPERVISOR_UID, 448); ("role-homes/ops", OPS_UID, 448)].
Definition make_directory (row : string * Z * Z) : OIO unit :=
  let '(name, uid, m) := row in
  let path := path_join "/var/lib/multiagent" name in
  let^ _ := make_dir_all path "create container role directory" in
  let^ _ := change_owner path uid in
  set_attr path (chmod m) (io_error "protect container role directory").
Definition container_bootstrap : OIO Z :=
  let^ _ := ocheck ((getuid =? CONTROL_UID) && (geteuid =? 0))
              "container bootstrap requires the trusted control UID through the setuid launcher" in
  let^ _ := each make_directory CONTAINER_DIRECTORIES in
  oret 0.

(** ** The binary of the agent *)

Definition validate_parent (path : string) : OIO unit :=
  let^ a := metadata path (io_error "inspect coding-agent binary parent") in
  let^ fs := store in
  ocheck (path_is_dir fs path && privileged_agent_parent_mode_is_safe (owner a) (mode a))
    ("privileged coding-agent binary parent must be root-owned and either non-writable or sticky: " +:+ path).
Definition validate_privileged_agent_binary (path : string) : OIO unit :=
  let^ canonical := canonicalize_path path "resolve privileged coding-agent binary" in
  let^ a := metadata canonical (io_error "inspect privileged coding-agent binary") in
  let^ fs := store in
  let^ _ := ocheck (is_some (fs !! canonical) && (owner a =? 0) && (Z.land (mode a) 18 =? 0))
              ("privileged coding-agent binary must be a root-owned, non-group-writable executable: " +:+ canonical) in
  each validate_parent (ancestors (length (components canonical)) canonical).

(** ** The paths of the writer *)

(** [chown_path]: [lchown], the group is not modelled. *)
Fixpoint set_workspace_tree_owner (fuel : nat) (uid : Z) (writable : bool) (path : string) : OIO unit :=
  match fuel with
  | O => ofail ""
  | S n =>
      let^ fs := store in
      let^ a := attr path in
      let^ _ := ocheck (is_link a || present fs path) (io_error "inspect workspace ownership") in
      let^ _ := change_owner path uid in
      if is_link a then oret tt
      else if is_dir fs path then
        let^ _ := set_attr path (chmod (directory_mode writable (mode a))) (io_error "set workspace directory ownership mode") in
        each (fun name => set_workspace_tree_owner n uid writable (path_join path name)) (directory_entries fs path)
      else if is_some (fs !! path) then
        set_attr path (chmod (file_mode writable (mode a))) (io_error "set workspace file ownership mode")
      else oret tt
  end.
(** A directory is never deeper than the longest path is long. *)
Definition tree_depth (fs : gmap string string) : nat := S (foldr Nat.max 0%nat (map String.length (map_to_list fs).*1)).
Definition set_tree_owner (path : string) (uid : Z) (writable : bool) : OIO unit :=
  let^ fs := store in set_workspace_tree_owner (tree_depth fs) uid writable path.

Definition writer_ledger (st : string) : string := path_join st "launch-authorizations/active-writer-paths".
(** [atomic_write] of [runtime.rs]: a new file in place of the old one. *)
Definition write_labelled (path text label : string) : OIO unit :=
  fun h => let '(r, h') := io (atomic_write path text) h in
           match r with
           | Ok _ => own path 438 h'
           | Err error => (Err (label +:+ ": " +:+ error), h')
           end.
Definition strictly_inside (path root_ : string) : bool := inside path root_ && negb (same_path path root_).

(** A path that lies inside the repository is taken back, and one is handed over. *)
Definition revoke_path (root_ path : string) : OIO unit :=
  let^ fs := store in
  if strictly_inside path root_ && path_exists fs path then set_tree_owner path 0 false else oret tt.
Definition grant_path (root_ path : string) : OIO unit :=
  let^ _ := ocheck (strictly_inside path root_) ("writer ownership path is outside the repository: " +:+ path) in
  set_tree_owner path WRITER_UID true.
Definition prepare_workspace_write_boundary (st root_ : string) (owned_paths : list string) : OIO unit :=
  let^ authority := io configured in
  let^ _ := ocheck (permits_workspace_write authority root_ owned_paths)
              ("session authority " +:+ scope authority +:+ " does not grant the exact requested workspace paths") in
  let ledger := writer_ledger st in
  let^ fs := store in
  let^ _ := each (revoke_path root_)
              (match fs !! ledger with
               | Some text => List.filter (fun line => negb (is_empty line)) (lines text)
               | None => []
               end) in
  let^ _ := write_labelled ledger (unlines owned_paths) "active writer ownership ledger" in
  let^ _ := set_attr ledger (chmod 384) (io_error "protect writer ownership ledger") in
  each (grant_path root_) owned_paths.
Definition revoke_workspace_writes (st root_ : string) (owned_paths : list string) : OIO unit :=
  let^ _ := each (revoke_path root_) owned_paths in
  let ledger := writer_ledger st in
  let^ _ := write_labelled ledger "" "clear writer ownership ledger" in
  set_attr ledger (chmod 384) (io_error "protect writer ownership ledger").

Definition prepare_role_output_paths (output trace_dir : string) (uid : Z) : OIO unit :=
  let^ _ := (match path_parent output with
             | Some parent => make_dir_all parent "create role output directory"
             | None => oret tt
             end) in
  let^ fs := store in
  let^ _ := (if is_some (fs !! output) then oret tt
             else let^ _ := io (put_file output "" (io_error "create role output")) in own output 438) in
  let^ _ := make_dir_all trace_dir "create role trace directory" in
  let^ _ := change_owner output uid in
  let^ _ := change_owner trace_dir uid in
  let^ _ := set_attr output (chmod 432) (io_error "set role output permissions") in
  set_attr trace_dir (chmod 1528) (io_error "set role trace permissions").
End Host.

(** ** The bridge *)

(** What the bridge works on: the host, the calls of a session, the environment
    variables it has set, its own process, and the role processes it has forked. *)
Record Bridge := mkBridge {
  bhost : Host; bhistory : list External; bparallel : option string;
  benv : gmap string string; bprocess : Process; bruns : list (Image + Z)
}.
Definition BIO (A : Type) : Type := Bridge -> result string A * Bridge.
Definition bret {A} (a : A) : BIO A := fun b => (Ok a, b).
Definition bfail {A} (e : string) : BIO A := fun b => (Err e, b).
Definition bbind {A B} (m : BIO A) (k : A -> BIO B) : BIO B :=
  fun b => match m b with
           | (Ok a, b') => k a b'
           | (Err e, b') => (Err e, b')
           end.
Notation "'let@' x ':=' m 'in' k" := (bbind m (fun x => k))
  (at level 10, x pattern, m at level 100, k at level 200) : io_scope.
Definition bcheck (c : bool) (e : string) : BIO unit := if c then bret tt else bfail e.
Definition blift {A} (r : result string A) : BIO A := fun b => (r, b).
Definition bwhen (c : bool) (m : BIO unit) : BIO unit := if c then m else bret tt.
(** An operation of the host, and one of a session. *)
Definition bho {A} (m : OIO A) : BIO A :=
  fun b => let '(r, h) := m (bhost b) in (r, mkBridge h (bhistory b) (bparallel b) (benv b) (bprocess b) (bruns b)).
Definition bso {A} (m : SIO A) : BIO A :=
  fun b => let h := bhost b in
           let '(r, s) := m (mkSession (hw h) (bhistory b) (bparallel b)) in
           (r, mkBridge (mkHost (sworld s) (attrs h) (calls h)) (history s) (parallel s) (benv b) (bprocess b) (bruns b)).
Definition bstep (f : Bridge -> Bridge) : BIO unit := fun b => (Ok tt, f b).
(** [env::set_var]. *)
Definition set_var (key value : string) : BIO unit :=
  bstep (fun b => mkBridge (bhost b) (bhistory b) (bparallel b) (<[key := value]> (benv b)) (bprocess b) (bruns b)).

(** What the operating system decides about a fork, and what a role process does to
    the files. *)
Class Roles := {
  writer_lock_free : bool;
  handlers_installed : bool;
  forked : option (Image + Z -> list Waited);
  role_writes : Image -> gmap string string * (string -> Attr) -> gmap string string * (string -> Attr)
}.

(** A role that is ready to run. *)
Record PreparedRole := mkRole {
  r_cfg : RuntimeConfig; r_name : string; r_auth : LaunchAuthorization; r_access : RoleAccess;
  r_output : string; r_trace : string; r_roots : list string; r_exe : string; r_args : list string
}.
Definition r_uid (r : PreparedRole) : Z := role_runtime_uid (launch_role (r_auth r)) (r_access r).
Definition r_writer (r : PreparedRole) : bool := bool_decide (r_access r = WorkspaceWrite).
Definition supervisor_pid (r : PreparedRole) : string := path_join (agent_dir (r_cfg r) (r_name r)) "supervisor.pid".

Definition bridge_arguments (args : list string) : result string (string * bool) :=
  match args with
  | [name] => Ok (name, false)
  | [name; flag] => if String.eqb flag "--restore" then Ok (name, true) else Err "usage: multiagent role-agent-exec NAME [--restore]"
  | _ => Err "usage: multiagent role-agent-exec NAME [--restore]"
  end.
(** The access of an authorisation. *)
Definition authorized_access (auth : LaunchAuthorization) : result string RoleAccess :=
  if String.eqb (launch_access_ auth) "read-only" then Ok ReadOnly
  else if String.eqb (launch_access_ auth) "workspace-write" && String.eqb (launch_role auth) "worker" then Ok WorkspaceWrite
  else Err "role-agent-exec metadata has invalid role access".
Definition role_home (root_ role : string) (access : RoleAccess) : string :=
  push_path root_ (if String.eqb role "ops" then "ops" else if String.eqb role "reviewer" then "reviewer"
                   else if bool_decide (access = WorkspaceWrite) then "writer" else "reader").

Section Bridge.
Context `{Platform} `{Git} `{JsonCodec} `{JsonPretty} `{OpsEnv} `{Resolver} `{Externals} `{Processes} `{Clock} `{Kernel} `{Roles}.

Definition env_path (env : gmap string string) (key : string) : option string :=
  value ← or_else (env !! key) (env_var key); if is_empty value then None else Some value.

Definition secure_agent_write_roots (fs env : gmap string string) (owned_paths : list string) (output trace_dir : string) : list string :=
  let existing := List.filter (path_exists fs)
    (omap (env_path env) ["CODEX_HOME"; "GOCACHE"; "GOMODCACHE"; "CARGO_TARGET_DIR"; "TMPDIR"; "MULTIAGENT_ROLE_SHARED_WRITE_DIR"]
     ++ ["/dev/null"; "/dev/tty"]) in
  btree_list (list_to_set (owned_paths ++ [output; trace_dir] ++ existing) : gset string).

(** The lock of the single writer; it is held until the bridge ends. *)
Definition take_writer_lock (st name : string) : BIO unit :=
  let@ writer := bho (launch_requires_writer st name) in
  if writer then
    let lock := path_join st "launch-authorizations/.writer.lock" in
    let@ fs := bho store in
    let@ _ := (if is_some (fs !! lock) then bret tt
               else bho (let^ _ := io (put_file lock "" (io_error "open secure writer lock")) in own lock 438)) in
    bcheck writer_lock_free "another workspace writer is already active"
  else bret tt.

Definition set_role_home (role : string) (access : RoleAccess) : BIO unit :=
  match env_nonempty "MULTIAGENT_CODEX_HOME_ROOT" with
  | Some root_ =>
      let home := role_home root_ role access in
      let@ _ := set_var "HOME" home in
      let@ _ := set_var "CODEX_HOME" home in
      set_var "CLAUDE_CONFIG_DIR" (path_join home "claude")
  | None => bret tt
  end.

(** The checks of the authorisation and of the binary it names. *)
Definition check_agent (cfg : RuntimeConfig) (auth : LaunchAuthorization) : BIO RoleAccess :=
  let cli := launch_cli auth in
  let@ _ := blift (validate_cli cli) in
  let@ _ := bcheck (headless cfg cli) "role-agent-exec requires a headless coding-agent backend" in
  let@ configured_binary := blift (cli_bin cfg cli) in
  let@ _ := bcheck (String.eqb (launch_cli_bin auth) configured_binary)
              "authorized coding-agent binary does not match the launch manifest" in
  let@ access := blift (authorized_access auth) in
  let@ fs := bho store in
  let@ trusted_binary := blift (resolve_command_path fs configured_binary) in
  let@ _ := bho (validate_privileged_agent_binary trusted_binary) in
  let@ _ := set_var (binary_variable cli) trusted_binary in
  bret access.

Definition role_agent_prepare (args : list string) : BIO PreparedRole :=
  let@ (name, restored) := blift (bridge_arguments args) in
  let@ _ := blift (validate_name name) in
  let@ _ := bcheck uid_sandbox "role-agent-exec requires MULTIAGENT_UID_SANDBOX=1" in
  let@ p := (fun b => (Ok (bprocess b), b)) in
  let@ _ := bcheck (ruid p =? ORCHESTRATOR_UID) "role-agent-exec is reserved for the orchestrator UID" in
  let@ cfg := blift load_config in
  let st := cfg_state cfg in
  let@ _ := bho (validate_runtime_state st) in
  let@ _ := take_writer_lock st name in
  let@ auth := bho (claim_launch st name) in
  let@ access := check_agent cfg auth in
  let writer := bool_decide (access = WorkspaceWrite) in
  let prompt := launch_instruction auth in
  let@ fs := bho store in
  let@ instruction := blift (ok_or (fs !! prompt) ("role-agent-exec instruction is missing: " +:+ prompt)) in
  let@ _ := bwhen writer (bso (validate_implementation_context cfg name (Some prompt) instruction)) in
  let trace_dir := agent_trace cfg name in
  let@ _ := set_var "MULTIAGENT_ROLE_SHARED_WRITE_DIR" trace_dir in
  let@ fs := bho store in
  let resume := if restored && negb (bool_decide (env_var "MULTIAGENT_FORCE_FRESH_CONTEXT" = Some "1"))
                then native_resume_session fs trace_dir else None in
  let@ exe := blift (map_err (fun error => "resolve multiagent executable: " +:+ error) current_exe) in
  let uid := role_runtime_uid (launch_role auth) access in
  let@ _ := set_role_home (launch_role auth) access in
  let@ _ := bwhen writer (bho (prepare_workspace_write_boundary st (cfg_root cfg) (launch_owned_paths auth))) in
  let@ output := bho (prepare_private_output st name uid) in
  let runner_args := build_agent_runner_args (launch_cli auth) (cfg_root cfg) prompt output trace_dir access resume in
  let@ _ := bho (write_labelled (path_join (agent_dir cfg name) "supervisor.pid") (u64_to_string process_id +:+ newline) "role supervisor pid") in
  let@ _ := bho (prepare_role_output_paths output trace_dir uid) in
  let@ fs := bho store in
  let@ env := (fun b => (Ok (benv b), b)) in
  bret (mkRole cfg name auth access output trace_dir
          (secure_agent_write_roots fs env (launch_owned_paths auth) output trace_dir) exe runner_args).

(** The role process: what it becomes, what it does to the files, and what its
    supervisor reports. *)
Definition run_role (r : PreparedRole) (b : Bridge) : option (result string Z) * Bridge :=
  let h := bhost b in
  let w := hw h in
  let child := supervised_child (files w) (r_uid r) ROLE_GID (r_roots r) true (r_exe r) (r_args r) (bprocess b) in
  let answer := run_supervised handlers_installed forked (files w) (r_uid r) ROLE_GID (r_roots r) true (r_exe r) (r_args r) (bprocess b) in
  if negb handlers_installed || negb (is_some forked) then (answer, b)
  else
    let '(fs, at_) := match child with inl image => role_writes image (files w, attrs h) | inr _ => (files w, attrs h) end in
    (answer, mkBridge (mkHost (mkWorld fs (faults w) (ticks w) (stdout w)) at_ (calls h)) (bhistory b) (bparallel b) (benv b)
               (bprocess b) (bruns b ++ [child])).

Definition role_agent_finish (r : PreparedRole) (result_ : result string Z) : BIO Z :=
  let st := cfg_state (r_cfg r) in
  let@ _ := bho (attempt (remove_file (supervisor_pid r))) in
  let@ revoked := bho (attempt (if r_writer r then revoke_workspace_writes st (cfg_root (r_cfg r)) (launch_owned_paths (r_auth r)) else oret tt)) in
  let@ sealed := bho (attempt (seal_role_output st (r_name r) (launch_role (r_auth r)) (launch_workflow_id (r_auth r)) (r_output r)
                                 (path_join (agent_dir (r_cfg r) (r_name r)) "last-message.txt") (r_trace r))) in
  let@ _ := bho (finish_launch st (r_name r)) in
  let@ _ := blift revoked in
  let@ _ := blift sealed in
  blift result_.

(** [None]: the role is still running. *)
Definition role_agent_exec (args : list string) (b : Bridge) : option (result string Z) * Bridge :=
  match role_agent_prepare args b with
  | (Err e, b1) => (Some (Err e), b1)
  | (Ok r, b1) =>
      match run_role r b1 with
      | (None, b2) => (None, b2)
      | (Some answer, b2) => let '(final, b3) := role_agent_finish r answer b2 in (Some final, b3)
      end
  end.
End Bridge.
