(* ===== verification/RoleExecProps.v ===== *)
(** * RoleExecProps: the writer's paths and the bridge

    Handing a tree over and taking it back: every path beneath it, and no other,
    changes hands. A role that the bridge started has the identity, the authority and
    the write roots of its launch. *)

From S2P Require Import Prelude Text State Json LogModel Instances Config Execution ExecutionProps Dag Lifecycle Snapshot Findings Policy OpsBytes OpsRequest OpsHost Ops OpsFacts OpsPublishProps Launch LaunchProps SealProps Shell Agent Reports Session Spawn Privilege PrivilegeProps OpsHost RoleExec.

(** ** Specification *)

(** The paths of a tree: links are not followed. *)
Inductive beneath (fs : gmap string string) (at_ : string -> Attr) (top : string) : string -> Prop :=
| beneath_top : beneath fs at_ top top
| beneath_entry d name :
    beneath fs at_ top d -> is_link (at_ d) = false -> is_dir fs d = true -> name ∈ directory_entries fs d ->
    beneath fs at_ top (path_join d name).

(** A path that belongs to a user, writable by the user or by nobody. *)
Definition handed (uid : Z) (writable : bool) (a : Attr) : Prop :=
  owner a = uid /\ (is_link a = true \/ if writable then Z.land (mode a) 384 = 384 else Z.land (mode a) 146 = 0).

(** The paths of [S], and no other, have changed hands. *)
Record swept (uid : Z) (writable : bool) (S : string -> Prop) (h h' : Host) : Prop := {
  swept_files : files (hw h') = files (hw h);
  swept_links : forall q, is_link (attrs h' q) = is_link (attrs h q);
  swept_stable : forall q, handed uid writable (attrs h q) -> handed uid writable (attrs h' q);
  swept_all : forall q, S q -> handed uid writable (attrs h' q);
  swept_frame : forall q, ~ S q -> attrs h' q = attrs h q
}.

Lemma beneath_links fs a1 a2 top q :
  (forall q, is_link (a1 q) = is_link (a2 q)) -> beneath fs a1 top q -> beneath fs a2 top q.
Proof. intros E. induction 1; [constructor|]. constructor; auto. by rewrite <- E. Qed.

Lemma beneath_inv fs at_ top q :
  beneath fs at_ top q ->
  q = top \/ (is_link (at_ top) = false /\ is_dir fs top = true
              /\ exists name, name ∈ directory_entries fs top /\ beneath fs at_ (path_join top name) q).
Proof.
  induction 1 as [|d name Hd IH Hl Hdir Hn]; [by left|right].
  destruct IH as [->|(Ht & Htd & first & Hf & IH)].
  - split; [done|]. split; [done|]. exists name. split; [done|constructor].
  - split; [done|]. split; [done|]. exists first. split; [done|by constructor].
Qed.

Lemma beneath_cons fs at_ top name q :
  is_link (at_ top) = false -> is_dir fs top = true -> name ∈ directory_entries fs top ->
  beneath fs at_ (path_join top name) q -> beneath fs at_ top q.
Proof. intros Hl Hd Hn. induction 1; [|by constructor]. constructor; [constructor|done..]. Qed.

Lemma swept_refl uid w h : swept uid w (fun _ => False) h h.
Proof. by constructor. Qed.

Lemma swept_trans uid w S1 S2 h h1 h2 :
  swept uid w S1 h h1 -> swept uid w S2 h1 h2 -> swept uid w (fun q => S1 q \/ S2 q) h h2.
Proof.
  intros [F1 L1 K1 A1 N1] [F2 L2 K2 A2 N2]. constructor.
  - congruence.
  - intros q. by rewrite L2.
  - auto.
  - intros q [Hq|Hq]; auto.
  - intros q Hq. rewrite N2, N1 by tauto. done.
Qed.

Lemma swept_iff uid w S1 S2 h h' : (forall q, S1 q <-> S2 q) -> swept uid w S1 h h' -> swept uid w S2 h h'.
Proof. intros E [F L K A N]. constructor; auto; intros q Hq; [by apply A, E|apply N; by rewrite E]. Qed.

Lemma land_mode_bits m k mask : Z.land (Z.land (Z.lor m k) 4095) mask = Z.lor (Z.land m (Z.land 4095 mask)) (Z.land k (Z.land 4095 mask)).
Proof. by rewrite <- Z.land_assoc, Z.land_lor_distr_l. Qed.

Lemma unwritable_bits m k : Z.land k 146 = 0 -> Z.land (Z.land (Z.lor (Z.land m (Z.lnot 146)) k) 4095) 146 = 0.
Proof.
  intros E. rewrite land_mode_bits. change (Z.land 4095 146) with 146. by rewrite E, <- Z.land_assoc, Z.land_0_r.
Qed.

Lemma writable_bits m k : Z.land k 384 = 384 -> Z.land (Z.land (Z.lor m k) 4095) 384 = 384.
Proof.
  intros E. rewrite land_mode_bits. change (Z.land 4095 384) with 384. rewrite E. apply Z.bits_inj'. intros n Hn.
  rewrite Z.lor_spec, Z.land_spec. by destruct (Z.testbit m n), (Z.testbit 384 n).
Qed.

Lemma directory_mode_handed (writable : bool) m :
  if writable then Z.land (directory_mode writable m) 384 = 384 else Z.land (directory_mode writable m) 146 = 0.
Proof. destruct writable; [by apply writable_bits|by apply unwritable_bits]. Qed.

Lemma file_mode_handed (writable : bool) m :
  if writable then Z.land (file_mode writable m) 384 = 384 else Z.land (file_mode writable m) 146 = 0.
Proof. destruct writable; [by apply writable_bits|by apply unwritable_bits]. Qed.

Section Trees.
Context `{Platform} `{Git} `{JsonCodec} `{JsonPretty} `{OpsEnv} `{Resolver}.

(** An attribute call that succeeds changes one path. *)
Lemma set_attr_exact p f e h h' :
  set_attr p f e h = (Ok tt, h') ->
  files (hw h') = files (hw h) /\ attrs h' = (fun q => if String.eqb q p then f (attrs h q) else attrs h q).
Proof. unfold set_attr. destruct (faults (hw h)) as [|[] ?]; intros [= <-]; done. Qed.

Lemma change_owner_exact p uid h h' :
  change_owner p uid h = (Ok tt, h') ->
  files (hw h') = files (hw h) /\ attrs h' = (fun q => if String.eqb q p then chown uid (attrs h q) else attrs h q).
Proof. unfold change_owner. intros E. orun. by apply set_attr_exact in E. Qed.

Lemma each_swept {A} uid w (f : A -> OIO unit) (S : A -> string -> Prop) l h h' :
  (forall x h1 h2, x ∈ l -> files (hw h1) = files (hw h) -> (forall q, is_link (attrs h1 q) = is_link (attrs h q)) ->
                   f x h1 = (Ok tt, h2) -> swept uid w (S x) h1 h2) ->
  each f l h = (Ok tt, h') -> swept uid w (fun q => exists x, x ∈ l /\ S x q) h h'.
Proof.
  revert h. induction l as [|x l IH]; intros h Hf E; simpl in E.
  - apply oret_ok in E as [_ ->]. eapply swept_iff, swept_refl. intros q. split; [done|]. intros (y & Hy & _). by apply elem_of_nil in Hy.
  - apply obind_ok in E as ([] & h1 & E1 & E2).
    assert (S1 : swept uid w (S x) h h1) by (apply Hf; [left|..]; done).
    apply IH in E2; last first.
    { intros y h2 h3 Hy F L. apply Hf; [by right| |].
      - rewrite F. apply S1.
      - intros q. rewrite L. apply S1. }
    eapply swept_iff, swept_trans; [|exact S1|exact E2].
    intros q. setoid_rewrite elem_of_cons. naive_solver.
Qed.

(** The path itself. *)
Lemma node_swept uid (w : bool) top (f : Z -> Z) h h1 h2 e :
  (forall m, if w then Z.land (f m) 384 = 384 else Z.land (f m) 146 = 0) ->
  change_owner top uid h = (Ok tt, h1) -> set_attr top (chmod (f (mode (attrs h top)))) e h1 = (Ok tt, h2) ->
  swept uid w (fun q => q = top) h h2.
Proof.
  intros Hf [F1 A1]%change_owner_exact [F2 A2]%set_attr_exact.
  assert (K : handed uid w (attrs h2 top)).
  { rewrite A2, A1, !String.eqb_refl. split; [done|]. right. apply Hf. }
  constructor.
  - congruence.
  - intros q. rewrite A2, A1. by destruct (String.eqb q top).
  - intros q Hq. destruct (String.eqb_spec q top) as [->|N]; [done|]. rewrite A2, A1. apply String.eqb_neq in N. by rewrite !N.
  - by intros q ->.
  - intros q N%String.eqb_neq. by rewrite A2, A1, !N.
Qed.
Lemma link_swept uid w top h h1 :
  is_link (attrs h top) = true -> change_owner top uid h = (Ok tt, h1) -> swept uid w (fun q => q = top) h h1.
Proof.
  intros Hl [F1 A1]%change_owner_exact.
  assert (K : handed uid w (attrs h1 top)) by (rewrite A1, String.eqb_refl; split; [done|by left]).
  constructor.
  - congruence.
  - intros q. rewrite A1. by destruct (String.eqb q top).
  - intros q Hq. destruct (String.eqb_spec q top) as [->|N]; [done|]. rewrite A1. apply String.eqb_neq in N. by rewrite !N.
  - by intros q ->.
  - intros q N%String.eqb_neq. by rewrite A1, !N.
Qed.

Lemma beneath_leaf fs at_ top q :
  is_link (at_ top) = true \/ is_dir fs top = false -> beneath fs at_ top q <-> q = top.
Proof.
  intros Hl. split; [|intros ->; constructor]. intros [->|(Ht & Hd & _)]%beneath_inv; [done|]. destruct Hl; congruence.
Qed.

Lemma beneath_split fs at_ top q :
  is_link (at_ top) = false -> is_dir fs top = true ->
  beneath fs at_ top q <-> q = top \/ exists name, name ∈ directory_entries fs top /\ beneath fs at_ (path_join top name) q.
Proof.
  intros Hl Hd. split.
  - intros [->|(_ & _ & Hn)]%beneath_inv; auto.
  - intros [->|(name & Hn & Hq)]; [constructor|]. by apply beneath_cons with name.
Qed.

(** A tree that changed hands, whatever the fuel. *)
Lemma tree_swept n uid w top h h' :
  set_workspace_tree_owner n uid w top h = (Ok tt, h') ->
  swept uid w (beneath (files (hw h)) (attrs h) top) h h'.
Proof.
  revert top h h'. induction n as [|n IH]; intros top h h' E; [done|]. cbn [set_workspace_tree_owner] in E.
  apply obind_ok in E as (fs & h0 & [-> ->]%store_ok & E). apply obind_ok in E as (a & h0 & [-> ->]%attr_ok & E).
  apply obind_ok in E as ([] & h0 & [Hp ->]%ocheck_ok & E). apply obind_ok in E as ([] & h1 & Ec & E).
  destruct (is_link (attrs h top)) eqn:Hl.
  { apply oret_ok in E as [_ ->]. eapply swept_iff, link_swept; [|done..]. intros q. symmetry. apply beneath_leaf. auto. }
  destruct (is_dir (files (hw h)) top) eqn:Hd.
  - apply obind_ok in E as ([] & h2 & Em & E).
    assert (S1 : swept uid w (fun q => q = top) h h2).
    { eapply (node_swept uid w top (directory_mode w)); [apply directory_mode_handed|exact Ec|exact Em]. }
    eapply (each_swept uid w _ (fun name => beneath (files (hw h)) (attrs h) (path_join top name))) in E; last first.
    { intros name h3 h4 _ F L E3. apply IH in E3. eapply swept_iff, E3.
      assert (F' : files (hw h3) = files (hw h)) by (rewrite F; apply S1).
      assert (L' : forall q, is_link (attrs h3 q) = is_link (attrs h q)) by (intros q; rewrite L; apply S1).
      rewrite F'. intros q. split; apply beneath_links; auto. }
    eapply swept_iff, swept_trans; [|exact S1|exact E]. intros q. by rewrite beneath_split.
  - destruct (is_some (files (hw h) !! top)) eqn:Hs.
    + eapply swept_iff, (node_swept uid w top (file_mode w)); [|apply file_mode_handed|exact Ec|exact E].
      intros q. symmetry. apply beneath_leaf. auto.
    + unfold present in Hp. by rewrite Hs, Hd in Hp.
Qed.

Lemma set_tree_swept uid w top h h' :
  set_tree_owner top uid w h = (Ok tt, h') -> swept uid w (beneath (files (hw h)) (attrs h) top) h h'.
Proof. unfold set_tree_owner. intros E. orun. by apply tree_swept in E. Qed.

Lemma revoke_paths_swept root_ l h h' :
  each (revoke_path root_) l h = (Ok tt, h') ->
  swept 0 false
    (fun q => exists p, p ∈ l /\ strictly_inside p root_ = true /\ path_exists (files (hw h)) p = true
                        /\ beneath (files (hw h)) (attrs h) p q) h h'.
Proof.
  intros E. eapply each_swept, E. intros p h1 h2 _ F L Ep. unfold revoke_path in Ep.
  apply obind_ok in Ep as (fs & h3 & [-> ->]%store_ok & Ep). rewrite F in Ep.
  destruct (strictly_inside p root_) eqn:Es, (path_exists (files (hw h)) p) eqn:Ex; cbn [andb] in Ep;
    try (apply oret_ok in Ep as [_ ->]; eapply swept_iff, swept_refl; naive_solver).
  apply set_tree_swept in Ep. rewrite F in Ep. eapply swept_iff, Ep. intros q. split.
  - intros Hq. split_and!; [done..|]. eapply beneath_links, Hq. auto.
  - intros (_ & _ & Hq). eapply beneath_links, Hq. auto.
Qed.

Lemma grant_paths_swept root_ l h h' :
  each (grant_path root_) l h = (Ok tt, h') ->
  swept WRITER_UID true (fun q => exists p, p ∈ l /\ beneath (files (hw h)) (attrs h) p q) h h'
  /\ forall p, p ∈ l -> strictly_inside p root_ = true.
Proof.
  intros E. split.
  - eapply each_swept, E. intros p h1 h2 _ F L Ep. unfold grant_path in Ep.
    apply obind_ok in Ep as ([] & h3 & [Hs ->]%ocheck_ok & Ep). apply set_tree_swept in Ep. rewrite F in Ep.
    eapply swept_iff, Ep. intros q. split; apply beneath_links; auto.
  - revert h E. induction l as [|x l IH]; intros h E p Hp; [by apply elem_of_nil in Hp|]. simpl in E.
    apply obind_ok in E as ([] & h1 & E1 & E2). apply elem_of_cons in Hp as [->|Hp]; [|by eapply IH].
    unfold grant_path in E1. by apply obind_ok in E1 as ([] & h3 & [Hs ->]%ocheck_ok & _).
Qed.

Lemma write_labelled_exact path text label h h' :
  write_labelled path text label h = (Ok tt, h') ->
  files (hw h') = <[path := text]> (files (hw h)) /\ forall q, q <> path -> attrs h' q = attrs h q.
Proof.
  unfold write_labelled, io, atomic_write, put_file. destruct (faults (hw h)) as [|[] ?]; cbn; intros E; [|done|];
    (injection E as <-; split; [done|]; intros q N%String.eqb_neq; cbn; by rewrite N).
Qed.

(** C36: When [revoke_workspace_writes] succeeds, every path beneath an assigned path of
    the repository belongs to root and nobody may write it (a symbolic link itself has
    no mode), links are not followed, no other path has changed hands, and the ledger
    of the active writer is empty. *)
Theorem workspace_revoked st root_ owned_paths h h' :
  revoke_workspace_writes st root_ owned_paths h = (Ok tt, h') ->
  let taken q := exists p, p ∈ owned_paths /\ strictly_inside p root_ = true /\ path_exists (files (hw h)) p = true
                           /\ beneath (files (hw h)) (attrs h) p q in
  files (hw h') = <[writer_ledger st := ""]> (files (hw h))
  /\ forall q, q <> writer_ledger st ->
       (taken q -> owner (attrs h' q) = 0 /\ (is_link (attrs h' q) = true \/ Z.land (mode (attrs h' q)) 146 = 0))
       /\ (~ taken q -> attrs h' q = attrs h q).
Proof.
  unfold revoke_workspace_writes. intros E.
  apply obind_ok in E as ([] & h1 & E1 & E). apply obind_ok in E as ([] & h2 & E2 & E).
  apply revoke_paths_swept in E1. apply write_labelled_exact in E2 as [F2 A2]. apply set_attr_exact in E as [F3 A3].
  split; [by rewrite F3, F2, (swept_files _ _ _ _ _ E1)|]. intros q N.
  assert (Eq : attrs h' q = attrs h1 q) by (apply String.eqb_neq in N as N'; rewrite A3, N'; auto).
  rewrite Eq. split; intros Hq; [exact (swept_all _ _ _ _ _ E1 q Hq)|exact (swept_frame _ _ _ _ _ E1 q Hq)].
Qed.

(** What the writer's boundary checks. *)
Lemma workspace_boundary st root_ owned_paths h h' :
  prepare_workspace_write_boundary st root_ owned_paths h = (Ok tt, h') ->
  (exists authority, configured_in (files (hw h)) = Ok authority /\ permits_workspace_write authority root_ owned_paths = true)
  /\ (forall p, p ∈ owned_paths -> strictly_inside p root_ = true).
Proof.
  unfold prepare_workspace_write_boundary. intros E.
  apply obind_ok in E as (authority & h0 & E0 & E). unfold io in E0. rewrite configured_eq in E0.
  injection E0 as Ec <-. apply obind_ok in E as ([] & h1 & [Hp ->]%ocheck_ok & E).
  repeat (apply obind_ok in E as (? & ? & _ & E)). apply grant_paths_swept in E as [_ Hin]. eauto.
Qed.

(** When [prepare_workspace_write_boundary] succeeds, the authority of the session
    permits writing exactly the assigned paths, each lies strictly inside the
    repository, and every path beneath one of them belongs to the writer, who may read
    and write it; the only other paths that changed hands are those of the previous
    writer's ledger, which were taken back. *)
Theorem workspace_granted st root_ owned_paths h h' :
  prepare_workspace_write_boundary st root_ owned_paths h = (Ok tt, h') ->
  let fs := files (hw h) in
  let granted q := exists p, p ∈ owned_paths /\ beneath (files (hw h')) (attrs h') p q in
  let previous q := exists line p, fs !! writer_ledger st = Some line /\ p ∈ List.filter (fun line => negb (is_empty line)) (lines line)
                    /\ strictly_inside p root_ = true /\ path_exists fs p = true /\ beneath fs (attrs h) p q in
  (exists authority, configured_in fs = Ok authority /\ permits_workspace_write authority root_ owned_paths = true)
  /\ (forall p, p ∈ owned_paths -> strictly_inside p root_ = true)
  /\ files (hw h') = <[writer_ledger st := unlines owned_paths]> fs
  /\ forall q, q <> writer_ledger st ->
       (granted q -> owner (attrs h' q) = WRITER_UID /\ (is_link (attrs h' q) = true \/ Z.land (mode (attrs h' q)) 384 = 384))
       /\ (~ granted q -> previous q -> owner (attrs h' q) = 0)
       /\ (~ granted q -> ~ previous q -> attrs h' q = attrs h q).
Proof.
  unfold prepare_workspace_write_boundary. intros E.
  apply obind_ok in E as (authority & h0 & E0 & E). unfold io in E0. rewrite configured_eq in E0.
  injection E0 as Ec <-. apply obind_ok in E as ([] & h1 & [Hp ->]%ocheck_ok & E).
  apply obind_ok in E as (fs & h1 & [-> ->]%store_ok & E). apply obind_ok in E as ([] & h1 & E1 & E).
  apply obind_ok in E as ([] & h2 & E2 & E). apply obind_ok in E as ([] & h3 & E3 & E).
  apply revoke_paths_swept in E1. apply write_labelled_exact in E2 as [F2 A2]. apply set_attr_exact in E3 as [F3 A3].
  apply grant_paths_swept in E as [E Hin]. cbn [hw attrs files] in *.
  assert (FE : files (hw h') = files (hw h3)) by apply E. assert (F1 : files (hw h1) = files (hw h)) by apply E1.
  split; [eauto|]. split; [done|]. split; [congruence|]. intros q N.
  assert (Eq : attrs h3 q = attrs h1 q) by (apply String.eqb_neq in N as N'; rewrite A3, N'; auto).
  assert (G : (exists p, p ∈ owned_paths /\ beneath (files (hw h')) (attrs h') p q)
              <-> exists p, p ∈ owned_paths /\ beneath (files (hw h3)) (attrs h3) p q).
  { rewrite FE. split; intros (p & Hp' & Hq); exists p; (split; [done|]); (eapply beneath_links, Hq; intros; by rewrite (swept_links _ _ _ _ _ E)). }
  rewrite G. split; [exact (swept_all _ _ _ _ _ E q)|]. split; intros Hg Hq; rewrite (swept_frame _ _ _ _ _ E q Hg), Eq.
  - destruct Hq as (line & p & Hline & Hq). rewrite Hline in E1. apply (swept_all _ _ _ _ _ E1). by exists p.
  - apply (swept_frame _ _ _ _ _ E1). intros (p & Hin' & Hrest). apply Hq.
    destruct (files (hw h) !! writer_ledger st) as [line|]; [|by apply elem_of_nil in Hin']. by exists line, p.
Qed.
End Trees.

(** ** The walk ends

    Without failures of the system the walk of a tree returns: its fuel is enough. *)
Section Walk.
Context `{Platform} `{Git} `{JsonCodec} `{JsonPretty} `{OpsEnv} `{Resolver}.

Lemma split_once_inv c s a b : split_once c s = Some (a, b) -> s = a +:+ String c b.
Proof.
  revert a. induction s as [|x s IH]; intros a; simpl; [done|]. destruct (Ascii.eqb_spec x c) as [->|N].
  - by intros [= <- <-].
  - destruct (split_once c s) as [[a' b']|]; [|done]. intros [= <- <-]. simpl. f_equal. by apply IH.
Qed.

Lemma length_append s t : String.length (s +:+ t) = (String.length s + String.length t)%nat.
Proof. induction s; simpl; [done|]. by f_equal. Qed.

Definition longest (fs : gmap string string) : nat := foldr Nat.max 0%nat (map String.length (map_to_list fs).*1).
Lemma longest_key (fs : gmap string string) q t : fs !! q = Some t -> (String.length q <= longest fs)%nat.
Proof.
  intros E. unfold longest. assert (Hq : q ∈ (map_to_list fs).*1).
  { apply list_elem_of_fmap. exists (q, t). by rewrite elem_of_map_to_list. }
  revert Hq. generalize (map_to_list fs).*1. intros l. induction l as [|x l IH]; [by intros ?%elem_of_nil|].
  simpl. intros [->|Hq]%elem_of_cons; [lia|]. specialize (IH Hq). lia.
Qed.

Lemma is_dir_key fs d : is_dir fs d = true -> exists q t, fs !! q = Some t /\ exists r, q = d +:+ "/" +:+ r.
Proof.
  unfold is_dir. intros (q & Hq & Hs)%existsb_exists. apply list_elem_of_In, list_elem_of_fmap in Hq as ([q' t] & -> & Hq).
  apply elem_of_map_to_list in Hq. exists q', t. split; [done|]. apply starts_with_spec in Hs as [r Er]. exists r. cbn [fst] in Er. rewrite Er. by rewrite str_app_assoc.
Qed.
Lemma key_is_dir (fs : gmap string string) d r t : fs !! (d +:+ "/" +:+ r) = Some t -> is_dir fs d = true.
Proof.
  intros E. unfold is_dir. apply existsb_exists. exists (d +:+ "/" +:+ r). split.
  - apply list_elem_of_In, list_elem_of_fmap. exists (d +:+ "/" +:+ r, t). by rewrite elem_of_map_to_list.
  - apply starts_with_spec. exists r. by rewrite str_app_assoc.
Qed.

(** An entry of a directory is there. *)
Lemma entry_present fs d name :
  name ∈ directory_entries fs d ->
  name <> "" /\ present fs (path_join d name) = true
  /\ exists q t r, fs !! q = Some t /\ q = path_join d name +:+ r.
Proof.
  unfold directory_entries. intros Hn%btree_list_elem%elem_of_list_to_set.
  apply list_elem_of_omap in Hn as (q & Hq & Ho). apply list_elem_of_fmap in Hq as ([q' t] & Eq & Hq%elem_of_map_to_list). cbn [fst] in Eq. subst q.
  destruct (strip_prefix (d +:+ "/") q') as [rest|] eqn:Es; [|done]. apply strip_prefix_some in Es as ->. cbn in Ho.
  destruct (split_once "/" rest) as [[x y]|] eqn:Er.
  - destruct (is_empty x) eqn:Ex; [done|]. injection Ho as ->. apply split_once_inv in Er as ->. apply is_empty_false in Ex.
    split; [done|]. assert (E : (d +:+ "/") +:+ (name +:+ String "/" y) = path_join d name +:+ "/" +:+ y).
    { unfold path_join. by rewrite !str_app_assoc. }
    rewrite E in Hq. split; [|by eauto 6]. unfold present. rewrite (key_is_dir _ _ _ _ Hq). apply orb_true_r.
  - destruct (is_empty rest) eqn:Ex; [done|]. injection Ho as ->. apply is_empty_false in Ex. split; [done|].
    assert (E : (d +:+ "/") +:+ name = path_join d name) by (unfold path_join; by rewrite str_app_assoc).
    rewrite E in Hq. split; [unfold present; by rewrite Hq|]. exists (path_join d name), t, "". by rewrite str_app_nil_r.
Qed.

Lemma store_run h : store h = (Ok (files (hw h)), h).
Proof. by destruct h. Qed.
Lemma attr_run p h : attr p h = (Ok (attrs h p), h).
Proof. done. Qed.

Lemma set_attr_total p f e h : faults (hw h) = [] -> exists h', set_attr p f e h = (Ok tt, h') /\ faults (hw h') = [].
Proof. intros E. unfold set_attr. rewrite E. eauto. Qed.

Lemma change_owner_total p uid h :
  faults (hw h) = [] -> has_char (chr 0) p = false -> exists h', change_owner p uid h = (Ok tt, h') /\ faults (hw h') = [].
Proof. intros E Hp. unfold change_owner, obind, ocheck. rewrite Hp. by apply set_attr_total. Qed.

Definition no_nul (fs : gmap string string) : Prop := forall q t, fs !! q = Some t -> has_char (chr 0) q = false.

Lemma each_total {A} (f : A -> OIO unit) (I : Host -> Prop) l h :
  I h -> (forall x h1, x ∈ l -> I h1 -> exists h2, f x h1 = (Ok tt, h2) /\ I h2) ->
  exists h', each f l h = (Ok tt, h') /\ I h'.
Proof.
  revert h. induction l as [|x l IH]; intros h Hi Hf; [by exists h|].
  destruct (Hf x h) as (h1 & E1 & I1); [by left|done|]. cbn [each]. unfold obind. rewrite E1.
  apply IH; [done|]. intros y h2 Hy. apply Hf. by right.
Qed.

Lemma tree_total n uid w top h :
  faults (hw h) = [] -> no_nul (files (hw h)) -> has_char (chr 0) top = false ->
  is_link (attrs h top) || present (files (hw h)) top = true ->
  (1 <= n)%nat -> (longest (files (hw h)) < n + String.length top)%nat ->
  exists h', set_workspace_tree_owner n uid w top h = (Ok tt, h') /\ faults (hw h') = [].
Proof.
  revert top h. induction n as [|n IH]; intros top h Hf Hz Ht Hp Hn Hl; [lia|].
  cbn [set_workspace_tree_owner]. rewrite (obind_run _ _ _ _ _ (store_run h)), (obind_run _ _ _ _ _ (attr_run top h)).
  rewrite (ocheck_run _ _ _ h Hp).
  destruct (change_owner_total top uid h Hf Ht) as (h1 & E1 & Hf1). rewrite (obind_run _ _ _ _ _ E1).
  apply change_owner_exact in E1 as [F1 A1].
  destruct (is_link (attrs h top)) eqn:El; [by exists h1|].
  destruct (is_dir (files (hw h)) top) eqn:Ed.
  - destruct (set_attr_total top (chmod (directory_mode w (mode (attrs h top)))) (io_error "set workspace directory ownership mode") h1 Hf1)
      as (h2 & E2 & Hf2). rewrite (obind_run _ _ _ _ _ E2). apply set_attr_exact in E2 as [F2 A2].
    destruct (is_dir_key _ _ Ed) as (k & t & Hk & r & Er). apply longest_key in Hk. rewrite Er, !length_append in Hk. cbn [String.length] in Hk.
    edestruct (each_total (fun name => set_workspace_tree_owner n uid w (path_join top name))
                 (fun h3 => faults (hw h3) = [] /\ files (hw h3) = files (hw h)) (directory_entries (files (hw h)) top) h2)
      as (h3 & E3 & Hf3 & _); [split; congruence| |by exists h3].
    intros name h3 Hname [Hf3 F3]. apply entry_present in Hname as (Hne & Hpres & q & t' & r' & Hq & Eq).
    assert (Hlen : (1 <= String.length name)%nat) by (destruct name; [done|simpl; lia]).
    edestruct (IH (path_join top name) h3) as (h4 & E4 & Hf4); [done|by rewrite F3| |by rewrite F3, Hpres, orb_true_r|lia| |].
    + apply Hz in Hq. rewrite Eq, has_char_app in Hq. by apply orb_false_iff in Hq as [? _].
    + rewrite F3. unfold path_join. rewrite !length_append. cbn [String.length]. lia.
    + exists h4. split; [done|]. split; [done|]. apply tree_swept in E4. by rewrite (swept_files _ _ _ _ _ E4).
  - cbn in Hp. unfold present in Hp. rewrite Ed, orb_false_r in Hp. rewrite Hp. by apply set_attr_total.
Qed.

(** Handing over a tree that is there succeeds when no system call fails. *)
Theorem set_tree_owner_total uid w top h :
  faults (hw h) = [] -> no_nul (files (hw h)) -> has_char (chr 0) top = false ->
  is_link (attrs h top) || present (files (hw h)) top = true ->
  exists h', set_tree_owner top uid w h = (Ok tt, h') /\ swept uid w (beneath (files (hw h)) (attrs h) top) h h'.
Proof.
  intros Hf Hz Ht Hp. unfold set_tree_owner. rewrite (obind_run _ _ _ _ _ (store_run h)).
  destruct (tree_total (tree_depth (files (hw h))) uid w top h) as (h' & E & _); try done.
  - unfold tree_depth. lia.
  - change (tree_depth (files (hw h))) with (S (longest (files (hw h)))). lia.
  - exists h'. split; [done|]. by apply tree_swept in E.
Qed.
End Walk.

(** ** The bridge *)

Lemma app_snoc_self {A} (l : list A) x : l = l ++ [x] -> False.
Proof. intros E. apply (f_equal length) in E. rewrite length_app in E. simpl in E. lia. Qed.

(** A computation that neither forks nor changes its own process. *)
Definition still {A} (m : BIO A) : Prop := forall b, bruns (m b).2 = bruns b /\ bprocess (m b).2 = bprocess b.

Create HintDb still discriminated.

Lemma still_bind {A B} (m : BIO A) (k : A -> BIO B) : still m -> (forall a, still (k a)) -> still (bbind m k).
Proof.
  intros Hm Hk b. unfold bbind. specialize (Hm b). destruct (m b) as [[a|e] b']; [|done].
  destruct (Hk a b') as [-> ->]. exact Hm.
Qed.
Lemma still_ret {A} (a : A) : still (bret a).
Proof. done. Qed.
Lemma still_lift {A} (r : result string A) : still (blift r).
Proof. done. Qed.
Lemma still_check c e : still (bcheck c e).
Proof. by destruct c. Qed.
Lemma still_ho {A} (m : OIO A) : still (bho m).
Proof. intros b. unfold bho. by destruct (m (bhost b)). Qed.
Lemma still_so {A} (m : SIO A) : still (bso m).
Proof. intros b. unfold bso. by destruct (m _). Qed.
Lemma still_when c m : still m -> still (bwhen c m).
Proof. by destruct c. Qed.
Lemma still_set key value : still (set_var key value).
Proof. done. Qed.
Lemma still_read {A} (f : Bridge -> A) : still (fun b => (Ok (f b), b)).
Proof. done. Qed.
#[export] Hint Resolve still_ret still_lift still_check still_ho still_so still_set still_when still_read : still.

Ltac stills :=
  repeat first
    [ progress auto with still nocore
    | apply still_bind; [|intros ?]
    | match goal with
      | |- still (let '(_, _) := ?p in _) => destruct p
      | |- still (if ?c then _ else _) => destruct c
      | |- still (match ?c with _ => _ end) => destruct c
      end ].

(** Take apart a computation of the bridge that succeeded. *)
Lemma bbind_ok {A B} (m : BIO A) (k : A -> BIO B) b c b' :
  bbind m k b = (Ok c, b') -> exists a b1, m b = (Ok a, b1) /\ k a b1 = (Ok c, b').
Proof. unfold bbind. destruct (m b) as [[a|e] b1]; [|done]. eauto. Qed.
Lemma bcheck_ok c e b u b' : bcheck c e b = (Ok u, b') -> c = true /\ b' = b.
Proof. by destruct c; intros [= _ ->]. Qed.
Lemma blift_ok {A} (r : result string A) b a b' : blift r b = (Ok a, b') -> r = Ok a /\ b' = b.
Proof. by intros [= -> ->]. Qed.
Lemma bho_ok {A} (m : OIO A) b a b' : bho m b = (Ok a, b') -> exists h, m (bhost b) = (Ok a, h) /\ bhost b' = h.
Proof. unfold bho. destruct (m (bhost b)) as [r h]. intros [= -> <-]. eauto. Qed.

Section BridgeFacts.
Context `{Platform} `{Git} `{JsonCodec} `{JsonPretty} `{OpsEnv} `{Resolver} `{Externals} `{Processes} `{Clock} `{Kernel} `{!KernelLaws} `{Roles}.

Lemma still_lock st name : still (take_writer_lock st name).
Proof. unfold take_writer_lock. stills. Qed.
Lemma still_agent cfg auth : still (check_agent cfg auth).
Proof. unfold check_agent. stills. Qed.
Lemma still_home role access : still (set_role_home role access).
Proof. unfold set_role_home. stills. Qed.
#[local] Hint Resolve still_lock still_agent still_home : still.

Lemma still_prepare args : still (role_agent_prepare args).
Proof. unfold role_agent_prepare. stills. Qed.
Lemma still_finish r answer : still (role_agent_finish r answer).
Proof. unfold role_agent_finish. stills. Qed.

(** What the bridge has established when a role is ready to run. *)
Record Ready (b : Bridge) (args : list string) (r : PreparedRole) (b1 : Bridge) : Prop := {
  ready_caller : ruid (bprocess b) = ORCHESTRATOR_UID;
  ready_name : head args = Some (r_name r);
  ready_config : load_config = Ok (r_cfg r);
  ready_claim : exists h h', claim_launch (cfg_state (r_cfg r)) (r_name r) h = (Ok (r_auth r), h');
  ready_access : authorized_access (r_auth r) = Ok (r_access r);
  ready_binary : cli_bin (r_cfg r) (launch_cli (r_auth r)) = Ok (launch_cli_bin (r_auth r));
  ready_boundary : r_access r = WorkspaceWrite ->
    exists h h', prepare_workspace_write_boundary (cfg_state (r_cfg r)) (cfg_root (r_cfg r)) (launch_owned_paths (r_auth r)) h = (Ok tt, h');
  ready_output : exists h h', prepare_private_output (cfg_state (r_cfg r)) (r_name r) (r_uid r) h = (Ok (r_output r), h');
  ready_trace : r_trace r = agent_trace (r_cfg r) (r_name r);
  ready_roots : r_roots r = secure_agent_write_roots (files (hw (bhost b1))) (benv b1) (launch_owned_paths (r_auth r)) (r_output r) (r_trace r);
  ready_exe : current_exe = Ok (r_exe r)
}.

Lemma check_agent_ok cfg auth b access b1 :
  check_agent cfg auth b = (Ok access, b1) ->
  cli_bin cfg (launch_cli auth) = Ok (launch_cli_bin auth) /\ authorized_access auth = Ok access.
Proof.
  unfold check_agent. intros E.
  apply bbind_ok in E as ([] & b2 & [_ ->]%blift_ok & E). apply bbind_ok in E as ([] & b2 & [_ ->]%bcheck_ok & E).
  apply bbind_ok in E as (bin & b2 & [Eb ->]%blift_ok & E). apply bbind_ok in E as ([] & b2 & [->%String.eqb_eq ->]%bcheck_ok & E).
  apply bbind_ok in E as (a & b2 & [Ea ->]%blift_ok & E). repeat (apply bbind_ok in E as (? & ? & _ & E)).
  by injection E as <- _.
Qed.

Lemma bridge_arguments_head args name flag : bridge_arguments args = Ok (name, flag) -> head args = Some name.
Proof. unfold bridge_arguments. intros E. repeat case_match; simplify_eq; done. Qed.

Lemma prepare_ready args b r b1 : role_agent_prepare args b = (Ok r, b1) -> Ready b args r b1.
Proof.
  unfold role_agent_prepare. intros E.
  apply bbind_ok in E as ([name restored] & b2 & [Eargs ->]%blift_ok & E).
  apply bbind_ok in E as ([] & b2 & [_ ->]%blift_ok & E). apply bbind_ok in E as ([] & b2 & [_ ->]%bcheck_ok & E).
  apply bbind_ok in E as (p & b2 & Ep & E). injection Ep as <- <-.
  apply bbind_ok in E as ([] & b2 & [Euid%Z.eqb_eq ->]%bcheck_ok & E).
  apply bbind_ok in E as (cfg & b2 & [Ecfg ->]%blift_ok & E).
  apply bbind_ok in E as ([] & b2 & _ & E). apply bbind_ok in E as ([] & b3 & _ & E).
  apply bbind_ok in E as (auth & b4 & (h4 & Eauth & _)%bho_ok & E).
  apply bbind_ok in E as (access & b5 & [Ebin Eacc]%check_agent_ok & E).
  apply bbind_ok in E as (fs0 & b6 & _ & E). apply bbind_ok in E as (text & b7 & _ & E).
  apply bbind_ok in E as ([] & b8 & _ & E). apply bbind_ok in E as ([] & b9 & _ & E).
  apply bbind_ok in E as (fs1 & b10 & _ & E). apply bbind_ok in E as (exe & b11 & [Eexe ->]%blift_ok & E).
  apply bbind_ok in E as ([] & b12 & _ & E). apply bbind_ok in E as ([] & b13 & Eb & E).
  apply bbind_ok in E as (output & b14 & (h14 & Eo & _)%bho_ok & E).
  apply bbind_ok in E as ([] & b15 & _ & E). apply bbind_ok in E as ([] & b16 & _ & E).
  apply bbind_ok in E as (fs & b17 & Efs & E). apply bbind_ok in E as (env & b18 & Eenv & E).
  injection Eenv as <- <-. injection E as <- <-.
  assert (Efs' : fs = files (hw (bhost b17))).
  { unfold bho in Efs. rewrite store_run in Efs. by injection Efs as <- <-. }
  constructor; cbn [r_name r_cfg r_auth r_access r_output r_trace r_roots r_exe].
  - done.
  - by apply bridge_arguments_head with restored.
  - done.
  - eauto.
  - done.
  - done.
  - intros ->. rewrite bool_decide_eq_true_2 in Eb by done. apply bho_ok in Eb as (h & Eb & _). eauto.
  - unfold r_uid. cbn. eauto.
  - done.
  - by rewrite Efs'.
  - destruct current_exe; cbn in Eexe; congruence.
Qed.

(** The process that a bridge forked. *)
Lemma exec_child args b answer b' c :
  role_agent_exec args b = (answer, b') -> bruns b' = bruns b ++ [c] ->
  exists r b1, Ready b args r b1 /\ bprocess b1 = bprocess b
    /\ c = supervised_child (files (hw (bhost b1))) (r_uid r) ROLE_GID (r_roots r) true (r_exe r) (r_args r) (bprocess b1).
Proof.
  unfold role_agent_exec. intros E Er. destruct (role_agent_prepare args b) as [[r|e] b1] eqn:Ep;
    pose proof (still_prepare args b) as [S1 S2]; rewrite Ep in S1, S2; cbn in S1, S2; last first.
  { injection E as _ <-. rewrite S1 in Er. by apply app_snoc_self in Er. }
  exists r, b1. split; [by apply prepare_ready|]. split; [done|].
  set (child := supervised_child _ _ _ _ _ _ _ _).
  assert (Ec : forall a b2, run_role r b1 = (a, b2) -> bruns b2 = bruns b1 \/ bruns b2 = bruns b1 ++ [child]).
  { intros a b2. unfold run_role. destruct (negb handlers_installed || _); [intros [= _ <-]; by left|].
    fold child. destruct (match child with inl _ => _ | inr _ => _ end). intros [= _ <-]. by right. }
  destruct (run_role r b1) as [a b2] eqn:Erun. specialize (Ec a b2 eq_refl). rewrite S1 in Ec.
  assert (bruns b' = bruns b2) as Ef.
  { destruct a as [a|]; [|by injection E as _ <-]. destruct (role_agent_finish r a b2) as [f b3] eqn:Ef.
    injection E as _ <-. pose proof (still_finish r a b2) as [S3 _]. by rewrite Ef in S3. }
  rewrite Ef in Er. destruct Ec as [Ec|Ec]; rewrite Ec in Er; [by apply app_snoc_self in Er|].
  apply app_inv_head in Er. by injection Er.
Qed.

(** The roots below which a role may write: its assigned paths, its output and trace,
    the directories its environment names, and the devices. *)
Definition role_root (env : gmap string string) (r : PreparedRole) (path : string) : Prop :=
  path ∈ launch_owned_paths (r_auth r) \/ path = r_output r \/ path = agent_trace (r_cfg r) (r_name r)
  \/ (exists key, key ∈ ["CODEX_HOME"; "GOCACHE"; "GOMODCACHE"; "CARGO_TARGET_DIR"; "TMPDIR"; "MULTIAGENT_ROLE_SHARED_WRITE_DIR"]
                  /\ env_path env key = Some path)
  \/ path ∈ ["/dev/null"; "/dev/tty"].

Lemma secure_roots fs env owned output trace_dir path :
  path ∈ secure_agent_write_roots fs env owned output trace_dir ->
  path ∈ owned \/ path = output \/ path = trace_dir
  \/ (exists key, key ∈ ["CODEX_HOME"; "GOCACHE"; "GOMODCACHE"; "CARGO_TARGET_DIR"; "TMPDIR"; "MULTIAGENT_ROLE_SHARED_WRITE_DIR"]
                  /\ env_path env key = Some path)
  \/ path ∈ ["/dev/null"; "/dev/tty"].
Proof.
  unfold secure_agent_write_roots. rewrite btree_list_elem, elem_of_list_to_set, !elem_of_app.
  intros [?|[Hp|Hp]]; [by left|..].
  - rewrite !elem_of_cons, elem_of_nil in Hp. tauto.
  - right. right. right. apply list_elem_of_In, filter_In in Hp as [Hp _]. apply list_elem_of_In, elem_of_app in Hp as [Hp|Hp].
    + left. by apply list_elem_of_omap in Hp.
    + by right.
Qed.

Lemma role_uid_known role access :
  role_runtime_uid role access ∈ [WRITER_UID; READER_UID; OPS_UID; REVIEWER_UID]
  /\ (role_runtime_uid role access = WRITER_UID -> access = WorkspaceWrite).
Proof.
  unfold role_runtime_uid. rewrite !elem_of_cons.
  destruct (String.eqb role "ops"), (String.eqb role "reviewer"), access; cbn; split; auto; discriminate.
Qed.

Lemma authorized_writer auth :
  authorized_access auth = Ok WorkspaceWrite -> launch_role auth = "worker" /\ launch_access_ auth = "workspace-write".
Proof.
  unfold authorized_access. destruct (String.eqb (launch_access_ auth) "read-only"); [done|].
  destruct (String.eqb_spec (launch_access_ auth) "workspace-write"), (String.eqb_spec (launch_role auth) "worker"); done.
Qed.

End BridgeFacts.

(** ** A writer that the bridge starts, and its paths before and after *)
Module RoleExecWitness.

Definition vars (k : string) : option string :=
  snd <$> List.find (fun kv => String.eqb kv.1 k)
    [("MULTIAGENT_STATE_DIR", "/state"); ("MULTIAGENT_ROOT", "/repo"); ("MULTIAGENT_LOG_DIR", "/logs");
     ("MULTIAGENT_UID_SANDBOX", "1"); ("MULTIAGENT_AGENT_HEADLESS", "1"); ("CODEX_BIN", "/bin/codex");
     ("MULTIAGENT_CODEX_HOME_ROOT", "/homes")].
#[local] Instance platform : Platform := toy_platform vars 0.
#[local] Instance no_git : Git := fun _ _ => Ok (mkOutput (Some 0) "" "").
#[local] Instance resolver : Resolver := fun _ p => if is_absolute p then Some p else None.
#[local] Instance env : OpsEnv := {|
  utc_now n := Z.of_nat n; system_nanos n := Some (Z.of_nat n); rfc3339_millis := u64_to_string;
  parse_from_rfc3339 := parse_u64; process_id := 7; umask := 18; between store := store
|}.
#[local] Instance outside : Externals := fun _ _ fs => (Ok (mkOutput (Some 0) "" ""), fs).
#[local] Instance processes : Processes := {|
  is_executable _ p := starts_with "/bin/" p; current_exe := Ok "/bin/multiagent"; build_root := "/framework"; alive _ _ := false
|}.
#[local] Instance clock : Clock := {|
  deadline_after n _ := Some (Z.of_nat n); instant_at n := Z.of_nat n; f64_display _ := ""; patience := 1%nat
|}.
#[local] Existing Instances PrivilegeWitness.kernel PrivilegeWitness.kernel_laws.
(** The writer edits a file and leaves its report. *)
#[local] Instance roles : Roles := {|
  writer_lock_free := true; handlers_installed := true;
  forked := Some (fun c => [WaitInterrupted; WaitedChild (match c with inl _ => 0 | inr code => exit_status code end)]);
  role_writes _ store := (<["/repo/src/a.rs" := "fn b() {}"]> (<["/state/role-io/w/final-message.7.txt" := "done"]> store.1), store.2)
|}.

Definition launch : string := launch_text "w" "worker" "workspace-write" "" "codex" "/bin/codex" "edit a.rs" "" None.
Definition disk : gmap string string :=
  list_to_map
    [("/repo/src/a.rs", "fn a() {}"); ("/repo/src/deep/b.rs", ""); ("/repo/notes", ""); ("/bin/codex", "");
     ("/state/launch-authorizations/w/launch.env", launch); ("/state/launch-authorizations/w/instruction.txt", "edit a.rs");
     ("/state/assignments/w/owned-paths", unlines ["src"]); (AUTHORITY_REGISTRY, "/state" +:+ newline)].
Definition bridge : Bridge :=
  mkBridge (mkHost (mkWorld disk [] 0 []) (fun p => mkAttr 0 (if String.eqb p AUTHORITY_REGISTRY then 384 else 493) false) [])
    [] None ∅ (PrivilegeWitness.started ORCHESTRATOR_UID) [].
Definition ran : option (result string Z) * Bridge := role_agent_exec ["w"] bridge.
Definition writer_image : option Image := match bruns ran.2 with [inl image] => Some image | _ => None end.

(** The role runs, its edit stays, its paths are root's again, and the launch is
    completed. *)
Example writer_runs :
  ran.1 = Some (Ok 0)
  /\ files (hw (bhost ran.2)) !! "/repo/src/a.rs" = Some "fn b() {}"
  /\ (owner (attrs (bhost ran.2) "/repo/src/a.rs"), mode (attrs (bhost ran.2) "/repo/src/a.rs")) = (0, 365)
  /\ (entry_is (parse_env (unwrap_or (files (hw (bhost ran.2)) !! "/state/launch-authorizations/w/launch.env") "")) "state" "completed") = true
  /\ is_some writer_image = true.
Proof. vm_compute. repeat split. Qed.
(** The launch cannot be taken again. *)
Example launch_consumed :
  (role_agent_exec ["w"] ran.2).1 = Some (Err "launch authorization is missing or already consumed: w").
Proof. vm_compute. reflexivity. Qed.

(** A launch whose binary is refused is claimed all the same, and lost: it stays
    running, and neither a claim nor a renewal accepts it. *)
Definition loose : Bridge :=
  mkBridge (mkHost (mkWorld disk [] 0 [])
              (fun p => mkAttr 0 (if String.eqb p AUTHORITY_REGISTRY then 384 else if String.eqb p "/bin/codex" then 509 else 493) false) [])
    [] None ∅ (PrivilegeWitness.started ORCHESTRATOR_UID) [].
Definition refused : option (result string Z) * Bridge := role_agent_exec ["w"] loose.
Example claim_lost :
  refused.1 = Some (Err "privileged coding-agent binary must be a root-owned, non-group-writable executable: /bin/codex")
  /\ (role_agent_exec ["w"] (mkBridge (mkHost (hw (bhost refused.2)) (attrs (bhost bridge)) []) [] None ∅ (bprocess bridge) [])).1
     = Some (Err "launch authorization is missing or already consumed: w")
  /\ (check_renewal true false (launch_directory "/state" "w") "w" "worker" "workspace-write" "codex" "/bin/codex" None (bhost refused.2)).1
     = Err "launch authorization is not renewable: w".
Proof. vm_compute. repeat split. Qed.


Lemma run_ok {A} (x : result string unit * A) : x.1 = Ok tt -> x = (Ok tt, x.2).
Proof. destruct x. simpl. congruence. Qed.

Definition granted : Host := (prepare_workspace_write_boundary "/state" "/repo" ["/repo/src"] (bhost bridge)).2.
Lemma workspace_granted_witness :
  strictly_inside "/repo/src" "/repo" = true /\ owner (attrs granted "/repo/src") = WRITER_UID
  /\ attrs granted "/repo/notes" = attrs (bhost bridge) "/repo/notes".
Proof.
  assert (E : prepare_workspace_write_boundary "/state" "/repo" ["/repo/src"] (bhost bridge) = (Ok tt, granted))
    by (unfold granted; apply run_ok; vm_compute; reflexivity).
  destruct (workspace_granted _ _ _ _ _ E) as (_ & Hin & _ & Hq). split; [apply Hin; by left|]. split.
  - apply (proj1 (Hq "/repo/src" ltac:(vm_compute; discriminate))). exists "/repo/src". split; [by left|constructor].
  - vm_compute. reflexivity.
Defined.

Definition revoked : Host := (revoke_workspace_writes "/state" "/repo" ["/repo/src"] granted).2.
Lemma workspace_revoked_witness :
  owner (attrs revoked "/repo/src") = 0 /\ Z.land (mode (attrs revoked "/repo/src/deep/b.rs")) 146 = 0.
Proof.
  assert (E : revoke_workspace_writes "/state" "/repo" ["/repo/src"] granted = (Ok tt, revoked))
    by (unfold revoked; apply run_ok; vm_compute; reflexivity).
  destruct (workspace_revoked _ _ _ _ _ E) as (_ & Hq). split.
  - apply (proj1 (Hq "/repo/src" ltac:(vm_compute; discriminate))). exists "/repo/src".
    split; [by left|]. split; [vm_compute; reflexivity|]. split; [vm_compute; reflexivity|constructor].
  - vm_compute. reflexivity.
Defined.
End RoleExecWitness.
