(* ===== verification/SessionControl.v ===== *)
(** * SessionControl: [runtime/src/session_control.rs]

    The control account looks at a session, types into it or stops it: the setuid
    binary checks the session, the multiplexer and its socket, becomes the
    orchestrator and runs the multiplexer. Every run of the multiplexer is the
    orchestrator's, on the orchestrator's own socket of the named session, with one
    of the commands of the interface. *)

From S2P Require Import Prelude Text State Json LogModel Instances Config Execution Dag Lifecycle Snapshot Findings Policy OpsBytes OpsRequest OpsHost Ops Launch Shell Agent Reports Privilege PrivilegeProps OpsHost RoleExec.

Definition STATE_ROOT : string := "/var/lib/multiagent/state".
Definition TMUX_BIN : string := "/usr/bin/tmux".
Definition MAX_INPUT_BYTES : Z := 32768.

(** A run of the multiplexer: who ran it, with which arguments and input. *)
Record TmuxRun := mkTmux { tmux_process : Process; tmux_args : list string; tmux_input : string }.
Record Control := mkControl { cprocess : Process; cruns : list TmuxRun }.

(** Metadata of a path: [is_file], [is_socket], user, group and mode. *)
Record Meta := mkMeta { meta_file : bool; meta_socket : bool; meta_uid : Z; meta_gid : Z; meta_mode : Z }.
(** How loading the input can fail before the multiplexer has ended. *)
Inductive LoadFailure : Type := NotStarted | NoPipe | NotWritten | NotWaited.
Class ControlEnv := {
  path_metadata : string -> option Meta;             (* [fs::metadata] *)
  link_metadata : string -> option Meta;             (* [fs::symlink_metadata] *)
  state_files : gmap string string;
  read_stdin : Z -> result string string;            (* [take(n).read_to_string] *)
  tmux_status : list TmuxRun -> TmuxRun -> result string (option Z);
  tmux_load : list TmuxRun -> TmuxRun -> LoadFailure + option Z
}.

Definition CONTROL_USAGE : string := "usage: multiagent session-control SESSION status|capture LINES|submit|stop".

Definition session_char (c : ascii) : bool := is_ascii_lowercase c || is_ascii_digit c.
Definition validate_session_id (session : string) : result string unit :=
  guard (match session with
         | String c _ => (len session <=? 63) && session_char c && all_chars (fun c => session_char c || Ascii.eqb c "-") session
         | EmptyString => false
         end) "invalid session id".

Definition parse_capture_lines (value : string) : result string Z :=
  let? n := ok_or (parse_u64 value) "capture lines must be an integer" in
  let? _ := guard ((1 <=? n) && (n <=? 5000)) "capture lines must be between 1 and 5000" in
  Ok n.

Definition status_code (code : option Z) : Z :=
  match code with
  | Some code => if (0 <=? code) && (code <=? 255) then code else 1
  | None => 1
  end.

Definition socket_of (state_root session : string) : string :=
  path_join (path_join (path_join state_root "sessions") session) "runtime_state/tmux.sock".
Definition orchestrator_target (session : string) : string := session +:+ ":orchestrator".

Definition CIO (A : Type) : Type := Control -> result string A * Control.
Definition cret {A} (a : A) : CIO A := fun c => (Ok a, c).
Definition cbind {A B} (m : CIO A) (k : A -> CIO B) : CIO B :=
  fun c => match m c with
           | (Ok a, c') => k a c'
           | (Err e, c') => (Err e, c')
           end.
Notation "'let~' x ':=' m 'in' k" := (cbind m (fun x => k))
  (at level 10, x pattern, m at level 100, k at level 200) : io_scope.
Definition clift {A} (r : result string A) : CIO A := fun c => (r, c).
Definition ccheck (b : bool) (e : string) : CIO unit := clift (guard b e).

Section SessionControl.
Context `{Platform} `{Kernel} `{Resolver} `{ControlEnv}.

Definition canonical_state_root : result string string :=
  let? configured := ok_or (env_var "MULTIAGENT_STATE_DIR") "session-control requires MULTIAGENT_STATE_DIR" in
  let? canonical := ok_or (resolve state_files configured) (io_error "resolve session-control state root") in
  let? _ := guard (same_path canonical STATE_ROOT) ("session-control state root must be " +:+ STATE_ROOT) in
  Ok canonical.

Definition validate_tmux_binary : result string unit :=
  let? m := ok_or (path_metadata TMUX_BIN) (io_error "inspect trusted tmux binary") in
  guard (meta_file m && (meta_uid m =? 0) && (Z.land (meta_mode m) 18 =? 0)) "trusted tmux binary must be root-owned and non-writable".

Definition validate_socket (socket : string) : result string unit :=
  let? m := ok_or (link_metadata socket) (io_error "inspect orchestrator tmux socket") in
  guard (meta_socket m && (meta_uid m =? ORCHESTRATOR_UID) && (meta_gid m =? ROLE_GID) && (Z.land (meta_mode m) 2 =? 0))
    "orchestrator tmux socket has invalid ownership or permissions".

Definition drop_to_orchestrator : CIO unit :=
  fun c => let '(r, p) := pmap_err (fun error => "drop to orchestrator identity: " +:+ error)
                            (apply_identity (mkIdentity ORCHESTRATOR_UID ROLE_GID [])) (cprocess c) in
           (r, mkControl p (cruns c)).

(** A run of the multiplexer, recorded. *)
Definition add_run (run : TmuxRun) (c : Control) : Control := mkControl (cprocess c) (cruns c ++ [run]).
Definition tmux_code (socket : string) (args : list string) (message : string) : CIO (option Z) :=
  fun c => let run := mkTmux (cprocess c) ("-S" :: socket :: args) "" in
           (map_err (fun error => message +:+ error) (tmux_status (cruns c) run), add_run run c).
Definition run_tmux (socket : string) (args : list string) : CIO Z :=
  let~ code := tmux_code socket args "run trusted tmux operation: " in cret (status_code code).

Definition load_error (f : LoadFailure) : string :=
  match f with
  | NotStarted => "start trusted tmux input load: " +:+ os_error
  | NoPipe => "trusted tmux input pipe is unavailable"
  | NotWritten => "write trusted tmux input: " +:+ os_error
  | NotWaited => "wait for trusted tmux input load: " +:+ os_error
  end.
Definition load_input (socket input : string) : CIO (option Z) :=
  fun c => let run := mkTmux (cprocess c) ["-S"; socket; "load-buffer"; "-"] input in
           (match tmux_load (cruns c) run with inl f => Err (load_error f) | inr code => Ok code end, add_run run c).
Definition exited_ok (code : option Z) : bool := bool_decide (code = Some 0).

Definition submit (socket session input : string) : CIO Z :=
  let~ loaded := load_input socket input in
  if negb (exited_ok loaded) then cret (status_code loaded)
  else
    let target := orchestrator_target session in
    let~ pasted := tmux_code socket ["paste-buffer"; "-d"; "-t"; target] "paste trusted tmux input: " in
    if negb (exited_ok pasted) then cret (status_code pasted)
    else run_tmux socket ["send-keys"; "-t"; target; "C-m"].

(** What is asked of a session, checked before the privilege is dropped. *)
Inductive Action : Type := Status | Capture (count : Z) | Submit (input : string) | Stop.
Definition submitted_input : result string string :=
  let? input := map_err (fun error => "read submitted session input: " +:+ error) (read_stdin (MAX_INPUT_BYTES + 1)) in
  let? _ := guard (negb (is_empty input || (MAX_INPUT_BYTES <? len input))) "submitted session input must contain 1 to 32768 bytes" in
  Ok input.
Definition parse_action (args : list string) : result string Action :=
  match args with
  | [_; action] =>
      if String.eqb action "status" then Ok Status
      else if String.eqb action "stop" then Ok Stop
      else if String.eqb action "submit" then let? input := submitted_input in Ok (Submit input)
      else Err CONTROL_USAGE
  | [_; action; count] =>
      if String.eqb action "capture" then let? n := parse_capture_lines count in Ok (Capture n) else Err CONTROL_USAGE
  | _ => Err CONTROL_USAGE
  end.
Definition perform (socket session : string) (a : Action) : CIO Z :=
  let target := orchestrator_target session in
  match a with
  | Status => run_tmux socket ["has-session"; "-t"; target]
  | Capture n => run_tmux socket ["capture-pane"; "-p"; "-J"; "-S"; "-" +:+ u64_to_string n; "-t"; target]
  | Submit input => submit socket session input
  | Stop => run_tmux socket ["kill-session"; "-t"; session]
  end.

Definition session_control (args : list string) : CIO Z :=
  let~ p := (fun c => (Ok (cprocess c), c)) in
  let~ _ := ccheck ((ruid p =? CONTROL_UID) && (euid p =? 0))
              "session-control requires the trusted control UID through the setuid launcher" in
  let~ _ := ccheck (bool_decide (env_var "MULTIAGENT_UID_SANDBOX" = Some "1")) "session-control requires MULTIAGENT_UID_SANDBOX=1" in
  let~ session := clift (ok_or (args !! 0%nat) CONTROL_USAGE) in
  let~ action := clift (ok_or (args !! 1%nat) CONTROL_USAGE) in
  let~ _ := clift (validate_session_id session) in
  let~ _ := clift validate_tmux_binary in
  let~ state_root := clift canonical_state_root in
  let socket := socket_of state_root session in
  if String.eqb action "status" && negb (is_some (path_metadata socket)) then cret 1
  else
    let~ _ := clift (validate_socket socket) in
    let~ a := clift (parse_action args) in
    let~ _ := drop_to_orchestrator in
    perform socket session a.
End SessionControl.

(** ** Specification: the commands of the interface *)
Definition permitted (socket session : string) (run : TmuxRun) : Prop :=
  exists command, tmux_args run = "-S" :: socket :: command
  /\ (command = ["has-session"; "-t"; orchestrator_target session]
      \/ (exists n, 1 <= n <= 5000 /\ command = ["capture-pane"; "-p"; "-J"; "-S"; "-" +:+ u64_to_string n; "-t"; orchestrator_target session])
      \/ command = ["load-buffer"; "-"] /\ 1 <= len (tmux_input run) <= 32768
      \/ command = ["paste-buffer"; "-d"; "-t"; orchestrator_target session]
      \/ command = ["send-keys"; "-t"; orchestrator_target session; "C-m"]
      \/ command = ["kill-session"; "-t"; session]).

Section Control.
Context `{Platform} `{Kernel} `{!KernelLaws} `{Resolver} `{ControlEnv}.

Lemma cbind_lift {A B} (r : result string A) (f : A -> CIO B) c :
  cbind (clift r) f c = match r with Ok a => f a c | Err e => (Err e, c) end.
Proof. by destruct r. Qed.
Lemma cbind_read {A B} (g : Control -> A) (f : A -> CIO B) c : cbind (fun c => (Ok (g c), c)) f c = f (g c) c.
Proof. done. Qed.

(** The runs a computation adds: by the process it has, at most [n] of them. *)
Definition adds_runs {A} (P : TmuxRun -> Prop) (n : nat) (m : CIO A) : Prop :=
  forall c, exists runs, cruns (m c).2 = cruns c ++ runs /\ cprocess (m c).2 = cprocess c /\ (length runs <= n)%nat
            /\ Forall (fun run => tmux_process run = cprocess c /\ P run) runs.

Lemma runs_ret {A} P n (a : A) : adds_runs P n (cret a).
Proof. intros c. exists []. rewrite app_nil_r. repeat split; [simpl; lia|constructor]. Qed.

Lemma runs_bind {A B} P n k (m : CIO A) (f : A -> CIO B) :
  adds_runs P n m -> (forall a, adds_runs P k (f a)) -> adds_runs P (n + k) (cbind m f).
Proof.
  intros Hm Hf c. destruct (Hm c) as (l & E & Ep & Hl & Hr). unfold cbind. destruct (m c) as [[a|e] c1]; cbn in E, Ep.
  - destruct (Hf a c1) as (l' & E' & Ep' & Hl' & Hr'). exists (l ++ l'). rewrite E', E, Ep', Ep, app_assoc, length_app.
    split_and!; [done|done|lia|]. apply Forall_app. split; [done|]. by rewrite Ep in Hr'.
  - exists l. split_and!; [done..|simpl; lia|done].
Qed.

Lemma runs_one {A} (P : TmuxRun -> Prop) (m : CIO A) (run : Control -> TmuxRun) :
  (forall c, (m c).2 = add_run (run c) c) -> (forall c, tmux_process (run c) = cprocess c /\ P (run c)) -> adds_runs P 1 m.
Proof.
  intros E Hp c. exists [run c]. rewrite E. unfold add_run. cbn. split_and!; [done..|]. by apply Forall_singleton.
Qed.

Lemma adds_tmux_code P socket args message :
  (forall p, P (mkTmux p ("-S" :: socket :: args) "")) -> adds_runs P 1 (tmux_code socket args message).
Proof. intros Hp. eapply runs_one; [done|]. done. Qed.
Lemma adds_run_tmux P socket args :
  (forall p, P (mkTmux p ("-S" :: socket :: args) "")) -> adds_runs P 1 (run_tmux socket args).
Proof. intros Hp. apply (runs_bind _ 1 0); [by apply adds_tmux_code|]. intros a. apply runs_ret. Qed.

Lemma adds_more {A} P n k (m : CIO A) : (n <= k)%nat -> adds_runs P n m -> adds_runs P k m.
Proof. intros Hn Hm c. destruct (Hm c) as (l & ? & ? & ? & ?). exists l. split_and!; [done..|lia|done]. Qed.

Lemma adds_submit socket session input :
  1 <= len input <= 32768 -> adds_runs (permitted socket session) 3 (submit socket session input).
Proof.
  intros Hi. apply (runs_bind _ 1 2).
  - eapply runs_one; [done|]. intros c. split; [done|]. exists ["load-buffer"; "-"]. naive_solver.
  - intros loaded. destruct (exited_ok loaded); [|apply runs_ret]. apply (runs_bind _ 1 1).
    + apply adds_tmux_code. intros p. eexists. split; [done|]. naive_solver.
    + intros pasted. destruct (exited_ok pasted); [|apply runs_ret].
      apply adds_run_tmux. intros p. eexists. split; [done|]. naive_solver.
Qed.

(** What a parsed action holds. *)
Definition sound_action (a : Action) : Prop :=
  match a with
  | Capture n => 1 <= n <= 5000
  | Submit input => 1 <= len input <= 32768
  | Status | Stop => True
  end.
Lemma submitted_input_bounds input : submitted_input = Ok input -> 1 <= len input <= 32768.
Proof.
  unfold submitted_input. intros (text & _ & E)%rbind_ok. apply rbind_ok in E as ([] & Hg%guard_ok & E). injection E as ->.
  apply negb_true_iff, orb_false_iff in Hg as [He%is_empty_false Hl%Z.ltb_ge]. unfold MAX_INPUT_BYTES in Hl.
  destruct input; [done|]. unfold len in *. cbn [String.length] in *. lia.
Qed.
Lemma parse_action_sound args a : parse_action args = Ok a -> sound_action a.
Proof.
  unfold parse_action. intros E. repeat case_match; try done; simplify_eq; try done.
  - apply rbind_ok in E as (input & Hi%submitted_input_bounds & E). by injection E as <-.
  - apply rbind_ok in E as (n & Hn & E). injection E as <-. unfold parse_capture_lines in Hn.
    apply rbind_ok in Hn as (k & _ & Hn). apply rbind_ok in Hn as ([] & Hg%guard_ok & Hn). injection Hn as ->. cbn. lia.
Qed.

Lemma adds_perform socket session a : sound_action a -> adds_runs (permitted socket session) 3 (perform socket session a).
Proof.
  destruct a as [|n|input|]; intros Ha; cbn [perform]; [..|by apply adds_submit|];
    (apply (adds_more _ 1); [lia|]; apply adds_run_tmux; intros p; eexists; split; [done|]; naive_solver).
Qed.

(** The orchestrator, as the setuid binary becomes it. *)
Definition is_orchestrator (p : Process) : Prop :=
  (ruid p, euid p, suid p, rgid p, egid p, sgid p, groups p)
  = (ORCHESTRATOR_UID, ORCHESTRATOR_UID, ORCHESTRATOR_UID, ROLE_GID, ROLE_GID, ROLE_GID, [ROLE_GID]).

Lemma drop_ok c c' : drop_to_orchestrator c = (Ok tt, c') -> euid (cprocess c) = 0 -> is_orchestrator (cprocess c') /\ cruns c' = cruns c.
Proof.
  unfold drop_to_orchestrator. destruct (pmap_err _ _ (cprocess c)) as [r p] eqn:E. intros [= -> <-] E0.
  apply pmap_err_ok in E. apply apply_identity_root in E as ->; [|done]. done.
Qed.

Lemma session_id_chars session :
  validate_session_id session = Ok tt -> session <> "" /\ len session <= 63
  /\ all_chars (fun c => session_char c || Ascii.eqb c "-") session = true.
Proof.
  unfold validate_session_id. intros Hg%guard_ok. destruct session as [|c s]; [done|].
  apply andb_true_iff in Hg as [Hg Hall]. apply andb_true_iff in Hg as [Hl _]. split; [done|]. split; [lia|done].
Qed.

(** Either no run is made, or every check has passed and the action is performed by
    the orchestrator. *)
Lemma session_control_cases args c r c' :
  session_control args c = (r, c') ->
  cruns c' = cruns c
  \/ exists session state_root m a c1,
       args !! 0%nat = Some session /\ validate_session_id session = Ok tt /\ same_path state_root STATE_ROOT = true
       /\ link_metadata (socket_of state_root session) = Some m
       /\ (meta_socket m && (meta_uid m =? ORCHESTRATOR_UID) && (meta_gid m =? ROLE_GID) && (Z.land (meta_mode m) 2 =? 0)) = true
       /\ sound_action a /\ ruid (cprocess c) = CONTROL_UID /\ is_orchestrator (cprocess c1) /\ cruns c1 = cruns c
       /\ (perform (socket_of state_root session) session a c1).2 = c'.
Proof.
  unfold session_control, ccheck. rewrite cbind_read, cbind_lift. intros E.
  destruct (guard ((ruid _ =? _) && _) _) as [[]|] eqn:Eu; [|injection E as _ <-; by left]. cbn beta in E. rewrite cbind_lift in E.
  destruct (guard (bool_decide _) _) as [[]|]; [|injection E as _ <-; by left]. cbn beta in E. rewrite cbind_lift in E.
  destruct (args !! 0%nat) as [session|] eqn:Es; [|injection E as _ <-; by left]. cbn [ok_or] in E. cbn beta in E. rewrite cbind_lift in E.
  destruct (args !! 1%nat) as [action|]; [|injection E as _ <-; by left]. cbn [ok_or] in E. cbn beta in E. rewrite cbind_lift in E.
  destruct (validate_session_id session) as [[]|] eqn:Eid; [|injection E as _ <-; by left]. cbn beta in E. rewrite cbind_lift in E.
  destruct validate_tmux_binary as [[]|]; [|injection E as _ <-; by left]. cbn beta in E. rewrite cbind_lift in E.
  destruct canonical_state_root as [state_root|] eqn:Er; [|injection E as _ <-; by left].
  destruct (String.eqb action "status" && _); [injection E as _ <-; by left|]. cbn beta in E. rewrite cbind_lift in E.
  destruct (validate_socket _) as [[]|] eqn:Ev; [|injection E as _ <-; by left]. cbn beta in E. rewrite cbind_lift in E.
  destruct (parse_action args) as [a|] eqn:Ea; [|injection E as _ <-; by left]. unfold cbind in E.
  destruct (drop_to_orchestrator c) as [[[]|] c1] eqn:Ed; cbn in E; last first.
  { injection E as _ <-. left. unfold drop_to_orchestrator in Ed. destruct (pmap_err _ _ _). by injection Ed as _ <-. }
  right. apply guard_ok in Eu. bool_hyps. apply drop_ok in Ed as [Ho Hc]; [|lia].
  unfold validate_socket in Ev. apply rbind_ok in Ev as (m & Hm & Hg%guard_ok). apply ok_or_ok in Hm.
  exists session, state_root, m, a, c1. split_and!; try done.
  - unfold canonical_state_root in Er. apply rbind_ok in Er as (? & _ & Er). apply rbind_ok in Er as (? & _ & Er).
    apply rbind_ok in Er as ([] & Hroot%guard_ok & Er). by injection Er as <-.
  - by apply parse_action_sound in Ea.
  - lia.
  - by rewrite E.
Qed.

(** C38: Whatever the control account asks, each run of the multiplexer (at most three)
    is made by the orchestrator's user and group, which cannot become root again, on
    the socket of the named session below the fixed state directory, a socket of the
    orchestrator that others may not write, and it is a command of the interface for
    that session: show it, capture at most 5000 lines, type at most 32768 bytes, stop
    it. The session's name has only lower-case letters, digits and hyphens. *)
Theorem session_control_confined args c r c' :
  session_control args c = (r, c') ->
  exists runs, cruns c' = cruns c ++ runs /\ (length runs <= 3)%nat
  /\ forall run, run ∈ runs ->
       ruid (cprocess c) = CONTROL_UID /\ is_orchestrator (tmux_process run) /\ setuid 0 (tmux_process run) = None
       /\ exists session state_root m,
            args !! 0%nat = Some session /\ len session <= 63
            /\ all_chars (fun c => session_char c || Ascii.eqb c "-") session = true
            /\ same_path state_root STATE_ROOT = true
            /\ link_metadata (socket_of state_root session) = Some m
            /\ meta_socket m = true /\ meta_uid m = ORCHESTRATOR_UID /\ meta_gid m = ROLE_GID /\ Z.land (meta_mode m) 2 = 0
            /\ permitted (socket_of state_root session) session run.
Proof.
  intros E. apply session_control_cases in E as [E|(session & state_root & m & a & c1 & Hs & Hid & Hroot & Hm & Hg & Ha & Hu & Ho & Hc & E)].
  { exists []. rewrite app_nil_r. split_and!; [done|simpl; lia|]. intros run Hr. by apply elem_of_nil in Hr. }
  destruct (adds_perform (socket_of state_root session) session a Ha c1) as (runs & Er & _ & Hl & Hall).
  rewrite E, Hc in Er. exists runs. split; [done|]. split; [done|]. intros run Hrun.
  rewrite Forall_forall in Hall. destruct (Hall run Hrun) as [Hp Hperm]. rewrite Hp. split; [done|]. split; [done|]. split.
  - apply no_root with ORCHESTRATOR_UID; [unfold is_orchestrator in Ho; congruence|done].
  - apply session_id_chars in Hid as (_ & Hlen & Hchars). bool_hyps. exists session, state_root, m. split_and!; try done; lia.
Qed.
End Control.

(** ** A concrete session *)
Module ControlWitness.
#[local] Instance platform : Platform :=
  toy_platform (fun k => if String.eqb k "MULTIAGENT_STATE_DIR" then Some STATE_ROOT
                         else if String.eqb k "MULTIAGENT_UID_SANDBOX" then Some "1" else None) 0.
#[local] Instance resolver : Resolver := fun _ p => if is_absolute p then Some p else None.
#[local] Existing Instances PrivilegeWitness.kernel PrivilegeWitness.kernel_laws.
#[local] Instance env : ControlEnv := {|
  path_metadata p := if String.eqb p TMUX_BIN then Some (mkMeta true false 0 0 493)
                     else if String.eqb p (socket_of STATE_ROOT "s1") then Some (mkMeta false true ORCHESTRATOR_UID ROLE_GID 432) else None;
  link_metadata p := if String.eqb p (socket_of STATE_ROOT "s1") then Some (mkMeta false true ORCHESTRATOR_UID ROLE_GID 432) else None;
  state_files := ∅; read_stdin _ := Ok "continue"; tmux_status _ _ := Ok (Some 0); tmux_load _ _ := inr (Some 0)
|}.
Definition start : Control := mkControl (PrivilegeWitness.started CONTROL_UID) [].
Definition submitted : result string Z * Control := session_control ["s1"; "submit"] start.

Example submit_types :
  submitted.1 = Ok 0
  /\ map tmux_args (cruns submitted.2)
     = [["-S"; socket_of STATE_ROOT "s1"; "load-buffer"; "-"];
        ["-S"; socket_of STATE_ROOT "s1"; "paste-buffer"; "-d"; "-t"; "s1:orchestrator"];
        ["-S"; socket_of STATE_ROOT "s1"; "send-keys"; "-t"; "s1:orchestrator"; "C-m"]].
Proof. vm_compute. split; reflexivity. Qed.
Example other_session_missing :
  (session_control ["s2"; "status"] start).1 = Ok 1 /\ (session_control ["s2"; "stop"] start).1 = Err "inspect orchestrator tmux socket: I/O error"
  /\ (session_control ["../s1"; "stop"] start).1 = Err "invalid session id".
Proof. vm_compute. repeat split. Qed.

Lemma session_control_witness : exists runs, cruns submitted.2 = cruns start ++ runs /\ (length runs <= 3)%nat.
Proof.
  assert (E : session_control ["s1"; "submit"] start = (submitted.1, submitted.2)) by (unfold submitted; apply surjective_pairing).
  destruct (session_control_confined ["s1"; "submit"] start submitted.1 submitted.2 E) as (runs & Hr & Hl & _).
  exists runs. split; [exact Hr|exact Hl].
Defined.
End ControlWitness.
