(* ===== verification/OpsCycle.v ===== *)
(** * OpsCycle: the reviewed operation of [runtime/src/runtime.rs]

    One cycle publishes the request of the operations agent, starts an independent
    reviewer, has the operation executed when the reviewer accepted exactly this
    request, and hands the outcome back to the agent. It works on the state of
    [RoleExec]: the host and the calls of a session. *)

From S2P Require Import Prelude Text State Json LogModel Config Execution Dag Lifecycle Workflow Completion Snapshot Findings Policy OpsBytes OpsRequest OpsHost Ops Launch Shell Agent Reports Session Spawn Iteration Privilege OpsHost RoleExec.

Definition REVIEWED_OPS_RUNTIME_CONTRACT : string :=
  "<reviewed-ops-runtime phase=" +:+ quoted "interpret" +:+ " execution=" +:+ quoted "completed" +:+ " environment-check="
  +:+ quoted "required-before-blocker" +:+ " repeat-execution=" +:+ quoted "forbidden" +:+ " direct-provider=" +:+ quoted "forbidden" +:+ " />".

Definition reviewed_ops_reviewer_instruction (request_file descriptor binding reviewer : string) : string :=
  "Independently review the supervisor-owned immutable ops request identified by the bounded artifact descriptor below. Read that exact artifact and certified runbook, and reconstruct evidence rather than relying only on the proposing agent. You may read any session trace under `$MULTIAGENT_LOG_DIR`. When fresh production evidence is material, you may create a request in your own trace directory, preserving the reviewed request's taskId, goal, target, and exact runbook binding, select only an operation that `multiagent ops describe OPERATION_ID` reports as read-only, bind it with `multiagent ops bind-runbook`, and submit it through the normal ops path with `multiagent ops execute --request-file PATH --reviewed-request "
  +:+ request_file +:+ " --reviewer " +:+ reviewer
  +:+ "`. This path mechanically rejects mutation. Do not modify or execute the reviewed request. Run the required review binding command. If and only if the request is acceptable, use the accepted verdict and reproduce the binding marker exactly. Otherwise request human review with one bounded question; no operation permit will be issued."
  +:+ newline +:+ newline +:+ "request-path: " +:+ request_file +:+ newline +:+ binding +:+ newline +:+ newline
  +:+ "immutable-request-descriptor:" +:+ newline +:+ descriptor.

Definition reviewed_ops_result_instruction (request_file reviewer ops_name execution_result : string) : string :=
  REVIEWED_OPS_RUNTIME_CONTRACT +:+ newline +:+ newline +:+ "Continue the runbook for subagent `" +:+ ops_name
  +:+ "` from the completed reviewed operation below. Reviewer `" +:+ reviewer +:+ "` accepted the immutable request at `"
  +:+ shell_escape request_file
  +:+ "`. Read that exact request, its digest-bound runbook, and the compact execution result. Do not execute this request again or use direct provider access. You may inspect the exact persisted receipt at `receiptPath`; do not inspect unrelated agent logs, transcripts, role homes, or operation directories. If a required command, environment variable, or referenced path appears unavailable, check it once with the shell before reporting a blocker; do not decide availability from narrative text alone."
  +:+ newline +:+ newline +:+ "<reviewed-execution-result>" +:+ newline +:+ execution_result +:+ newline +:+ "</reviewed-execution-result>"
  +:+ newline +:+ newline
  +:+ "Decide from the runbook whether to stop, escalate, or prepare another distinct reviewed operation. Never execute the same immutable request twice and never run `ops describe` on the returned operationId or actionId. If another operation is needed, first run `multiagent ops describe OPERATION_ID`, then materialize and bind the complete next request at exactly `$MULTIAGENT_LOG_DIR/agents/"
  +:+ ops_name
  +:+ "/request.json`, run `chmod 0640` on it, and report that exact path plus the two digest lines. Do not use a role-home path, do not call `ops publish`, and do not finish with only a proposed request. If safe progress requires missing user-owned input, report the exact blocker and one bounded question, then stop. If no operation remains, report the final result or exact blocker. Do not create a replacement ops identity.".

(** ** Arguments *)

Record CycleOptions := mkCycle { cycle_request : option string; cycle_reviewer : option string; cycle_timeout : string }.
Fixpoint cycle_options (o : CycleOptions) (l : list string) : result string CycleOptions :=
  match l with
  | [] => Ok o
  | flag :: rest =>
      let? o' :=
        (if String.eqb flag "--request-file" then
           let? value := required_value rest "reviewed-ops-cycle --request-file" in
           Ok (mkCycle (Some value) (cycle_reviewer o) (cycle_timeout o))
         else if String.eqb flag "--reviewer" then
           let? value := required_value rest "reviewed-ops-cycle --reviewer" in
           Ok (mkCycle (cycle_request o) (Some value) (cycle_timeout o))
         else if String.eqb flag "--timeout" then
           let? value := required_value rest "reviewed-ops-cycle --timeout" in
           let? _ := ok_or (parse_f64 value) "reviewed-ops-cycle --timeout must be a non-negative number" in
           Ok (mkCycle (cycle_request o) (cycle_reviewer o) value)
         else Err ("unknown reviewed-ops-cycle argument: " +:+ flag)) in
      match rest with _ :: rest' => cycle_options o' rest' | [] => Ok o' end
  end.
(** The agent, its request, the reviewer and the timeout. *)
Definition cycle_arguments (args : list string) : result string (string * string * string * string) :=
  let? ops_name := ok_or (name ← head args; if is_empty name then None else Some name) "reviewed-ops-cycle requires OPS_NAME" in
  let? _ := validate_name ops_name in
  let? o := cycle_options (mkCycle None None "900") (tail args) in
  let? request_file := ok_or (cycle_request o) "reviewed-ops-cycle requires --request-file PATH" in
  let? reviewer := ok_or (cycle_reviewer o) "reviewed-ops-cycle requires --reviewer NAME" in
  let? _ := validate_name reviewer in
  let? _ := guard (starts_with "ops-reviewer-" reviewer) "reviewed-ops-cycle reviewer name must start with ops-reviewer-" in
  Ok (ops_name, request_file, reviewer, cycle_timeout o).

Definition cycle_result (ops_name reviewer ops_status : string) (terminal : bool) (execution : Value) (ops_result : string)
    (follow_up : Value) (more : list (string * Value)) : Value :=
  VObj ([("apiVersion", VStr "multiagent.moveindustries.io/v1"); ("kind", VStr "ReviewedOpsCycleResult"); ("opsName", VStr ops_name);
         ("reviewer", VStr reviewer); ("opsStatus", VStr ops_status); ("cycleWaitedForCompletion", VBool true);
         ("additionalWaitRequired", VBool false); ("terminal", VBool terminal); ("executionResult", execution);
         ("opsResult", VStr ops_result); ("followUpRequest", follow_up)] ++ more).

Section OpsCycle.
Context `{Platform} `{Git} `{JsonCodec} `{JsonPretty} `{OpsEnv} `{Resolver} `{Environment} `{Externals} `{Processes} `{Clock}.

Definition publish_reviewed_ops_request (request_file : string) : SIO (string * string) :=
  let$ output := run_self_output ["ops"; "publish-bound"; "--request-file"; request_file] in
  let$ text := slift (ok_or (from_utf8 (out_bytes output)) (io_error "decode published ops request descriptor")) in
  let descriptor := trim text in
  let$ value := slift (parse_json descriptor "decode published ops request descriptor: ") in
  let$ path := slift (ok_or (path ← member_str "artifactPath" value; if is_empty path then None else Some path)
                        "published ops request descriptor has no artifactPath") in
  sret (path, descriptor).

Definition print_cycle (v : Value) : BIO unit := bso (print_text (to_vec (canonical_value v))).
Definition terminal_marker (cfg : RuntimeConfig) (ops_name text context : string) : BIO unit :=
  bso (sio (put_file (path_join (agent_dir cfg ops_name) REVIEWED_OPS_TERMINAL_FILE) text (io_error context))).
Definition sha256_line (digest_ : string) : string := "requestSha256=" +:+ digest_ +:+ newline.

(** The request of an operations agent, with its digest. *)
Definition open_request (cfg : RuntimeConfig) (ops_name request_file : string) : BIO (string * string) :=
  let@ metadata := bso (sio (read_env (path_join (agent_dir cfg ops_name) "meta.env"))) in
  let@ _ := bcheck (entry_is metadata "role" "ops") ("reviewed-ops-cycle requires an existing ops identity: " +:+ ops_name) in
  let@ request := bho (canonicalize_path request_file "resolve reviewed ops request") in
  let@ ops_logs := bho (canonicalize_path (agent_trace cfg ops_name) "resolve ops agent log directory") in
  let@ _ := bcheck (inside request ops_logs)
              ("reviewed ops request must be the ops-owned bound request under " +:+ ops_logs
               +:+ "; do not pass the supervisor-owned published artifact") in
  let@ fs := bho store in
  let@ bytes := blift (ok_or (fs !! request) (io_error "read reviewed ops request")) in
  bret (request, "sha256:" +:+ sha256_hex bytes).

(** The review of the published request. *)
Definition review_request (cfg : RuntimeConfig) (request_file descriptor reviewer timeout : string) : BIO unit :=
  let@ binding := bho (review_binding_for_request request_file) in
  let@ _ := bso (spawn cfg [reviewer; "--role"; "reviewer"; "--instruction";
                            reviewed_ops_reviewer_instruction request_file descriptor binding reviewer]) in
  let@ _ := bso (wait cfg [reviewer; "--timeout"; timeout]) in
  let@ fs := bho store in
  let status := unwrap_or (read_trimmed fs (path_join (agent_dir cfg reviewer) "status")) "unknown" in
  let@ _ := bcheck (String.eqb status "done") ("ops reviewer " +:+ reviewer +:+ " did not complete successfully: " +:+ status) in
  bso (finalize cfg [reviewer]).

Definition hand_to_human (cfg : RuntimeConfig) (ops_name reviewer question reason sha256 : string) : BIO unit :=
  let@ _ := bso (complete_reviewer_human_fallback cfg reviewer question) in
  let@ _ := terminal_marker cfg ops_name (sha256_line sha256 +:+ "status=human-review-required" +:+ newline)
              "write reviewed ops human-review terminal marker" in
  print_cycle (cycle_result ops_name reviewer "human_review_required" true VNull question VNull
                 [("humanReview", VObj [("status", VStr "pending"); ("reason", VStr reason); ("question", VStr question)])]).

(** The execution, by the setuid child. *)
Definition run_reviewed (request_file reviewer : string) : BIO (string * Value) :=
  let@ output := bso (run_self_output ["reviewed-ops-exec"; "--request-file"; request_file; "--reviewer"; reviewer]) in
  let@ text := blift (ok_or (from_utf8 (out_bytes output)) (io_error "decode reviewed ops execution result")) in
  let@ result_ := blift (parse_json (trim text) "decode reviewed ops execution result JSON: ") in
  bret (trim text, result_).

Definition record_failure (cfg : RuntimeConfig) (ops_name reviewer sha256 : string) (result_ : Value) (disposition : string) : BIO unit :=
  let@ _ := bso (set_subagent_status cfg ops_name "failed") in
  let@ _ := terminal_marker cfg ops_name (sha256_line sha256 +:+ "status=operation-" +:+ disposition +:+ newline)
              "write reviewed ops failure marker" in
  print_cycle (cycle_result ops_name reviewer disposition true result_ (failed_operation_summary result_ disposition) VNull
                 [("retryDecision", VStr "orchestrator_required")]).

(** Another request of the agent, when its file has changed. *)
Definition follow_up_request (fs : gmap string string) (ops_request_file sha256 : string) : option Value :=
  bytes ← fs !! ops_request_file;
  let digest_ := "sha256:" +:+ sha256_hex bytes in
  if String.eqb digest_ sha256 then None
  else Some (VObj [("path", VStr ops_request_file); ("sha256", VStr digest_); ("bytes", VNum (len bytes))]).

Definition continue_agent (cfg : RuntimeConfig) (ops_name reviewer timeout request_file ops_request_file sha256 text : string)
    (result_ : Value) : BIO unit :=
  let@ _ := bso (restore cfg [ops_name; "--force"; "--fresh-context"; "--instruction";
                              reviewed_ops_result_instruction request_file reviewer ops_name text]) in
  let@ _ := bso (wait cfg [ops_name; "--timeout"; timeout]) in
  let@ fs := bho store in
  let ops_status := unwrap_or (read_trimmed fs (path_join (agent_dir cfg ops_name) "status")) "unknown" in
  let message := unwrap_or (fs !! path_join (agent_dir cfg ops_name) "last-message.txt" ≫= from_utf8)
                   "ops agent produced no durable final message" in
  let follow_up := follow_up_request fs ops_request_file sha256 in
  let terminal := negb (is_some follow_up) in
  let@ _ := bwhen terminal (terminal_marker cfg ops_name (sha256_line sha256) "write reviewed ops terminal marker") in
  print_cycle (cycle_result ops_name reviewer ops_status terminal result_ (take_chars (Z.to_nat 16384) message) (opt_value id follow_up) []).

(** A cycle up to the end of the review: what it works on, and the question of a
    reviewer who wants a human. *)
Record CycleState := mkCycleState {
  c_ops : string; c_reviewer : string; c_timeout : string;
  c_own_request : string; c_sha256 : string;       (* the request of the agent *)
  c_request : string                               (* the published one *)
}.
Definition cycle_review (cfg : RuntimeConfig) (args : list string) : BIO (CycleState * option (string * string)) :=
  let@ (ops_name, request_argument, reviewer, timeout) := blift (cycle_arguments args) in
  let@ (ops_request_file, sha256) := open_request cfg ops_name request_argument in
  let@ (request_file, descriptor) := bso (publish_reviewed_ops_request ops_request_file) in
  let@ _ := review_request cfg request_file descriptor reviewer timeout in
  let@ workflow_id := blift (ok_or (env_nonempty "MULTIAGENT_WORKFLOW_ID") "reviewed-ops-cycle requires MULTIAGENT_WORKFLOW_ID") in
  let@ asked := bso (sio (reviewer_human_review_question workflow_id reviewer)) in
  bret (mkCycleState ops_name reviewer timeout ops_request_file sha256 request_file, asked).

Definition reviewed_ops_cycle (cfg : RuntimeConfig) (args : list string) : BIO unit :=
  let@ (c, asked) := cycle_review cfg args in
  match asked with
  | Some (question, reason) => hand_to_human cfg (c_ops c) (c_reviewer c) question reason (c_sha256 c)
  | None =>
      let@ _ := bho (preflight_reviewed_request (c_request c) (c_reviewer c)) in
      let@ (text, result_) := run_reviewed (c_request c) (c_reviewer c) in
      match failed_operation_disposition result_ with
      | Some disposition => record_failure cfg (c_ops c) (c_reviewer c) (c_sha256 c) result_ disposition
      | None => continue_agent cfg (c_ops c) (c_reviewer c) (c_timeout c) (c_request c) (c_own_request c) (c_sha256 c) text result_
      end
  end.
End OpsCycle.
