(* ===== verification/OpsCycleProps.v ===== *)
(** * OpsCycleProps: an operation is executed once, and only reviewed *)

From S2P Require Import Prelude Text State Json LogModel Instances Config Execution Dag Lifecycle Workflow Completion Snapshot Findings Policy OpsBytes OpsRequest OpsHost Ops OpsFacts OpsProps OpsWitness Launch Shell Agent Reports Session Spawn Iteration SessionFacts Privilege OpsHost RoleExec RoleExecProps OpsCycle.

(** A call of the setuid child that executes an operation. *)
Definition executes (e : External) : bool :=
  match e with Child (command :: _) => String.eqb command "reviewed-ops-exec" | _ => false end.
Definition no_execution (e : External) : Prop := executes e = false.

(** [m] makes no call that executes an operation, however it stops. *)
Definition harmless {A} (m : BIO A) : Prop :=
  forall b, exists es, bhistory (m b).2 = bhistory b ++ es /\ Forall no_execution es.

Create HintDb harmless discriminated.

Lemma harmless_bind {A B} (m : BIO A) (k : A -> BIO B) : harmless m -> (forall a, harmless (k a)) -> harmless (bbind m k).
Proof.
  intros Hm Hk b. destruct (Hm b) as (es & E & F). unfold bbind. destruct (m b) as [[a|e] b1]; cbn in *; [|eauto].
  destruct (Hk a b1) as (es' & E' & F'). exists (es ++ es'). rewrite E', E, app_assoc. split; [done|]. by apply Forall_app.
Qed.
Lemma harmless_same {A} (m : BIO A) : (forall b, bhistory (m b).2 = bhistory b) -> harmless m.
Proof. intros E b. exists []. rewrite app_nil_r. split; [apply E|constructor]. Qed.
Lemma harmless_ret {A} (a : A) : harmless (bret a).
Proof. by apply harmless_same. Qed.
Lemma harmless_lift {A} (r : result string A) : harmless (blift r).
Proof. by apply harmless_same. Qed.
Lemma harmless_check c e : harmless (bcheck c e).
Proof. apply harmless_same. by destruct c. Qed.
Lemma harmless_ho {A} (m : OIO A) : harmless (bho m).
Proof. apply harmless_same. intros b. unfold bho. by destruct (m (bhost b)). Qed.
Lemma harmless_so {A} (m : SIO A) : adds no_execution m -> harmless (bso m).
Proof.
  intros Hm b. destruct (Hm (mkSession (hw (bhost b)) (bhistory b) (bparallel b))) as (es & E & F). exists es.
  unfold bso. destruct (m _) as [r s]. by split.
Qed.
Lemma harmless_when c m : harmless m -> harmless (bwhen c m).
Proof. destruct c; [done|]. intros _. apply harmless_ret. Qed.
#[export] Hint Resolve harmless_ret harmless_lift harmless_check harmless_ho harmless_when : harmless.

Section Cycle.
Context `{Platform} `{Git} `{JsonCodec} `{JsonPretty} `{OpsEnv} `{Resolver} `{Environment} `{Externals} `{Processes} `{Clock}.

Lemma no_execution_asks : Forall (asks no_execution) ["list-windows"; "capture-pane"; "kill-window"; "has-session"; "pipe-pane"; "send-keys"].
Proof. repeat constructor; intros [sock|] rest; reflexivity. Qed.
Lemma no_execution_child command rest : command ∈ ["subagent"; "workflow"; "supervisor"] -> no_execution (Child (command :: rest)).
Proof. rewrite !elem_of_cons, elem_of_nil. by intros [->|[->|[->|[]]]]. Qed.
#[local] Hint Resolve no_execution_asks no_execution_child : adds.

Lemma adds_restore cfg args : adds no_execution (restore cfg args).
Proof.
  assert (forall name command, adds no_execution (open_window cfg name command)).
  { intros name command. unfold open_window, tmux_checked, tmux_output. add; by destruct (env_nonempty _). }
  assert (forall p, adds no_execution (discard_file p)) by (intros; by apply adds_none).
  assert (forall cfg name o follow r metadata, adds no_execution (restore_instruction cfg name o follow r metadata))
    by (intros; unfold restore_instruction; add).
  unfold restore. add.
Qed.
#[local] Hint Resolve adds_restore : adds.
Lemma adds_start cfg args : adds no_execution (spawn cfg args).
Proof. apply adds_spawn; [auto with adds..|]. by intros [sock|] rest. Qed.
Lemma adds_publish path : adds no_execution (publish_reviewed_ops_request path).
Proof. unfold publish_reviewed_ops_request, run_self_output. add. done. Qed.
Lemma adds_fallback cfg reviewer question : adds no_execution (complete_reviewer_human_fallback cfg reviewer question).
Proof. unfold complete_reviewer_human_fallback, run_self_owned, run_self_output. add. done. Qed.
#[local] Hint Resolve adds_start adds_publish adds_fallback : adds.

#[local] Hint Extern 2 (harmless (bso _)) => apply harmless_so; solve [add] : harmless.
Ltac harmless_steps :=
  repeat first
    [ solve [auto with harmless nocore]
    | apply harmless_bind; [|intros ?]
    | match goal with
      | |- harmless (let '(_, _) := ?p in _) => destruct p
      | |- harmless (if ?c then _ else _) => destruct c
      | |- harmless (match ?c with _ => _ end) => destruct c
      end ].

Lemma harmless_open cfg name path : harmless (open_request cfg name path).
Proof. unfold open_request. harmless_steps. Qed.
Lemma harmless_review cfg path descriptor reviewer timeout : harmless (review_request cfg path descriptor reviewer timeout).
Proof. unfold review_request. harmless_steps. Qed.
Lemma harmless_hand cfg name reviewer question reason digest_ : harmless (hand_to_human cfg name reviewer question reason digest_).
Proof. unfold hand_to_human, terminal_marker, print_cycle. harmless_steps. Qed.
Lemma harmless_failure cfg name reviewer digest_ v d : harmless (record_failure cfg name reviewer digest_ v d).
Proof. unfold record_failure, terminal_marker, print_cycle. harmless_steps. Qed.
Lemma harmless_continue cfg name reviewer timeout p q digest_ text v : harmless (continue_agent cfg name reviewer timeout p q digest_ text v).
Proof. unfold continue_agent, terminal_marker, print_cycle. harmless_steps. Qed.
Lemma harmless_cycle_review cfg args : harmless (cycle_review cfg args).
Proof.
  unfold cycle_review. apply harmless_bind; [apply harmless_lift|]. intros [[[name request] reviewer] timeout].
  apply harmless_bind; [apply harmless_open|]. intros [own digest_]. apply harmless_bind; [auto with harmless nocore|]. intros [path descriptor].
  apply harmless_bind; [apply harmless_review|]. intros []. harmless_steps.
Qed.

(** The execution itself: at most one call. *)
Lemma self_calls args s : exists es, history (run_self_output args s).2 = history s ++ es /\ (es = [] \/ es = [Child args]).
Proof.
  unfold run_self_output, sbind at 1, slift. destruct (map_err _ current_exe); [|exists []; rewrite app_nil_r; by auto].
  exists [Child args]. split; [|by right]. unfold sbind, smap_err, call. destruct (external _ _ _) as [r fs]. cbn.
  destruct r as [o|]; cbn; [|done]. by destruct (success o).
Qed.
Lemma run_reviewed_calls path reviewer b :
  exists es, bhistory (run_reviewed path reviewer b).2 = bhistory b ++ es
    /\ (es = [] \/ es = [Child ["reviewed-ops-exec"; "--request-file"; path; "--reviewer"; reviewer]]).
Proof.
  unfold run_reviewed, bbind at 1, bso.
  destruct (self_calls ["reviewed-ops-exec"; "--request-file"; path; "--reviewer"; reviewer]
              (mkSession (hw (bhost b)) (bhistory b) (bparallel b))) as (es & E & Hes).
  exists es. split; [|done]. destruct (run_self_output _ _) as [r s1]. cbn in E. destruct r as [o|]; [|done]. cbn beta iota.
  rewrite <- E. unfold bbind, blift. destruct (ok_or _ _); [|done]. by destruct (parse_json _ _).
Qed.

Lemma cycle_reviewer_name args name request reviewer timeout :
  cycle_arguments args = Ok (name, request, reviewer, timeout) -> starts_with "ops-reviewer-" reviewer = true.
Proof.
  unfold cycle_arguments. intros E. do 5 (apply rbind_ok in E as (? & _ & E)). apply rbind_ok in E as ([] & _ & E).
  apply rbind_ok in E as ([] & Hg%guard_ok & E). by simplify_eq.
Qed.

Lemma cycle_review_reviewer cfg args b c asked b1 :
  cycle_review cfg args b = (Ok (c, asked), b1) -> starts_with "ops-reviewer-" (c_reviewer c) = true.
Proof.
  unfold cycle_review. intros E. apply bbind_ok in E as ([[[name request] reviewer] timeout] & b2 & [Ea ->]%blift_ok & E).
  apply bbind_ok in E as ([own digest_] & b3 & _ & E). apply bbind_ok in E as ([path descriptor] & b4 & _ & E).
  do 3 (apply bbind_ok in E as (? & ? & _ & E)). injection E as <- _ _. by apply cycle_reviewer_name in Ea.
Qed.

Lemma bho_watch {A} (m : OIO A) b : watcher m -> bho m b = ((m (bhost b)).1, b).
Proof. intros Hm. unfold bho. specialize (Hm (bhost b)). destruct (m (bhost b)) as [r h]. cbn in *. subst h. by destruct b. Qed.

(** From the last check of the review to the end of the cycle. *)
Lemma after_preflight cfg c b1 r b' :
  bbind (bho (preflight_reviewed_request (c_request c) (c_reviewer c)))
    (fun _ => bbind (run_reviewed (c_request c) (c_reviewer c))
       (fun '(text, result_) =>
          match failed_operation_disposition result_ with
          | Some disposition => record_failure cfg (c_ops c) (c_reviewer c) (c_sha256 c) result_ disposition
          | None => continue_agent cfg (c_ops c) (c_reviewer c) (c_timeout c) (c_request c) (c_own_request c) (c_sha256 c) text result_
          end)) b1 = (r, b') ->
  exists es, bhistory b' = bhistory b1 ++ es
  /\ (Forall no_execution es
      \/ exists after, es = Child ["reviewed-ops-exec"; "--request-file"; c_request c; "--reviewer"; c_reviewer c] :: after
           /\ Forall no_execution after
           /\ exists st template content at_,
                state_root (bhost b1) st /\ request_on_file (bhost b1) [OPS_UID; SUPERVISOR_UID] st template
                /\ runbook_bound (bhost b1) template content
                /\ review_sealed (bhost b1) st (c_reviewer c) template content at_).
Proof.
  intros E. unfold bbind at 1 in E. rewrite bho_watch in E by (unfold preflight_reviewed_request; quiets).
  destruct (preflight_reviewed_request (c_request c) (c_reviewer c) (bhost b1)) as [[[]|e] h1] eqn:Ep; cbn [fst] in E; last first.
  { injection E as _ <-. exists []. rewrite app_nil_r. split; [done|]. by left. }
  unfold preflight_reviewed_request in Ep. apply obind_ok in Ep as ([[st template] approval] & h2 & Hl & _).
  apply load_reviewed_ok in Hl as (_ & Hst & Hf & _ & _ & content & Hb & Hs).
  unfold bbind in E. destruct (run_reviewed_calls (c_request c) (c_reviewer c) b1) as (es & Es & Hes).
  destruct (run_reviewed (c_request c) (c_reviewer c) b1) as [[[text v]|e] b2]; cbn in Es.
  - set (m := match failed_operation_disposition v with Some _ => _ | None => _ end) in E.
    assert (Hm : harmless m) by (unfold m; destruct (failed_operation_disposition v); [apply harmless_failure|apply harmless_continue]).
    destruct (Hm b2) as (after & Ea & Fa). rewrite E in Ea. cbn in Ea. exists (es ++ after). rewrite Ea, Es, app_assoc. split; [done|].
    destruct Hes as [->| ->]; [by left|]. right. exists after. split; [done|]. split; [done|]. by exists st, template, content, (approved_at approval).
  - injection E as _ <-. exists es. split; [done|]. destruct Hes as [->| ->]; [by left|]. right. exists []. split; [done|]. split; [done|].
    by exists st, template, content, (approved_at approval).
Qed.

End Cycle.

(** ** A concrete cycle *)
Module CycleWitness.

Definition vars (k : string) : option string :=
  if String.eqb k "PATH" then Some "/bin" else if String.eqb k "MULTIAGENT_ROOT" then Some "/repo" else OpsWitness.vars k.
#[local] Instance platform : Platform := toy_platform vars SUPERVISOR_UID.
#[local] Existing Instances OpsWitness.no_git OpsWitness.resolver OpsWitness.env.
#[local] Instance environment : Environment := {|
  canonicalize fs p := if starts_with "/" p then Some p else None;
  completion_gate_check := ret tt; external_completion_gate_check := ret tt; Workflow.canonical_diff _ _ _ := Ok ""
|}.
#[local] Instance processes : Processes := {|
  is_executable _ p := starts_with "/bin/" p; current_exe := Ok "/bin/multiagent"; build_root := "/framework"; alive _ _ := false
|}.
#[local] Instance clock : Clock := {|
  deadline_after n _ := Some (Z.of_nat n + 1000); instant_at n := Z.of_nat n; f64_display _ := "900"; patience := 3%nat
|}.

(** The reviewer of [OpsWitness] under the name of an operations reviewer: its
    evidence is sealed when its window is opened. The operation fails. *)
Definition evidence_of (name : string) : option string := OpsWitness.files0 !! ("/state/reviewer-evidence/rev/" +:+ name).
Definition seal (fs : gmap string string) : gmap string string :=
  foldl (fun fs name => match evidence_of name with
                        | Some text => <["/state/reviewer-evidence/ops-reviewer-1/" +:+ name := text]> fs
                        | None => fs
                        end) (<["/state/subagents/ops-reviewer-1/last-message.txt" := OpsWitness.message]> fs)
    ["evidence.env"; "last-message.txt"; "review-binding.json"].
Definition outcome : Value :=
  VObj [("message", VStr "refused"); ("outcome", VObj [("disposition", VStr "failed"); ("terminal", VBool true)])].
#[local] Instance outside : Externals := fun _ e fs =>
  match e with
  | Tmux _ => (Ok (mkOutput (Some 0) "pane" ""), match opens e with Some _ => seal fs | None => fs end)
  | Child ("ops" :: _) => (Ok (mkOutput (Some 0) (to_vec (VObj [("artifactPath", VStr "/state/request.json")])) ""), fs)
  | Child ("reviewed-ops-exec" :: _) => (Ok (mkOutput (Some 0) (to_vec outcome) ""), fs)
  | Child _ => (Ok (mkOutput (Some 0) "" ""), fs)
  end.

Definition cfg : RuntimeConfig :=
  mkConfig "multiagent" "/repo" "/state" "/logs" "/policy" "/framework" "claude" "claude" "codex" "codex" "claude" "qwen" false true.
Definition args : list string := ["ops"; "--request-file"; "/logs/agents/ops/request.json"; "--reviewer"; "ops-reviewer-1"].
Definition start : Bridge :=
  mkBridge (mkHost (mkWorld (<["/state/subagents/ops/meta.env" := unlines ["role=ops"]]>
                               (<["/logs/agents/ops/request.json" := "request"]> OpsWitness.files0)) [] 5 []) (attrs OpsWitness.h0) [])
    [] None ∅ (mkProcess 0 0 0 0 0 0 [] false []) [].

Definition ran : result string unit * Bridge := reviewed_ops_cycle cfg args start.
Example cycle_runs :
  ran.1 = Ok tt /\ List.filter executes (bhistory ran.2)
                   = [Child ["reviewed-ops-exec"; "--request-file"; "/state/request.json"; "--reviewer"; "ops-reviewer-1"]].
Proof. vm_compute. split; reflexivity. Qed.

Lemma no_execution_filter es : Forall no_execution es -> List.filter executes es = [].
Proof. induction 1 as [|e es He _ IH]; [done|]. cbn. unfold no_execution in He. by rewrite He. Qed.

End CycleWitness.
