(* ===== verification/Orchestrator.v ===== *)
(** * Orchestrator: the [orchestrator] command of [runtime/src/runtime.rs]

    The orchestrator asks for mutation authority or completes its workflow by one of
    the routes of [Completion]; its answer to the user is stored first. *)

From S2P Require Import Prelude Text State Json LogModel Config Execution Dag Lifecycle Workflow Completion Snapshot Findings Policy OpsBytes OpsRequest OpsHost Ops Launch Shell Agent Reports Session.

Definition ORCHESTRATOR_USAGE : string :=
  join newline
    ["Usage:";
     "  multiagent orchestrator request-mutation [--path REPO_PATH ...] [--reviewed-ops]";
     "  multiagent orchestrator complete";
     "  multiagent orchestrator complete --auto --result-file PATH";
     "  multiagent orchestrator complete --observe --result-file PATH";
     "  multiagent orchestrator complete --request-review --result-file PATH [--path REPO_PATH ...] [--reviewed-ops]";
     "  multiagent orchestrator complete --direct-response --result-file PATH";
     "  multiagent orchestrator complete --clarification --result-file PATH";
     "  multiagent orchestrator complete --auto-clarification --result-file PATH";
     "  multiagent orchestrator complete --read-only --result-file PATH [--reviewer NAME]";
     "  multiagent orchestrator complete --human-review --result-file PATH --reviewer NAME";
     "  multiagent orchestrator complete --external-only --result-file PATH"; "";
     "Each user session starts with a read-only Execution. The orchestrator may request exact source paths and/or reviewed-ops from the Supervisor without starting another session. External observe sessions must request human review instead."].

(** The loop over the options of a mutation or review request. *)
Fixpoint effect_options (paths : list string) (reviewed_ops : bool) (l : list string) : option (list string * bool) :=
  match l with
  | [] => if bool_decide (paths = []) && negb reviewed_ops then None else Some (paths, reviewed_ops)
  | flag :: rest =>
      if String.eqb flag "--path" then
        match rest with
        | path :: rest' => if is_empty path then None else effect_options (paths ++ [path]) reviewed_ops rest'
        | [] => None
        end
      else if String.eqb flag "--reviewed-ops" && negb reviewed_ops then effect_options paths true rest
      else None
  end.
Definition mutation_request_options (args : list string) : option (list string * bool) :=
  match args with
  | command :: ((_ :: _) as options) => if String.eqb command "request-mutation" then effect_options [] false options else None
  | _ => None
  end.
Definition request_review_options (args : list string) : option (list string * bool) :=
  match args with
  | command :: mode :: flag :: file :: ((_ :: _) as options) =>
      if String.eqb command "complete" && String.eqb mode "--request-review" && String.eqb flag "--result-file" && negb (is_empty file)
      then effect_options [] false options
      else None
  | _ => None
  end.

Inductive CompletionRoute : Type :=
| RouteSource
| RouteDirect (path : string)
| RouteObserve (path : string)
| RouteRequestReview (path : string) (paths : list string) (reviewed_ops : bool)
| RouteClarification (path : string)
| RouteAutoClarification (path : string)
| RouteReadOnly (path : string) (reviewer : option string)
| RouteHumanReview (path reviewer : string)
| RouteExternal (path : string).

Definition result_file (r : CompletionRoute) : option string :=
  match r with
  | RouteSource => None
  | RouteDirect path | RouteObserve path | RouteRequestReview path _ _ | RouteClarification path | RouteAutoClarification path
  | RouteReadOnly path _ | RouteHumanReview path _ | RouteExternal path => Some path
  end.

Definition MAX_RESULT_BYTES : Z := 6000.
Definition is_bounded_clarification (result_ : string) : bool :=
  let count := question_marks result_ in
  negb (is_empty (trim result_)) && (len result_ <=? 2000) && ((1 <=? count)%nat && (count <=? 3)%nat)
  && ends_with_mark (question_tail result_).

Section Orchestrator.
Context `{Platform} `{Git} `{JsonCodec} `{JsonPretty} `{Resolver} `{Environment} `{Externals} `{Processes} `{Clock}.

(** The options with a result file and nothing else: [complete MODE --result-file PATH]. *)
Definition simple_route (mode path : string) : IO CompletionRoute :=
  if String.eqb mode "--external-only" then ret (RouteExternal path)
  else if String.eqb mode "--auto" then
    let! execution := configured in
    ret (if is_read_only execution then RouteObserve path else RouteAutoClarification path)
  else if String.eqb mode "--observe" then ret (RouteObserve path)
  else if String.eqb mode "--direct-response" then ret (RouteDirect path)
  else if String.eqb mode "--clarification" then ret (RouteClarification path)
  else if String.eqb mode "--auto-clarification" then ret (RouteAutoClarification path)
  else if String.eqb mode "--read-only" then ret (RouteReadOnly path None)
  else fail "unknown command: complete".
Definition reviewer_route (mode path reviewer : string) : IO CompletionRoute :=
  if String.eqb mode "--read-only" then ret (RouteReadOnly path (Some reviewer))
  else if String.eqb mode "--human-review" then ret (RouteHumanReview path reviewer)
  else fail "unknown command: complete".
Definition completion_route (args : list string) : IO CompletionRoute :=
  let unknown := fail ("unknown command: " +:+ unwrap_or (head args) "") in
  if negb (bool_decide (head args = Some "complete")) then unknown
  else
    match request_review_options args with
    | Some (paths, reviewed_ops) => ret (RouteRequestReview (unwrap_or (args !! 3%nat) "") paths reviewed_ops)
    | None =>
        match tail args with
        | [] => ret RouteSource
        | [mode; flag; path] => if String.eqb flag "--result-file" then simple_route mode path else unknown
        | [mode; flag; path; flag'; reviewer] =>
            if String.eqb flag "--result-file" && String.eqb flag' "--reviewer" then reviewer_route mode path reviewer else unknown
        | _ => unknown
        end
    end.

Definition validated_orchestrator_result (path : string) : IO string :=
  let! state := lift state_dir in
  let! fs := get_files in
  let! canonical_state := lift (ok_or (resolve fs state) (io_error "canonicalize state directory")) in
  let! candidate := lift (ok_or (resolve fs path) (io_error "canonicalize orchestrator result")) in
  let! _ := check (inside candidate canonical_state && is_some (fs !! candidate))
              "orchestrator result file must be a regular file under MULTIAGENT_STATE_DIR" in
  let! bytes := lift (ok_or (fs !! candidate) (io_error "read orchestrator result")) in
  let! _ := check (negb (is_empty bytes || (MAX_RESULT_BYTES <? len bytes)))
              "orchestrator result must contain 1 to 6000 UTF-8 bytes" in
  let! text := lift (ok_or (from_utf8 bytes) "orchestrator result must contain valid UTF-8") in
  let! _ := check (negb (is_empty (trim text))) "orchestrator result must not be blank" in
  ret (trim text).
Definition persist_orchestrator_result (path : string) : IO unit :=
  let! text := validated_orchestrator_result path in
  let! state := lift state_dir in
  fun w => let '(r, w') := atomic_write (path_join state "orchestrator-result.md") (text +:+ newline) w in
           (map_err (fun error => "orchestrator result: " +:+ error) r, w').
Definition validate_bounded_clarification (path : string) : IO unit :=
  let! text := validated_orchestrator_result path in
  check (is_bounded_clarification text) "automatic clarification completion requires one bounded question".

(** The completion of a route. *)
Definition complete_route (workflow_id : string) (r : CompletionRoute) : IO string :=
  match r with
  | RouteSource => supervisor_complete workflow_id
  | RouteDirect _ | RouteClarification _ | RouteAutoClarification _ => supervisor_complete_direct workflow_id
  | RouteObserve _ => supervisor_complete_observe workflow_id
  | RouteRequestReview _ paths reviewed_ops => supervisor_request_review workflow_id paths reviewed_ops
  | RouteReadOnly _ reviewer => supervisor_complete_read_only workflow_id reviewer
  | RouteHumanReview _ reviewer => supervisor_complete_human_review workflow_id reviewer
  | RouteExternal _ => supervisor_complete_external workflow_id
  end.

(** What is checked and stored before the completion; [false]: an automatic
    clarification that is not a question is left alone. *)
Definition prepare_route (r : CompletionRoute) : IO bool :=
  let! go_on :=
    (match r with
     | RouteClarification path | RouteRequestReview path _ _ => let! _ := validate_bounded_clarification path in ret true
     | RouteAutoClarification path => let! text := validated_orchestrator_result path in ret (is_bounded_clarification text)
     | _ => ret true
     end) in
  if go_on then
    let! _ := (match result_file r with Some path => persist_orchestrator_result path | None => ret tt end) in ret true
  else ret false.

Definition finish_route (r : CompletionRoute) : SIO unit :=
  if lifecycle_enforced then
    let$ workflow_id := slift (ok_or (env_nonempty "MULTIAGENT_WORKFLOW_ID") "lifecycle enforcement requires MULTIAGENT_WORKFLOW_ID") in
    let$ diff := sio (complete_route workflow_id r) in
    print_text ("workflow completed" +:+ tabs +:+ workflow_id +:+ tabs +:+ diff +:+ tabs +:+ "authority=supervisor")
  else run_self_owned ["subagent"; "gate-check"].

Definition orchestrator (args : list string) : SIO Z :=
  if bool_decide (args = []) || existsb (fun arg => mem arg ["-h"; "--help"]) args then
    let$ _ := print_text ORCHESTRATOR_USAGE in sret 0
  else
    match mutation_request_options args with
    | Some (paths, reviewed_ops) =>
        let$ execution := sio (request_mutation paths reviewed_ops) in
        let$ _ := print_text ("execution advanced" +:+ tabs +:+ "ordinal=" +:+ u64_to_string (ordinal execution) +:+ tabs
                              +:+ "effects=bounded" +:+ tabs +:+ "authority=supervisor") in
        sret 0
    | None =>
        let$ route := sio (completion_route args) in
        let$ go_on := sio (prepare_route route) in
        if negb go_on then sret 0
        else
          let$ _ := finish_route route in
          let$ _ := print_text ("run completed" +:+ tabs
                                +:+ unwrap_or (or_else (env_nonempty "MULTIAGENT_RUN_ID") (env_nonempty "MULTIAGENT_WORKFLOW_ID")) "unknown") in
          sret 0
    end.
End Orchestrator.
