(* ===== verification/OrchestratorProps.v ===== *)
(** * OrchestratorProps: the command of the orchestrator

    What the authority supervisor admits is what the command understands, and the
    command changes lifecycles only by the completions of [WorkflowRuns]: its runs are
    covered by the invariants of [WorkflowProps]. *)

From S2P Require Import Prelude Text State Json LogModel Instances Config Execution ExecutionProps Authority Dag Lifecycle Workflow Completion LifecycleFacts LifecycleGates WorkflowFacts CompletionFacts WorkflowRuns WorkflowProps Snapshot Findings Policy OpsBytes OpsRequest OpsHost Ops Launch Shell Agent Reports Session SessionFacts Orchestrator.

(** ** Agreement with the authority supervisor *)

(** A string that differs from a literal pattern, character by character. *)
Ltac literals :=
  repeat match goal with
  | |- context [match ?x with _ => _ end] => is_var x; destruct x; try reflexivity
  | |- context [if ?x then _ else _] => is_var x; destruct x; try reflexivity
  end; try congruence.

Lemma request_options_cons has_path reviewed flag rest :
  request_options has_path reviewed (flag :: rest)
  = if String.eqb flag "--path" then
      match rest with value :: rest' => if is_empty value then false else request_options true reviewed rest' | [] => false end
    else if String.eqb flag "--reviewed-ops" then if reviewed then false else request_options has_path true rest
    else false.
Proof.
  destruct (String.eqb_spec flag "--path") as [->|N]; [by destruct rest|].
  destruct (String.eqb_spec flag "--reviewed-ops") as [->|M]; [done|].
  cbn [request_options]. literals.
Qed.

Lemma effect_options_agree l : forall paths reviewed,
  request_options (negb (bool_decide (paths = []))) reviewed l = is_some (effect_options paths reviewed l).
Proof.
  induction l as [l IH] using (induction_ltof1 _ (@length string)). unfold ltof in IH. intros paths reviewed.
  destruct l as [|flag rest]; [by destruct paths, reviewed|]. rewrite request_options_cons. cbn [effect_options].
  destruct (String.eqb flag "--path").
  - destruct rest as [|path rest]; [done|]. destruct (is_empty path); [done|]. rewrite <- IH by (cbn; lia).
    rewrite bool_decide_eq_false_2; [done|]. by destruct paths.
  - destruct (String.eqb flag "--reviewed-ops"); [|done]. destruct reviewed; [done|]. cbn [andb negb]. by rewrite <- IH by (cbn; lia).
Qed.

Lemma mutation_head command options :
  valid_mutation_request_args (command :: options)
  = String.eqb command "request-mutation" && match options with [] => false | _ => request_options false false options end.
Proof.
  destruct (String.eqb_spec command "request-mutation") as [->|N]; [by destruct options|].
  unfold valid_mutation_request_args. literals.
Qed.

Lemma review_head command mode flag file options :
  valid_request_review_args (command :: mode :: flag :: file :: options)
  = String.eqb mode "--request-review" && String.eqb flag "--result-file" && negb (is_empty file)
    && match options with [] => false | _ => request_options false false options end.
Proof.
  destruct (String.eqb_spec mode "--request-review") as [->|N]; [|unfold valid_request_review_args; literals].
  destruct (String.eqb_spec flag "--result-file") as [->|M]; [|unfold valid_request_review_args; literals].
  destruct options; [by rewrite andb_false_r|]. cbn. by destruct (is_empty file).
Qed.

(** The authority supervisor admits a mutation request, and a completion that asks
    for a review, exactly when the command of the orchestrator understands it as one:
    nothing is admitted that is then read as another request. *)
Theorem requests_agreed args :
  valid_mutation_request_args args = is_some (mutation_request_options args)
  /\ (head args = Some "complete" -> valid_request_review_args args = is_some (request_review_options args)).
Proof.
  split.
  - destruct args as [|command options]; [done|]. rewrite mutation_head. unfold mutation_request_options.
    destruct options as [|o options]; [by rewrite andb_false_r|].
    destruct (String.eqb command "request-mutation"); [|done]. exact (effect_options_agree (o :: options) [] false).
  - intros Hh. destruct args as [|command [|mode [|flag [|file options]]]]; try done.
    + unfold valid_request_review_args. literals.
    + unfold valid_request_review_args. literals.
    + injection Hh as ->. rewrite review_head. unfold request_review_options. cbn [String.eqb].
      destruct options as [|o options]; [by rewrite andb_false_r|].
      rewrite String.eqb_refl. destruct (String.eqb mode "--request-review"), (String.eqb flag "--result-file"), (is_empty file); try done.
      exact (effect_options_agree (o :: options) [] false).
Qed.

(** ** The lifecycle *)

Section Steps.
Context `{Platform} `{Git} `{JsonCodec} `{JsonPretty} `{Resolver} `{Environment} `{Externals} `{Processes} `{Clock}.
Context (dir : string) (Hdir : state_dir = Ok dir).

(** Lifecycles change by steps of [WorkflowRuns]. *)
Definition moves {A} (m : IO A) : Prop := forall w, rtc (lifecycle_step dir) (files w) (files (m w).2).
(** The same in a session, without a call. *)
Definition steps {A} (m : SIO A) : Prop :=
  forall s, rtc (lifecycle_step dir) (files (sworld s)) (files (sworld (m s).2)) /\ history (m s).2 = history s.

Lemma moves_reader {A} (m : IO A) : reader m -> moves m.
Proof. intros Hm w. by rewrite Hm. Qed.
Lemma moves_bind {A B} (m : IO A) (k : A -> IO B) : moves m -> (forall a, moves (k a)) -> moves (bind m k).
Proof.
  intros Hm Hk w. unfold bind. specialize (Hm w). destruct (m w) as [[a|e] w1]; cbn in *; [|done]. etransitivity; [exact Hm|apply Hk].
Qed.
Lemma moves_known {A B} (a : A) (k : A -> IO B) : moves (k a) -> moves (bind (lift (Ok a)) k).
Proof. intros Hk w. apply Hk. Qed.
(** A file of the state directory beside the workflows. *)
Lemma moves_put name text e : starts_with "workflows/" name = false -> moves (put_file (path_join dir name) text e).
Proof.
  intros Hn w. unfold put_file. destruct (faults w) as [|[] fl]; cbn; try done;
    (apply rtc_once, step_other; intros id f Hid; apply lookup_insert_ne; intros E; unfold lfile, path_join in E;
     rewrite !str_app_assoc in E; do 2 apply str_app_inj_l in E; subst name; by cbn in Hn).
Qed.
Lemma moves_op {A} (m : IO A) op : op_clean op = true -> run_op op = (let! _ := m in ret tt) -> moves m.
Proof.
  intros Hc E w. apply rtc_once. destruct (run_op op w) as [r w'] eqn:R.
  replace (m w).2 with w'; [by apply (step_op dir op w r w')|]. rewrite E in R. unfold bind in R. destruct (m w) as [[a|e] w1]; by injection R as _ <-.
Qed.

Lemma steps_bind {A B} (m : SIO A) (k : A -> SIO B) : steps m -> (forall a, steps (k a)) -> steps (sbind m k).
Proof.
  intros Hm Hk s. unfold sbind. destruct (Hm s) as [Hf Hh]. destruct (m s) as [[a|e] s1]; cbn in *; [|done].
  destruct (Hk a s1) as [Hf' Hh']. split; [by etransitivity|congruence].
Qed.
Lemma steps_sio {A} (m : IO A) : moves m -> steps (sio m).
Proof. intros Hm s. unfold sio. specialize (Hm (sworld s)). by destruct (m (sworld s)). Qed.
Lemma steps_print t : steps (print_text t).
Proof. done. Qed.
Lemma steps_ret {A} (a : A) : steps (sret a).
Proof. done. Qed.
Lemma steps_lift {A} (r : result string A) : steps (slift r).
Proof. done. Qed.

Lemma moves_complete id r : moves (complete_route id r).
Proof.
  destruct r as [|path|path|path paths reviewed|path|path|path reviewer|path reviewer|path].
  - by apply (moves_op _ (Complete id)).
  - by apply (moves_op _ (CompleteDirect id)).
  - by apply (moves_op _ (CompleteObserve id)).
  - by apply (moves_op _ (RequestHumanReview id paths reviewed)).
  - by apply (moves_op _ (CompleteDirect id)).
  - by apply (moves_op _ (CompleteDirect id)).
  - by apply (moves_op _ (CompleteReadOnly id reviewer)).
  - by apply (moves_op _ (CompleteHumanReview id reviewer)).
  - by apply (moves_op _ (CompleteExternal id)).
Qed.

Lemma reader_validated path : reader (validated_orchestrator_result path).
Proof. unfold validated_orchestrator_result. readers. Qed.
Lemma moves_persist path : moves (persist_orchestrator_result path).
Proof.
  unfold persist_orchestrator_result. apply moves_bind; [apply moves_reader, reader_validated|]. intros text. rewrite Hdir.
  intros w. pose proof (moves_put "orchestrator-result.md" (text +:+ newline) ("publish state " +:+ path_join dir "orchestrator-result.md" +:+ ": " +:+ os_error) eq_refl w) as Hp.
  unfold bind, lift, atomic_write. by destruct (put_file _ _ _ w).
Qed.
Lemma moves_prepare r : moves (prepare_route r).
Proof.
  assert (Hq : forall path, reader (validate_bounded_clarification path)).
  { intros path. unfold validate_bounded_clarification. pose proof reader_validated. readers. }
  unfold prepare_route. apply moves_bind.
  - apply moves_reader. pose proof reader_validated. destruct r; readers.
  - intros go_on. destruct go_on; [|by apply moves_reader, reader_ret]. apply moves_bind; [|intros; by apply moves_reader, reader_ret].
    destruct (result_file r); [apply moves_persist|by apply moves_reader, reader_ret].
Qed.
Lemma reader_route args : reader (completion_route args).
Proof.
  unfold completion_route, simple_route, reviewer_route. pose proof reader_configured.
  repeat case_match; readers.
Qed.
Lemma moves_request paths reviewed : moves (request_mutation paths reviewed).
Proof.
  unfold request_mutation. pose proof reader_configured as Hc. rewrite Hdir.
  do 5 (apply moves_bind; [apply moves_reader; solve [readers | exact Hc]|intros ?]).
  apply moves_known, moves_bind; [by apply moves_put|]. intros ?. by apply moves_reader.
Qed.

End Steps.

(** ** A concrete completion *)
Module OrchestratorWitness.
Definition vars (k : string) : option string :=
  snd <$> List.find (fun kv => String.eqb kv.1 k)
    [("MULTIAGENT_STATE_DIR", "/state"); ("MULTIAGENT_WORKFLOW_ID", "w1"); ("MULTIAGENT_LIFECYCLE_ENFORCEMENT", "1")].
#[local] Instance platform : Platform := toy_platform vars 0.
#[local] Instance no_git : Git := fun _ _ => Ok (mkOutput (Some 0) "" "").
#[local] Instance resolver : Resolver := fun _ p => if is_absolute p then Some p else None.
#[local] Instance environment : Environment := {|
  canonicalize fs p := if starts_with "/" p && bool_decide (is_Some (fs !! p)) then Some p else None;
  completion_gate_check := ret tt; external_completion_gate_check := ret tt; Workflow.canonical_diff _ _ _ := Ok ""
|}.
#[local] Instance outside : Externals := fun _ _ fs => (Ok (mkOutput (Some 0) "" ""), fs).
#[local] Instance processes : Processes := {|
  is_executable _ _ := true; current_exe := Ok "/bin/multiagent"; build_root := "/framework"; alive _ _ := false
|}.
#[local] Instance clock : Clock := {|
  deadline_after n _ := Some (Z.of_nat n); instant_at n := Z.of_nat n; f64_display _ := ""; patience := 1%nat
|}.

Definition disk : gmap string string := list_to_map [("/state/answer.md", "Which region?")].
Definition start : Session :=
  mkSession (run_op (Initialize ["w1"]) (mkWorld disk [] 0 [])).2 [] None.
Definition answer : list string := ["complete"; "--direct-response"; "--result-file"; "/state/answer.md"].
Definition ran : result string Z * Session := orchestrator answer start.

Example answer_stored :
  is_ok ran.1 = true /\ files (sworld ran.2) !! "/state/orchestrator-result.md" = Some ("Which region?" +:+ newline)
  /\ (option_map (fun t => state_value (parse_env t) "phase") (files (sworld ran.2) !! lfile "/state" "w1" "lifecycle.env")) = Some "complete".
Proof. vm_compute. repeat split. Qed.
(** The supervisor admits a completion without a result file that the command does
    not know. *)
Example external_without_result :
  valid_complete_args ["complete"; "--external-only"] = true
  /\ (orchestrator ["complete"; "--external-only"] start).1 = Err "unknown command: complete".
Proof. vm_compute. split; reflexivity. Qed.

Lemma requests_agreed_witness : valid_request_review_args answer = is_some (request_review_options answer).
Proof. exact (proj2 (requests_agreed answer) eq_refl). Defined.

End OrchestratorWitness.
